(* ===== verification/_CoqProject ===== *)
-Q . S2P
Prelude.v
Geometry.v
Commands.v
Bezier.v
Graphics.v
Device.v
DeviceSpec.v
Machine.v
Ownership.v
StateEquiv.v
Faults.v
Typing.v
Liveness.v
View.v
Display.v
SystemLiveness.v
Plotter.v
Refinement.v
SpecPlotter.v
Interface.v
Files.v
DisplayList.v
Approximation.v
Rounding.v
Scenarios.v
SystemScenarios.v
