(* ===== verification/Prelude.v ===== *)
(** * Verification of libcutter's simulated cutter, [Device::CV_sim]

    The program ([src/lib/device_cv_sim.cpp]) is a virtual xy cutter.  It keeps
    a tool position, a tool width and a grey-scale canvas; [start]/[stop] open
    and close a session, [move_to]/[cut_to]/[curve_to] move the tool and draw
    on the canvas through OpenCV, [get_image] hands out an annotated copy of
    the canvas.

    ** Files

    - [Prelude] (this file): what the components share.  Exact rational
      arithmetic as the model of C [double]; the C++ conversion of a floating
      value to [int] ([Qtrunc], [double_to_int]) with its undefined case; the
      outcome type and the state-and-fault monad [M] in which the methods are
      written; the counted [for] loop; triples ([triple], with total
      correctness [hoare] and partial correctness [returns] as instances)
      and their rules; the tactics and hint databases of the development.
    - [Geometry]: the point type [xy], its equivalence, the resolution
      constants and [convert_to_internal] / [get_dimensions].
    - [Commands]: the public operations as data ([command]), one
      constructor per public method.
    - [Bezier]: the cubic of [curve_to] (its coefficients and its evaluation
      as the code writes them), its equivalence with the Bernstein form and
      with de Casteljau's construction, its end points and its bounding box.
    - [Graphics]: the part of OpenCV the device calls, as an interface (class
      [Graphics]) with its laws, the image heap built on it (allocation,
      cloning, release, saving: [cvCreateImage], [cvCloneImage],
      [cvReleaseImage], [cvSaveImage], [cvLine], [cvCircle] over [M Memory])
      and the display-list instance [DL], in which an image is the list of
      the primitives drawn on it.
    - [Device]: the class [CV_sim]: its fields, two constructors and every
      method, written in [M] over the device and the image heap.
    - [DeviceSpec]: the reference canvas operations ([cut_line], [cut_path],
      [marker], [blank_canvas]); each method as a function of the state
      ([cut_to_result], [stop_result], ... with [cut_to_run], [stop_run],
      ...: the value and state returned or the fault raised, by cases on
      the conditions of the body); one equation per method and branch,
      failures included: [cut_to_draws], [cut_to_undefined], [stop_saves],
      [stop_short_name], [start_allocates], [set_tool_width_cases],
      [get_image_snapshot], ...; [curve_to] as the cut of its 20-point
      polyline ([curve_to_draws]), what it leaves in the object
      ([curve_to_this]), its end point and its page bound.
    - [Machine]: the device as a transition system over client commands
      ([exec], [step], [reachable]), its invariant ([invariant]:
      a running device has a canvas, the canvas is allocated, 600 x 600 and
      has defined data, the tool width is at least 1, every saved file is a
      full canvas under the device's file name), a triple per method, and
      the theorems proved by induction on reachable states
      ([reachable_invariant], [reachable_memory_safe], ...).
    - [Ownership]: whole sessions ([run], a list of commands with their
      responses) and the images of the heap: [client_images] is the heap
      without the canvas.  No method touches an image that is not the
      canvas; snapshots are new, pairwise distinct and stay as returned
      ([snapshot_isolated], [session_snapshots_distinct]); at the end of a
      session the heap holds the snapshots and the canvas, nothing else
      ([session_images]).
    - [StateEquiv]: objects, states, commands and outcomes up to the
      value of their rationals ([≡]), and every method, [exec] and [run]
      as a morphism ([Proper] instances): a session depends on its
      coordinates only through their value ([run_respects]).
    - [Faults]: the domain of every command ([defined]: the conversions
      to [int] where the device draws, a canvas for a snapshot) and the
      fault outside it ([fault_of]); a command returns exactly on its
      domain ([exec_faults]) and a session faults at its first command
      that is not defined ([run_faults]).
    - [Typing]: the type of an image (size, depth, channels, [image_type])
      and its preservation: every image of a session has the type [start]
      gives the canvas ([session_typed]).
    - [Liveness]: the protocol of a client ([protocol]: motions on the
      page, a tool no wider than the page, snapshots between [start] and
      [stop]), progress from every state the protocol reaches
      ([exec_ready], [protocol_session_returns]) and, with the inductive
      [eventually] over the steps of the client ([drive]), the theorem that
      a session containing a [stop] eventually persists the canvas
      ([session_eventually_persisted]).
    - [View]: what the device reads of its state ([view]: the members
      other than the pointer, the image behind the pointer, the images
      saved), and the unwinding theorem: states with the same view are
      indistinguishable by every command ([exec_unwinds]).
    - [Display]: the device composed with the consumer of its snapshots
      ([system], [event], [sys_exec]): calls of the methods interleaved in
      any order with the display and the release of held images.  The
      invariant of the system with the exact account of the heap
      ([system_accounting]), memory safety of every interleaving
      ([system_memory_safe]), non-interference of the consumer
      ([display_noninterference], by purging its events) and the absence
      of leaks ([system_no_leak]).  The class has no destructor: what is
      left without owner when the object is destroyed ([leaked]) is the
      canvas, if there is one ([leaked_canvas], [running_device_leaks]).
    - [SystemLiveness]: the client and the consumer under every schedule
      ([schedule], with a bound on the consumer's events as the fairness
      assumption): a session of the protocol that contains a [stop]
      eventually persists the canvas on every path
      ([system_eventually_persisted]).
    - [Plotter]: the abstract plotter of the specification: a record
      ([plotter]: flag, raster position, width, list of strokes, target,
      persisted canvases) and one total function per command ([p_start],
      [p_stop], [p_cut_to], [p_curve_to] on the Bernstein form, ...), the
      snapshot being defined only with a canvas ([p_exec], [p_run]).
    - [Refinement]: the relation [refines] between the plotter and the
      device (the image behind the canvas pointer is [render] of the
      strokes), the simulation of every method ([exec_simulates]) and of
      sessions ([run_refines]), and the converse: the device returns
      whenever the plotter's session stays in the range of [int]
      ([p_defined], [run_defined]).  The lifting of a simulation of
      commands to sessions is proved once, for any abstract device
      ([run_simulated]).
    - [SpecPlotter]: the plotter as the specification words it ([sp_stop]
      gives up the canvas whatever the target, [sp_width] is the rounded
      width); the device implements it when its target is valid
      ([run_refines_spec]) and departs from it observably when it is not
      ([short_name_diverges]).
    - [Interface]: what the base class promises to the software that
      drives a device, as the class [Cutter] (the orders that answer a
      flag, the run flag and the raster position, with one law per kind of
      order); the device ([device_cutter]) and the plotter
      ([plotter_cutter]) are instances.  Dead reckoning ([predict],
      [predict_all]) is verified against the class ([predict_sound]) and
      gives the answers and the final position of a session of the device
      ([run_predicted]).
    - [Files]: the persistence layer: the record of the calls of
      [cvSaveImage] read as a file system ([files]), given the targets
      that can be written.  [stop] on a target that cannot be written
      ([stop_unwritable]); the file a session leaves
      ([session_file_last]).
    - [DisplayList]: the device over the instance [DL]: the canvas of a
      session is the sequence of its segments, chained end to end
      ([dl_curve_to_ops], [dl_get_image_ops]), every primitive of a
      session has arguments OpenCV accepts ([dl_session_primitives]), and
      the canvas is persistent: until [stop] saves it, it only grows, and
      by cuts only ([extends], [dl_canvas_persists]).
    - [Approximation]: how far the twenty lines of [curve_to] are from
      the curve.  The remainder of a chord of a cubic in closed form
      ([chord_remainder]) and its bound by the second differences of the
      control points ([chord_error], [bend]); the errors of the conversion
      and of the truncation to pixels ([pixel_within]); together, on the
      display-list instance, every point of the Bezier curve of control
      points on the page lies within 13/4 raster units, on each axis, of
      the line drawn for its section ([curve_to_error]).
    - [Scenarios]: concrete sessions evaluated by the kernel, and the
      theorems on the methods, the machine, ownership and refinement
      applied to them.
    - [SystemScenarios]: the same sessions with their types, their file, a
      client of the protocol and an interleaving with a consumer, and the
      theorems of [StateEquiv], [Faults], [Typing], [Files], [Liveness], [View],
      [Display], [SystemLiveness], [SpecPlotter], [Interface] and
      [Approximation] applied to them.

    ** How the theorems are organised

    Each method is first shown equal to its result function in [DeviceSpec]
    ([cut_to_run], ...), by evaluation of the monadic definition; the branch
    equations are its instances, and the later files reason on the result
    functions (tactics [branch] and [branches]).  A property preserved by
    [move_to] and [cut_to] is preserved by [curve_to] ([curve_to_inv], by
    the loop rule of [Prelude]), one preserved by the methods is preserved
    by every command ([exec_inv]) and by every session ([run_inv]).
    [Machine] gives the triples over the invariant; the safety theorems
    follow by rule induction on [rtc step] ([reachable_ind]).
    [Ownership] and [Refinement] go from one command ([exec_client],
    [exec_simulates], [exec_total]) to sessions by induction on the list of
    commands ([run_ind]).  [Bezier] is independent of the device and is used
    by [DeviceSpec] for [curve_to] and by [Refinement] to identify the
    points the code computes with the Bernstein form of the plotter.
    [StateEquiv] proves each method a morphism from its result function
    (tactic [morphism]) and lifts it through [M_bind_equiv].
    [Typing], [Liveness] and [View] each state one predicate or relation
    on states, prove it of every method from the result functions (tactics
    [typed], [ready], [unwind], all built on [returned] of [DeviceSpec]) and
    lift it with [exec_inv] and [run_inv].  [Display] reduces every
    question about the composed system to the device: a call is a command
    of [Machine], an event of the consumer changes no view, and the
    invariant of the system is proved by rule induction on its steps
    ([sys_reachable_ind]).  [Interface] proves the laws of [Cutter] for
    the device from the result functions and from [cut_to_this] and
    [curve_to_this]; its client theorem is proved once, for every
    instance.  [Approximation] is numerical analysis on [Q]: the bound on
    one axis of one section ([axis_error]) is the sum of the chord error
    and the truncation error, and [curve_op_error] places the sections on
    the lines of the display list ([curve_ops_lookup]); its arithmetic is
    done by [lra] on facts about products that are stated as lemmas
    ([parabola_bound], [blend_bound]).

    ** Modelling choices

    - [double] and [float] are modelled by [Q] with exact arithmetic: rounding
      of floating-point operations is not modelled, and the theorems that
      compare computed coordinates do so up to [Qeq].  Every function of the
      development respects [Qeq] ([Proper] instances), and so does the
      device as a whole ([StateEquiv]): images hold integers only, so two
      sessions with coordinates of the same value draw the same images.
    - A conversion from [double] to [int] truncates toward zero and is
      undefined when the truncated value is not a 32-bit [int]; the model
      returns [Fault UndefinedConversion] there, so theorems that say a method
      returns are proved under the range conditions that make it defined.
    - [IplImage *] is a location of a heap [gmap loc image]; [NULL] is [None].
      [get_image] allocates a new location, so aliasing between the device's
      canvas and the snapshots it has handed out is explicit.
    - OpenCV is outside the repository: its operations are the fields of the
      class [Graphics], with the laws the device relies on.  The device is
      defined and verified against the class.
    - The loop of [curve_to] runs a constant number of iterations
      ([NUM_SECTIONS_PER_CURVE] = 20); it is a structural recursion on the
      iteration count, so no fuel is needed anywhere.
    - The class declaration is not in the sources.  The member [tool_width]
      is taken to be a floating value (the code casts it with [(int)] where
      it draws), so [set_tool_width] stores the scaled width unrounded and
      the truncation happens at each [cvLine].
    - [sqrt (DPI_X * DPI_Y)] is exact for the constants of the code
      (the square root of 10000); [Qsqrt_int] is the integer square root.
    - C++ leaves the order in which the arguments of a call are evaluated
      open.  The model converts the arguments of [cvLine] from left to
      right; each conversion either yields its value or is undefined and
      none changes the state, so the order shows in no result.
    - The plotter of [Plotter] follows the code at the two points where the
      code and the specification differ: [p_stop] keeps the canvas when the
      target is not valid, and [p_set_tool_width] keeps the half it adds
      instead of rounding.  The thickness of a stroke is the truncated
      width in both.  [SpecPlotter] has the operations as the specification
      words them and relates the two plotters ([rounds]: the same fields
      but for the fraction of the width).
    - [cvSaveImage] is modelled by the record of its calls ([saved]); the
      code discards its result, so whether a call wrote a file cannot
      change what the device does.  [Files] interprets the record for a
      given set of writable targets.
    - The consumer of snapshots is not in the sources.  [Display] gives it
      the operations the C API offers on an image it owns (to read it, to
      release it) and lets it name only pointers it was given; its events
      and the calls of the device are interleaved one at a time, as the
      specification requires of the users of a device that is not
      thread-safe.
    - The error bound of [Approximation] is for control points on the
      page: there each second difference of the control points is at most
      12 inches, so a chord of a twentieth of the parameter leaves the
      curve by at most (3/4) (1/20)^2 * 12 inches, 9/4 raster units, and
      the truncation of the two end points of a line moves it by less than
      one more.  The bound is per axis and compares points at the same
      parameter; it is not the least one.
    - The bounds of the protocol in [Liveness] are the page ([0, 6] on both
      axes, the raster [0, 600]) and a tool of at most 6 inches (a stored
      width of at most 601): they keep every conversion to [int] far from
      its undefined range, including the marker of [get_image], which
      reaches 5 units beyond the raster.  No fuel is used: [eventually] is
      proved by induction on the commands the client has left.

    ** Not modelled

    Floating-point rounding; the pixels OpenCV writes (anti-aliasing, line
    thickness), left to instances of [Graphics]; failure of [cvCreateImage]
    (the code does not test its result); the argument checks inside OpenCV
    other than the null image of [cvCloneImage] (an upper limit on the
    thickness of a line depends on the version of the library); the
    encoding of the saved image; the parsing of a wire protocol and the
    window system of the display, which are outside the sources; the
    declaration of the class, which is not in the sources (the account of
    what destroying the object leaves allocated assumes that it declares
    no destructor, as the source file defines none); concurrent calls
    without serialisation, which the specification excludes.

    ** Extensions the development is laid out for

    A bitmap instance of [Graphics] (pixels, clipping at the border of the
    canvas), once a definition of the pixels OpenCV writes is fixed; the
    rounding of [float] and [double], with [Q] replaced by a type of
    floating-point numbers in [Prelude]. *)

From Stdlib Require Import QArith Qround Qabs Lqa Lia ZArith.
From stdpp Require Import base decidable option list.

#[local] Open Scope Q_scope.

(** * Rationals as the model of [double] *)

#[export] Instance Qeq_decision (a b : Q) : Decision (a == b) := Qeq_dec a b.
#[export] Instance Qlt_decision (a b : Q) : Decision (a < b) :=
  Z_lt_dec (Qnum a * QDen b) (Qnum b * QDen a).
#[export] Instance Qle_decision (a b : Q) : Decision (a <= b) :=
  Z_le_dec (Qnum a * QDen b) (Qnum b * QDen a).

(** Conversion of a floating value to an integer type: C++ discards the
    fractional part (truncation toward zero). *)
Definition Qtrunc (q : Q) : Z := (Qnum q ÷ Z.pos (Qden q))%Z.

(** [sqrt] on an integer argument.  The result is exact when the argument is
    a perfect square, which is the only case the device uses. *)
Definition Qsqrt_int (n : Z) : Q := inject_Z (Z.sqrt n).

(** * The 32-bit [int] *)

Definition INT_MIN : Z := (- 2 ^ 31)%Z.
Definition INT_MAX : Z := (2 ^ 31 - 1)%Z.

Definition int_range (z : Z) : Prop := (INT_MIN <= z <= INT_MAX)%Z.

#[export] Instance int_range_decision (z : Z) : Decision (int_range z).
Proof. unfold int_range. apply _. Defined.

(** * Outcomes of running a method

    A method returns normally ([Ok]) or the execution leaves the defined
    behaviour of the program ([Fault]). *)

Inductive fault : Type :=
  | UndefinedConversion  (* a floating value converted to an [int] that cannot hold it *)
  | BadArgument          (* OpenCV raises [CV_StsBadArg], e.g. on a null image *)
  | InvalidPointer.      (* an image pointer that is not allocated is used *)

Inductive outcome (A : Type) : Type :=
  | Ok (a : A)
  | Fault (f : fault).
Arguments Ok {A} a.
Arguments Fault {A} f.

#[export] Instance fault_eq_dec : EqDecision fault.
Proof. solve_decision. Defined.

#[export] Instance outcome_eq_dec `{EqDecision A} : EqDecision (outcome A).
Proof. solve_decision. Defined.

Definition is_Ok {A} (o : outcome A) : Prop := exists a, o = Ok a.

(** [(int) q]: truncation, undefined when the result is out of range. *)
Definition double_to_int (q : Q) : outcome Z :=
  if decide (int_range (Qtrunc q)) then Ok (Qtrunc q) else Fault UndefinedConversion.

(** A floating value whose conversion to [int] is defined. *)
Definition int_convertible (q : Q) : Prop := int_range (Qtrunc q).

#[export] Instance int_convertible_decision (q : Q) : Decision (int_convertible q).
Proof. unfold int_convertible. apply _. Defined.

(** * The monad of methods

    A method reads and writes a state [St] (the object and the memory it
    points into) and either returns a value with the new state or faults. *)

Definition M (St A : Type) : Type := St -> outcome (A * St).

#[export] Instance M_ret {St} : MRet (M St) := fun A a s => Ok (a, s).

#[export] Instance M_bind {St} : MBind (M St) := fun A B f m s =>
  match m s with
  | Ok (a, s') => f a s'
  | Fault e => Fault e
  end.

#[export] Instance M_fmap {St} : FMap (M St) := fun A B f m s =>
  match m s with
  | Ok (a, s') => Ok (f a, s')
  | Fault e => Fault e
  end.

Definition mget {St} : M St St := fun s => Ok (s, s).
Definition mput {St} (s : St) : M St unit := fun _ => Ok (tt, s).
Definition mmodify {St} (f : St -> St) : M St unit := fun s => Ok (tt, f s).
Definition mthrow {St A} (e : fault) : M St A := fun _ => Fault e.

(** A computation that does not touch the state. *)
Definition mlift {St A} (o : outcome A) : M St A := fun s =>
  match o with
  | Ok a => Ok (a, s)
  | Fault e => Fault e
  end.

(** [for (int i = lo; i <= hi; ++i) body(i)], as a recursion on the number
    of iterations left. *)
Fixpoint for_count {St} (n : nat) (i : Z) (body : Z -> M St unit) : M St unit :=
  match n with
  | O => mret tt
  | S n' => body i;; for_count n' (i + 1)%Z body
  end.

Definition for_upto {St} (lo hi : Z) (body : Z -> M St unit) : M St unit :=
  for_count (Z.to_nat (hi + 1 - lo)) lo body.

(** A loop over the elements of a list, in order. *)
Fixpoint for_each {St A} (l : list A) (body : A -> M St unit) : M St unit :=
  match l with
  | [] => mret tt
  | a :: l' => body a;; for_each l' body
  end.

(** Triples.  From a state satisfying [P], the computation either returns a
    result and a state satisfying [Q], or faults with a fault in [E]. *)
Definition triple {St A} (P : St -> Prop) (m : M St A) (Q : A -> St -> Prop)
    (E : fault -> Prop) : Prop :=
  forall s, P s ->
    match m s with
    | Ok (a, s') => Q a s'
    | Fault e => E e
    end.

(** Total correctness: the computation returns, and [Q] holds. *)
Definition hoare {St A} (P : St -> Prop) (m : M St A) (Q : A -> St -> Prop) : Prop :=
  triple P m Q (fun _ => False).

(** Partial correctness: if the computation returns, [Q] holds. *)
Definition returns {St A} (P : St -> Prop) (m : M St A) (Q : A -> St -> Prop) : Prop :=
  triple P m Q (fun _ => True).

(** Unfolds the monad's operations in the goal and in a hypothesis. *)
Ltac munfold :=
  unfold mbind, M_bind, mret, M_ret, fmap, M_fmap, mget, mput, mmodify, mthrow, mlift in *.

(** Proves a decidable closed proposition by evaluating its decision. *)
Ltac by_compute := apply (bool_decide_unpack _); vm_compute; exact I.

Create HintDb dev discriminated.
Create Rewrite HintDb dev_rw.

(** * Lemmas on truncation and conversion *)

Lemma Qtrunc_nonneg_floor (q : Q) : 0 <= q -> Qtrunc q = Qfloor q.
Proof.
  destruct q as [n d]. unfold Qle, Qtrunc, Qfloor. simpl. intros H.
  apply Z.quot_div_nonneg; lia.
Qed.

Lemma Qtrunc_opp (q : Q) : Qtrunc (- q) = (- Qtrunc q)%Z.
Proof. destruct q as [n d]. unfold Qtrunc. simpl. apply Z.quot_opp_l. lia. Qed.

Lemma Qtrunc_nonpos_ceiling (q : Q) : q <= 0 -> Qtrunc q = Qceiling q.
Proof.
  intros H. unfold Qceiling. rewrite <- Qtrunc_nonneg_floor by lra.
  rewrite Qtrunc_opp. lia.
Qed.

#[export] Instance Qtrunc_proper : Proper (Qeq ==> eq) Qtrunc.
Proof.
  intros a b Hab. destruct (Qlt_le_dec a 0) as [Hneg | Hpos].
  - rewrite !Qtrunc_nonpos_ceiling by lra. now rewrite Hab.
  - rewrite !Qtrunc_nonneg_floor by lra. now rewrite Hab.
Qed.

Lemma Qtrunc_inject_Z (z : Z) : Qtrunc (inject_Z z) = z.
Proof. unfold Qtrunc. simpl. apply Z.quot_1_r. Qed.

Lemma Qtrunc_nonneg_bounds (q : Q) :
  0 <= q -> inject_Z (Qtrunc q) <= q /\ q < inject_Z (Qtrunc q + 1).
Proof.
  intros H. rewrite Qtrunc_nonneg_floor by assumption.
  split; [apply Qfloor_le | apply Qlt_floor].
Qed.

Lemma Qtrunc_nonpos_bounds (q : Q) :
  q <= 0 -> inject_Z (Qtrunc q - 1) < q /\ q <= inject_Z (Qtrunc q).
Proof.
  intros H. rewrite Qtrunc_nonpos_ceiling by assumption.
  split; [apply Qceiling_lt | apply Qle_ceiling].
Qed.

Lemma Qtrunc_mono (a b : Q) : a <= b -> (Qtrunc a <= Qtrunc b)%Z.
Proof.
  intros Hab. destruct (Qlt_le_dec a 0) as [Ha | Ha], (Qlt_le_dec b 0) as [Hb | Hb].
  - rewrite !Qtrunc_nonpos_ceiling by lra. now apply Qceiling_resp_le.
  - rewrite Qtrunc_nonpos_ceiling, Qtrunc_nonneg_floor by lra.
    transitivity 0%Z.
    + change 0%Z with (Qceiling 0). apply Qceiling_resp_le. lra.
    + change 0%Z with (Qfloor 0). now apply Qfloor_resp_le.
  - lra.
  - rewrite !Qtrunc_nonneg_floor by lra. now apply Qfloor_resp_le.
Qed.

Lemma Qtrunc_abs_le (q : Q) : inject_Z (Z.abs (Qtrunc q)) <= Qabs q.
Proof.
  destruct (Qlt_le_dec q 0) as [Hq | Hq].
  - rewrite Qabs_neg by lra. destruct (Qtrunc_nonpos_bounds q) as [_ Hb]; [lra |].
    assert (Qtrunc q <= 0)%Z.
    { change 0%Z with (Qtrunc 0). apply Qtrunc_mono. lra. }
    rewrite Z.abs_neq by assumption. rewrite inject_Z_opp. lra.
  - rewrite Qabs_pos by assumption. destruct (Qtrunc_nonneg_bounds q Hq) as [Hb _].
    assert (0 <= Qtrunc q)%Z.
    { change 0%Z with (Qtrunc 0). now apply Qtrunc_mono. }
    now rewrite Z.abs_eq.
Qed.

#[export] Instance int_convertible_proper : Proper (Qeq ==> iff) int_convertible.
Proof. intros a b Hab. unfold int_convertible. now rewrite (Qtrunc_proper a b Hab). Qed.

#[export] Instance double_to_int_proper : Proper (Qeq ==> eq) double_to_int.
Proof. intros a b Hab. unfold double_to_int. now rewrite (Qtrunc_proper a b Hab). Qed.

Lemma double_to_int_ok (q : Q) : int_convertible q -> double_to_int q = Ok (Qtrunc q).
Proof. intros H. unfold double_to_int. now rewrite decide_True. Qed.

Lemma double_to_int_fault (q : Q) :
  ~ int_convertible q -> double_to_int q = Fault UndefinedConversion.
Proof. intros H. unfold double_to_int. now rewrite decide_False. Qed.

Lemma double_to_int_inv (q : Q) (z : Z) :
  double_to_int q = Ok z -> z = Qtrunc q /\ int_range z.
Proof.
  unfold double_to_int. destruct (decide (int_range (Qtrunc q))); [| discriminate].
  intros [= <-]. split; [reflexivity | assumption].
Qed.

(** A sufficient magnitude bound: values strictly inside [(-2^31, 2^31)]. *)
Lemma int_convertible_abs (q : Q) : Qabs q <= inject_Z INT_MAX -> int_convertible q.
Proof.
  intros H. pose proof (Qtrunc_abs_le q) as Hq.
  assert (Hz : (Z.abs (Qtrunc q) <= INT_MAX)%Z) by (rewrite Zle_Qle; lra).
  unfold int_convertible, int_range, INT_MIN, INT_MAX in *. lia.
Qed.

Lemma int_convertible_between (lo hi q : Q) :
  int_convertible lo -> int_convertible hi -> lo <= q -> q <= hi -> int_convertible q.
Proof.
  unfold int_convertible, int_range. intros Hlo Hhi H1 H2.
  apply Qtrunc_mono in H1, H2. lia.
Qed.

(** * Laws of the monad and rules for triples *)

Section monad_laws.
Context {St A B C : Type}.
Implicit Types (m : M St A) (f : A -> M St B) (g : B -> M St C) (s : St).

Lemma M_bind_ret_l (a : A) f s : (mret a ≫= f) s = f a s.
Proof. reflexivity. Qed.

Lemma M_bind_ret_r m s : (m ≫= mret) s = m s.
Proof. munfold. destruct (m s) as [[a s'] | e]; reflexivity. Qed.

Lemma M_bind_assoc m f g s : ((m ≫= f) ≫= g) s = (m ≫= fun a => f a ≫= g) s.
Proof. munfold. destruct (m s) as [[a s'] | e]; reflexivity. Qed.

Lemma M_bind_ok m f s a s' : m s = Ok (a, s') -> (m ≫= f) s = f a s'.
Proof. intros H. munfold. now rewrite H. Qed.

Lemma M_bind_fault m f s e : m s = Fault e -> (m ≫= f) s = Fault e.
Proof. intros H. munfold. now rewrite H. Qed.

(** A bind returns exactly when both halves do. *)
Lemma M_bind_inv m f s b s'' :
  (m ≫= f) s = Ok (b, s'') -> exists a s', m s = Ok (a, s') /\ f a s' = Ok (b, s'').
Proof. munfold. destruct (m s) as [[a s'] | e]; [eauto | discriminate]. Qed.

(** A mapped computation returns exactly when the computation does. *)
Lemma M_fmap_inv (h : A -> B) m s b s' :
  (h <$> m) s = Ok (b, s') -> exists a, m s = Ok (a, s') /\ b = h a.
Proof.
  munfold. destruct (m s) as [[a s1] | e]; [| discriminate].
  intros [= <- <-]. eauto.
Qed.

Lemma M_fmap_ok (h : A -> B) m s a s' : m s = Ok (a, s') -> (h <$> m) s = Ok (h a, s').
Proof. intros Hm. munfold. now rewrite Hm. Qed.

Lemma M_fmap_fault (h : A -> B) m s e : m s = Fault e -> (h <$> m) s = Fault e.
Proof. intros Hm. munfold. now rewrite Hm. Qed.

End monad_laws.

Section triple_rules.
Context {St : Type}.
Implicit Types (P : St -> Prop) (E : fault -> Prop) (s : St).

Lemma triple_ret {A} P (a : A) (Q : A -> St -> Prop) E :
  (forall s, P s -> Q a s) -> triple P (mret a) Q E.
Proof. intros H s Hs. now apply H. Qed.

Lemma triple_bind {A B} P (m : M St A) (R : A -> St -> Prop)
    (f : A -> M St B) (Q : B -> St -> Prop) E :
  triple P m R E -> (forall a, triple (R a) (f a) Q E) -> triple P (m ≫= f) Q E.
Proof.
  intros Hm Hf s Hs. specialize (Hm s Hs). munfold.
  destruct (m s) as [[a s'] | e]; [exact (Hf a s' Hm) | exact Hm].
Qed.

Lemma triple_fmap {A B} P (g : A -> B) (m : M St A) (Q : B -> St -> Prop) E :
  triple P m (fun a => Q (g a)) E -> triple P (g <$> m) Q E.
Proof.
  intros Hm s Hs. specialize (Hm s Hs). munfold.
  now destruct (m s) as [[a s'] | e].
Qed.

Lemma triple_conseq {A} P P' (m : M St A) (Q Q' : A -> St -> Prop) E E' :
  triple P' m Q' E' -> (forall s, P s -> P' s) -> (forall a s, Q' a s -> Q a s) ->
  (forall e, E' e -> E e) -> triple P m Q E.
Proof.
  intros Hm HP HQ HE s Hs. specialize (Hm s (HP s Hs)).
  destruct (m s) as [[a s'] | e]; auto.
Qed.

Lemma triple_get P (Q : St -> St -> Prop) E :
  (forall s, P s -> Q s s) -> triple P mget Q E.
Proof. intros H s Hs. now apply H. Qed.

Lemma triple_put P (s0 : St) (Q : unit -> St -> Prop) E :
  (forall s, P s -> Q tt s0) -> triple P (mput s0) Q E.
Proof. intros H s Hs. exact (H s Hs). Qed.

Lemma triple_modify P (f : St -> St) (Q : unit -> St -> Prop) E :
  (forall s, P s -> Q tt (f s)) -> triple P (mmodify f) Q E.
Proof. intros H s Hs. now apply H. Qed.

Lemma triple_throw {A} P (e : fault) (Q : A -> St -> Prop) E :
  ((exists s, P s) -> E e) -> triple P (mthrow e) Q E.
Proof. intros H s Hs. apply H. now exists s. Qed.

Lemma triple_lift {A} P (o : outcome A) (Q : A -> St -> Prop) E :
  (forall s, P s -> match o with Ok a => Q a s | Fault e => E e end) ->
  triple P (mlift o) Q E.
Proof. intros H s Hs. specialize (H s Hs). unfold mlift. now destruct o. Qed.

Lemma triple_if {A} P (b : bool) (m1 m2 : M St A) (Q : A -> St -> Prop) E :
  (b = true -> triple P m1 Q E) -> (b = false -> triple P m2 Q E) ->
  triple P (if b then m1 else m2) Q E.
Proof. destruct b; auto. Qed.

(** A precondition that does not depend on the state can be assumed. *)
Lemma triple_assume {A} (F : Prop) P (m : M St A) (Q : A -> St -> Prop) E :
  (F -> triple P m Q E) -> triple (fun s => F /\ P s) m Q E.
Proof. intros H s [HF Hs]. now apply H. Qed.

(** What a triple says of one run. *)
Lemma triple_ok {A} P (m : M St A) (Q : A -> St -> Prop) E s a s' :
  triple P m Q E -> P s -> m s = Ok (a, s') -> Q a s'.
Proof. intros H Hs Hrun. specialize (H s Hs). now rewrite Hrun in H. Qed.

Lemma triple_fault {A} P (m : M St A) (Q : A -> St -> Prop) E s e :
  triple P m Q E -> P s -> m s = Fault e -> E e.
Proof. intros H Hs Hrun. specialize (H s Hs). now rewrite Hrun in H. Qed.

(** Total correctness gives a result. *)
Lemma hoare_run {A} P (m : M St A) (Q : A -> St -> Prop) s :
  hoare P m Q -> P s -> exists a s', m s = Ok (a, s') /\ Q a s'.
Proof.
  intros H Hs. specialize (H s Hs). destruct (m s) as [[a s'] | e]; [eauto | easy].
Qed.

Lemma hoare_is_Ok {A} P (m : M St A) (Q : A -> St -> Prop) s :
  hoare P m Q -> P s -> is_Ok (m s).
Proof. intros H Hs. destruct (hoare_run _ _ _ _ H Hs) as (a & s' & Hrun & _). now exists (a, s'). Qed.

Lemma hoare_returns {A} P (m : M St A) (Q : A -> St -> Prop) :
  hoare P m Q -> returns P m Q.
Proof. intros H. eapply triple_conseq; [exact H | auto..]. Qed.

End triple_rules.

(** * Loops *)

Section loops.
Context {St : Type}.
Implicit Types (s : St) (body : Z -> M St unit).

Lemma for_count_for_each (n : nat) : forall (i : Z) body s,
  for_count n i body s = for_each (seqZ i (Z.of_nat n)) body s.
Proof.
  induction n as [| n IH]; intros i body s; [reflexivity |].
  replace (Z.of_nat (S n)) with (Z.succ (Z.of_nat n)) by lia.
  rewrite seqZ_cons by lia. simpl. munfold. destruct (body i s) as [[[] s'] | e]; [| reflexivity].
  rewrite IH. now replace (Z.pred (Z.succ (Z.of_nat n))) with (Z.of_nat n) by lia.
Qed.

Lemma for_upto_for_each (lo hi : Z) body s :
  for_upto lo hi body s = for_each (seqZ lo (hi + 1 - lo)) body s.
Proof.
  unfold for_upto. rewrite for_count_for_each.
  destruct (hi + 1 - lo)%Z as [| q | q]; [reflexivity | | reflexivity].
  now rewrite Z2Nat.id.
Qed.

Lemma for_each_fmap {A B} (f : A -> B) (l : list A) (g : B -> M St unit) s :
  for_each (f <$> l) g s = for_each l (fun a => g (f a)) s.
Proof.
  revert s. induction l as [| a l IH]; intros s; [reflexivity |].
  simpl. munfold. destruct (g (f a) s) as [[[] s'] | e]; [apply IH | reflexivity].
Qed.

Lemma for_each_ext {A} (l : list A) (g g' : A -> M St unit) :
  (forall a s, g a s = g' a s) -> forall s, for_each l g s = for_each l g' s.
Proof.
  intros Hg. induction l as [| a l IH]; intros s; [reflexivity |].
  simpl. munfold. rewrite Hg. destruct (g' a s) as [[[] s'] | e]; [apply IH | reflexivity].
Qed.

Lemma for_each_app {A} (l l' : list A) (g : A -> M St unit) s :
  for_each (l ++ l') g s = (for_each l g;; for_each l' g) s.
Proof.
  revert s. induction l as [| a l IH]; intros s; [reflexivity |].
  simpl. munfold. destruct (g a s) as [[[] s'] | e]; [apply IH | reflexivity].
Qed.

(** The rule for a loop over a list: an invariant indexed by the elements
    still to process. *)
Lemma triple_for_each {A} (I : list A -> St -> Prop) (g : A -> M St unit) E (l : list A) :
  (forall a rest, triple (I (a :: rest)) (g a) (fun _ => I rest) E) ->
  triple (I l) (for_each l g) (fun _ => I []) E.
Proof.
  intros Hg. induction l as [| a l IH]; [now apply triple_ret |].
  simpl. eapply triple_bind; [apply Hg |]. intros []. exact IH.
Qed.

(** The same with an invariant that does not depend on the position. *)
Lemma triple_for_each_inv {A} (I : St -> Prop) (g : A -> M St unit) E (l : list A) :
  (forall a, triple I (g a) (fun _ => I) E) -> triple I (for_each l g) (fun _ => I) E.
Proof. intros Hg. apply (triple_for_each (fun _ => I)). auto. Qed.

(** A computation whose result is dropped. *)
Lemma triple_ignore {A} P (m : M St A) (Q : St -> Prop) E :
  triple P m (fun _ => Q) E -> triple P (_ ← m; mret tt) (fun _ => Q) E.
Proof. intros Hm. eapply triple_bind; [exact Hm |]. intros a. now apply triple_ret. Qed.

Lemma triple_for_upto (I : St -> Prop) (lo hi : Z) body E :
  (forall i, triple I (body i) (fun _ => I) E) ->
  triple I (for_upto lo hi body) (fun _ => I) E.
Proof.
  intros Hbody s Hs. rewrite for_upto_for_each.
  now apply (triple_for_each_inv I body E).
Qed.

End loops.

#[export] Hint Resolve triple_ret triple_get triple_put triple_modify triple_ignore
  triple_for_each_inv triple_for_upto : dev.
#[export] Hint Rewrite double_to_int_ok using (assumption || (vm_compute; intuition congruence)) : dev_rw.
