(* ===== verification/Geometry.v ===== *)
(** * Geometry: points, the resolution constants and the logical-to-raster
    transform of [CV_sim] ([convert_to_internal], [get_dimensions]).

    A point is a pair of [double]s, modelled by rationals; two points are
    equivalent when their coordinates are equal as rationals.  The file also
    holds the vector operations and the boxes in which the statements about
    the transform and about curves are written. *)

From Stdlib Require Import QArith Qabs Lqa Lia ZArith.
From stdpp Require Import base decidable.
From S2P Require Import Prelude.

#[local] Open Scope Q_scope.

(** [struct xy { double x; double y; }] of [types.h]. *)
Record xy : Type := mk_xy { x : Q; y : Q }.

(** The [#define]s of the device: resolution (raster units per inch) and the
    page size in inches. *)
Definition DPI_X : Z := 100.
Definition DPI_Y : Z := 100.
Definition DEFAULT_SIZE_X : Z := 6.
Definition DEFAULT_SIZE_Y : Z := 6.

(** [CV_sim::convert_to_internal]: each axis is scaled by its resolution. *)
Definition convert_to_internal (input : xy) : xy :=
  let buf_x := x input * inject_Z DPI_X in
  let buf_y := y input * inject_Z DPI_Y in
  {| x := buf_x; y := buf_y |}.

(** [CV_sim::get_dimensions]: the page size, whatever the canvas. *)
Definition get_dimensions : xy :=
  {| x := inject_Z DEFAULT_SIZE_X; y := inject_Z DEFAULT_SIZE_Y |}.

(** ** Specification-level notions *)

#[export] Instance xy_equiv : Equiv xy := fun p q => x p == x q /\ y p == y q.

#[export] Instance xy_equiv_decision (p q : xy) : Decision (p ≡ q).
Proof. unfold equiv, xy_equiv. apply _. Defined.

(** The inverse transform (raster to logical); the code has no such
    function, it states the invertibility of [convert_to_internal]. *)
Definition convert_to_external (p : xy) : xy :=
  {| x := x p / inject_Z DPI_X; y := y p / inject_Z DPI_Y |}.

Definition xy_add (p q : xy) : xy := {| x := x p + x q; y := y p + y q |}.
Definition xy_scale (k : Q) (p : xy) : xy := {| x := k * x p; y := k * y p |}.

(** Axis-aligned boxes. *)
Definition in_box (lo hi p : xy) : Prop :=
  (x lo <= x p /\ x p <= x hi) /\ (y lo <= y p /\ y p <= y hi).

#[export] Instance in_box_decision (lo hi p : xy) : Decision (in_box lo hi p).
Proof. unfold in_box. apply _. Defined.

(** The page, in logical units: [0..6] on both axes. *)
Definition on_page (p : xy) : Prop := in_box (mk_xy 0 0) get_dimensions p.

(** A point both of whose coordinates convert to [int]. *)
Definition xy_convertible (p : xy) : Prop :=
  int_convertible (x p) /\ int_convertible (y p).

#[export] Instance xy_convertible_decision (p : xy) : Decision (xy_convertible p).
Proof. unfold xy_convertible. apply _. Defined.

(** ** The setoid of points *)

#[export] Instance xy_equivalence : Equivalence (≡@{xy}).
Proof.
  split.
  - intros p. split; reflexivity.
  - intros p q [Hx Hy]. split; now symmetry.
  - intros p q r [Hx Hy] [Hx' Hy']. split; etransitivity; eassumption.
Qed.

#[export] Instance x_proper : Proper ((≡) ==> Qeq) x.
Proof. now intros p q [Hx _]. Qed.

#[export] Instance y_proper : Proper ((≡) ==> Qeq) y.
Proof. now intros p q [_ Hy]. Qed.

#[export] Instance mk_xy_proper : Proper (Qeq ==> Qeq ==> (≡)) mk_xy.
Proof. intros a a' Ha b b' Hb. now split. Qed.

(** Splits an equivalence of points into its two coordinates and unfolds the
    operations on points. *)
Ltac xy_unfold :=
  unfold on_page, in_box, equiv, xy_equiv, convert_to_internal, convert_to_external,
    get_dimensions, xy_add, xy_scale in *;
  change (inject_Z DPI_X) with 100 in *; change (inject_Z DPI_Y) with 100 in *;
  change (inject_Z DEFAULT_SIZE_X) with 6 in *; change (inject_Z DEFAULT_SIZE_Y) with 6 in *;
  simpl in *.

Ltac xy_solve := xy_unfold; intuition (try lra; try (field; lra)).

#[export] Instance convert_to_internal_proper : Proper ((≡) ==> (≡)) convert_to_internal.
Proof. intros p q [Hx Hy]. xy_unfold. rewrite Hx, Hy. split; reflexivity. Qed.

#[export] Instance convert_to_external_proper : Proper ((≡) ==> (≡)) convert_to_external.
Proof. intros p q [Hx Hy]. xy_unfold. rewrite Hx, Hy. split; reflexivity. Qed.

#[export] Instance xy_add_proper : Proper ((≡) ==> (≡) ==> (≡)) xy_add.
Proof. intros p p' [Hx Hy] q q' [Hx' Hy']. xy_unfold. rewrite Hx, Hy, Hx', Hy'. split; reflexivity. Qed.

#[export] Instance xy_scale_proper : Proper (Qeq ==> (≡) ==> (≡)) xy_scale.
Proof. intros k k' Hk p p' [Hx Hy]. xy_unfold. rewrite Hk, Hx, Hy. split; reflexivity. Qed.

#[export] Instance in_box_proper : Proper ((≡) ==> (≡) ==> (≡) ==> iff) in_box.
Proof.
  intros lo lo' [Hl1 Hl2] hi hi' [Hh1 Hh2] p p' [Hp1 Hp2]. unfold in_box.
  now rewrite Hl1, Hl2, Hh1, Hh2, Hp1, Hp2.
Qed.

#[export] Instance xy_convertible_proper : Proper ((≡) ==> iff) xy_convertible.
Proof. intros p q [Hx Hy]. unfold xy_convertible. now rewrite Hx, Hy. Qed.

(** ** The transform *)

Lemma convert_to_internal_coords (p : xy) :
  x (convert_to_internal p) == x p * 100 /\ y (convert_to_internal p) == y p * 100.
Proof. xy_solve. Qed.

(** C40. Round trip: scaling to raster units and back is the identity. *)
Lemma convert_external_internal (p : xy) :
  convert_to_external (convert_to_internal p) ≡ p.
Proof. xy_solve. Qed.

Lemma convert_internal_external (p : xy) :
  convert_to_internal (convert_to_external p) ≡ p.
Proof. xy_solve. Qed.

Lemma convert_to_internal_inj (p q : xy) :
  convert_to_internal p ≡ convert_to_internal q -> p ≡ q.
Proof. xy_solve. Qed.

(** The transform is linear. *)
Lemma convert_to_internal_linear (k : Q) (p q : xy) :
  convert_to_internal (xy_add (xy_scale k p) q)
  ≡ xy_add (xy_scale k (convert_to_internal p)) (convert_to_internal q).
Proof. xy_unfold. split; ring. Qed.

(** The transform preserves the order on each axis, hence maps a box onto
    the box of the transformed corners. *)
Lemma convert_to_internal_box (lo hi p : xy) :
  in_box lo hi p ->
  in_box (convert_to_internal lo) (convert_to_internal hi) (convert_to_internal p).
Proof. xy_solve. Qed.

Lemma in_box_convertible (lo hi p : xy) :
  xy_convertible lo -> xy_convertible hi -> in_box lo hi p -> xy_convertible p.
Proof.
  intros [Hlx Hly] [Hhx Hhy] [[Hx1 Hx2] [Hy1 Hy2]]. split.
  - exact (int_convertible_between _ _ _ Hlx Hhx Hx1 Hx2).
  - exact (int_convertible_between _ _ _ Hly Hhy Hy1 Hy2).
Qed.

(** Points of the page land in the raster [0..600] x [0..600], whose
    coordinates convert to [int]. *)
Lemma convert_on_page (p : xy) :
  on_page p -> in_box (mk_xy 0 0) (mk_xy 600 600) (convert_to_internal p).
Proof. xy_solve. Qed.

(** Every point of the raster converts to [int]. *)
Lemma raster_convertible (q : xy) :
  in_box (mk_xy 0 0) (mk_xy 600 600) q -> xy_convertible q.
Proof. apply in_box_convertible; vm_compute; intuition congruence. Qed.

(** Every point of the page converts to raster coordinates in [0, 600],
    which fit an int. *)
Lemma convert_on_page_convertible (p : xy) :
  on_page p -> xy_convertible (convert_to_internal p).
Proof. intros H. now apply raster_convertible, convert_on_page. Qed.

Lemma get_dimensions_on_page : on_page get_dimensions.
Proof. xy_solve. Qed.
