(* ===== verification/Commands.v ===== *)
(** * Commands: the public operations of the device, as data.

    One constructor per public method of [CV_sim].  A client is a sequence
    of commands; the machine built on the C++ methods ([Machine]) and the
    abstract plotter of the specification ([Plotter]) both interpret
    them. *)

From Stdlib Require Import QArith.
From stdpp Require Import base.
From S2P Require Import Prelude Geometry.

(** One constructor per public method. *)
Inductive command : Type :=
  | Start
  | Stop
  | MoveTo (p : xy)
  | CutTo (p : xy)
  | CurveTo (p0 p1 p2 p3 : xy)
  | SetToolWidth (w : Q)
  | GetDimensions
  | GetImage.

(** The commands that move the tool. *)
Definition is_motion (c : command) : bool :=
  match c with
  | MoveTo _ | CutTo _ | CurveTo _ _ _ _ => true
  | _ => false
  end.

(** The commands that only read the device. *)
Definition is_query (c : command) : bool :=
  match c with
  | GetDimensions | GetImage => true
  | _ => false
  end.

Lemma is_motion_not_query (c : command) : is_motion c = true -> is_query c = false.
Proof. now destruct c. Qed.
