(* ===== verification/Bezier.v ===== *)
(** * Bezier: the cubic that [CV_sim::curve_to] samples.

    [curve_to] expands the cubic Bezier curve of four control points into a
    polynomial [A t^3 + B t^2 + C t + p0] per axis and evaluates it at
    [t = i / 20] for [i = 1 .. 20].  This file holds the coefficients and the
    evaluation as the code writes them, the reference definitions of the
    curve (Bernstein form, de Casteljau's construction) and the theorems
    relating them: equivalence, end points, symmetry, commutation with the
    raster transform and the bounding box of the control points. *)

From Stdlib Require Import QArith Qabs Lqa Lia ZArith.
From stdpp Require Import base decidable list.
From S2P Require Import Prelude Geometry.

#[local] Open Scope Q_scope.

(** [#define NUM_SECTIONS_PER_CURVE 20] *)
Definition NUM_SECTIONS_PER_CURVE : Z := 20.

(** [double coeff[NUM_FACT][NUM_DIM]]: the rows [A], [B], [C], each with an
    [X] and a [Y] entry. *)
Record coeff : Type := mk_coeff { coeff_A : xy; coeff_B : xy; coeff_C : xy }.

(** The three assignments per axis, in the order of the code: [C] first,
    [B] from [C], [A] from both. *)
Definition curve_coeff (p0 p1 p2 p3 : xy) : coeff :=
  let cx := 3 * (x p1 - x p0) in
  let bx := 3 * (x p2 - x p1) - cx in
  let ax := (x p3 - x p0) - cx - bx in
  let cy := 3 * (y p1 - y p0) in
  let by_ := 3 * (y p2 - y p1) - cy in
  let ay := (y p3 - y p0) - cy - by_ in
  {| coeff_A := mk_xy ax ay; coeff_B := mk_xy bx by_; coeff_C := mk_xy cx cy |}.

(** [t = (double)i / (double)NUM_SECTIONS_PER_CURVE] *)
Definition curve_param (i : Z) : Q := inject_Z i / inject_Z NUM_SECTIONS_PER_CURVE.

(** [iter]: the polynomial at [t], with the products associated as in C. *)
Definition curve_point (c : coeff) (p0 : xy) (t : Q) : xy :=
  {| x := x (coeff_A c) * t * t * t + x (coeff_B c) * t * t + x (coeff_C c) * t + x p0;
     y := y (coeff_A c) * t * t * t + y (coeff_B c) * t * t + y (coeff_C c) * t + y p0 |}.

(** The point [curve_to] cuts to at iteration [i]. *)
Definition curve_iter (p0 p1 p2 p3 : xy) (i : Z) : xy :=
  curve_point (curve_coeff p0 p1 p2 p3) p0 (curve_param i).

(** ** Reference definitions *)

(** Bernstein form of the cubic. *)
Definition bernstein (a0 a1 a2 a3 t : Q) : Q :=
  (1 - t) * (1 - t) * (1 - t) * a0 + 3 * (1 - t) * (1 - t) * t * a1
  + 3 * (1 - t) * t * t * a2 + t * t * t * a3.

Definition bezier (p0 p1 p2 p3 : xy) (t : Q) : xy :=
  {| x := bernstein (x p0) (x p1) (x p2) (x p3) t;
     y := bernstein (y p0) (y p1) (y p2) (y p3) t |}.

(** de Casteljau: repeated linear interpolation. *)
Definition lerp (a b t : Q) : Q := (1 - t) * a + t * b.

Definition xy_lerp (p q : xy) (t : Q) : xy :=
  {| x := lerp (x p) (x q) t; y := lerp (y p) (y q) t |}.

Definition de_casteljau (p0 p1 p2 p3 : xy) (t : Q) : xy :=
  let q0 := xy_lerp p0 p1 t in
  let q1 := xy_lerp p1 p2 t in
  let q2 := xy_lerp p2 p3 t in
  let r0 := xy_lerp q0 q1 t in
  let r1 := xy_lerp q1 q2 t in
  xy_lerp r0 r1 t.

(** Horner's scheme for the same polynomial. *)
Definition curve_point_horner (c : coeff) (p0 : xy) (t : Q) : xy :=
  {| x := ((x (coeff_A c) * t + x (coeff_B c)) * t + x (coeff_C c)) * t + x p0;
     y := ((y (coeff_A c) * t + y (coeff_B c)) * t + y (coeff_C c)) * t + y p0 |}.

(** The loop counters of [curve_to], [1 .. NUM_SECTIONS_PER_CURVE]. *)
Definition curve_indices : list Z := seqZ 1 NUM_SECTIONS_PER_CURVE.

(** The polyline of [curve_to]: the twenty points it cuts to, in order. *)
Definition curve_polyline (p0 p1 p2 p3 : xy) : list xy :=
  curve_iter p0 p1 p2 p3 <$> curve_indices.

Ltac bezier_unfold :=
  unfold curve_iter, curve_point, curve_point_horner, curve_coeff, bezier, bernstein,
    de_casteljau, xy_lerp, lerp, curve_param in *;
  change (inject_Z NUM_SECTIONS_PER_CURVE) with 20 in *;
  xy_unfold.

(** ** The setoid structure *)

#[export] Instance coeff_equiv : Equiv coeff := fun c d =>
  coeff_A c ≡ coeff_A d /\ coeff_B c ≡ coeff_B d /\ coeff_C c ≡ coeff_C d.

#[export] Instance coeff_equivalence : Equivalence (≡@{coeff}).
Proof.
  split.
  - intros c. split; [| split]; reflexivity.
  - intros c d (HA & HB & HC). split; [| split]; now symmetry.
  - intros c d e (HA & HB & HC) (HA' & HB' & HC').
    split; [| split]; etransitivity; eassumption.
Qed.

#[export] Instance curve_coeff_proper :
  Proper ((≡) ==> (≡) ==> (≡) ==> (≡) ==> (≡)) curve_coeff.
Proof.
  intros p0 q0 [H0x H0y] p1 q1 [H1x H1y] p2 q2 [H2x H2y] p3 q3 [H3x H3y].
  unfold curve_coeff. repeat split; simpl;
    rewrite ?H0x, ?H0y, ?H1x, ?H1y, ?H2x, ?H2y, ?H3x, ?H3y; reflexivity.
Qed.

#[export] Instance curve_point_proper : Proper ((≡) ==> (≡) ==> Qeq ==> (≡)) curve_point.
Proof.
  intros c d ([HAx HAy] & [HBx HBy] & [HCx HCy]) p q [Hx Hy] t u Ht.
  unfold curve_point. split; simpl;
    rewrite ?HAx, ?HAy, ?HBx, ?HBy, ?HCx, ?HCy, ?Hx, ?Hy, Ht; reflexivity.
Qed.

#[export] Instance curve_iter_proper :
  Proper ((≡) ==> (≡) ==> (≡) ==> (≡) ==> eq ==> (≡)) curve_iter.
Proof.
  intros p0 q0 H0 p1 q1 H1 p2 q2 H2 p3 q3 H3 i j <-. unfold curve_iter.
  now rewrite H0, H1, H2, H3.
Qed.

#[export] Instance lerp_proper : Proper (Qeq ==> Qeq ==> Qeq ==> Qeq) lerp.
Proof. intros a a' Ha b b' Hb t t' Ht. unfold lerp. now rewrite Ha, Hb, Ht. Qed.

#[export] Instance xy_lerp_proper : Proper ((≡) ==> (≡) ==> Qeq ==> (≡)) xy_lerp.
Proof.
  intros p p' [Hpx Hpy] q q' [Hqx Hqy] t t' Ht. unfold xy_lerp.
  split; simpl; now apply lerp_proper.
Qed.

#[export] Instance bernstein_proper :
  Proper (Qeq ==> Qeq ==> Qeq ==> Qeq ==> Qeq ==> Qeq) bernstein.
Proof.
  intros a0 b0 H0 a1 b1 H1 a2 b2 H2 a3 b3 H3 t t' Ht. unfold bernstein.
  now rewrite H0, H1, H2, H3, Ht.
Qed.

#[export] Instance bezier_proper : Proper ((≡) ==> (≡) ==> (≡) ==> (≡) ==> Qeq ==> (≡)) bezier.
Proof.
  intros p0 q0 [H0x H0y] p1 q1 [H1x H1y] p2 q2 [H2x H2y] p3 q3 [H3x H3y] t t' Ht.
  unfold bezier. split; simpl; now apply bernstein_proper.
Qed.

(** ** Equivalence with the reference definitions *)

Section curve.
Variables p0 p1 p2 p3 : xy.

(** The two reference definitions agree, and the raster transform commutes
    with them. *)
Lemma de_casteljau_bezier (t : Q) :
  de_casteljau p0 p1 p2 p3 t ≡ bezier p0 p1 p2 p3 t.
Proof. bezier_unfold. split; ring. Qed.

Lemma convert_bezier (t : Q) :
  convert_to_internal (bezier p0 p1 p2 p3 t)
  ≡ bezier (convert_to_internal p0) (convert_to_internal p1)
           (convert_to_internal p2) (convert_to_internal p3) t.
Proof. bezier_unfold. split; ring. Qed.

(** C39. The polynomial the code evaluates is the Bernstein form of the cubic
    Bezier curve. *)
Lemma curve_point_bezier (t : Q) :
  curve_point (curve_coeff p0 p1 p2 p3) p0 t ≡ bezier p0 p1 p2 p3 t.
Proof. bezier_unfold. split; ring. Qed.

(** The polynomial curve_to evaluates equals de Casteljau's construction by
    repeated linear interpolation. *)
Lemma curve_point_de_casteljau (t : Q) :
  curve_point (curve_coeff p0 p1 p2 p3) p0 t ≡ de_casteljau p0 p1 p2 p3 t.
Proof. bezier_unfold. split; ring. Qed.

Lemma curve_point_horner_eq (c : coeff) (q : xy) (t : Q) :
  curve_point_horner c q t ≡ curve_point c q t.
Proof. bezier_unfold. split; ring. Qed.

(** ** End points *)

Lemma curve_point_0 : curve_point (curve_coeff p0 p1 p2 p3) p0 0 ≡ p0.
Proof. bezier_unfold. split; ring. Qed.

Lemma curve_point_1 : curve_point (curve_coeff p0 p1 p2 p3) p0 1 ≡ p3.
Proof. bezier_unfold. split; ring. Qed.

Lemma curve_param_last : curve_param NUM_SECTIONS_PER_CURVE == 1.
Proof. reflexivity. Qed.

Lemma curve_param_bounds (i : Z) :
  (1 <= i <= NUM_SECTIONS_PER_CURVE)%Z -> 0 < curve_param i /\ curve_param i <= 1.
Proof.
  unfold curve_param, NUM_SECTIONS_PER_CURVE. intros [Hlo Hhi].
  rewrite Zle_Qle in Hlo, Hhi. change (inject_Z 20) with 20.
  change (inject_Z 1) with 1 in Hlo. change (inject_Z 20) with 20 in Hhi.
  split.
  - apply Qlt_shift_div_l; lra.
  - apply Qle_shift_div_r; lra.
Qed.

(** The last point of the polyline is the last control point. *)
Lemma curve_iter_last : curve_iter p0 p1 p2 p3 NUM_SECTIONS_PER_CURVE ≡ p3.
Proof. unfold curve_iter. rewrite curve_param_last. apply curve_point_1. Qed.

(** ** Symmetry: the reversed control polygon gives the reversed curve *)

Lemma bezier_reverse (t : Q) : bezier p3 p2 p1 p0 (1 - t) ≡ bezier p0 p1 p2 p3 t.
Proof. bezier_unfold. split; ring. Qed.

End curve.

(** ** The raster transform commutes with the curve *)

Lemma convert_curve_iter (p0 p1 p2 p3 : xy) (i : Z) :
  convert_to_internal (curve_iter p0 p1 p2 p3 i)
  ≡ curve_iter (convert_to_internal p0) (convert_to_internal p1)
               (convert_to_internal p2) (convert_to_internal p3) i.
Proof. unfold curve_iter. bezier_unfold. split; ring. Qed.

(** ** The bounding box of the control points *)

Lemma lerp_between (lo hi a b t : Q) :
  0 <= t -> t <= 1 -> lo <= a -> a <= hi -> lo <= b -> b <= hi ->
  lo <= lerp a b t /\ lerp a b t <= hi.
Proof.
  intros Ht0 Ht1 Ha Ha' Hb Hb'. unfold lerp.
  assert (H1 : 0 <= (1 - t) * (a - lo)) by (apply Qmult_le_0_compat; lra).
  assert (H2 : 0 <= t * (b - lo)) by (apply Qmult_le_0_compat; lra).
  assert (H3 : 0 <= (1 - t) * (hi - a)) by (apply Qmult_le_0_compat; lra).
  assert (H4 : 0 <= t * (hi - b)) by (apply Qmult_le_0_compat; lra).
  split; lra.
Qed.

Lemma xy_lerp_in_box (lo hi p q : xy) (t : Q) :
  0 <= t -> t <= 1 -> in_box lo hi p -> in_box lo hi q -> in_box lo hi (xy_lerp p q t).
Proof.
  intros Ht0 Ht1 [[? ?] [? ?]] [[? ?] [? ?]].
  split; apply lerp_between; assumption.
Qed.

Section hull.
Variables (lo hi p0 p1 p2 p3 : xy) (t : Q).
Hypotheses (Ht0 : 0 <= t) (Ht1 : t <= 1).
Hypotheses (H0 : in_box lo hi p0) (H1 : in_box lo hi p1)
           (H2 : in_box lo hi p2) (H3 : in_box lo hi p3).

Lemma de_casteljau_in_box : in_box lo hi (de_casteljau p0 p1 p2 p3 t).
Proof. unfold de_casteljau. repeat apply xy_lerp_in_box; assumption. Qed.

(** The same for the polynomial form, which is what the code evaluates. *)
Lemma curve_point_hull (c : coeff) :
  c ≡ curve_coeff p0 p1 p2 p3 -> in_box lo hi (curve_point c p0 t).
Proof.
  intros ->. assert (curve_point (curve_coeff p0 p1 p2 p3) p0 t ≡ de_casteljau p0 p1 p2 p3 t)
    as -> by (bezier_unfold; split; ring).
  apply de_casteljau_in_box.
Qed.

(** The curve stays in any box that holds its four control points. *)
Lemma curve_point_in_box : in_box lo hi (curve_point (curve_coeff p0 p1 p2 p3) p0 t).
Proof. now apply curve_point_hull. Qed.

End hull.

(** ** The polyline *)

Section polyline.
Variables p0 p1 p2 p3 : xy.

Lemma curve_polyline_length :
  length (curve_polyline p0 p1 p2 p3) = Z.to_nat NUM_SECTIONS_PER_CURVE.
Proof. unfold curve_polyline, curve_indices. now rewrite length_fmap, length_seqZ. Qed.

Lemma curve_polyline_lookup (k : nat) :
  (k < Z.to_nat NUM_SECTIONS_PER_CURVE)%nat ->
  curve_polyline p0 p1 p2 p3 !! k = Some (curve_iter p0 p1 p2 p3 (1 + Z.of_nat k)).
Proof.
  intros Hk. unfold curve_polyline, curve_indices.
  rewrite list_lookup_fmap, lookup_seqZ_lt by lia. reflexivity.
Qed.

Lemma curve_polyline_last :
  last (curve_polyline p0 p1 p2 p3) = Some (curve_iter p0 p1 p2 p3 NUM_SECTIONS_PER_CURVE).
Proof. reflexivity. Qed.

(** Every point of the polyline is a point of the curve with a parameter
    in [(0, 1]], so the polyline stays in any box holding the control
    points. *)
Lemma curve_iter_in_box (lo hi : xy) (i : Z) :
  (1 <= i <= NUM_SECTIONS_PER_CURVE)%Z ->
  in_box lo hi p0 -> in_box lo hi p1 -> in_box lo hi p2 -> in_box lo hi p3 ->
  in_box lo hi (curve_iter p0 p1 p2 p3 i).
Proof.
  intros Hi H0 H1 H2 H3. destruct (curve_param_bounds i Hi) as [Ht0 Ht1].
  unfold curve_iter.
  apply (curve_point_hull lo hi p0 p1 p2 p3); (assumption || lra || reflexivity).
Qed.

Lemma curve_polyline_in_box (lo hi : xy) :
  in_box lo hi p0 -> in_box lo hi p1 -> in_box lo hi p2 -> in_box lo hi p3 ->
  Forall (in_box lo hi) (curve_polyline p0 p1 p2 p3).
Proof.
  intros H0 H1 H2 H3. unfold curve_polyline, curve_indices.
  apply Forall_fmap, Forall_forall. intros i Hi%elem_of_seqZ.
  apply curve_iter_in_box; (assumption || lia).
Qed.

End polyline.
