(* ===== verification/Graphics.v ===== *)
(** * Graphics: the part of OpenCV that [CV_sim] calls.

    OpenCV is not part of the repository.  What the device needs from it is
    stated as the class [Graphics]: a type of images with the drawing
    primitives as functions on image values, and the laws the device relies
    on (drawing keeps the header of an image).  On top of the class, the C
    API ([cvCreateImage], [cvLine], [cvCircle], [cvCloneImage],
    [cvSaveImage], [cvReleaseImage]) is written over a memory of images
    indexed by locations, so that pointers, allocation and release are
    explicit.  [DL] is the instance in which an image is the list of
    primitives drawn on it since it was zeroed. *)

From Stdlib Require Import QArith Lia ZArith.
From stdpp Require Import base decidable option list gmap strings.
From S2P Require Import Prelude.

(** ** OpenCV value types *)

Record CvPoint : Type := mk_CvPoint { pt_x : Z; pt_y : Z }.
Record CvSize : Type := mk_CvSize { width : Z; height : Z }.
Record CvScalar : Type := mk_CvScalar { val0 : Q; val1 : Q; val2 : Q; val3 : Q }.

Definition cvPoint (px py : Z) : CvPoint := mk_CvPoint px py.
Definition cvSize (w h : Z) : CvSize := mk_CvSize w h.
(** [cvScalar(v0, v1, v2)]: the fourth component defaults to 0. *)
Definition cvScalar (v0 v1 v2 : Q) : CvScalar := mk_CvScalar v0 v1 v2 0.

Definition IPL_DEPTH_8U : Z := 8.
Definition CV_AA : Z := 16.
(** The default [line_type] of [cvLine] and [cvCircle]: 8-connected. *)
Definition LINE_8 : Z := 8.

#[export] Instance Q_eq_dec : EqDecision Q.
Proof. solve_decision. Defined.
#[export] Instance CvPoint_eq_dec : EqDecision CvPoint.
Proof. solve_decision. Defined.
#[export] Instance CvSize_eq_dec : EqDecision CvSize.
Proof. solve_decision. Defined.
#[export] Instance CvScalar_eq_dec : EqDecision CvScalar.
Proof. solve_decision. Defined.

(** ** The interface *)

Class Graphics : Type := {
  IplImage : Type;
  IplImage_eq_dec :: EqDecision IplImage;
  (** the header *)
  image_size : IplImage -> CvSize;
  image_depth : IplImage -> Z;
  image_channels : IplImage -> Z;
  (** an image as [cvCreateImage] returns it: header set, data unspecified *)
  new_image : CvSize -> Z -> Z -> IplImage;
  (** the data set to zero *)
  zero_data : IplImage -> IplImage;
  (** [draw_line img pt1 pt2 color thickness line_type shift] *)
  draw_line : IplImage -> CvPoint -> CvPoint -> CvScalar -> Z -> Z -> Z -> IplImage;
  (** [draw_circle img center radius color thickness line_type shift] *)
  draw_circle : IplImage -> CvPoint -> Z -> CvScalar -> Z -> Z -> Z -> IplImage;
  (** the data holds pixels that were written (it is not as allocated) *)
  image_defined : IplImage -> Prop;
  (** laws *)
  new_image_size sz d c : image_size (new_image sz d c) = sz;
  new_image_depth sz d c : image_depth (new_image sz d c) = d;
  new_image_channels sz d c : image_channels (new_image sz d c) = c;
  zero_data_size img : image_size (zero_data img) = image_size img;
  zero_data_depth img : image_depth (zero_data img) = image_depth img;
  zero_data_channels img : image_channels (zero_data img) = image_channels img;
  zero_data_idemp img : zero_data (zero_data img) = zero_data img;
  draw_line_size img a b col th lt sh :
    image_size (draw_line img a b col th lt sh) = image_size img;
  draw_line_depth img a b col th lt sh :
    image_depth (draw_line img a b col th lt sh) = image_depth img;
  draw_line_channels img a b col th lt sh :
    image_channels (draw_line img a b col th lt sh) = image_channels img;
  draw_circle_size img ctr r col th lt sh :
    image_size (draw_circle img ctr r col th lt sh) = image_size img;
  draw_circle_depth img ctr r col th lt sh :
    image_depth (draw_circle img ctr r col th lt sh) = image_depth img;
  draw_circle_channels img ctr r col th lt sh :
    image_channels (draw_circle img ctr r col th lt sh) = image_channels img;
  zero_data_defined img : image_defined (zero_data img);
  draw_line_defined img a b col th lt sh :
    image_defined img -> image_defined (draw_line img a b col th lt sh);
  draw_circle_defined img ctr r col th lt sh :
    image_defined img -> image_defined (draw_circle img ctr r col th lt sh);
}.

(** ** Memory: images behind pointers, and the files written *)

Definition loc : Type := positive.

Record Memory `{Graphics} : Type := mk_Memory {
  heap : gmap loc IplImage;          (* the allocated images *)
  saved : list (string * IplImage);  (* the images given to [cvSaveImage], oldest first *)
}.
Arguments mk_Memory {_} _ _.

Section api.
Context `{Graphics}.

Definition empty_memory : Memory := mk_Memory ∅ [].

Definition set_heap (f : gmap loc IplImage -> gmap loc IplImage) (m : Memory) : Memory :=
  mk_Memory (f (heap m)) (saved m).

(** Allocation returns a location that is not in use. *)
Definition alloc (img : IplImage) : M Memory loc := fun m =>
  let l := fresh (dom (heap m)) in
  Ok (l, set_heap <[l := img]> m).

(** Dereferencing a pointer that is not allocated is a fault. *)
Definition load (l : loc) : M Memory IplImage := fun m =>
  match heap m !! l with
  | Some img => Ok (img, m)
  | None => Fault InvalidPointer
  end.

Definition store (l : loc) (img : IplImage) : M Memory unit :=
  mmodify (set_heap <[l := img]>).

(** Applies an image transformer to the image behind [l]. *)
Definition update (l : loc) (f : IplImage -> IplImage) : M Memory unit :=
  img ← load l; store l (f img).

Definition cvCreateImage (size : CvSize) (depth channels : Z) : M Memory loc :=
  alloc (new_image size depth channels).

(** [memset(image->imageData, 0x00, image->imageSize)] *)
Definition memset_imageData (l : loc) : M Memory unit := update l zero_data.

Definition cvLine (l : loc) (pt1 pt2 : CvPoint) (color : CvScalar)
    (thickness line_type shift : Z) : M Memory unit :=
  update l (fun img => draw_line img pt1 pt2 color thickness line_type shift).

Definition cvCircle (l : loc) (center : CvPoint) (radius : Z) (color : CvScalar)
    (thickness line_type shift : Z) : M Memory unit :=
  update l (fun img => draw_circle img center radius color thickness line_type shift).

(** [cvCloneImage] raises [CV_StsBadArg] on a null pointer; otherwise it
    returns a new image with the header and the data of its argument. *)
Definition cvCloneImage (src : option loc) : M Memory loc :=
  match src with
  | None => mthrow BadArgument
  | Some l => img ← load l; alloc img
  end.

(** [cvSaveImage(filename, image)]: the image is handed to the encoder. *)
Definition cvSaveImage (filename : string) (l : loc) : M Memory unit :=
  img ← load l;
  mmodify (fun m => mk_Memory (heap m) (saved m ++ [(filename, img)])).

(** [cvReleaseImage(&image)] frees the image; the caller's pointer is set
    to null by the caller's model. *)
Definition cvReleaseImage (l : loc) : M Memory unit :=
  _ ← load l; mmodify (set_heap (delete l)).

End api.

(** ** The display-list instance *)

Inductive draw_op : Type :=
  | Line (pt1 pt2 : CvPoint) (color : CvScalar) (thickness line_type shift : Z)
  | Circle (center : CvPoint) (radius : Z) (color : CvScalar) (thickness line_type shift : Z).

#[export] Instance draw_op_eq_dec : EqDecision draw_op.
Proof. solve_decision. Defined.

(** [dl_data] is [None] while the pixel data is unspecified, and [Some ops]
    for the zero image on which [ops] were drawn, oldest first. *)
Record dl_image : Type := mk_dl_image {
  dl_size : CvSize;
  dl_depth : Z;
  dl_channels : Z;
  dl_data : option (list draw_op);
}.

#[export] Instance dl_image_eq_dec : EqDecision dl_image.
Proof. solve_decision. Defined.

Definition dl_draw (op : draw_op) (img : dl_image) : dl_image :=
  mk_dl_image (dl_size img) (dl_depth img) (dl_channels img) ((.++ [op]) <$> dl_data img).

Definition dl_zero (img : dl_image) : dl_image :=
  mk_dl_image (dl_size img) (dl_depth img) (dl_channels img) (Some []).

#[export, refine] Instance DL : Graphics := {|
  IplImage := dl_image;
  image_size := dl_size;
  image_depth := dl_depth;
  image_channels := dl_channels;
  new_image sz d c := mk_dl_image sz d c None;
  zero_data := dl_zero;
  draw_line img a b col th lt sh := dl_draw (Line a b col th lt sh) img;
  draw_circle img ctr r col th lt sh := dl_draw (Circle ctr r col th lt sh) img;
  image_defined img := is_Some (dl_data img);
|}.
Proof.
  all: try reflexivity.
  - intros img. now exists [].
  - intros img a b col th lt sh [ops Hops]. cbn. rewrite Hops. now eexists.
  - intros img ctr r col th lt sh [ops Hops]. cbn. rewrite Hops. now eexists.
Defined.

(** The primitives drawn on an image of [DL] ([[]] when unspecified). *)
Definition dl_ops (img : dl_image) : list draw_op := default [] (dl_data img).

(** ** The memory operations *)

Section api_lemmas.
Context `{Graphics}.
Implicit Types (m : Memory) (l : loc) (img : IplImage).

Lemma alloc_eq img m :
  alloc img m = Ok (fresh (dom (heap m)), set_heap <[fresh (dom (heap m)) := img]> m).
Proof. reflexivity. Qed.

(** The location [alloc] returns was free. *)
Lemma fresh_loc_free m : heap m !! fresh (dom (heap m)) = None.
Proof. apply not_elem_of_dom, is_fresh. Qed.

Lemma fresh_loc_ne m l img : heap m !! l = Some img -> fresh (dom (heap m)) <> l.
Proof. intros Hl Heq. rewrite <- Heq, fresh_loc_free in Hl. discriminate. Qed.

Lemma load_ok m l img : heap m !! l = Some img -> load l m = Ok (img, m).
Proof. intros Hl. unfold load. now rewrite Hl. Qed.

Lemma load_fault m l : heap m !! l = None -> load l m = Fault InvalidPointer.
Proof. intros Hl. unfold load. now rewrite Hl. Qed.

Lemma update_ok m l img (f : IplImage -> IplImage) :
  heap m !! l = Some img -> update l f m = Ok (tt, set_heap <[l := f img]> m).
Proof. intros Hl. unfold update. now rewrite (M_bind_ok _ _ _ _ _ (load_ok _ _ _ Hl)). Qed.

Lemma update_fault m l (f : IplImage -> IplImage) :
  heap m !! l = None -> update l f m = Fault InvalidPointer.
Proof. intros Hl. unfold update. now rewrite (M_bind_fault _ _ _ _ (load_fault _ _ Hl)). Qed.

Lemma cvLine_ok m l img a b col th lt sh :
  heap m !! l = Some img ->
  cvLine l a b col th lt sh m = Ok (tt, set_heap <[l := draw_line img a b col th lt sh]> m).
Proof. apply update_ok. Qed.

Lemma cvCircle_ok m l img ctr r col th lt sh :
  heap m !! l = Some img ->
  cvCircle l ctr r col th lt sh m
  = Ok (tt, set_heap <[l := draw_circle img ctr r col th lt sh]> m).
Proof. apply update_ok. Qed.

Lemma memset_imageData_ok m l img :
  heap m !! l = Some img -> memset_imageData l m = Ok (tt, set_heap <[l := zero_data img]> m).
Proof. apply update_ok. Qed.

Lemma cvCloneImage_null m : cvCloneImage None m = Fault BadArgument.
Proof. reflexivity. Qed.

Lemma cvCloneImage_ok m l img :
  heap m !! l = Some img ->
  cvCloneImage (Some l) m
  = Ok (fresh (dom (heap m)), set_heap <[fresh (dom (heap m)) := img]> m).
Proof.
  intros Hl. unfold cvCloneImage. now rewrite (M_bind_ok _ _ _ _ _ (load_ok _ _ _ Hl)).
Qed.

Lemma cvSaveImage_ok m l img filename :
  heap m !! l = Some img ->
  cvSaveImage filename l m = Ok (tt, mk_Memory (heap m) (saved m ++ [(filename, img)])).
Proof.
  intros Hl. unfold cvSaveImage. now rewrite (M_bind_ok _ _ _ _ _ (load_ok _ _ _ Hl)).
Qed.

Lemma cvReleaseImage_ok m l img :
  heap m !! l = Some img -> cvReleaseImage l m = Ok (tt, set_heap (delete l) m).
Proof.
  intros Hl. unfold cvReleaseImage. now rewrite (M_bind_ok _ _ _ _ _ (load_ok _ _ _ Hl)).
Qed.

(** Releasing twice is a fault: the second call finds no image. *)
Lemma cvReleaseImage_twice m l m' :
  cvReleaseImage l m = Ok (tt, m') -> cvReleaseImage l m' = Fault InvalidPointer.
Proof.
  unfold cvReleaseImage. intros (i & m1 & Hload & Hmod)%M_bind_inv.
  unfold load in Hload. destruct (heap m !! l) eqn:Hl; [| discriminate].
  injection Hload as <- <-. injection Hmod as <-.
  apply M_bind_fault, load_fault. simpl. apply lookup_delete_eq.
Qed.

End api_lemmas.

(** ** Facts about [DL] *)

Lemma dl_ops_zero (img : dl_image) : dl_ops (dl_zero img) = [].
Proof. reflexivity. Qed.

Lemma dl_ops_draw (op : draw_op) (img : dl_image) :
  is_Some (dl_data img) -> dl_ops (dl_draw op img) = dl_ops img ++ [op].
Proof. intros [ops Hops]. unfold dl_ops, dl_draw. simpl. now rewrite Hops. Qed.

(** Drawing on unspecified data leaves it unspecified. *)
Lemma dl_draw_unspecified (op : draw_op) (img : dl_image) :
  dl_data img = None -> dl_data (dl_draw op img) = None.
Proof. intros Himg. unfold dl_draw. simpl. now rewrite Himg. Qed.
