(* ===== verification/Device.v ===== *)
(** * Device: the class [Device::CV_sim] of [src/lib/device_cv_sim.cpp].

    The fields of the object, its two constructors and every method.  A
    method is a computation in the monad [M] over the object and the memory
    of images: it returns its C++ result ([bool], or the new image pointer for
    [get_image]) with the updated state, or faults where the C++ execution
    has no defined result.  The methods are written against the class
    [Graphics], statement by statement as in the source. *)

From Stdlib Require Import QArith Qabs Lia ZArith.
From stdpp Require Import base decidable option list gmap strings.
From S2P Require Import Prelude Geometry Bezier Graphics.

#[local] Open Scope Q_scope.

(** The data members.  [image] is an [IplImage *]: [None] is [NULL].
    [tool_width] is a [float], read through [(int)] when a line is drawn. *)
Record CV_sim : Type := mk_CV_sim {
  running : bool;
  image : option loc;
  current_position : xy;
  tool_width : Q;
  output_filename : string;
}.

(** [CV_sim::CV_sim()]: stopped, no canvas, tool at the origin, width 1;
    [output_filename] is default-constructed. *)
Definition CV_sim_new : CV_sim :=
  {| running := false; image := None; current_position := mk_xy 0 0;
     tool_width := 1; output_filename := "" |}.

(** [CV_sim::CV_sim(const std::string filename)] *)
Definition CV_sim_new_filename (filename : string) : CV_sim :=
  {| running := false; image := None; current_position := mk_xy 0 0;
     tool_width := 1; output_filename := filename |}.

(** Assignment to one member. *)
Definition with_running (b : bool) (d : CV_sim) : CV_sim :=
  mk_CV_sim b (image d) (current_position d) (tool_width d) (output_filename d).
Definition with_image (p : option loc) (d : CV_sim) : CV_sim :=
  mk_CV_sim (running d) p (current_position d) (tool_width d) (output_filename d).
Definition with_current_position (p : xy) (d : CV_sim) : CV_sim :=
  mk_CV_sim (running d) (image d) p (tool_width d) (output_filename d).
Definition with_tool_width (w : Q) (d : CV_sim) : CV_sim :=
  mk_CV_sim (running d) (image d) (current_position d) w (output_filename d).

(** The state a method runs in: the object and the memory. *)
Record State `{Graphics} : Type := mk_State { this : CV_sim; mem : Memory }.
Arguments mk_State {_} _ _.

Section methods.
Context `{Graphics}.

Definition initial_state (d : CV_sim) : State := mk_State d empty_memory.

(** The state with the object, or the memory, transformed. *)
Definition on_this (f : CV_sim -> CV_sim) (s : State) : State := mk_State (f (this s)) (mem s).
Definition on_mem (f : Memory -> Memory) (s : State) : State := mk_State (this s) (f (mem s)).

(** *** Access to the members *)

Definition get_this : M State CV_sim := fun s => Ok (this s, s).

Definition set_this (f : CV_sim -> CV_sim) : M State unit := mmodify (on_this f).

Definition set_running (b : bool) : M State unit := set_this (with_running b).
Definition set_image (p : option loc) : M State unit := set_this (with_image p).
Definition set_current_position (p : xy) : M State unit :=
  set_this (with_current_position p).
Definition set_tool_width_member (w : Q) : M State unit := set_this (with_tool_width w).

(** A call into OpenCV: it runs on the memory and leaves the object alone. *)
Definition call {A} (op : M Memory A) : M State A := fun s =>
  match op (mem s) with
  | Ok (a, m') => Ok (a, mk_State (this s) m')
  | Fault e => Fault e
  end.

(** [cvPoint(a, b)] with [double] arguments: both are converted to [int]. *)
Definition cvPoint_double (a b : Q) : M State CvPoint :=
  px ← mlift (double_to_int a);
  py ← mlift (double_to_int b);
  mret (cvPoint px py).

(** *** The methods *)

Definition move_to (aPoint : xy) : M State bool :=
  d ← get_this;
  if negb (running d) then mret false
  else
    set_current_position (convert_to_internal aPoint);;
    mret true.

Definition cut_to (aPoint : xy) : M State bool :=
  d ← get_this;
  if negb (running d) then mret false
  else
    let next_position := convert_to_internal aPoint in
    match image d with
    | Some img =>
        pt1 ← cvPoint_double (x (current_position d)) (y (current_position d));
        pt2 ← cvPoint_double (x next_position) (y next_position);
        thickness ← mlift (double_to_int (tool_width d));
        call (cvLine img pt1 pt2 (cvScalar 120 120 120) thickness CV_AA 0)
    | None => mret tt
    end;;
    set_current_position next_position;;
    mret true.

(** The body of the loop of [curve_to] at counter [i]. *)
Definition curve_to_body (c : coeff) (p0 : xy) (i : Z) : M State unit :=
  let t := curve_param i in
  let iter := curve_point c p0 t in
  _ ← cut_to iter;
  mret tt.

Definition curve_to (p0 p1 p2 p3 : xy) : M State bool :=
  d ← get_this;
  if negb (running d) then mret false
  else
    let c := curve_coeff p0 p1 p2 p3 in
    _ ← move_to p0;
    for_upto 1 NUM_SECTIONS_PER_CURVE (curve_to_body c p0);;
    mret true.

Definition start : M State bool :=
  d ← get_this;
  match image d with
  | None =>
      l ← call (cvCreateImage
                  (cvSize (DPI_X * DEFAULT_SIZE_X) (DPI_Y * DEFAULT_SIZE_Y))
                  IPL_DEPTH_8U 1);
      set_image (Some l);;
      call (memset_imageData l)
  | Some _ => mret tt
  end;;
  set_running true;;
  mret true.

Definition stop : M State bool :=
  d ← get_this;
  match image d with
  | Some img =>
      if decide (4 < String.length (output_filename d))%nat then
        call (cvSaveImage (output_filename d) img);;
        call (cvReleaseImage img);;
        set_image None
      else mret tt
  | None => mret tt
  end;;
  set_running false;;
  mret true.

(** The value [set_tool_width] computes before clamping. *)
Definition scaled_tool_width (temp_tool_width : Q) : Q :=
  Qabs temp_tool_width * inject_Z DPI_X * inject_Z DPI_Y / Qsqrt_int (DPI_X * DPI_Y)
  + (1 # 2).

Definition set_tool_width (temp_tool_width : Q) : M State bool :=
  if decide (0 < temp_tool_width) then
    set_tool_width_member (scaled_tool_width temp_tool_width);;
    d ← get_this;
    (if decide (tool_width d < 1) then set_tool_width_member 1 else mret tt);;
    mret true
  else mret false.

(** The colour of the position marker: [CvScalar rgb = {{250, 250, 250}}]. *)
Definition marker_rgb : CvScalar := mk_CvScalar 250 250 250 0.

Definition get_image : M State loc :=
  d ← get_this;
  new_image ← call (cvCloneImage (image d));
  let rgb := marker_rgb in
  let cx := x (current_position d) in
  let cy := y (current_position d) in
  center ← cvPoint_double cx cy;
  call (cvCircle new_image center 10 rgb 2 LINE_8 0);;
  a1 ← cvPoint_double (cx + 5) (cy + 5);
  b1 ← cvPoint_double (cx - 5) (cy - 5);
  call (cvLine new_image a1 b1 rgb 1 LINE_8 0);;
  a2 ← cvPoint_double (cx + 5) (cy - 5);
  b2 ← cvPoint_double (cx - 5) (cy + 5);
  call (cvLine new_image a2 b2 rgb 1 LINE_8 0);;
  mret new_image.

End methods.
