(* ===== verification/DeviceSpec.v ===== *)
(** * DeviceSpec: what each method of [CV_sim] does, branch by branch.

    Each method is shown equal to a function of the state that gives, by
    cases on the conditions the body tests, the value and state it returns
    or the fault it raises ([cut_to_result] and [cut_to_run], and so on).
    For every path through a body there is then one equation: the failure
    paths (a motion command on a stopped device, a non-positive tool width),
    the paths that draw, and the paths on which the C++ execution has no
    defined result (a coordinate that does not convert to [int], a null or
    released image).  [curve_to] is the cut of a polyline, and preserves
    what [move_to] and [cut_to] preserve ([curve_to_inv]). *)

From Stdlib Require Import QArith Qabs Qround Lqa Lia ZArith.
From stdpp Require Import base decidable option list gmap strings.
From S2P Require Import Prelude Geometry Bezier Graphics Device.

#[local] Open Scope Q_scope.

(** ** Specification-level definitions *)

(** The raster point a position is drawn at: both coordinates truncated. *)
Definition pixel_of (p : xy) : CvPoint := cvPoint (Qtrunc (x p)) (Qtrunc (y p)).

(** The colour of cuts. *)
Definition cut_grey : CvScalar := cvScalar 120 120 120.

Section spec_defs.
Context `{Graphics}.

(** The line [cut_to] draws from [a] to [b] with tool width [w]. *)
Definition cut_line (w : Q) (a b : xy) (img : IplImage) : IplImage :=
  draw_line img (pixel_of a) (pixel_of b) cut_grey (Qtrunc w) CV_AA 0.

(** The lines drawn by cutting from [a] through the points [ps], in order. *)
Fixpoint cut_path (w : Q) (a : xy) (ps : list xy) (img : IplImage) : IplImage :=
  match ps with
  | [] => img
  | p :: ps' => cut_path w p ps' (cut_line w a p img)
  end.

(** The marker [get_image] draws at position [p]: a circle and two strokes. *)
Definition marker (p : xy) (img : IplImage) : IplImage :=
  let c := draw_circle img (pixel_of p) 10 marker_rgb 2 LINE_8 0 in
  let l1 := draw_line c (pixel_of (mk_xy (x p + 5) (y p + 5)))
              (pixel_of (mk_xy (x p - 5) (y p - 5))) marker_rgb 1 LINE_8 0 in
  draw_line l1 (pixel_of (mk_xy (x p + 5) (y p - 5)))
    (pixel_of (mk_xy (x p - 5) (y p + 5))) marker_rgb 1 LINE_8 0.

(** The image [start] installs: the page at the device resolution, zeroed. *)
Definition blank_canvas : IplImage :=
  zero_data (new_image (cvSize (DPI_X * DEFAULT_SIZE_X) (DPI_Y * DEFAULT_SIZE_Y))
               IPL_DEPTH_8U 1).

(** A sequence of cuts, as the loop of [curve_to] issues them. *)
Definition cut_all (ps : list xy) : M State unit :=
  for_each ps (fun p => _ ← cut_to p; mret tt).

(** The state after drawing: the canvas behind [l] replaced by [img] and the
    tool at [p]. *)
Definition drawn (p : xy) (l : loc) (img : IplImage) (s : State) : State :=
  on_this (with_current_position p) (on_mem (set_heap <[l := img]>) s).

(** The device runs and its canvas is the allocated image [img] at [l]. *)
Definition can_draw (s : State) (l : loc) (img : IplImage) : Prop :=
  running (this s) = true /\ image (this s) = Some l /\ heap (mem s) !! l = Some img.

#[export] Instance can_draw_decision s l img : Decision (can_draw s l img).
Proof. unfold can_draw. apply _. Defined.

(** The conversions [cut_to] performs before it calls [cvLine]. *)
Definition cut_convertible (s : State) (p : xy) : Prop :=
  xy_convertible (current_position (this s))
  /\ xy_convertible (convert_to_internal p)
  /\ int_convertible (tool_width (this s)).

#[export] Instance cut_convertible_decision s p : Decision (cut_convertible s p).
Proof. unfold cut_convertible. apply _. Defined.

(** The conversions a path from position [a] through [ps] needs, with tool
    width [w]. *)
Definition path_convertible (w : Q) (a : xy) (ps : list xy) : Prop :=
  int_convertible w /\ xy_convertible a /\ Forall xy_convertible ps.

#[export] Instance path_convertible_decision w a ps : Decision (path_convertible w a ps).
Proof. unfold path_convertible. apply _. Defined.

End spec_defs.

(** The conversions [get_image] performs: the position and its four
    neighbours at distance 5 on the diagonals. *)
Definition marker_convertible (p : xy) : Prop :=
  xy_convertible p
  /\ xy_convertible (mk_xy (x p + 5) (y p + 5))
  /\ xy_convertible (mk_xy (x p - 5) (y p - 5))
  /\ xy_convertible (mk_xy (x p + 5) (y p - 5))
  /\ xy_convertible (mk_xy (x p - 5) (y p + 5)).

#[export] Instance marker_convertible_decision p : Decision (marker_convertible p).
Proof. unfold marker_convertible. apply _. Defined.

(** The last point of a path starting at [a]. *)
Fixpoint path_end (a : xy) (ps : list xy) : xy :=
  match ps with
  | [] => a
  | p :: ps' => path_end p ps'
  end.

(** The width [set_tool_width w] leaves in the object. *)
Definition clamped_tool_width (w : Q) : Q :=
  if decide (scaled_tool_width w < 1) then 1 else scaled_tool_width w.

(** ** The methods as functions of the state

    One function per method: the value and the state the method returns,
    or the fault it raises, by cases on the conditions its body tests, in
    the order in which the body tests them. *)

Section results.
Context `{Graphics}.

Definition move_to_result (p : xy) (s : State) : outcome (bool * State) :=
  if running (this s)
  then Ok (true, on_this (with_current_position (convert_to_internal p)) s)
  else Ok (false, s).

Definition cut_to_result (p : xy) (s : State) : outcome (bool * State) :=
  if running (this s) then
    match image (this s) with
    | None => Ok (true, on_this (with_current_position (convert_to_internal p)) s)
    | Some l =>
        if decide (cut_convertible s p) then
          match heap (mem s) !! l with
          | Some img =>
              Ok (true, drawn (convert_to_internal p) l
                          (cut_line (tool_width (this s)) (current_position (this s))
                             (convert_to_internal p) img) s)
          | None => Fault InvalidPointer
          end
        else Fault UndefinedConversion
    end
  else Ok (false, s).

Definition start_result (s : State) : outcome (bool * State) :=
  match image (this s) with
  | None =>
      let l := fresh (dom (heap (mem s))) in
      Ok (true, on_this (with_running true)
                  (on_this (with_image (Some l))
                     (on_mem (set_heap <[l := blank_canvas]>) s)))
  | Some _ => Ok (true, on_this (with_running true) s)
  end.

Definition stop_result (s : State) : outcome (bool * State) :=
  match image (this s) with
  | Some l =>
      if decide (4 < String.length (output_filename (this s)))%nat then
        match heap (mem s) !! l with
        | Some img =>
            Ok (true, mk_State (with_running false (with_image None (this s)))
                        (mk_Memory (delete l (heap (mem s)))
                           (saved (mem s) ++ [(output_filename (this s), img)])))
        | None => Fault InvalidPointer
        end
      else Ok (true, on_this (with_running false) s)
  | None => Ok (true, on_this (with_running false) s)
  end.

Definition set_tool_width_result (w : Q) (s : State) : outcome (bool * State) :=
  if decide (0 < w)
  then Ok (true, on_this (with_tool_width (clamped_tool_width w)) s)
  else Ok (false, s).

Definition get_image_result (s : State) : outcome (loc * State) :=
  match image (this s) with
  | None => Fault BadArgument
  | Some l =>
      match heap (mem s) !! l with
      | None => Fault InvalidPointer
      | Some img =>
          if decide (marker_convertible (current_position (this s))) then
            let l' := fresh (dom (heap (mem s))) in
            Ok (l', on_mem (set_heap <[l' := marker (current_position (this s)) img]>) s)
          else Fault UndefinedConversion
      end
  end.

End results.

(** Unfolds one method and the member accessors, and computes. *)
Ltac method_unfold :=
  unfold move_to, cut_to, curve_to, start, stop, set_tool_width, get_image,
    set_running, set_image, set_current_position, set_tool_width_member, set_this,
    get_this, cvPoint_double;
  munfold; cbn.

(** Runs the first computation of a bind with the equation [H] of its run. *)
Ltac mstep H := rewrite (M_bind_ok _ _ _ _ _ H).

(** Selects a branch of a method: rewrites with the equation [Hrun] of the
    method and decides the conditions of its result function from the
    hypotheses. *)
Ltac branch Hrun :=
  rewrite Hrun;
  unfold move_to_result, cut_to_result, start_result, stop_result,
    set_tool_width_result, get_image_result;
  repeat match goal with
         | H : _ = _ |- _ => rewrite H
         | |- context [decide ?P] =>
             first [ rewrite (decide_True (P := P)) by (assumption || lia || lra)
                   | rewrite (decide_False (P := P)) by (assumption || lia || lra) ]
         end;
  try reflexivity.

(** The same in a hypothesis [Hrun'] that a method returned: every branch of
    the result function that is left becomes a case. *)
Ltac branches Hrun Hrun' :=
  rewrite Hrun in Hrun';
  unfold move_to_result, cut_to_result, start_result, stop_result,
    set_tool_width_result, get_image_result in Hrun';
  repeat match type of Hrun' with
         | context [decide ?P] => destruct (decide P)
         | context [match ?e with _ => _ end] => destruct e eqn:?
         end;
  try discriminate Hrun'.

(** Reduces a goal [returns P m Q], once the initial state is introduced,
    to the branches of the result function [Hrun] on which [m] returns. *)
Ltac returned Hrun :=
  let Hrun' := fresh "Hrun" in
  unfold triple;
  match goal with
  | |- match ?m ?s with _ => _ end => destruct (m s) as [[? ?] |] eqn:Hrun'
  end;
  [| exact I];
  branches Hrun Hrun'; injection Hrun' as <- <-.

(** ** Steps shared by the methods *)

Section steps.
Context `{Graphics}.
Implicit Types (s : State) (d : CV_sim) (m : Memory) (l : loc) (img : IplImage).

Lemma get_this_run s : get_this s = Ok (this s, s).
Proof. reflexivity. Qed.

Lemma call_ok {A} (op : M Memory A) s a m :
  op (mem s) = Ok (a, m) -> call op s = Ok (a, mk_State (this s) m).
Proof. intros Hop. unfold call. now rewrite Hop. Qed.

Lemma call_fault {A} (op : M Memory A) s e :
  op (mem s) = Fault e -> call op s = Fault e.
Proof. intros Hop. unfold call. now rewrite Hop. Qed.

Lemma cvPoint_double_ok (a b : Q) s :
  int_convertible a -> int_convertible b ->
  cvPoint_double a b s = Ok (cvPoint (Qtrunc a) (Qtrunc b), s).
Proof.
  intros Ha Hb. unfold cvPoint_double. munfold.
  now rewrite (double_to_int_ok a Ha), (double_to_int_ok b Hb).
Qed.

Lemma cvPoint_double_fault (a b : Q) s :
  ~ (int_convertible a /\ int_convertible b) ->
  cvPoint_double a b s = Fault UndefinedConversion.
Proof.
  intros Hab. unfold cvPoint_double. munfold.
  destruct (decide (int_convertible a)) as [Ha | Ha].
  - rewrite (double_to_int_ok a Ha), double_to_int_fault; [reflexivity | tauto].
  - now rewrite (double_to_int_fault a Ha).
Qed.

Lemma cvPoint_xy_ok (p : xy) s :
  xy_convertible p -> cvPoint_double (x p) (y p) s = Ok (pixel_of p, s).
Proof. intros [Hx Hy]. now apply cvPoint_double_ok. Qed.

Lemma cvPoint_xy_fault (p : xy) s :
  ~ xy_convertible p -> cvPoint_double (x p) (y p) s = Fault UndefinedConversion.
Proof. apply cvPoint_double_fault. Qed.

End steps.

(** ** [move_to] *)

Section move_to_spec.
Context `{Graphics}.
Implicit Types (s : State) (p : xy).

Lemma move_to_run p s : move_to p s = move_to_result p s.
Proof. unfold move_to_result. method_unfold. now destruct (running (this s)). Qed.

Lemma move_to_stopped p s :
  running (this s) = false -> move_to p s = Ok (false, s).
Proof. intros Hr. branch move_to_run. Qed.

(** move_to on a running device sets the position to the converted point,
    draws nothing and returns true. *)
Lemma move_to_running p s :
  running (this s) = true ->
  move_to p s = Ok (true, on_this (with_current_position (convert_to_internal p)) s).
Proof. intros Hr. branch move_to_run. Qed.

End move_to_spec.

(** ** [cut_to] *)

Section cut_to_spec.
Context `{Graphics}.
Implicit Types (s : State) (p : xy) (l : loc) (img : IplImage).

(** The arguments of [cvLine] as [cut_to] computes them. *)
Lemma cut_to_args_ok p s (k : CvPoint -> CvPoint -> Z -> M State unit) :
  cut_convertible s p ->
  (pt1 ← cvPoint_double (x (current_position (this s))) (y (current_position (this s)));
   pt2 ← cvPoint_double (x (convert_to_internal p)) (y (convert_to_internal p));
   thickness ← mlift (double_to_int (tool_width (this s)));
   k pt1 pt2 thickness) s
  = k (pixel_of (current_position (this s))) (pixel_of (convert_to_internal p))
      (Qtrunc (tool_width (this s))) s.
Proof.
  intros (Hc & Hn & Hw).
  rewrite (M_bind_ok _ _ _ _ _ (cvPoint_xy_ok _ s Hc)).
  rewrite (M_bind_ok _ _ _ _ _ (cvPoint_xy_ok _ s Hn)).
  munfold. now rewrite (double_to_int_ok _ Hw).
Qed.

Lemma cut_to_args_fault p s (k : CvPoint -> CvPoint -> Z -> M State unit) :
  ~ cut_convertible s p ->
  (pt1 ← cvPoint_double (x (current_position (this s))) (y (current_position (this s)));
   pt2 ← cvPoint_double (x (convert_to_internal p)) (y (convert_to_internal p));
   thickness ← mlift (double_to_int (tool_width (this s)));
   k pt1 pt2 thickness) s
  = Fault UndefinedConversion.
Proof.
  intros Hno. destruct (decide (xy_convertible (current_position (this s)))) as [Hc | Hc];
    [| now rewrite (M_bind_fault _ _ _ _ (cvPoint_xy_fault _ s Hc))].
  rewrite (M_bind_ok _ _ _ _ _ (cvPoint_xy_ok _ s Hc)).
  destruct (decide (xy_convertible (convert_to_internal p))) as [Hn | Hn];
    [| now rewrite (M_bind_fault _ _ _ _ (cvPoint_xy_fault _ s Hn))].
  rewrite (M_bind_ok _ _ _ _ _ (cvPoint_xy_ok _ s Hn)).
  munfold. rewrite double_to_int_fault; [reflexivity |].
  intros Hw. exact (Hno (conj Hc (conj Hn Hw))).
Qed.

(** The whole of [cut_to]: the guard, the conversions in the order of the
    code, the line, the assignment of the position. *)
Lemma cut_to_run p s : cut_to p s = cut_to_result p s.
Proof.
  unfold cut_to, cut_to_result. mstep (get_this_run s).
  destruct (running (this s)); [cbn [negb] | reflexivity].
  destruct (image (this s)) as [l |]; [| reflexivity].
  case_decide as Hc; [| apply M_bind_fault; now apply cut_to_args_fault].
  destruct (heap (mem s) !! l) as [img |] eqn:Hl.
  - rewrite (M_bind_ok _ _ s tt
               (on_mem (set_heap <[l := cut_line (tool_width (this s))
                                     (current_position (this s))
                                     (convert_to_internal p) img]>) s)); [reflexivity |].
    rewrite (cut_to_args_ok p s _ Hc). apply call_ok. now apply cvLine_ok.
  - apply M_bind_fault. rewrite (cut_to_args_ok p s _ Hc).
    apply call_fault. now apply update_fault.
Qed.

Lemma cut_to_stopped p s :
  running (this s) = false -> cut_to p s = Ok (false, s).
Proof. intros Hr. branch cut_to_run. Qed.

(** Without a canvas nothing is drawn, and the position still moves. *)
Lemma cut_to_no_canvas p s :
  running (this s) = true -> image (this s) = None ->
  cut_to p s = Ok (true, on_this (with_current_position (convert_to_internal p)) s).
Proof. intros Hr Hi. branch cut_to_run. Qed.

(** C1. The drawing path: one grey anti-aliased line from the current position
    to the converted target, both truncated to pixels, of the tool's width;
    the position becomes the converted target. *)
Lemma cut_to_draws p s l img :
  can_draw s l img -> cut_convertible s p ->
  cut_to p s
  = Ok (true,
        on_this (with_current_position (convert_to_internal p))
          (on_mem (set_heap <[l := cut_line (tool_width (this s))
                                     (current_position (this s))
                                     (convert_to_internal p) img]>) s)).
Proof. intros (Hr & Hi & Hl) Hconv. branch cut_to_run. Qed.

(** A coordinate or a width that does not fit an [int]: undefined. *)
Lemma cut_to_undefined p s l :
  running (this s) = true -> image (this s) = Some l -> ~ cut_convertible s p ->
  cut_to p s = Fault UndefinedConversion.
Proof. intros Hr Hi Hconv. branch cut_to_run. Qed.

(** A canvas pointer that is not allocated: the write is a fault. *)
Lemma cut_to_dangling p s l :
  running (this s) = true -> image (this s) = Some l -> heap (mem s) !! l = None ->
  cut_convertible s p -> cut_to p s = Fault InvalidPointer.
Proof. intros Hr Hi Hl Hconv. branch cut_to_run. Qed.

End cut_to_spec.

(** ** [start] *)

Section start_spec.
Context `{Graphics}.
Implicit Types (s : State) (l : loc) (img : IplImage).

(** The whole of [start]. *)
Lemma start_run s : start s = start_result s.
Proof.
  unfold start, start_result. mstep (get_this_run s).
  destruct (image (this s)) as [l |]; [reflexivity |].
  unfold cvCreateImage, memset_imageData, update, load, store, alloc, call, set_image,
    set_running, set_this, on_this, on_mem, set_heap, blank_canvas.
  munfold. cbn. rewrite lookup_insert_eq. cbn. now rewrite insert_insert_eq.
Qed.

(** C10. First start: a canvas is allocated at a free location and zeroed. *)
Lemma start_allocates s :
  image (this s) = None ->
  start s
  = Ok (true,
        on_this (with_running true)
          (on_this (with_image (Some (fresh (dom (heap (mem s))))))
             (on_mem (set_heap <[fresh (dom (heap (mem s))) := blank_canvas]>) s))).
Proof. intros Hi. branch start_run. Qed.

(** With a canvas already there, [start] only sets the flag: the canvas is
    neither reallocated nor cleared. *)
Lemma start_keeps_canvas s l :
  image (this s) = Some l -> start s = Ok (true, on_this (with_running true) s).
Proof. intros Hi. branch start_run. Qed.

End start_spec.

(** ** [stop] *)

Section stop_spec.
Context `{Graphics}.
Implicit Types (s : State) (l : loc) (img : IplImage).

(** The whole of [stop]. *)
Lemma stop_run s : stop s = stop_result s.
Proof.
  unfold stop, stop_result. mstep (get_this_run s).
  destruct (image (this s)) as [l |]; [| reflexivity].
  case_decide; [| reflexivity].
  unfold cvSaveImage, cvReleaseImage, load, call, set_image, set_running, set_this,
    on_this, set_heap.
  munfold. cbn. destruct (heap (mem s) !! l) as [img |] eqn:Hl; cbn; [| reflexivity].
  now rewrite Hl.
Qed.

Lemma stop_no_canvas s :
  image (this s) = None -> stop s = Ok (true, on_this (with_running false) s).
Proof. intros Hi. branch stop_run. Qed.

(** C9. A file name of at most four characters: nothing is saved and the canvas
    is kept. *)
Lemma stop_short_name s l :
  image (this s) = Some l -> (String.length (output_filename (this s)) <= 4)%nat ->
  stop s = Ok (true, on_this (with_running false) s).
Proof. intros Hi Hlen. branch stop_run. Qed.

(** C8. A longer file name: the canvas is saved under it, released, and the
    pointer is reset. *)
Lemma stop_saves s l img :
  image (this s) = Some l -> heap (mem s) !! l = Some img ->
  (4 < String.length (output_filename (this s)))%nat ->
  stop s
  = Ok (true,
        mk_State (with_running false (with_image None (this s)))
          (mk_Memory (delete l (heap (mem s)))
             (saved (mem s) ++ [(output_filename (this s), img)]))).
Proof. intros Hi Hl Hlen. branch stop_run. Qed.

Lemma stop_dangling s l :
  image (this s) = Some l -> heap (mem s) !! l = None ->
  (4 < String.length (output_filename (this s)))%nat ->
  stop s = Fault InvalidPointer.
Proof. intros Hi Hl Hlen. branch stop_run. Qed.

End stop_spec.

(** ** [set_tool_width] *)

Lemma scaled_tool_width_eq (w : Q) : 0 <= w -> scaled_tool_width w == w * 100 + (1 # 2).
Proof.
  intros Hw. unfold scaled_tool_width. rewrite Qabs_pos by assumption.
  change (Qsqrt_int (DPI_X * DPI_Y)) with 100.
  change (inject_Z DPI_X) with 100. change (inject_Z DPI_Y) with 100. field.
Qed.

Lemma clamped_tool_width_ge_1 (w : Q) : 1 <= clamped_tool_width w.
Proof. unfold clamped_tool_width. case_decide; lra. Qed.


Section set_tool_width_spec.
Context `{Graphics}.
Implicit Types (s : State) (w : Q).

(** The whole of [set_tool_width]. *)
Lemma set_tool_width_run w s : set_tool_width w s = set_tool_width_result w s.
Proof.
  unfold set_tool_width, set_tool_width_result, clamped_tool_width.
  case_decide; [| reflexivity].
  method_unfold. destruct (decide (scaled_tool_width w < 1)); reflexivity.
Qed.

(** set_tool_width with a width that is zero or negative returns false and
    leaves the state unchanged. *)
Lemma set_tool_width_rejects w s :
  w <= 0 -> set_tool_width w s = Ok (false, s).
Proof. intros Hw. branch set_tool_width_run. Qed.

(** set_tool_width with a positive width returns true and stores |w| *
    DPI_X * DPI_Y / sqrt(DPI_X * DPI_Y) + 0.5, raised to 1 when it is below
    1. *)
Lemma set_tool_width_accepts w s :
  0 < w -> set_tool_width w s = Ok (true, on_this (with_tool_width (clamped_tool_width w)) s).
Proof. intros Hw. branch set_tool_width_run. Qed.

(** C34. set_tool_width on both sides of its test.  A positive width is
    accepted: the method returns [true] and stores |w| * DPI_X * DPI_Y /
    sqrt(DPI_X * DPI_Y) + 0.5, raised to 1 when it is below 1, so the width
    stored is at least 1.  Any other width is rejected: the method returns
    [false] and the state is as before. *)
Theorem set_tool_width_cases w s :
  (0 < w ->
   set_tool_width w s = Ok (true, on_this (with_tool_width (clamped_tool_width w)) s)
   /\ 1 <= clamped_tool_width w)
  /\ (w <= 0 -> set_tool_width w s = Ok (false, s)).
Proof.
  split; intros Hw; [split; [| apply clamped_tool_width_ge_1] |]; branch set_tool_width_run.
Qed.

End set_tool_width_spec.

(** ** [get_image] *)

Section get_image_spec.
Context `{Graphics}.
Implicit Types (s : State) (l : loc) (img : IplImage).

(** The null canvas, and a canvas pointer that is not allocated. *)
Lemma get_image_dangling s l :
  image (this s) = Some l -> heap (mem s) !! l = None -> get_image s = Fault InvalidPointer.
Proof.
  intros Hi Hl. unfold get_image. mstep (get_this_run s). rewrite Hi.
  apply M_bind_fault, call_fault. unfold cvCloneImage.
  now apply M_bind_fault, load_fault.
Qed.

(** A marker coordinate that does not fit an [int]: undefined. *)
Lemma get_image_undefined s l img :
  image (this s) = Some l -> heap (mem s) !! l = Some img ->
  ~ marker_convertible (current_position (this s)) ->
  get_image s = Fault UndefinedConversion.
Proof.
  intros Hi Hl Hno.
  unfold get_image, call, cvCloneImage, cvCircle, cvLine, update, load, store, alloc,
    cvPoint_double, get_this, double_to_int.
  munfold. cbn. rewrite Hi. cbn. rewrite Hl. cbn.
  repeat first [ rewrite lookup_insert_eq | case_decide | progress cbn ]; try reflexivity.
  exfalso. apply Hno. unfold marker_convertible, xy_convertible, int_convertible. cbn. tauto.
Qed.

(** The clone and the three drawing calls, when everything converts. *)
Lemma get_image_marked s l img :
  image (this s) = Some l -> heap (mem s) !! l = Some img ->
  marker_convertible (current_position (this s)) ->
  get_image s = get_image_result s.
Proof.
  intros Hi Hl Hc. unfold get_image_result. rewrite Hi, Hl, decide_True by assumption.
  destruct Hc as ([Hx Hy] & [Hxp Hyp] & [Hxm Hym] & _ & _). cbn in Hxp, Hyp, Hxm, Hym.
  unfold get_image, call, cvCloneImage, cvCircle, cvLine, update, load, store, alloc,
    cvPoint_double, get_this, on_mem, marker, pixel_of.
  munfold. cbn.
  repeat first [ rewrite Hi | rewrite Hl | rewrite lookup_insert_eq
               | rewrite double_to_int_ok by assumption | progress cbn ].
  unfold set_heap. cbn. now rewrite !insert_insert_eq.
Qed.

(** The whole of [get_image]. *)
Lemma get_image_run s : get_image s = get_image_result s.
Proof.
  destruct (image (this s)) as [l |] eqn:Hi.
  - destruct (heap (mem s) !! l) as [img |] eqn:Hl.
    + destruct (decide (marker_convertible (current_position (this s)))) as [Hc | Hc];
        [now apply (get_image_marked s l img) |].
      rewrite (get_image_undefined s l img Hi Hl Hc). unfold get_image_result.
      now rewrite Hi, Hl, decide_False.
    + rewrite (get_image_dangling s l Hi Hl). unfold get_image_result. now rewrite Hi, Hl.
  - unfold get_image, get_image_result. mstep (get_this_run s). now rewrite Hi.
Qed.

(** get_image on a device without canvas faults: cvCloneImage is called on
    a null pointer and raises a bad-argument error. *)
Lemma get_image_null s :
  image (this s) = None -> get_image s = Fault BadArgument.
Proof. intros Hi. branch get_image_run. Qed.

(** C37. The snapshot: a new image, the canvas with the marker drawn on it.  The
    object and the canvas itself are as before. *)
Lemma get_image_snapshot s l img :
  image (this s) = Some l -> heap (mem s) !! l = Some img ->
  marker_convertible (current_position (this s)) ->
  get_image s
  = Ok (fresh (dom (heap (mem s))),
        on_mem (set_heap <[fresh (dom (heap (mem s)))
                           := marker (current_position (this s)) img]>) s).
Proof. intros Hi Hl Hc. branch get_image_run. Qed.

(** Every return of [get_image] is a snapshot. *)
Lemma get_image_inv s l' s' :
  get_image s = Ok (l', s') ->
  exists l img,
    image (this s) = Some l /\ heap (mem s) !! l = Some img
    /\ marker_convertible (current_position (this s))
    /\ l' = fresh (dom (heap (mem s)))
    /\ s' = on_mem (set_heap <[l' := marker (current_position (this s)) img]>) s.
Proof.
  intros Hrun. branches get_image_run Hrun. injection Hrun as <- <-. eauto 10.
Qed.

End get_image_spec.

(** ** Sequences of cuts *)

Section cut_all_spec.
Context `{Graphics}.
Implicit Types (s : State) (p : xy) (ps : list xy) (l : loc) (img : IplImage).

Lemma drawn_drawn p q l img img' s :
  drawn q l img' (drawn p l img s) = drawn q l img' s.
Proof. unfold drawn, on_this, on_mem, set_heap. cbn. now rewrite insert_insert_eq. Qed.

Lemma can_draw_drawn p l img img' s : can_draw s l img -> can_draw (drawn p l img' s) l img'.
Proof. intros (Hr & Hi & Hl). repeat split; [assumption.. |]. apply lookup_insert_eq. Qed.

Lemma cut_to_drawn p s l img :
  can_draw s l img -> cut_convertible s p ->
  cut_to p s
  = Ok (true, drawn (convert_to_internal p) l
                (cut_line (tool_width (this s)) (current_position (this s))
                   (convert_to_internal p) img) s).
Proof. intros (Hr & Hi & Hl) Hconv. branch cut_to_run. Qed.

Lemma cut_all_nil s : cut_all [] s = Ok (tt, s).
Proof. reflexivity. Qed.

Lemma cut_all_cons p ps s b s' :
  cut_to p s = Ok (b, s') -> cut_all (p :: ps) s = cut_all ps s'.
Proof. intros Hcut. unfold cut_all. simpl. munfold. now rewrite Hcut. Qed.

Lemma cut_all_cons_fault p ps s (e : fault) :
  cut_to p s = Fault e -> cut_all (p :: ps) s = Fault e.
Proof. intros Hcut. unfold cut_all. simpl. munfold. now rewrite Hcut. Qed.

(** Cutting through [ps] on a stopped device does nothing. *)
Lemma cut_all_stopped ps s : running (this s) = false -> cut_all ps s = Ok (tt, s).
Proof.
  intros Hr. induction ps as [| p ps IH]; [reflexivity |].
  now rewrite (cut_all_cons _ _ _ _ _ (cut_to_stopped p s Hr)).
Qed.

Lemma drawn_id s l img :
  can_draw s l img -> drawn (current_position (this s)) l img s = s.
Proof.
  intros (_ & _ & Hl). destruct s as [[r i pos w f] [hp sv]].
  unfold drawn, on_this, on_mem, set_heap. cbn in *. now rewrite insert_id.
Qed.

(** Cutting through [ps] draws the path from the current position through
    the converted points, and leaves the tool at the last of them. *)
Lemma cut_all_draws ps : forall s l img,
  can_draw s l img ->
  path_convertible (tool_width (this s)) (current_position (this s))
    (convert_to_internal <$> ps) ->
  cut_all ps s
  = Ok (tt, drawn (path_end (current_position (this s)) (convert_to_internal <$> ps)) l
              (cut_path (tool_width (this s)) (current_position (this s))
                 (convert_to_internal <$> ps) img) s).
Proof.
  induction ps as [| p ps IH]; intros s l img Hdraw (Hw & Ha & Hps).
  - cbn. now rewrite drawn_id.
  - apply Forall_cons in Hps as [Hp Hps].
    rewrite (cut_all_cons _ _ _ _ _
               (cut_to_drawn p s l img Hdraw (conj Ha (conj Hp Hw)))).
    rewrite (IH _ l _ (can_draw_drawn _ _ _ _ _ Hdraw) (conj Hw (conj Hp Hps))).
    now rewrite drawn_drawn.
Qed.

(** The cuts of a path that starts with a move to [p0], as [curve_to] runs
    them. *)
Lemma cut_all_moved (p0 : xy) ps s l img :
  can_draw s l img ->
  path_convertible (tool_width (this s)) (convert_to_internal p0)
    (convert_to_internal <$> ps) ->
  (cut_all ps;; mret true) (on_this (with_current_position (convert_to_internal p0)) s)
  = Ok (true,
        drawn (path_end (convert_to_internal p0) (convert_to_internal <$> ps)) l
          (cut_path (tool_width (this s)) (convert_to_internal p0)
             (convert_to_internal <$> ps) img) s).
Proof.
  intros Hdraw Hconv. set (s0 := on_this _ s).
  assert (Hdraw0 : can_draw s0 l img) by (destruct Hdraw as (? & ? & ?); now repeat split).
  now rewrite (M_bind_ok _ _ _ _ _ (cut_all_draws _ s0 l img Hdraw0 Hconv)).
Qed.

End cut_all_spec.

(** ** [curve_to] *)

Section curve_to_spec.
Context `{Graphics}.
Implicit Types (s : State) (l : loc) (img : IplImage).

Lemma curve_to_stopped (p0 p1 p2 p3 : xy) s :
  running (this s) = false -> curve_to p0 p1 p2 p3 s = Ok (false, s).
Proof. intros Hr. unfold curve_to. mstep (get_this_run s). now rewrite Hr. Qed.

(** The loop over the sections, for any cubic [c] from any origin [q]: the
    cuts to its values at [1/20, 2/20, ..., 1], in that order. *)
Lemma curve_loop_cuts (c : coeff) (q : xy) s :
  for_upto 1 NUM_SECTIONS_PER_CURVE (curve_to_body c q) s
  = cut_all ((fun i => curve_point c q (curve_param i)) <$> curve_indices) s.
Proof.
  rewrite for_upto_for_each. unfold cut_all, curve_indices.
  now rewrite for_each_fmap.
Qed.

(** The loop of [curve_to] is the sequence of cuts along the polyline. *)
Lemma curve_to_loop (p0 p1 p2 p3 : xy) s :
  for_upto 1 NUM_SECTIONS_PER_CURVE (curve_to_body (curve_coeff p0 p1 p2 p3) p0) s
  = cut_all (curve_polyline p0 p1 p2 p3) s.
Proof. apply curve_loop_cuts. Qed.

(** On a running device [curve_to] is a move to [p0] followed by the cuts
    along the polyline, and it returns [true] whenever they return. *)
Lemma curve_to_running (p0 p1 p2 p3 : xy) s :
  running (this s) = true ->
  curve_to p0 p1 p2 p3 s
  = (cut_all (curve_polyline p0 p1 p2 p3);; mret true)
      (on_this (with_current_position (convert_to_internal p0)) s).
Proof.
  intros Hr. unfold curve_to. mstep (get_this_run s). rewrite Hr. cbn [negb].
  erewrite M_bind_ok by (branch move_to_run). munfold.
  now rewrite curve_loop_cuts.
Qed.

(** What [move_to] and [cut_to] preserve, [curve_to] preserves. *)
Lemma curve_to_inv (I : State -> Prop) (E : fault -> Prop) (p0 p1 p2 p3 : xy) :
  (forall p, triple I (move_to p) (fun _ => I) E) ->
  (forall p, triple I (cut_to p) (fun _ => I) E) ->
  triple I (curve_to p0 p1 p2 p3) (fun _ => I) E.
Proof.
  intros Hmove Hcut. unfold curve_to.
  apply (triple_bind I _ (fun _ => I)); [intros s Hs; exact Hs |]. intros d.
  destruct (negb (running d)); [now apply triple_ret |].
  apply (triple_bind I _ (fun _ => I)); [apply Hmove |]. intros _.
  apply (triple_bind I _ (fun _ => I)); [| intros []; now apply triple_ret].
  unfold curve_to_body. auto with dev.
Qed.

(** C2. The drawing path of [curve_to]: twenty lines from the converted [p0]
    through the converted points of the polyline. *)
Lemma curve_to_draws (p0 p1 p2 p3 : xy) s l img :
  can_draw s l img ->
  path_convertible (tool_width (this s)) (convert_to_internal p0)
    (convert_to_internal <$> curve_polyline p0 p1 p2 p3) ->
  curve_to p0 p1 p2 p3 s
  = Ok (true,
        drawn (path_end (convert_to_internal p0)
                 (convert_to_internal <$> curve_polyline p0 p1 p2 p3)) l
          (cut_path (tool_width (this s)) (convert_to_internal p0)
             (convert_to_internal <$> curve_polyline p0 p1 p2 p3) img) s).
Proof.
  intros Hdraw Hconv. rewrite (curve_to_running _ _ _ _ _ (proj1 Hdraw)).
  now apply cut_all_moved.
Qed.

End curve_to_spec.

(** ** What the methods do to the object *)

Section object_effects.
Context `{Graphics}.
Implicit Types (s : State) (p : xy) (ps : list xy) (l : loc) (img : IplImage).

Lemma on_this_id (f : CV_sim -> CV_sim) s : f (this s) = this s -> on_this f s = s.
Proof. intros Hf. destruct s as [d m]. unfold on_this. cbn in *. now rewrite Hf. Qed.

Lemma with_running_id (d : CV_sim) : with_running (running d) d = d.
Proof. now destruct d. Qed.

(** Whenever [cut_to] returns, it returns the running flag, and the object
    has changed by the position only. *)
Lemma cut_to_this p s b s' :
  cut_to p s = Ok (b, s') ->
  b = running (this s)
  /\ this s' = if running (this s)
               then with_current_position (convert_to_internal p) (this s)
               else this s.
Proof.
  intros Hrun. branches cut_to_run Hrun; now injection Hrun as <- <-.
Qed.

(** On a running device, a sequence of cuts that returns leaves the tool at
    the end of the path and changes nothing else in the object. *)
Lemma cut_all_this ps : forall s s',
  running (this s) = true -> cut_all ps s = Ok (tt, s') ->
  this s' = with_current_position
              (path_end (current_position (this s)) (convert_to_internal <$> ps)) (this s).
Proof.
  induction ps as [| p ps IH]; intros s s' Hr Hrun.
  - injection Hrun as <-. now destruct (this s).
  - unfold cut_all in Hrun. simpl in Hrun.
    apply M_bind_inv in Hrun as (u & s1 & Hcut & Hrest).
    apply M_bind_inv in Hcut as (b & s2 & Hcut & [= <- <-]).
    apply cut_to_this in Hcut as [_ Hthis]. rewrite Hr in Hthis.
    rewrite (IH s2 s'); [| now rewrite Hthis | exact Hrest].
    now rewrite Hthis.
Qed.

Lemma path_end_app (a b : xy) ps : path_end a (ps ++ [b]) = b.
Proof. revert a. induction ps as [| p ps IH]; intros a; [reflexivity | apply IH]. Qed.

Lemma path_end_fmap (f : xy -> xy) (a : xy) ps : path_end (f a) (f <$> ps) = f (path_end a ps).
Proof. revert a. induction ps as [| p ps IH]; intros a; [reflexivity | apply IH]. Qed.

(** The polyline of [curve_to] ends at the value of the cubic at [t = 1]. *)
Lemma path_end_polyline (p0 p1 p2 p3 : xy) :
  path_end p0 (curve_polyline p0 p1 p2 p3) = curve_iter p0 p1 p2 p3 NUM_SECTIONS_PER_CURVE.
Proof. reflexivity. Qed.

(** Whenever [curve_to] returns, it returns the running flag, and the
    object has changed by the position only: on a running device the tool
    is at the end of the path. *)
Lemma curve_to_this (p0 p1 p2 p3 : xy) s b s' :
  curve_to p0 p1 p2 p3 s = Ok (b, s') ->
  b = running (this s)
  /\ this s' = if running (this s)
               then with_current_position
                      (path_end (convert_to_internal p0)
                         (convert_to_internal <$> curve_polyline p0 p1 p2 p3)) (this s)
               else this s.
Proof.
  intros Hrun. destruct (running (this s)) eqn:Hr.
  - rewrite (curve_to_running _ _ _ _ _ Hr) in Hrun.
    apply M_bind_inv in Hrun as ([] & s1 & Hcuts & [= <- <-]).
    apply cut_all_this in Hcuts; [| assumption]. now rewrite Hcuts.
  - rewrite (curve_to_stopped _ _ _ _ _ Hr) in Hrun. now injection Hrun as <- <-.
Qed.

(** The path of [curve_to] ends at the converted last control point. *)
Lemma curve_path_end (p0 p1 p2 p3 : xy) :
  path_end (convert_to_internal p0) (convert_to_internal <$> curve_polyline p0 p1 p2 p3)
  ≡ convert_to_internal p3.
Proof.
  rewrite path_end_fmap, path_end_polyline. unfold curve_iter.
  now rewrite curve_param_last, curve_point_1.
Qed.

(** C7. Whenever [curve_to] returns on a running device, it returns [true] and
    leaves the tool at the converted last control point; nothing else in the
    object changes. *)
Theorem curve_to_end (p0 p1 p2 p3 : xy) s b s' :
  running (this s) = true -> curve_to p0 p1 p2 p3 s = Ok (b, s') ->
  b = true
  /\ current_position (this s') ≡ convert_to_internal p3
  /\ with_current_position (current_position (this s)) (this s') = this s.
Proof.
  intros Hr [-> Hthis]%curve_to_this. rewrite Hr in Hthis |- *. rewrite Hthis. cbn.
  split; [reflexivity |]. split; [apply curve_path_end | now destruct (this s)].
Qed.

(** C32. Starting a started device changes nothing. *)
Theorem start_idempotent s b s' : start s = Ok (b, s') -> start s' = Ok (true, s').
Proof.
  intros Hrun. branches start_run Hrun; injection Hrun as <- <-;
    match goal with
    | |- start ?s1 = _ => refine (start_keeps_canvas s1 _ _); (eassumption || reflexivity)
    end.
Qed.

(** [start] on a device that has a canvas keeps the canvas, the position and
    the tool width. *)
Theorem start_preserves s l b s' :
  image (this s) = Some l -> start s = Ok (b, s') ->
  mem s' = mem s /\ with_running (running (this s)) (this s') = this s.
Proof.
  intros Hi Hrun. rewrite (start_keeps_canvas s l Hi) in Hrun. injection Hrun as <- <-.
  split; [reflexivity |]. cbn. now destruct (this s).
Qed.

End object_effects.

(** ** Curves on the page *)

Section on_page.
Context `{Graphics}.
Implicit Types (s : State) (l : loc) (img : IplImage).

(** A curve whose control points are on the page converts to [int]
    everywhere: the polyline stays on the page. *)
Lemma curve_polyline_convertible (p0 p1 p2 p3 : xy) :
  on_page p0 -> on_page p1 -> on_page p2 -> on_page p3 ->
  Forall xy_convertible (convert_to_internal <$> curve_polyline p0 p1 p2 p3).
Proof.
  intros H0 H1 H2 H3. apply Forall_fmap.
  eapply Forall_impl; [exact (curve_polyline_in_box p0 p1 p2 p3 _ _ H0 H1 H2 H3) |].
  intros p Hp. now apply raster_convertible, convert_on_page.
Qed.

(** [curve_to] is defined on the page: with the control points on the page
    and a tool width that converts, it returns [true] and draws the path. *)
Theorem curve_to_on_page (p0 p1 p2 p3 : xy) s l img :
  can_draw s l img -> int_convertible (tool_width (this s)) ->
  on_page p0 -> on_page p1 -> on_page p2 -> on_page p3 ->
  curve_to p0 p1 p2 p3 s
  = Ok (true,
        drawn (path_end (convert_to_internal p0)
                 (convert_to_internal <$> curve_polyline p0 p1 p2 p3)) l
          (cut_path (tool_width (this s)) (convert_to_internal p0)
             (convert_to_internal <$> curve_polyline p0 p1 p2 p3) img) s).
Proof.
  intros Hdraw Hw H0 H1 H2 H3. rewrite (curve_to_running _ _ _ _ _ (proj1 Hdraw)).
  apply cut_all_moved; [assumption |].
  split; [assumption |]. split; [now apply raster_convertible, convert_on_page |].
  now apply curve_polyline_convertible.
Qed.

End on_page.

(** ** Sessions *)

Section sessions.
Context `{Graphics}.
Implicit Types (s : State) (l : loc).

(** C11. A session that is not saved is not cleared either: with a file name of
    at most four characters, [stop] then [start] gives the device back with
    its canvas as it was, lines included. *)
Theorem restart_keeps_canvas s l :
  image (this s) = Some l -> (String.length (output_filename (this s)) <= 4)%nat ->
  (stop;; start) s = Ok (true, on_this (with_running true) s).
Proof.
  intros Hi Hlen. erewrite M_bind_ok by (branch stop_run).
  exact (start_keeps_canvas (on_this (with_running false) s) l Hi).
Qed.

End sessions.
