(* ===== verification/Machine.v ===== *)
(** * Machine: the device as a transition system.

    A client drives the device through the public methods of [CV_sim].  This
    file runs the commands of [Commands] on the device, gives the step
    relation they induce on states, the invariant of the device and the
    theorems proved by induction on the reachable states: the invariant
    holds, no method ever uses an image pointer that is not allocated, and a
    running device always has its canvas. *)

From Stdlib Require Import QArith Qabs Lqa Lia ZArith.
From stdpp Require Import base decidable option list gmap strings relations.
From S2P Require Import Prelude Geometry Commands Bezier Graphics Device DeviceSpec.

#[local] Open Scope Q_scope.

(** What a method returns. *)
Inductive response : Type :=
  | RBool (b : bool)
  | RPoint (p : xy)
  | RImage (l : loc).

(** The size of the canvas [start] allocates. *)
Definition canvas_size : CvSize :=
  cvSize (DPI_X * DEFAULT_SIZE_X) (DPI_Y * DEFAULT_SIZE_Y).

Section machine.
Context `{Graphics}.

Definition exec (c : command) : M State response :=
  match c with
  | Start => RBool <$> start
  | Stop => RBool <$> stop
  | MoveTo p => RBool <$> move_to p
  | CutTo p => RBool <$> cut_to p
  | CurveTo p0 p1 p2 p3 => RBool <$> curve_to p0 p1 p2 p3
  | SetToolWidth w => RBool <$> set_tool_width w
  | GetDimensions => mret (RPoint get_dimensions)
  | GetImage => RImage <$> get_image
  end.

(** One method call that returns. *)
Inductive step : State -> State -> Prop :=
  | step_exec (c : command) (r : response) (s s' : State) :
      exec c s = Ok (r, s') -> step s s'.

(** The states a client can reach from a newly constructed device. *)
Definition reachable (s : State) : Prop :=
  exists filename, rtc step (initial_state (CV_sim_new_filename filename)) s.

(** A well-formed canvas: of the page's size, with its pixels written. *)
Definition canvas_ok (img : IplImage) : Prop :=
  image_size img = canvas_size /\ image_defined img.

(** The invariant of the device. *)
Record invariant (s : State) : Prop := mk_invariant {
  (* a running device has a canvas *)
  inv_running : running (this s) = true -> is_Some (image (this s));
  (* the canvas pointer is allocated and the canvas is well formed *)
  inv_canvas : forall l, image (this s) = Some l ->
    exists img, heap (mem s) !! l = Some img /\ canvas_ok img;
  (* the tool is at least one raster unit wide *)
  inv_width : 1 <= tool_width (this s);
  (* every image saved was a well-formed canvas, under the device's file
     name, which has more than four characters *)
  inv_saved : Forall (fun fi => fi.1 = output_filename (this s)
                                /\ (4 < String.length fi.1)%nat /\ canvas_ok fi.2)
                (saved (mem s));
}.

End machine.

(** ** The invariant is preserved *)

Section preservation.
Context `{Graphics}.
Implicit Types (s : State) (l : loc) (img : IplImage) (p : xy).

Lemma invariant_initial filename : invariant (initial_state (CV_sim_new_filename filename)).
Proof. split; cbn; [discriminate | discriminate | lra | constructor]. Qed.

(** A running device in the invariant can draw. *)
Lemma invariant_can_draw s :
  invariant s -> running (this s) = true ->
  exists l img, can_draw s l img /\ canvas_ok img.
Proof.
  intros Hinv Hr. destruct (inv_running s Hinv Hr) as [l Hi].
  destruct (inv_canvas s Hinv l Hi) as (img & Hl & Hsz). now exists l, img.
Qed.

Lemma invariant_moved p s : invariant s -> invariant (on_this (with_current_position p) s).
Proof. intros [Hr Hc Hw Hsv]. now split. Qed.

Lemma invariant_drawn p l img s :
  invariant s -> image (this s) = Some l -> canvas_ok img ->
  invariant (drawn p l img s).
Proof.
  intros [Hr Hc Hw Hsv] Hi Hsz. split; cbn; [assumption | | assumption | assumption].
  intros l' Hl'. assert (l' = l) as -> by congruence.
  exists img. split; [apply lookup_insert_eq | assumption].
Qed.

Lemma cut_line_ok (w : Q) (a b : xy) img : canvas_ok img -> canvas_ok (cut_line w a b img).
Proof.
  intros [Hsz Hdef]. split; [now rewrite <- Hsz; apply draw_line_size |].
  now apply draw_line_defined.
Qed.

Lemma move_to_triple p : hoare invariant (move_to p) (fun _ => invariant).
Proof.
  intros s Hinv. rewrite move_to_run. unfold move_to_result.
  destruct (running (this s)); [now apply invariant_moved | assumption].
Qed.

(** [cut_to] keeps the invariant, and its only fault is a conversion. *)
Lemma cut_to_triple p :
  triple invariant (cut_to p) (fun _ => invariant) (eq UndefinedConversion).
Proof.
  intros s Hinv. destruct (running (this s)) eqn:Hr; [| now rewrite cut_to_stopped].
  destruct (invariant_can_draw s Hinv Hr) as (l & img & (_ & Hi & Hl) & Hsz).
  rewrite cut_to_run. unfold cut_to_result. rewrite Hr, Hi, Hl.
  case_decide; [| reflexivity].
  apply invariant_drawn; [assumption | assumption | now apply cut_line_ok].
Qed.

Lemma curve_to_triple (p0 p1 p2 p3 : xy) :
  triple invariant (curve_to p0 p1 p2 p3) (fun _ => invariant) (eq UndefinedConversion).
Proof.
  apply curve_to_inv; [| apply cut_to_triple].
  intros p. eapply triple_conseq; [apply move_to_triple | auto | auto | easy].
Qed.

Lemma blank_canvas_ok : canvas_ok blank_canvas.
Proof.
  split; [| apply zero_data_defined].
  unfold blank_canvas. now rewrite zero_data_size, new_image_size.
Qed.

(** [start] always returns [true], and leaves a running device. *)
Lemma start_triple :
  hoare invariant start (fun b s => b = true /\ running (this s) = true /\ invariant s).
Proof.
  intros s Hinv. rewrite start_run. unfold start_result.
  destruct (image (this s)) as [l |] eqn:Hi; destruct Hinv as [Hr Hc Hw Hsv].
  - split; [reflexivity |]. split; [reflexivity |]. split; cbn; eauto.
  - split; [reflexivity |]. split; [reflexivity |].
    split; cbn; [eauto | | assumption | assumption].
    intros l [= <-]. exists blank_canvas.
    split; [apply lookup_insert_eq | apply blank_canvas_ok].
Qed.

(** [stop] always returns [true], and leaves a stopped device. *)
Lemma stop_triple :
  hoare invariant stop (fun b s => b = true /\ running (this s) = false /\ invariant s).
Proof.
  intros s Hinv. rewrite stop_run. unfold stop_result.
  destruct (image (this s)) as [l |] eqn:Hi.
  - destruct (inv_canvas s Hinv l Hi) as (img & Hl & Hsz). destruct Hinv as [Hr Hc Hw Hsv].
    rewrite Hl. case_decide as Hlen.
    + split; [reflexivity |]. split; [reflexivity |].
      split; cbn; [discriminate | discriminate | assumption |].
      apply Forall_app. split; [assumption |]. apply Forall_singleton. now cbn.
    + split; [reflexivity |]. split; [reflexivity |].
      split; cbn; [discriminate | assumption | assumption | assumption].
  - destruct Hinv as [Hr Hc Hw Hsv].
    split; [reflexivity |]. split; [reflexivity |].
    split; cbn; [discriminate | assumption | assumption | assumption].
Qed.

Lemma set_tool_width_triple (w : Q) :
  hoare invariant (set_tool_width w) (fun _ => invariant).
Proof.
  intros s Hinv. rewrite set_tool_width_run. unfold set_tool_width_result.
  case_decide; [| assumption]. destruct Hinv as [Hr Hc _ Hsv].
  split; cbn; [assumption | assumption | apply clamped_tool_width_ge_1 | assumption].
Qed.

(** [get_image] keeps the invariant; it faults on a null canvas or on a
    conversion. *)
Lemma get_image_triple :
  triple invariant get_image (fun _ => invariant)
    (fun e => e = BadArgument \/ e = UndefinedConversion).
Proof.
  intros s Hinv. rewrite get_image_run. unfold get_image_result.
  destruct (image (this s)) as [l |] eqn:Hi; [| now left].
  destruct (inv_canvas s Hinv l Hi) as (img & Hl & Hsz). rewrite Hl.
  case_decide; [| now right]. destruct Hinv as [Hr Hcv Hw Hsv].
  split; cbn; [assumption | | assumption | assumption].
  intros l' Hl'. assert (l' = l) as -> by congruence.
  exists img. split; [| assumption].
  rewrite lookup_insert_ne; [assumption | now apply (fresh_loc_ne (mem s) l img)].
Qed.

(** What the methods preserve, every command preserves: [curve_to] is made
    of [move_to] and [cut_to], and [get_dimensions] reads constants. *)
Lemma exec_inv (I : State -> Prop) (E : fault -> Prop) :
  triple I start (fun _ => I) E -> triple I stop (fun _ => I) E ->
  (forall p, triple I (move_to p) (fun _ => I) E) ->
  (forall p, triple I (cut_to p) (fun _ => I) E) ->
  (forall w, triple I (set_tool_width w) (fun _ => I) E) ->
  triple I get_image (fun _ => I) E ->
  forall c, triple I (exec c) (fun _ => I) E.
Proof.
  intros Hstart Hstop Hmove Hcut Hwidth Hget c.
  destruct c; cbn [exec]; try apply triple_fmap; auto using curve_to_inv with dev.
Qed.

(** Every command keeps the invariant and never touches an image that is
    not allocated. *)
Lemma exec_triple (c : command) :
  triple invariant (exec c) (fun _ => invariant) (fun e => e <> InvalidPointer).
Proof.
  apply exec_inv; intros.
  - eapply triple_conseq; [apply start_triple | auto | cbn; tauto | easy].
  - eapply triple_conseq; [apply stop_triple | auto | cbn; tauto | easy].
  - eapply triple_conseq; [apply move_to_triple | auto | auto | easy].
  - eapply triple_conseq; [apply cut_to_triple | auto | auto | now intros e <-].
  - eapply triple_conseq; [apply set_tool_width_triple | auto | auto | easy].
  - eapply triple_conseq; [apply get_image_triple | auto | auto |].
    now intros e [-> | ->].
Qed.

End preservation.

(** ** Reachable states *)

Section reachability.
Context `{Graphics}.
Implicit Types (s : State) (c : command).

Lemma step_invariant s s' : step s s' -> invariant s -> invariant s'.
Proof. intros [c r ? ? Hrun] Hinv. exact (triple_ok _ _ _ _ _ _ _ (exec_triple c) Hinv Hrun). Qed.

(** The invariant is inductive: it holds along every sequence of steps. *)
Lemma rtc_step_invariant s s' : rtc step s s' -> invariant s -> invariant s'.
Proof. induction 1; eauto using step_invariant. Qed.

(** The proof rule for reachable states: what follows from the invariant
    holds of every reachable state. *)
Lemma reachable_ind (P : State -> Prop) :
  (forall s, invariant s -> P s) -> forall s, reachable s -> P s.
Proof.
  intros HP s [filename Hreach].
  exact (HP s (rtc_step_invariant _ _ Hreach (invariant_initial filename))).
Qed.

(** C5. Every state reachable from a newly constructed device through the public
    methods satisfies the invariant: a running device has a canvas, the
    canvas pointer is allocated and the canvas has the page size with
    initialised pixels, the tool width is at least 1, and every saved image
    was a well-formed canvas. *)
Theorem reachable_invariant s : reachable s -> invariant s.
Proof.
  revert s. now apply reachable_ind.
Qed.

(** C6. Memory safety: from a reachable state no command uses an image that is
    not allocated. *)
Theorem reachable_memory_safe s c : reachable s -> exec c s <> Fault InvalidPointer.
Proof.
  revert s. refine (reachable_ind _ _). intros s Hinv Hrun.
  exact (triple_fault _ _ _ _ _ _ (exec_triple c) Hinv Hrun eq_refl).
Qed.

(** A running device always has its canvas: the branch of [cut_to] that
    skips the drawing is never taken from a reachable state. *)
Theorem reachable_running_canvas s :
  reachable s -> running (this s) = true ->
  exists l img, can_draw s l img /\ canvas_ok img.
Proof. revert s. refine (reachable_ind _ _). exact invariant_can_draw. Qed.

(** The tool width never drops below one raster unit. *)
Theorem reachable_tool_width s : reachable s -> 1 <= tool_width (this s).
Proof. revert s. refine (reachable_ind _ _). exact inv_width. Qed.

(** C33. A motion command on a stopped device fails and changes nothing:
    neither the position nor the canvas nor anything else. *)
Theorem stopped_motion_rejected c s :
  is_motion c = true -> running (this s) = false -> exec c s = Ok (RBool false, s).
Proof.
  intros Hc Hr. destruct c; try discriminate; cbn [exec]; munfold.
  - now rewrite move_to_stopped.
  - now rewrite cut_to_stopped.
  - now rewrite curve_to_stopped.
Qed.

(** Every file the device has written holds a well-formed canvas, under the
    device's file name, which has more than four characters. *)
Theorem reachable_saved s filename img :
  reachable s -> (filename, img) ∈ saved (mem s) ->
  filename = output_filename (this s) /\ (4 < String.length filename)%nat /\ canvas_ok img.
Proof.
  revert s. refine (reachable_ind _ _). intros s Hinv%inv_saved Hin.
  rewrite Forall_forall in Hinv. exact (Hinv _ Hin).
Qed.

(** One more step from a reachable state is reachable. *)
Lemma reachable_step s c r s' : reachable s -> exec c s = Ok (r, s') -> reachable s'.
Proof.
  intros [filename Hreach] Hrun. exists filename.
  eapply rtc_r; [exact Hreach | exact (step_exec c r s s' Hrun)].
Qed.

Lemma reachable_initial filename : reachable (initial_state (CV_sim_new_filename filename)).
Proof. exists filename. apply rtc_refl. Qed.

End reachability.
