(* ===== verification/Ownership.v ===== *)
(** * Ownership: the images of a session and who holds them.

    The heap holds the device's canvas and the snapshots [get_image] has
    handed out.  This file separates the two ([client_images] is the heap
    without the canvas), runs whole sessions ([run]) and proves that the
    device touches nothing but its canvas: snapshots are allocated at new
    locations, are never written or released by a later command, and at the
    end of a session every allocated image is a snapshot or the canvas. *)

From Stdlib Require Import QArith Lia ZArith.
From stdpp Require Import base decidable option list gmap strings relations.
From S2P Require Import Prelude Geometry Commands Bezier Graphics Device DeviceSpec Machine.

#[local] Open Scope Q_scope.

(** The image a response hands to the client. *)
Definition resp_locs (r : response) : list loc :=
  match r with
  | RImage l => [l]
  | _ => []
  end.

(** The snapshots of a session, in the order in which they were taken. *)
Definition snapshots (rs : list response) : list loc := rs ≫= resp_locs.

Section ownership.
Context `{Graphics}.

(** The location of the canvas, when there is one. *)
Definition canvas_dom (s : State) : gset loc :=
  match image (this s) with
  | Some l => {[ l ]}
  | None => ∅
  end.

(** The images that are not the device's canvas: those the client holds. *)
Definition client_images (s : State) : gmap loc IplImage :=
  match image (this s) with
  | Some l => delete l (heap (mem s))
  | None => heap (mem s)
  end.

(** A session: the commands of a client, in order, with their responses. *)
Fixpoint run (cs : list command) : M State (list response) :=
  match cs with
  | [] => mret []
  | c :: cs' => r ← exec c; rs ← run cs'; mret (r :: rs)
  end.

(** A device that will not give up its canvas: the canvas is allocated at
    [l] and the file name is too short for [stop] to save and release it;
    [sv] are the files written so far. *)
Definition holds_canvas (l : loc) (sv : list (string * IplImage)) (s : State) : Prop :=
  image (this s) = Some l /\ is_Some (heap (mem s) !! l)
  /\ (String.length (output_filename (this s)) <= 4)%nat
  /\ saved (mem s) = sv.

(** With a target that [stop] accepts, a stopped device has given up its
    canvas. *)
Definition released_when_stopped (s : State) : Prop :=
  (4 < String.length (output_filename (this s)))%nat ->
  running (this s) = false -> image (this s) = None.

(** A computation that leaves the client's images as they are. *)
Definition keeps_client_images {A} (m : M State A) : Prop :=
  forall cm, returns (fun s => client_images s = cm) m (fun _ s' => client_images s' = cm).

End ownership.

(** Reduces [keeps_client_images] of a method to the branches of its result
    function [Hrun] on which it returns. *)
Ltac keeps Hrun := intros cm s <-; returned Hrun; try reflexivity.

(** ** The methods and the client's images *)

Section frame.
Context `{Graphics}.
Implicit Types (s : State) (l : loc) (img : IplImage) (c : command) (r : response).

Lemma client_images_on_this (f : CV_sim -> CV_sim) s :
  image (f (this s)) = image (this s) -> client_images (on_this f s) = client_images s.
Proof. intros Hf. unfold client_images. cbn. now rewrite Hf. Qed.

Lemma client_images_drawn (p : xy) l img s :
  image (this s) = Some l -> client_images (drawn p l img s) = client_images s.
Proof. intros Hi. unfold client_images. cbn. rewrite Hi. apply delete_insert_eq. Qed.

Lemma move_to_keeps (p : xy) : keeps_client_images (move_to p).
Proof. keeps move_to_run. Qed.

Lemma cut_to_keeps (p : xy) : keeps_client_images (cut_to p).
Proof. keeps cut_to_run. now apply client_images_drawn. Qed.

Lemma set_tool_width_keeps (w : Q) : keeps_client_images (set_tool_width w).
Proof. keeps set_tool_width_run. Qed.

(** [start] allocates the canvas at a free location: not a client's. *)
Lemma start_keeps : keeps_client_images start.
Proof.
  keeps start_run. unfold client_images. cbn.
  rewrite delete_insert_eq, delete_id by apply fresh_loc_free.
  now destruct (image (this s)).
Qed.

(** [stop] releases the canvas and nothing else. *)
Lemma stop_keeps : keeps_client_images stop.
Proof.
  keeps stop_run. unfold client_images. cbn.
  match goal with Hi : image _ = Some _ |- _ => now rewrite Hi end.
Qed.

Lemma curve_to_keeps (p0 p1 p2 p3 : xy) : keeps_client_images (curve_to p0 p1 p2 p3).
Proof. intros cm. apply curve_to_inv; intros p; [apply move_to_keeps | apply cut_to_keeps]. Qed.

(** [get_image] gives the client one more image, at a location that was
    free, and leaves the others and the object as they are. *)
Lemma get_image_client s l' s' :
  get_image s = Ok (l', s') ->
(l' ∉ dom (heap (mem s))) /\ this s' = this s
  /\ exists snap, client_images s' = <[l' := snap]> (client_images s).
Proof.
  intros (l & img & Hi & Hl & _ & -> & ->)%get_image_inv.
  split; [apply is_fresh |]. split; [reflexivity |].
  exists (marker (current_position (this s)) img). unfold client_images. cbn. rewrite Hi.
  apply delete_insert_ne, not_eq_sym. now apply (fresh_loc_ne (mem s) l img).
Qed.

(** What one command does to the client's images: a snapshot adds one
    image, at a location that was free; any other command changes nothing. *)
Lemma exec_client c s r s' :
  exec c s = Ok (r, s') ->
  match r with
  | RImage l' =>
      (l' ∉ dom (heap (mem s)))
      /\ exists snap, client_images s' = <[l' := snap]> (client_images s)
  | _ => client_images s' = client_images s
  end.
Proof.
  intros Hrun. destruct c; cbn [exec] in Hrun;
    try (apply M_fmap_inv in Hrun as (b & Hrun & ->)).
  - exact (triple_ok _ _ _ _ _ _ _ (start_keeps _) eq_refl Hrun).
  - exact (triple_ok _ _ _ _ _ _ _ (stop_keeps _) eq_refl Hrun).
  - exact (triple_ok _ _ _ _ _ _ _ (move_to_keeps p _) eq_refl Hrun).
  - exact (triple_ok _ _ _ _ _ _ _ (cut_to_keeps p _) eq_refl Hrun).
  - exact (triple_ok _ _ _ _ _ _ _ (curve_to_keeps p0 p1 p2 p3 _) eq_refl Hrun).
  - exact (triple_ok _ _ _ _ _ _ _ (set_tool_width_keeps w _) eq_refl Hrun).
  - now injection Hrun as <- <-.
  - apply get_image_client in Hrun as (Hfree & _ & Hsnap). now split.
Qed.

(** The client's images are images of the heap. *)
Lemma client_images_heap s l img :
  client_images s !! l = Some img -> heap (mem s) !! l = Some img.
Proof.
  unfold client_images. destruct (image (this s)) as [lc |]; [| easy].
  now intros [_ Hl]%lookup_delete_Some.
Qed.

(** No command writes or releases an image of the client. *)
Lemma exec_keeps_image c s r s' l img :
  exec c s = Ok (r, s') -> client_images s !! l = Some img ->
  client_images s' !! l = Some img.
Proof.
  intros Hrun%exec_client Hl. destruct r as [b | q | l']; [congruence.. |].
  destruct Hrun as (Hfree & snap & ->). rewrite lookup_insert_ne; [assumption |].
  intros <-. apply client_images_heap in Hl. apply not_elem_of_dom in Hfree. congruence.
Qed.

(** The locations of the client's images after one command. *)
Lemma exec_client_dom c s r s' :
  exec c s = Ok (r, s') ->
  dom (client_images s') = dom (client_images s) ∪ list_to_set (resp_locs r).
Proof.
  intros Hrun%exec_client. destruct r as [b | q | l']; cbn;
    [now rewrite Hrun, union_empty_r_L.. |].
  destruct Hrun as (_ & snap & ->).
  now rewrite dom_insert_L, union_empty_r_L, (comm_L (∪)).
Qed.

End frame.

(** ** A canvas that is never released *)

Section short_name.
Context `{Graphics}.
Implicit Types (s : State) (l : loc) (c : command) (r : response)
  (sv : list (string * IplImage)).

(** Reduces a triple on [holds_canvas] to the branches of the result
    function [Hrun] of the method. *)
Ltac holds Hrun :=
  let Hrun' := fresh "Hrun" in
  intros s (Hi & Hl & Hlen & Hsv); unfold triple;
  match goal with |- match ?m s with _ => _ end => destruct (m s) as [[? ?] |] eqn:Hrun' end;
  [| exact I];
  branches Hrun Hrun'; try lia; try congruence; injection Hrun' as <- <-;
  repeat split; cbn; try assumption; try congruence.

Lemma move_to_holds (p : xy) l sv :
  returns (holds_canvas l sv) (move_to p) (fun _ => holds_canvas l sv).
Proof. holds move_to_run. Qed.

Lemma cut_to_holds (p : xy) l sv :
  returns (holds_canvas l sv) (cut_to p) (fun _ => holds_canvas l sv).
Proof.
  holds cut_to_run. assert (l0 = l) as -> by congruence. rewrite lookup_insert_eq. eauto.
Qed.

Lemma start_holds l sv :
  returns (holds_canvas l sv) start (fun _ => holds_canvas l sv).
Proof. holds start_run. Qed.

Lemma stop_holds l sv :
  returns (holds_canvas l sv) stop (fun _ => holds_canvas l sv).
Proof. holds stop_run. Qed.

Lemma set_tool_width_holds (w : Q) l sv :
  returns (holds_canvas l sv) (set_tool_width w) (fun _ => holds_canvas l sv).
Proof. holds set_tool_width_run. Qed.

Lemma get_image_holds l sv :
  returns (holds_canvas l sv) get_image (fun _ => holds_canvas l sv).
Proof.
  holds get_image_run. rewrite lookup_insert_ne; [assumption |].
  intros Heq. pose proof (fresh_loc_free (mem s)) as Hfree. rewrite Heq in Hfree.
  destruct Hl as [img Hl]. congruence.
Qed.

Lemma exec_holds c l sv :
  returns (holds_canvas l sv) (exec c) (fun _ => holds_canvas l sv).
Proof.
  revert c. apply exec_inv; intros;
    [apply start_holds | apply stop_holds | apply move_to_holds | apply cut_to_holds
    | apply set_tool_width_holds | apply get_image_holds].
Qed.

End short_name.

(** ** Sessions *)

Section sessions.
Context `{Graphics}.
Implicit Types (s : State) (l : loc) (img : IplImage) (c : command) (r : response)
  (cs : list command) (rs : list response).

Lemma run_cons_ok c cs s r s1 :
  exec c s = Ok (r, s1) -> run (c :: cs) s = (cons r <$> run cs) s1.
Proof. intros Hc. cbn [run]. now rewrite (M_bind_ok _ _ _ _ _ Hc). Qed.

Lemma run_cons_inv c cs s rs s' :
  run (c :: cs) s = Ok (rs, s') ->
  exists r s1 rs', exec c s = Ok (r, s1) /\ run cs s1 = Ok (rs', s') /\ rs = r :: rs'.
Proof.
  intros (r & s1 & Hc & Hrest)%M_bind_inv.
  apply M_bind_inv in Hrest as (rs' & s2 & Hcs & [= <- <-]). eauto 10.
Qed.

(** Induction on the commands of a session that returns. *)
Lemma run_ind (P : State -> list response -> State -> Prop) :
  (forall s, P s [] s) ->
  (forall c r s s1 rs s', exec c s = Ok (r, s1) -> P s1 rs s' -> P s (r :: rs) s') ->
  forall cs s rs s', run cs s = Ok (rs, s') -> P s rs s'.
Proof.
  intros Hnil Hcons cs. induction cs as [| c cs IH]; intros s rs s' Hrun.
  - injection Hrun as <- <-. apply Hnil.
  - apply run_cons_inv in Hrun as (r & s1 & rs' & Hc & Hcs & ->). eauto.
Qed.

(** What every command preserves, every session preserves. *)
Lemma run_inv (I : State -> Prop) (E : fault -> Prop) cs :
  (forall c, triple I (exec c) (fun _ => I) E) -> triple I (run cs) (fun _ => I) E.
Proof.
  intros Hexec. induction cs as [| c cs IH]; [now apply triple_ret |].
  cbn [run]. eapply triple_bind; [apply Hexec |]. intros r.
  eapply triple_bind; [apply IH |]. intros rs. now apply triple_ret.
Qed.

(** A session is a sequence of steps of the machine. *)
Lemma run_rtc cs s rs s' : run cs s = Ok (rs, s') -> rtc step s s'.
Proof.
  revert cs s rs s'. apply run_ind; [constructor |].
  intros c r s s1 rs s' Hc Hrest. exact (rtc_l _ _ _ _ (step_exec c r s s1 Hc) Hrest).
Qed.

Lemma run_invariant cs s rs s' : run cs s = Ok (rs, s') -> invariant s -> invariant s'.
Proof. intros Hrun%run_rtc. now apply rtc_step_invariant. Qed.

(** No method assigns [output_filename]: the target of a device is the one
    it was constructed with. *)
Lemma exec_filename c (name : string) :
  returns (fun s => output_filename (this s) = name) (exec c)
    (fun _ s => output_filename (this s) = name).
Proof.
  apply exec_inv; intros; intros s Hs;
    [ returned start_run | returned stop_run | returned move_to_run | returned cut_to_run
    | returned set_tool_width_run | returned get_image_run ]; exact Hs.
Qed.

Lemma run_filename cs s rs s' :
  run cs s = Ok (rs, s') -> output_filename (this s') = output_filename (this s).
Proof.
  intros Hrun.
  exact (triple_ok _ _ _ _ _ _ _ (run_inv _ _ cs (fun c => exec_filename c _)) eq_refl Hrun).
Qed.

(** A device with a valid target has a canvas only while it runs: [stop]
    releases what [start] allocated. *)
Lemma exec_released c :
  returns released_when_stopped (exec c) (fun _ => released_when_stopped).
Proof.
  apply exec_inv; intros; intros s Hs;
    [ returned start_run | returned stop_run | returned move_to_run | returned cut_to_run
    | returned set_tool_width_run | returned get_image_run ];
    unfold released_when_stopped in *; cbn in *; intros; try congruence; try lia; auto.
Qed.

(** One response for each command. *)
Lemma run_length cs s rs s' : run cs s = Ok (rs, s') -> length rs = length cs.
Proof.
  revert s rs s'. induction cs as [| c cs IH]; intros s rs s' Hrun.
  - now injection Hrun as <- <-.
  - apply run_cons_inv in Hrun as (r & s1 & rs' & _ & Hcs & ->). cbn. now rewrite (IH _ _ _ Hcs).
Qed.

(** A session never writes or releases an image of the client. *)
Lemma run_keeps_image cs s rs s' l img :
  run cs s = Ok (rs, s') -> client_images s !! l = Some img ->
  client_images s' !! l = Some img.
Proof.
  intros Hrun. revert cs s rs s' Hrun. refine (run_ind _ _ _); [easy |].
  intros c r s s1 rs s' Hc IH Hl. exact (IH (exec_keeps_image c s r s1 l img Hc Hl)).
Qed.

(** The client's images after a session: those it had, and the snapshots. *)
Lemma run_client_dom cs s rs s' :
  run cs s = Ok (rs, s') ->
  dom (client_images s') = dom (client_images s) ∪ list_to_set (snapshots rs).
Proof.
  revert cs s rs s'. apply run_ind.
  - intros s. cbn. now rewrite union_empty_r_L.
  - intros c r s s1 rs s' Hc ->. rewrite (exec_client_dom c s r s1 Hc).
    unfold snapshots. cbn. now rewrite list_to_set_app_L, (assoc_L (∪)).
Qed.

(** The heap of a device in its invariant: the client's images and the
    canvas. *)
Lemma dom_heap_client s :
  invariant s -> dom (heap (mem s)) = dom (client_images s) ∪ canvas_dom s.
Proof.
  intros Hinv. unfold client_images, canvas_dom.
  destruct (image (this s)) as [l |] eqn:Hi; [| now rewrite union_empty_r_L].
  destruct (inv_canvas s Hinv l Hi) as (img & Hl & _).
  rewrite dom_delete_L, difference_union_L, (comm_L (∪)). symmetry.
  apply subseteq_union_1_L.
  apply singleton_subseteq_l. now apply elem_of_dom.
Qed.

(** The snapshots of a session are new images, all different. *)
Lemma run_snapshots_fresh cs s rs s' :
  run cs s = Ok (rs, s') ->
  NoDup (snapshots rs) /\ Forall (fun l => l ∉ dom (client_images s)) (snapshots rs).
Proof.
  revert cs s rs s'. apply run_ind; [split; constructor |].
  intros c r s s1 rs s' Hc [Hnd Hfresh]. pose proof (exec_client_dom c s r s1 Hc) as Hdom.
  apply exec_client in Hc. rewrite Forall_forall in Hfresh.
  assert (Hold : Forall (fun l => l ∉ dom (client_images s)) (snapshots rs)).
  { apply Forall_forall. intros l Hl Hin. apply (Hfresh l Hl). rewrite Hdom.
    now apply elem_of_union_l. }
  destruct r as [b | q | l']; [easy.. |]. destruct Hc as (Hfree & snap & Hsnap).
  split; cbn.
  - apply NoDup_cons. split; [| assumption]. intros Hin.
    apply (Hfresh l' Hin). rewrite Hsnap, dom_insert_L. now apply elem_of_union_l, elem_of_singleton.
  - constructor; [| assumption]. intros Hin. apply Hfree.
    apply elem_of_dom in Hin as [img Himg]. apply elem_of_dom. exists img.
    now apply client_images_heap.
Qed.

(** An image of the client is not the canvas. *)
Lemma client_images_not_canvas s l img :
  client_images s !! l = Some img -> image (this s) <> Some l.
Proof.
  unfold client_images. intros Hl Hi. rewrite Hi in Hl.
  now apply lookup_delete_Some in Hl as [? _].
Qed.

(** C12. A snapshot belongs to the client: whatever session follows, the device
    neither writes it, nor releases it, nor takes it as its canvas. *)
Theorem snapshot_isolated s l' s1 cs rs s2 :
  get_image s = Ok (l', s1) -> run cs s1 = Ok (rs, s2) ->
  exists snap,
    heap (mem s1) !! l' = Some snap /\ heap (mem s2) !! l' = Some snap
    /\ image (this s2) <> Some l'.
Proof.
  intros (_ & _ & snap & Hsnap)%get_image_client Hrun. exists snap.
  assert (Hl : client_images s1 !! l' = Some snap) by (rewrite Hsnap; apply lookup_insert_eq).
  pose proof (run_keeps_image cs s1 rs s2 l' snap Hrun Hl) as Hl2.
  split; [now apply client_images_heap |].
  split; [now apply client_images_heap | now apply (client_images_not_canvas s2 l' snap)].
Qed.

(** At the end of a session the allocated images are the snapshots the
    client was given and the canvas, if the device still has one: the
    device holds no other image. *)
Theorem session_images (filename : string) cs rs s' :
  run cs (initial_state (CV_sim_new_filename filename)) = Ok (rs, s') ->
  dom (heap (mem s')) = list_to_set (snapshots rs) ∪ canvas_dom s'.
Proof.
  intros Hrun.
  rewrite (dom_heap_client s' (run_invariant _ _ _ _ Hrun (invariant_initial filename))).
  rewrite (run_client_dom _ _ _ _ Hrun). unfold client_images at 1. cbn.
  now rewrite dom_empty_L, union_empty_l_L.
Qed.

(** The snapshots of a session are pairwise distinct images, all still
    allocated at its end, and none of them is the canvas. *)
Theorem session_snapshots_distinct cs s rs s' :
  run cs s = Ok (rs, s') ->
  NoDup (snapshots rs)
  /\ Forall (fun l => is_Some (heap (mem s') !! l) /\ image (this s') <> Some l)
       (snapshots rs).
Proof.
  intros Hrun. split; [exact (proj1 (run_snapshots_fresh _ _ _ _ Hrun)) |].
  apply Forall_forall. intros l Hl.
  assert (Hin : l ∈ dom (client_images s')).
  { rewrite (run_client_dom _ _ _ _ Hrun). now apply elem_of_union_r, elem_of_list_to_set. }
  apply elem_of_dom in Hin as [img Himg].
  split; [exists img; now apply client_images_heap |].
  now apply (client_images_not_canvas s' l img).
Qed.

(** C27. With a file name of at most four characters the device never gives up
    its canvas: after any session the pointer is the same and the image is
    still allocated; [stop] has neither saved nor released it. *)
Theorem short_name_keeps_canvas cs s rs s' l :
  image (this s) = Some l -> is_Some (heap (mem s) !! l) ->
  (String.length (output_filename (this s)) <= 4)%nat ->
  run cs s = Ok (rs, s') ->
  image (this s') = Some l /\ is_Some (heap (mem s') !! l) /\ saved (mem s') = saved (mem s).
Proof.
  intros Hi Hl Hlen Hrun.
  assert (Hs : holds_canvas l (saved (mem s)) s) by easy.
  pose proof (run_inv (holds_canvas l (saved (mem s))) _ cs (fun c => exec_holds c l _))
    as Hsession.
  now destruct (triple_ok _ _ _ _ _ _ _ Hsession Hs Hrun) as (? & ? & _ & ?).
Qed.

End sessions.
