(* ===== verification/StateEquiv.v ===== *)
(** * StateEquiv: the device up to the value of its coordinates.

    A [double] is modelled by a rational, and two rationals with the same
    value ([1 # 2] and [2 # 4]) are different terms.  This file gives the
    equivalence of objects, states, commands and outcomes that identifies
    them ([≡]: the flag, the pointer, the file name and the memory are
    equal, the position and the width are equal as rationals), and proves
    that every method, [exec] and [run] are morphisms for it: what a session
    returns, the fault it raises and every image it draws depend on the
    coordinates it is given only through their value. *)

From Stdlib Require Import QArith Qabs Lqa Lia ZArith.
From stdpp Require Import base decidable option list gmap strings.
From S2P Require Import Prelude Geometry Commands Bezier Graphics Device DeviceSpec Machine.
From S2P Require Import Ownership.

#[local] Open Scope Q_scope.

(** Two objects with the same members, the [double]s up to their value. *)
#[export] Instance CV_sim_equiv : Equiv CV_sim := fun d e =>
  running d = running e
  /\ image d = image e
  /\ current_position d ≡ current_position e
  /\ tool_width d == tool_width e
  /\ output_filename d = output_filename e.

(** The same method, with arguments of the same value. *)
#[export] Instance command_equiv : Equiv command := fun c c' =>
  match c, c' with
  | Start, Start | Stop, Stop | GetDimensions, GetDimensions | GetImage, GetImage => True
  | MoveTo p, MoveTo q | CutTo p, CutTo q => p ≡ q
  | CurveTo p0 p1 p2 p3, CurveTo q0 q1 q2 q3 => p0 ≡ q0 /\ p1 ≡ q1 /\ p2 ≡ q2 /\ p3 ≡ q3
  | SetToolWidth w, SetToolWidth v => w == v
  | _, _ => False
  end.

(** Two sessions of the same calls, with arguments of the same value. *)
Definition same_session : relation (list command) := Forall2 (≡).

#[export] Instance CV_sim_equiv_decision (d e : CV_sim) : Decision (d ≡ e).
Proof. unfold equiv, CV_sim_equiv. apply _. Defined.

#[export] Instance command_equiv_decision (c c' : command) : Decision (c ≡ c').
Proof. destruct c, c'; cbn; apply _. Defined.

#[export] Instance same_session_decision (cs cs' : list command) : Decision (same_session cs cs').
Proof. unfold same_session. apply _. Defined.

Section state_equiv.
Context `{Graphics}.

(** Equivalent objects over the same memory: images hold integers only. *)
#[export] Instance State_equiv : Equiv State := fun s t =>
  this s ≡ this t /\ mem s = mem t.

(** The same result with equivalent states, or the same fault. *)
#[export] Instance outcome_equiv {A} : Equiv (outcome (A * State)) := fun o o' =>
  match o, o' with
  | Ok (a, s), Ok (b, t) => a = b /\ s ≡ t
  | Fault e, Fault e' => e = e'
  | _, _ => False
  end.

End state_equiv.

(** Replaces a test on a proposition by the same test on an equivalent
    one, given the equivalence [Hiff]. *)
Ltac decide_iff Hiff :=
  match type of Hiff with
  | ?P <-> ?Q => destruct (decide P), (decide Q); [| tauto | tauto |]
  end.

(** ** The setoids *)

#[export] Instance CV_sim_equivalence : Equivalence (≡@{CV_sim}).
Proof.
  split.
  - intros d. repeat split; reflexivity.
  - intros d e (? & ? & ? & ? & ?). split_and!; now symmetry.
  - intros d e f (? & ? & ? & ? & ?) (? & ? & ? & ? & ?).
    split_and!; etransitivity; eassumption.
Qed.

#[export] Instance command_equivalence : Equivalence (≡@{command}).
Proof.
  split.
  - intros []; cbn; repeat split; reflexivity.
  - intros [] []; cbn; try easy; intuition (now symmetry).
  - intros [] [] []; cbn; try easy; intuition (etransitivity; eassumption).
Qed.

#[export] Instance scaled_tool_width_proper : Proper (Qeq ==> Qeq) scaled_tool_width.
Proof. intros w v Hwv. unfold scaled_tool_width. now rewrite Hwv. Qed.

#[export] Instance clamped_tool_width_proper : Proper (Qeq ==> Qeq) clamped_tool_width.
Proof.
  intros w v Hwv. unfold clamped_tool_width.
  assert (Hiff : scaled_tool_width w < 1 <-> scaled_tool_width v < 1) by (now rewrite Hwv).
  decide_iff Hiff; [reflexivity | now rewrite Hwv].
Qed.

#[export] Instance pixel_of_proper : Proper ((≡) ==> eq) pixel_of.
Proof. intros p q [Hx Hy]. unfold pixel_of. now rewrite Hx, Hy. Qed.

#[export] Instance marker_convertible_proper : Proper ((≡) ==> iff) marker_convertible.
Proof.
  intros p q [Hx Hy]. unfold marker_convertible, xy_convertible. cbn.
  now rewrite Hx, Hy.
Qed.

Lemma path_convertible_proper (w w' : Q) (a a' : xy) (ps ps' : list xy) :
  w == w' -> a ≡ a' -> Forall2 (≡) ps ps' ->
  path_convertible w a ps -> path_convertible w' a' ps'.
Proof.
  intros Hw Ha Hps (Hcw & Hca & Hcps). split; [now rewrite <- Hw |].
  split; [now rewrite <- Ha |].
  induction Hps as [| p p' ps ps' Hp _ IH]; [constructor |].
  apply Forall_cons in Hcps as [Hcp Hcps]. constructor; [now rewrite <- Hp | auto].
Qed.

Section drawing.
Context `{Graphics}.
Implicit Types (s t : State) (p q : xy) (img : IplImage) (l : loc).

#[export] Instance State_equivalence : Equivalence (≡@{State}).
Proof.
  split.
  - intros s. split; reflexivity.
  - intros s t [? ?]. split; now symmetry.
  - intros s t u [? ?] [? ?]. split; etransitivity; eassumption.
Qed.

#[export] Instance outcome_equivalence {A} : Equivalence (≡@{outcome (A * State)}).
Proof.
  split.
  - intros [[a s] | e]; cbn; [split |]; reflexivity.
  - intros [[a s] | e] [[b t] | e']; cbn; easy.
  - intros [[a s] | e] [[b t] | e'] [[c u] | e'']; cbn; try easy; [| congruence].
    intros [? ?] [? ?]. split; etransitivity; eassumption.
Qed.

#[export] Instance cut_line_proper : Proper (Qeq ==> (≡) ==> (≡) ==> eq ==> eq) cut_line.
Proof. intros w v Hwv a a' Ha b b' Hb img ? <-. unfold cut_line. now rewrite Hwv, Ha, Hb. Qed.

Lemma marker_proper p q img : p ≡ q -> marker p img = marker q img.
Proof.
  intros Hpq. pose proof Hpq as [Hx Hy]. unfold marker.
  now rewrite (pixel_of_proper _ _ Hpq), Hx, Hy.
Qed.

#[export] Instance cut_convertible_proper : Proper ((≡) ==> (≡) ==> iff) cut_convertible.
Proof.
  intros s t [(_ & _ & Hp & Hw & _) _] p q Hpq. unfold cut_convertible.
  now rewrite Hp, Hw, Hpq.
Qed.

(** The invariant does not see how a rational is written. *)
Lemma invariant_equiv s t : s ≡ t -> invariant s -> invariant t.
Proof.
  intros [(Hr & Hi & _ & Hw & Hf) Hm] [Hrun Hcanvas Hwidth Hsaved].
  split; rewrite <- ?Hr, <- ?Hi, <- ?Hw, <- ?Hf, <- ?Hm; assumption.
Qed.

#[export] Instance invariant_proper : Proper ((≡) ==> iff) invariant.
Proof. intros s t Hst. split; apply invariant_equiv; [assumption | now symmetry]. Qed.

(** *** Equivalent states, built the same way *)

Lemma Ok_equiv {A} (a : A) s t : s ≡ t -> Ok (a, s) ≡ Ok (a, t).
Proof. now split. Qed.

Lemma State_equiv_intro s t :
  running (this s) = running (this t) -> image (this s) = image (this t) ->
  current_position (this s) ≡ current_position (this t) ->
  tool_width (this s) == tool_width (this t) ->
  output_filename (this s) = output_filename (this t) -> mem s = mem t ->
  s ≡ t.
Proof. intros Hr Hi Hp Hw Hf Hm. exact (conj (conj Hr (conj Hi (conj Hp (conj Hw Hf)))) Hm). Qed.

Lemma moved_equiv p q s t :
  p ≡ q -> s ≡ t ->
  on_this (with_current_position p) s ≡ on_this (with_current_position q) t.
Proof. intros Hpq [(? & ? & ? & ? & ?) ?]. now apply State_equiv_intro. Qed.

Lemma with_running_equiv (b : bool) s t :
  s ≡ t -> on_this (with_running b) s ≡ on_this (with_running b) t.
Proof. intros [(? & ? & ? & ? & ?) ?]. now apply State_equiv_intro. Qed.

Lemma with_image_equiv (o : option loc) s t :
  s ≡ t -> on_this (with_image o) s ≡ on_this (with_image o) t.
Proof. intros [(? & ? & ? & ? & ?) ?]. now apply State_equiv_intro. Qed.

Lemma with_tool_width_equiv (w v : Q) s t :
  w == v -> s ≡ t -> on_this (with_tool_width w) s ≡ on_this (with_tool_width v) t.
Proof. intros Hwv [(? & ? & ? & ? & ?) ?]. now apply State_equiv_intro. Qed.

Lemma on_mem_equiv (f : Memory -> Memory) s t : s ≡ t -> on_mem f s ≡ on_mem f t.
Proof. intros [? Hm]. split; [assumption |]. cbn. now rewrite Hm. Qed.

Lemma drawn_equiv p q l img s t : p ≡ q -> s ≡ t -> drawn p l img s ≡ drawn q l img t.
Proof. intros Hpq Hst. now apply moved_equiv, on_mem_equiv. Qed.

End drawing.

Create HintDb equiv discriminated.

#[export] Hint Resolve Ok_equiv moved_equiv with_running_equiv with_image_equiv
  with_tool_width_equiv on_mem_equiv drawn_equiv : equiv.
#[export] Hint Extern 1 (convert_to_internal _ ≡ convert_to_internal _) =>
  apply convert_to_internal_proper : equiv.
#[export] Hint Extern 1 (clamped_tool_width _ == clamped_tool_width _) =>
  apply clamped_tool_width_proper : equiv.

(** Opens the goal that a method is a morphism: the method becomes its
    result function [Hrun], and the members of the second state that are
    equal to the first state's are replaced by them. *)
Ltac morphism Hrun :=
  intros s t Hst; rewrite !Hrun;
  unfold move_to_result, cut_to_result, start_result, stop_result,
    set_tool_width_result, get_image_result;
  pose proof Hst as [(Hr & Hi & Hp & Hw & Hf) Hm];
  rewrite <- ?Hr, <- ?Hi, <- ?Hf, <- ?Hm.

(** ** The methods are morphisms *)

Section morphisms.
Context `{Graphics}.
Implicit Types (s t : State) (p q : xy) (c : command) (cs : list command).

(** Sequencing: equivalent computations followed by continuations that
    agree on equivalent states. *)
Lemma M_bind_equiv {A B} (m m' : M State A) (f f' : A -> M State B) s t :
  m s ≡ m' t ->
  (forall a s1 t1, s1 ≡ t1 -> f a s1 ≡ f' a t1) ->
  (m ≫= f) s ≡ (m' ≫= f') t.
Proof.
  intros Hm Hf. unfold mbind, M_bind.
  destruct (m s) as [[a s1] |], (m' t) as [[b t1] |]; cbn in Hm; try easy.
  destruct Hm as [<- Hst]. now apply Hf.
Qed.

Lemma M_fmap_equiv {A B} (g : A -> B) (m m' : M State A) s t :
  m s ≡ m' t -> (g <$> m) s ≡ (g <$> m') t.
Proof.
  intros Hm. unfold fmap, M_fmap.
  destruct (m s) as [[a s1] |], (m' t) as [[b t1] |]; cbn in Hm |- *; try easy.
  destruct Hm as [<- Hst]. now split.
Qed.

#[export] Instance move_to_proper : Proper ((≡) ==> (≡) ==> (≡)) move_to.
Proof.
  intros p q Hpq. morphism move_to_run.
  destruct (running (this s)); auto with equiv.
Qed.

#[export] Instance cut_to_proper : Proper ((≡) ==> (≡) ==> (≡)) cut_to.
Proof.
  intros p q Hpq. morphism cut_to_run.
  destruct (running (this s)); [| auto with equiv].
  destruct (image (this s)) as [l |]; [| auto with equiv].
  pose proof (cut_convertible_proper s t Hst p q Hpq) as Hiff.
  decide_iff Hiff; [| reflexivity].
  destruct (heap (mem s) !! l) as [img |]; [| reflexivity].
  rewrite (cut_line_proper _ _ Hw _ _ Hp _ _ (convert_to_internal_proper _ _ Hpq) img img eq_refl).
  auto with equiv.
Qed.

#[export] Instance start_proper : Proper ((≡) ==> (≡)) start.
Proof. morphism start_run. destruct (image (this s)); auto 6 with equiv. Qed.

#[export] Instance stop_proper : Proper ((≡) ==> (≡)) stop.
Proof.
  morphism stop_run.
  destruct (image (this s)) as [l |]; [| auto with equiv].
  case_decide; [| auto with equiv].
  destruct (heap (mem s) !! l) as [img |]; [| reflexivity].
  apply Ok_equiv. now apply State_equiv_intro.
Qed.

#[export] Instance set_tool_width_proper : Proper (Qeq ==> (≡) ==> (≡)) set_tool_width.
Proof.
  intros w v Hwv. morphism set_tool_width_run.
  assert (Hiff : 0 < w <-> 0 < v) by (now rewrite Hwv).
  decide_iff Hiff; auto with equiv.
Qed.

#[export] Instance get_image_proper : Proper ((≡) ==> (≡)) get_image.
Proof.
  morphism get_image_run.
  destruct (image (this s)) as [l |]; [| reflexivity].
  destruct (heap (mem s) !! l) as [img |]; [| reflexivity].
  pose proof (marker_convertible_proper _ _ Hp) as Hiff.
  decide_iff Hiff; [| reflexivity].
  rewrite (marker_proper _ _ img Hp). auto with equiv.
Qed.

(** The cuts along two paths of the same values. *)
Lemma cut_all_equiv (ps qs : list xy) :
  Forall2 (≡) ps qs -> forall s t, s ≡ t -> cut_all ps s ≡ cut_all qs t.
Proof.
  unfold cut_all. induction 1 as [| p q ps qs Hpq _ IH]; intros s t Hst; cbn.
  - now apply Ok_equiv.
  - apply M_bind_equiv; [| intros [] s1 t1 Hst1; now apply IH].
    apply M_bind_equiv; [now apply cut_to_proper |].
    intros b s1 t1 Hst1. now apply Ok_equiv.
Qed.

Lemma curve_polyline_equiv (p0 p1 p2 p3 q0 q1 q2 q3 : xy) :
  p0 ≡ q0 -> p1 ≡ q1 -> p2 ≡ q2 -> p3 ≡ q3 ->
  Forall2 (≡) (curve_polyline p0 p1 p2 p3) (curve_polyline q0 q1 q2 q3).
Proof.
  intros H0 H1 H2 H3. unfold curve_polyline. apply Forall2_fmap, Forall_Forall2_diag.
  apply Forall_forall. intros i _. now apply curve_iter_proper.
Qed.

#[export] Instance curve_to_proper :
  Proper ((≡) ==> (≡) ==> (≡) ==> (≡) ==> (≡) ==> (≡)) curve_to.
Proof.
  intros p0 q0 H0 p1 q1 H1 p2 q2 H2 p3 q3 H3 s t Hst.
  pose proof Hst as [(Hr & _) _].
  destruct (running (this s)) eqn:Hrs.
  - rewrite !curve_to_running by congruence.
    apply M_bind_equiv; [| intros [] s1 t1 Hst1; now apply Ok_equiv].
    apply cut_all_equiv; [now apply curve_polyline_equiv | auto with equiv].
  - rewrite !curve_to_stopped by congruence. now apply Ok_equiv.
Qed.

#[export] Instance exec_proper : Proper ((≡) ==> (≡) ==> (≡)) exec.
Proof.
  intros c c' Hc s t Hst.
  destruct c, c'; cbn in Hc; try contradiction; cbn [exec];
    try (apply M_fmap_equiv); try (now apply Ok_equiv).
  - now apply start_proper.
  - now apply stop_proper.
  - now apply move_to_proper.
  - now apply cut_to_proper.
  - destruct Hc as (? & ? & ? & ?). now apply curve_to_proper.
  - now apply set_tool_width_proper.
  - now apply get_image_proper.
Qed.

#[export] Instance run_proper : Proper (same_session ==> (≡) ==> (≡)) run.
Proof.
  intros cs cs' Hcs. induction Hcs as [| c c' cs cs' Hc _ IH]; intros s t Hst; cbn [run].
  - now apply Ok_equiv.
  - apply M_bind_equiv; [now apply exec_proper |]. intros r s1 t1 Hst1.
    apply M_bind_equiv; [now apply IH |]. intros rs s2 t2 Hst2. now apply Ok_equiv.
Qed.

End morphisms.

(** ** Sessions up to the value of their coordinates *)

Section sessions.
Context `{Graphics}.
Implicit Types (s t : State) (cs : list command) (rs : list response).

(** Equivalent sessions fault alike. *)
Lemma run_equiv_fault cs cs' s t (e : fault) :
  same_session cs cs' -> s ≡ t -> run cs s = Fault e -> run cs' t = Fault e.
Proof.
  intros Hcs Hst Hrun. pose proof (run_proper _ _ Hcs _ _ Hst) as Heq.
  rewrite Hrun in Heq. destruct (run cs' t) as [[rs t'] |]; cbn in Heq; [easy | congruence].
Qed.


End sessions.
