(* ===== verification/Faults.v ===== *)
(** * Faults: exactly when a command faults, and with which fault.

    The device tests little: a motion tests the running flag, [stop] the
    pointer and the file name, [set_tool_width] the sign.  What it does not
    test is where it can fault: the conversions of [cut_to] and [get_image]
    to [int], and the pointer [get_image] clones.  This file gives the
    condition under which each command is defined ([defined]), the fault
    it raises otherwise ([fault_of]), and proves that on every state of the
    invariant a command returns if and only if it is defined, and faults
    with [fault_of] if not; a session that faults does so at its first
    command that is not defined. *)

From Stdlib Require Import QArith Qabs Lqa Lia ZArith.
From stdpp Require Import base decidable option list gmap strings relations.
From S2P Require Import Prelude Geometry Commands Bezier Graphics Device DeviceSpec Machine.
From S2P Require Import Ownership StateEquiv.

#[local] Open Scope Q_scope.

Section faults_defs.
Context `{Graphics}.

(** The device is in a state in which a cut draws: it runs and has a
    canvas. *)
Definition draws (s : State) : Prop :=
  running (this s) = true /\ is_Some (image (this s)).

(** The canvas pointer is null or points to an allocated image. *)
Definition canvas_allocated (s : State) : Prop :=
  match image (this s) with
  | Some l => is_Some (heap (mem s) !! l)
  | None => True
  end.

(** The condition under which a command is defined: where it draws, the
    conversions to [int] of the coordinates and of the width are defined;
    a snapshot has a canvas to clone. *)
Definition defined (c : command) (s : State) : Prop :=
  match c with
  | CutTo p => draws s -> cut_convertible s p
  | CurveTo p0 p1 p2 p3 =>
      draws s ->
      path_convertible (tool_width (this s)) (convert_to_internal p0)
        (convert_to_internal <$> curve_polyline p0 p1 p2 p3)
  | GetImage => is_Some (image (this s)) /\ marker_convertible (current_position (this s))
  | _ => True
  end.

(** The fault of a command that is not defined: [cvCloneImage] rejects the
    null pointer, every other failure is a conversion. *)
Definition fault_of (c : command) (s : State) : fault :=
  match c, image (this s) with
  | GetImage, None => BadArgument
  | _, _ => UndefinedConversion
  end.

(** An outcome decided by a condition: a result where it holds, the fault
    [e] where it does not. *)
Definition verdict {A} (P : Prop) (o : outcome A) (e : fault) : Prop :=
  (P -> is_Ok o) /\ (~ P -> o = Fault e).

#[export] Instance draws_decision s : Decision (draws s).
Proof. unfold draws. apply _. Defined.

#[export] Instance defined_decision c s : Decision (defined c s).
Proof. destruct c; cbn; apply _. Defined.

#[export] Instance canvas_allocated_decision s : Decision (canvas_allocated s).
Proof. unfold canvas_allocated. destruct (image (this s)); apply _. Defined.

End faults_defs.

(** ** Verdicts *)

Section verdicts.
Context {A B : Type} {St : Type}.

Lemma verdict_ok (P : Prop) (o : outcome A) (e : fault) : P -> is_Ok o -> verdict P o e.
Proof. intros HP Hok. split; [auto | contradiction]. Qed.

Lemma verdict_fault (P : Prop) (e : fault) : ~ P -> verdict P (Fault e : outcome A) e.
Proof. intros HP. split; [contradiction | reflexivity]. Qed.

Lemma verdict_iff (P P' : Prop) (o : outcome A) (e : fault) :
  (P <-> P') -> verdict P o e -> verdict P' o e.
Proof. intros Hiff [Hok Hf]. split; intros HP; [apply Hok | apply Hf]; tauto. Qed.

Lemma verdict_fmap (h : A -> B) (P : Prop) (m : M St A) (s : St) (e : fault) :
  verdict P (m s) e -> verdict P ((h <$> m) s) e.
Proof.
  intros [Hok Hf]. split.
  - intros [[a s'] Hm]%Hok. exists (h a, s'). now apply M_fmap_ok.
  - intros Hm%Hf. now apply M_fmap_fault.
Qed.

(** A verdict is the outcome: it returns exactly where the condition
    holds. *)
Lemma verdict_is_Ok (P : Prop) `{Decision P} (o : outcome A) (e : fault) :
  verdict P o e -> (is_Ok o <-> P).
Proof.
  intros [Hok Hf]. split; [| exact Hok]. intros [a Ha].
  destruct (decide P) as [HP | HP]; [assumption |]. rewrite (Hf HP) in Ha. discriminate.
Qed.

End verdicts.

(** ** The methods *)

Section methods.
Context `{Graphics}.
Implicit Types (s : State) (p : xy) (ps : list xy) (l : loc) (img : IplImage) (c : command)
  (cs : list command).

Lemma start_returns s : is_Ok (start s).
Proof. rewrite start_run. unfold start_result. destruct (image (this s)); now eexists. Qed.

Lemma move_to_returns p s : is_Ok (move_to p s).
Proof. rewrite move_to_run. unfold move_to_result. destruct (running (this s)); now eexists. Qed.

Lemma set_tool_width_returns (w : Q) s : is_Ok (set_tool_width w s).
Proof. rewrite set_tool_width_run. unfold set_tool_width_result. case_decide; now eexists. Qed.

Lemma invariant_allocated s : invariant s -> canvas_allocated s.
Proof.
  intros Hinv. unfold canvas_allocated. destruct (image (this s)) as [l |] eqn:Hi; [| exact I].
  destruct (inv_canvas s Hinv l Hi) as (img & -> & _). eauto.
Qed.

(** The image behind the pointer of a device that draws. *)
Lemma draws_can_draw s : canvas_allocated s -> draws s -> exists l img, can_draw s l img.
Proof.
  unfold canvas_allocated. intros Ha [Hr [l Hi]]. rewrite Hi in Ha.
  destruct Ha as [img Hl]. now exists l, img.
Qed.

(** [stop] returns when the canvas pointer is allocated. *)
Lemma stop_returns s : canvas_allocated s -> is_Ok (stop s).
Proof.
  unfold canvas_allocated. intros Ha. rewrite stop_run. unfold stop_result.
  destruct (image (this s)) as [l |]; [| now eexists].
  destruct Ha as [img ->]. case_decide; now eexists.
Qed.

(** A device that does not draw accepts every cut. *)
Lemma cut_to_blind p s : ~ draws s -> is_Ok (cut_to p s).
Proof.
  intros Hd. rewrite cut_to_run. unfold cut_to_result.
  destruct (running (this s)) eqn:Hr; [| now eexists].
  destruct (image (this s)) as [l |] eqn:Hi; [| now eexists].
  exfalso. apply Hd. split; [exact Hr | rewrite Hi; eauto].
Qed.

Lemma cut_to_verdict p s :
  canvas_allocated s -> verdict (defined (CutTo p) s) (cut_to p s) UndefinedConversion.
Proof.
  intros Ha. destruct (decide (draws s)) as [Hd | Hd].
  - destruct (draws_can_draw s Ha Hd) as (l & img & Hdraw).
    apply (verdict_iff (cut_convertible s p)); [cbn; tauto |].
    split; intros Hc; [rewrite (cut_to_drawn p s l img Hdraw Hc); now eexists |].
    destruct Hdraw as (Hr & Hi & Hl). branch cut_to_run.
  - apply verdict_ok; [now intros ? | now apply cut_to_blind].
Qed.

(** Without a canvas every cut returns. *)
Lemma cut_all_blind ps : forall s,
  running (this s) = true -> image (this s) = None -> is_Ok (cut_all ps s).
Proof.
  induction ps as [| p ps IH]; intros s Hr Hi; [now exists (tt, s) |].
  erewrite cut_all_cons by (branch cut_to_run). now apply IH.
Qed.

(** A sequence of cuts on a device that draws faults when one of its
    conversions is not defined. *)
Lemma cut_all_undefined ps : forall s l img,
  can_draw s l img -> ps <> [] ->
  ~ path_convertible (tool_width (this s)) (current_position (this s))
      (convert_to_internal <$> ps) ->
  cut_all ps s = Fault UndefinedConversion.
Proof.
  induction ps as [| p ps IH]; intros s l img Hdraw Hne Hnc; [contradiction |].
  destruct (decide (cut_convertible s p)) as [Hc | Hc].
  - rewrite (cut_all_cons _ _ _ _ _ (cut_to_drawn p s l img Hdraw Hc)).
    destruct Hc as (Ha & Hp & Hw).
    apply (IH _ l _ (can_draw_drawn _ _ _ _ _ Hdraw)).
    + intros ->. apply Hnc. split; [assumption |]. split; [assumption |].
      cbn. constructor; [assumption | constructor].
    + cbn. intros (_ & _ & Hps). apply Hnc. split; [assumption |].
      split; [assumption |]. cbn. now constructor.
  - apply cut_all_cons_fault. destruct Hdraw as (Hr & Hi & Hl). branch cut_to_run.
Qed.

(** The cuts of [curve_to], after its move to [p0], on a device that
    draws. *)
Lemma curve_cuts_verdict (p0 : xy) ps s l img :
  can_draw s l img -> ps <> [] ->
  verdict (path_convertible (tool_width (this s)) (convert_to_internal p0)
             (convert_to_internal <$> ps))
    ((cut_all ps;; mret true) (on_this (with_current_position (convert_to_internal p0)) s))
    UndefinedConversion.
Proof.
  intros Hdraw Hne. split; intros Hc.
  - rewrite (cut_all_moved p0 _ s l img Hdraw Hc). now eexists.
  - apply M_bind_fault. apply (cut_all_undefined _ _ l img); [| assumption | exact Hc].
    destruct Hdraw as (? & ? & ?). now repeat split.
Qed.

Lemma curve_to_verdict (p0 p1 p2 p3 : xy) s :
  canvas_allocated s ->
  verdict (defined (CurveTo p0 p1 p2 p3) s) (curve_to p0 p1 p2 p3 s) UndefinedConversion.
Proof.
  intros Ha. destruct (decide (draws s)) as [Hd | Hd].
  - destruct (draws_can_draw s Ha Hd) as (l & img & Hdraw).
    rewrite (curve_to_running _ _ _ _ _ (proj1 Hd)).
    eapply verdict_iff; [| now apply (curve_cuts_verdict p0 _ s l img)]. cbn. tauto.
  - apply verdict_ok; [now intros ? |].
    destruct (running (this s)) eqn:Hr;
      [| rewrite curve_to_stopped by assumption; now eexists].
    rewrite (curve_to_running _ _ _ _ _ Hr).
    destruct (cut_all_blind (curve_polyline p0 p1 p2 p3)
                (on_this (with_current_position (convert_to_internal p0)) s) Hr)
      as [[[] s1] Hcuts]; [| rewrite (M_bind_ok _ _ _ _ _ Hcuts); now eexists].
    cbn. destruct (image (this s)) as [l |] eqn:Hi; [| reflexivity].
    destruct Hd. split; [exact Hr | rewrite Hi; eauto].
Qed.

Lemma get_image_verdict s :
  canvas_allocated s -> verdict (defined GetImage s) (get_image s) (fault_of GetImage s).
Proof.
  unfold canvas_allocated. intros Ha.
  rewrite get_image_run. unfold get_image_result, fault_of. cbn [defined].
  destruct (image (this s)) as [l |]; [| apply verdict_fault; intros [[? [=]] _]].
  destruct Ha as [img ->].
  case_decide; [apply verdict_ok; [split; [eauto | assumption] | now eexists] |].
  apply verdict_fault. tauto.
Qed.

Lemma exec_verdict c s : canvas_allocated s -> verdict (defined c s) (exec c s) (fault_of c s).
Proof.
  intros Ha. destruct c; cbn [exec];
    try (apply verdict_fmap);
    try (apply verdict_ok; [exact I |]).
  - apply start_returns.
  - now apply stop_returns.
  - apply move_to_returns.
  - now apply cut_to_verdict.
  - now apply curve_to_verdict.
  - apply set_tool_width_returns.
  - now eexists.
  - now apply get_image_verdict.
Qed.

End methods.

(** ** The domain up to the value of the coordinates *)

Section domain_equiv.
Context `{Graphics}.
Implicit Types (s t : State) (c : command).

#[export] Instance draws_proper : Proper ((≡) ==> iff) draws.
Proof. intros s t [(Hr & Hi & _) _]. unfold draws. now rewrite Hr, Hi. Qed.

#[export] Instance canvas_allocated_proper : Proper ((≡) ==> iff) canvas_allocated.
Proof. intros s t [(_ & Hi & _) Hm]. unfold canvas_allocated. now rewrite Hi, Hm. Qed.

(** One direction: the other follows by symmetry. *)
Lemma defined_equiv c c' s t : c ≡ c' -> s ≡ t -> defined c s -> defined c' t.
Proof.
  intros Hc Hst. pose proof Hst as [(_ & Hi & Hp & Hw & _) _].
  destruct c, c'; cbn in Hc; try contradiction; cbn; try easy.
  - rewrite <- (draws_proper _ _ Hst). intros Hd Hdraw.
    now apply (cut_convertible_proper s t Hst _ _ Hc), Hd.
  - destruct Hc as (H0 & H1 & H2 & H3). rewrite <- (draws_proper _ _ Hst). intros Hd Hdraw.
    refine (path_convertible_proper _ _ _ _ _ _ Hw _ _ (Hd Hdraw)); [now rewrite H0 |].
    apply Forall2_fmap. eapply Forall2_impl; [now apply curve_polyline_equiv |].
    intros p q Hpq. now rewrite Hpq.
  - rewrite <- Hi. intros [Hc' Hm]. split; [assumption | now rewrite <- Hp].
Qed.

#[export] Instance defined_proper : Proper ((≡) ==> (≡) ==> iff) defined.
Proof. intros c c' Hc s t Hst. split; apply defined_equiv; now symmetry || assumption. Qed.

#[export] Instance fault_of_proper : Proper ((≡) ==> (≡) ==> eq) fault_of.
Proof.
  intros c c' Hc s t [(_ & Hi & _) _]. unfold fault_of. rewrite <- Hi.
  now destruct c, c'; cbn in Hc; try contradiction.
Qed.

End domain_equiv.

(** ** Commands and sessions *)

Section sessions.
Context `{Graphics}.
Implicit Types (s : State) (c : command) (cs : list command) (rs : list response).

(** C14. The domain of a command.  On a state whose canvas pointer is null or
    allocated, as in every reachable state, a command returns when it is
    defined, and only then; when it is not, it raises the fault [fault_of]
    and no other: the device has exactly two ways to fail, a snapshot
    without a canvas and a conversion out of the range of [int]. *)
Theorem exec_faults c s :
  canvas_allocated s ->
  (is_Ok (exec c s) <-> defined c s)
  /\ (~ defined c s -> exec c s = Fault (fault_of c s)).
Proof.
  intros Ha. pose proof (exec_verdict c s Ha) as Hv.
  split; [exact (verdict_is_Ok _ _ _ Hv) | exact (proj2 Hv)].
Qed.

(** A session stops at the first fault. *)
Lemma run_cons_fault c cs s (e : fault) : exec c s = Fault e -> run (c :: cs) s = Fault e.
Proof. intros Hc. cbn [run]. now apply M_bind_fault. Qed.

(** C15. The fault of a session.  A session from a state of the invariant that
    faults has run its commands up to the first one that is not defined in
    the state it is called in, and its fault is the fault of that command. *)
Theorem run_faults cs : forall s (e : fault),
  invariant s -> run cs s = Fault e ->
  exists cs1 c cs2 rs s1,
    cs = cs1 ++ c :: cs2 /\ run cs1 s = Ok (rs, s1)
    /\ ~ defined c s1 /\ e = fault_of c s1.
Proof.
  induction cs as [| c cs IH]; intros s e Hinv Hrun; [discriminate |].
  destruct (exec c s) as [[r s1] | e1] eqn:Hc.
  - rewrite (run_cons_ok _ _ _ _ _ Hc) in Hrun.
    destruct (run cs s1) as [[rs s2] | e2] eqn:Hcs;
      [rewrite (M_fmap_ok _ _ _ _ _ Hcs) in Hrun; discriminate |].
    rewrite (M_fmap_fault _ _ _ _ Hcs) in Hrun. injection Hrun as ->.
    destruct (IH s1 e (triple_ok _ _ _ _ _ _ _ (exec_triple c) Hinv Hc) Hcs)
      as (cs1 & c' & cs2 & rs & s' & -> & Hrun1 & Hnd & He).
    exists (c :: cs1), c', cs2, (r :: rs), s'. split; [reflexivity |].
    split; [| easy]. rewrite (run_cons_ok _ _ _ _ _ Hc). now apply M_fmap_ok.
  - rewrite (run_cons_fault _ _ _ _ Hc) in Hrun. injection Hrun as ->.
    destruct (exec_verdict c s (invariant_allocated s Hinv)) as [Hok Hf].
    destruct (decide (defined c s)) as [Hd | Hd];
      [destruct (Hok Hd) as [? Hr]; congruence |].
    exists [], c, cs, [], s. rewrite (Hf Hd) in Hc. injection Hc as <-. easy.
Qed.

End sessions.
