(* ===== verification/Typing.v ===== *)
(** * Typing: the header of every image the device creates.

    An [IplImage] carries its size, its depth and its number of channels.
    [start] creates the canvas as a 600 x 600 image of one 8-bit channel;
    every other image of the system is derived from a canvas ([get_image]
    clones it, [stop] hands it to the encoder), and no OpenCV call the
    device makes changes a header.  This file states the type of an image,
    proves that every method preserves the typing of the memory, and
    concludes that every image of a session (the canvas, the snapshots given
    to the client, the files) has the type of the canvas.  It also gives the
    size of the buffer [memset] clears and the range of the pixel values the
    device writes. *)

From Stdlib Require Import QArith Qabs Lqa Lia ZArith.
From stdpp Require Import base decidable option list gmap strings.
From S2P Require Import Prelude Geometry Commands Bezier Graphics Device DeviceSpec Machine.
From S2P Require Import Ownership.

#[local] Open Scope Q_scope.

(** The type of an image: the fields of its header that [cvCreateImage]
    sets. *)
Record image_type : Type := mk_image_type {
  ty_size : CvSize;
  ty_depth : Z;
  ty_channels : Z;
}.

#[export] Instance image_type_eq_dec : EqDecision image_type.
Proof. solve_decision. Defined.

(** The type of the canvas: [cvCreateImage(cvSize(DPI_X * DEFAULT_SIZE_X,
    DPI_Y * DEFAULT_SIZE_Y), IPL_DEPTH_8U, 1)]. *)
Definition canvas_type : image_type := mk_image_type canvas_size IPL_DEPTH_8U 1.

(** [widthStep]: the bytes of a row, padded to a multiple of four. *)
Definition width_step (t : image_type) : Z :=
  ((width (ty_size t) * ty_channels t * (ty_depth t / 8) + 3) / 4 * 4)%Z.

(** [imageSize]: the bytes of the pixel buffer, which [start] clears. *)
Definition image_bytes (t : image_type) : Z := (height (ty_size t) * width_step t)%Z.

(** The largest value a channel of a pixel holds. *)
Definition max_value (t : image_type) : Z := (2 ^ ty_depth t - 1)%Z.

(** A colour whose first component, the one written to a single-channel
    image, is a value of the pixel type. *)
Definition colour_fits (t : image_type) (col : CvScalar) : Prop :=
  0 <= val0 col <= inject_Z (max_value t).

#[export] Instance colour_fits_decision t col : Decision (colour_fits t col).
Proof. unfold colour_fits. apply _. Defined.

Section typing_defs.
Context `{Graphics}.

Definition type_of (img : IplImage) : image_type :=
  mk_image_type (image_size img) (image_depth img) (image_channels img).

(** Every allocated image and every image handed to the encoder has type
    [t]. *)
Definition memory_typed (t : image_type) (m : Memory) : Prop :=
  map_Forall (fun _ img => type_of img = t) (heap m)
  /\ Forall (fun fi => type_of fi.2 = t) (saved m).

#[export] Instance memory_typed_decision t m : Decision (memory_typed t m).
Proof. unfold memory_typed. apply _. Defined.

Definition state_typed (s : State) : Prop := memory_typed canvas_type (mem s).

#[export] Instance state_typed_decision s : Decision (state_typed s).
Proof. unfold state_typed. apply _. Defined.

End typing_defs.

Create HintDb typing discriminated.

(** Reduces the preservation of [state_typed] by a method to the branches
    of its result function [Hrun] on which it returns. *)
Ltac typed Hrun := intros s Ht; returned Hrun; eauto with typing.

(** ** Drawing keeps the type *)

Section drawing.
Context `{Graphics}.
Implicit Types (img : IplImage) (t : image_type) (m : Memory) (l : loc).

Lemma type_of_zero_data img : type_of (zero_data img) = type_of img.
Proof.
  unfold type_of. now rewrite zero_data_size, zero_data_depth, zero_data_channels.
Qed.

Lemma type_of_draw_line img a b col th lt sh :
  type_of (draw_line img a b col th lt sh) = type_of img.
Proof.
  unfold type_of. now rewrite draw_line_size, draw_line_depth, draw_line_channels.
Qed.

Lemma type_of_draw_circle img ctr r col th lt sh :
  type_of (draw_circle img ctr r col th lt sh) = type_of img.
Proof.
  unfold type_of. now rewrite draw_circle_size, draw_circle_depth, draw_circle_channels.
Qed.

Lemma type_of_new_image sz d c : type_of (new_image sz d c) = mk_image_type sz d c.
Proof.
  unfold type_of. now rewrite new_image_size, new_image_depth, new_image_channels.
Qed.

Lemma type_of_blank_canvas : type_of blank_canvas = canvas_type.
Proof. unfold blank_canvas. now rewrite type_of_zero_data, type_of_new_image. Qed.

Lemma type_of_cut_line (w : Q) (a b : xy) img : type_of (cut_line w a b img) = type_of img.
Proof. apply type_of_draw_line. Qed.

Lemma type_of_cut_path (w : Q) (ps : list xy) : forall (a : xy) img,
  type_of (cut_path w a ps img) = type_of img.
Proof.
  induction ps as [| p ps IH]; intros a img; cbn; [reflexivity |].
  now rewrite IH, type_of_cut_line.
Qed.

Lemma type_of_marker (p : xy) img : type_of (marker p img) = type_of img.
Proof. unfold marker. now rewrite !type_of_draw_line, type_of_draw_circle. Qed.

(** A canvas-typed image has the page's size: the first condition of
    [canvas_ok]. *)
Lemma canvas_type_size img : type_of img = canvas_type -> image_size img = canvas_size.
Proof. now intros [= -> _ _]. Qed.

(** ** Typed memories *)

Lemma memory_typed_empty t : memory_typed t empty_memory.
Proof. split; [apply map_Forall_empty | constructor]. Qed.

Lemma memory_typed_lookup t m l img :
  memory_typed t m -> heap m !! l = Some img -> type_of img = t.
Proof. intros [Hh _] Hl. exact (Hh l img Hl). Qed.

Lemma memory_typed_insert t m l img :
  memory_typed t m -> type_of img = t -> memory_typed t (set_heap <[l := img]> m).
Proof. intros [Hh Hs] Himg. split; [now apply map_Forall_insert_2 | assumption]. Qed.

(** Saving an allocated image and releasing it. *)
Lemma memory_typed_persisted t m l img (name : string) :
  memory_typed t m -> heap m !! l = Some img ->
  memory_typed t (mk_Memory (delete l (heap m)) (saved m ++ [(name, img)])).
Proof.
  intros [Hh Hs] Hl. split; cbn.
  - now apply map_Forall_delete.
  - apply Forall_app. split; [assumption |]. apply Forall_singleton. exact (Hh l img Hl).
Qed.

End drawing.

#[export] Hint Resolve memory_typed_empty memory_typed_insert memory_typed_persisted
  type_of_blank_canvas : typing.

(** ** The methods keep the memory typed *)

Section preservation.
Context `{Graphics}.
Implicit Types (s : State) (l : loc) (img : IplImage) (c : command)
  (cs : list command) (rs : list response).

Lemma state_typed_initial (d : CV_sim) : state_typed (initial_state d).
Proof. apply memory_typed_empty. Qed.

Lemma state_typed_on_this (f : CV_sim -> CV_sim) s : state_typed s -> state_typed (on_this f s).
Proof. easy. Qed.

(** Replacing an allocated image by a drawing on it. *)
Lemma state_typed_drawn (p : xy) l img img' s :
  state_typed s -> heap (mem s) !! l = Some img -> type_of img' = type_of img ->
  state_typed (drawn p l img' s).
Proof.
  intros Ht Hl Himg. apply memory_typed_insert; [assumption |].
  rewrite Himg. exact (memory_typed_lookup _ _ _ _ Ht Hl).
Qed.

Lemma move_to_typed (p : xy) : returns state_typed (move_to p) (fun _ => state_typed).
Proof. typed move_to_run. Qed.

Lemma cut_to_typed (p : xy) : returns state_typed (cut_to p) (fun _ => state_typed).
Proof. typed cut_to_run. eapply state_typed_drawn; eauto using type_of_cut_line. Qed.

Lemma set_tool_width_typed (w : Q) :
  returns state_typed (set_tool_width w) (fun _ => state_typed).
Proof. typed set_tool_width_run. Qed.

(** The image [start] allocates has the type of the canvas. *)
Lemma start_typed : returns state_typed start (fun _ => state_typed).
Proof. typed start_run. apply memory_typed_insert; auto with typing. Qed.

Lemma stop_typed : returns state_typed stop (fun _ => state_typed).
Proof. typed stop_run. now apply memory_typed_persisted. Qed.

(** The clone has the header of the canvas, and the marker keeps it. *)
Lemma get_image_typed : returns state_typed get_image (fun _ => state_typed).
Proof.
  typed get_image_run. apply memory_typed_insert; [assumption |].
  rewrite type_of_marker. eauto using memory_typed_lookup.
Qed.

(** Type preservation: every command keeps the memory typed. *)
Lemma exec_typed c : returns state_typed (exec c) (fun _ => state_typed).
Proof.
  apply exec_inv; intros;
    [ apply start_typed | apply stop_typed | apply move_to_typed | apply cut_to_typed
    | apply set_tool_width_typed | apply get_image_typed ].
Qed.

Lemma run_typed cs : returns state_typed (run cs) (fun _ => state_typed).
Proof. apply run_inv, exec_typed. Qed.

End preservation.

(** ** The images of a session *)

Section sessions.
Context `{Graphics}.
Implicit Types (s : State) (l : loc) (img : IplImage) (cs : list command)
  (rs : list response).

(** The buffer [start] clears is 600 rows of 600 bytes; its size fits the
    [int] field [imageSize]. *)
Lemma canvas_bytes : image_bytes canvas_type = 360000%Z /\ int_range (image_bytes canvas_type).
Proof. by_compute. Qed.

(** The two colours the device draws with are values of an 8-bit pixel. *)
Lemma colours_fit : colour_fits canvas_type cut_grey /\ colour_fits canvas_type marker_rgb.
Proof. by_compute. Qed.

(** C22. Typing of a session.  From a typed memory (the memory of a new device
    is), whatever commands a session runs: every allocated image is a 600 x
    600 image of one 8-bit channel, in particular every snapshot the
    client was given, and so is every image that was handed to the
    encoder. *)
Theorem session_typed cs s rs s' :
  state_typed s -> run cs s = Ok (rs, s') ->
  (forall l img, heap (mem s') !! l = Some img -> type_of img = canvas_type)
  /\ (forall l, l ∈ snapshots rs ->
        exists img, heap (mem s') !! l = Some img /\ type_of img = canvas_type)
  /\ (forall name img, (name, img) ∈ saved (mem s') -> type_of img = canvas_type).
Proof.
  intros Ht Hrun. pose proof (triple_ok _ _ _ _ _ _ _ (run_typed cs) Ht Hrun) as [Hh Hs].
  split; [exact Hh |]. split.
  - intros l Hl.
    assert (Hin : l ∈ dom (client_images s')).
    { rewrite (run_client_dom _ _ _ _ Hrun). now apply elem_of_union_r, elem_of_list_to_set. }
    apply elem_of_dom in Hin as [img Himg%client_images_heap]. eauto.
  - intros name img Hin. rewrite Forall_forall in Hs. exact (Hs _ Hin).
Qed.

End sessions.
