(* ===== verification/Liveness.v ===== *)
(** * Liveness: a session that follows the protocol is carried out.

    A client drives the device with the commands it still has to issue.
    The protocol of the device is: snapshots are taken between [start] and
    [stop], the points of motions are on the page and the tool is no wider
    than the page.  This file shows that a client following the protocol is
    never stuck (every command returns, whatever the state the session has
    reached), and that, once the device runs, a session that contains a
    [stop] eventually reaches the state in which the device is stopped, the
    canvas has been handed to the encoder under the device's target and the
    image has been released.

    [eventually] is the inductive "on every path, after finitely many
    steps"; the client's commands are the only source of steps, so it is
    proved by induction on the commands that are left. *)

From Stdlib Require Import QArith Qabs Lqa Lia ZArith.
From stdpp Require Import base decidable option list gmap strings relations.
From S2P Require Import Prelude Geometry Commands Bezier Graphics Device DeviceSpec Machine.
From S2P Require Import Ownership.

#[local] Open Scope Q_scope.

(** ** Eventually *)

Section temporal.
Context {A : Type} (R : relation A).

(** [eventually P a]: every sequence of steps from [a] reaches a state
    satisfying [P], and no state before it is stuck. *)
Inductive eventually (P : A -> Prop) : A -> Prop :=
  | eventually_now (a : A) : P a -> eventually P a
  | eventually_later (a : A) :
      (exists a', R a a') -> (forall a', R a a' -> eventually P a') -> eventually P a.

End temporal.

(** ** The protocol *)

(** The raster: the page in raster units. *)
Definition on_raster (p : xy) : Prop := in_box (mk_xy 0 0) (mk_xy 600 600) p.

(** The widest tool of the protocol, in raster units: the page's width,
    plus the half unit [set_tool_width] adds, rounded up. *)
Definition max_tool_width : Q := 601.

(** A command whose arguments are within the page. *)
Definition page_command (c : command) : Prop :=
  match c with
  | MoveTo p | CutTo p => on_page p
  | CurveTo p0 p1 p2 p3 => on_page p0 /\ on_page p1 /\ on_page p2 /\ on_page p3
  | SetToolWidth w => w <= x get_dimensions
  | _ => True
  end.

#[export] Instance page_command_decision c : Decision (page_command c).
Proof. destruct c; cbn; apply _. Defined.

(** The command that takes a snapshot. *)
Definition is_snapshot (c : command) : bool :=
  match c with
  | GetImage => true
  | _ => false
  end.

Definition is_stop (c : command) : bool :=
  match c with
  | Stop => true
  | _ => false
  end.

(** The run flag after a command that returned. *)
Definition next_running (c : command) (r : bool) : bool :=
  match c with
  | Start => true
  | Stop => false
  | _ => r
  end.

(** A session that follows the protocol, from a device whose run flag is
    [r]: commands are within the page and snapshots are taken while the
    device runs. *)
Fixpoint protocol (r : bool) (cs : list command) : Prop :=
  match cs with
  | [] => True
  | c :: cs' =>
      page_command c /\ (is_snapshot c = true -> r = true)
      /\ protocol (next_running c r) cs'
  end.

#[export] Instance protocol_decision cs : forall r, Decision (protocol r cs).
Proof. induction cs as [| c cs IH]; intros r; cbn; apply _. Defined.

Section client.
Context `{Graphics}.

(** A state from which the protocol can be followed: the invariant of the
    device holds, the tool is on the raster and it is not too wide. *)
Definition ready (s : State) : Prop :=
  invariant s /\ on_raster (current_position (this s))
  /\ tool_width (this s) <= max_tool_width.

(** A client: the commands it has still to issue, and the device. *)
Definition config : Type := list command * State.

(** The client issues its next command, and the command returns. *)
Inductive drive : relation config :=
  | drive_exec (c : command) (cs : list command) (r : response) (s s' : State) :
      exec c s = Ok (r, s') -> drive (c :: cs, s) (cs, s').

(** The canvas the device had in [s0] has been persisted: the device is
    stopped and has given up its image, and one more image has been handed
    to the encoder, under the target of the device: a well-formed canvas. *)
Definition persisted_since (s0 s : State) : Prop :=
  running (this s) = false /\ image (this s) = None
  /\ exists img, saved (mem s) = saved (mem s0) ++ [(output_filename (this s0), img)]
                 /\ canvas_ok img.

End client.

(** ** Rules for [eventually] *)

Section temporal_rules.
Context {A : Type} (R : relation A).
Implicit Types (P Q : A -> Prop) (a : A).

Lemma eventually_mono P Q a :
  (forall a', P a' -> Q a') -> eventually R P a -> eventually R Q a.
Proof.
  intros HPQ. induction 1 as [a Ha | a Hex _ IH];
    [now apply eventually_now, HPQ | now apply eventually_later].
Qed.

Lemma eventually_trans P Q a :
  eventually R P a -> (forall a', P a' -> eventually R Q a') -> eventually R Q a.
Proof.
  intros Hev HPQ. induction Hev as [a Ha | a Hex _ IH];
    [now apply HPQ | now apply eventually_later].
Qed.

(** When [a] has one successor only, what eventually holds of it
    eventually holds of [a]. *)
Lemma eventually_next P a a' :
  R a a' -> (forall b, R a b -> b = a') -> eventually R P a' -> eventually R P a.
Proof.
  intros Hstep Hdet Hev. apply eventually_later; [now exists a' |].
  now intros b ->%Hdet.
Qed.

(** What eventually holds is reached. *)
Lemma eventually_rtc P a : eventually R P a -> exists a', rtc R a a' /\ P a'.
Proof.
  induction 1 as [a Ha | a [a1 Hstep] _ IH]; [now exists a |].
  destruct (IH a1 Hstep) as (a' & Hreach & Ha'). exists a'.
  split; [exact (rtc_l _ _ _ _ Hstep Hreach) | assumption].
Qed.

End temporal_rules.

(** ** Conversions on the raster *)

Section raster.
Context `{Graphics}.
Implicit Types (s : State) (p : xy) (w : Q).

(** Coordinates within five units of the raster convert to [int]. *)
Lemma near_raster_convertible (a : Q) : -5 <= a -> a <= 605 -> int_convertible a.
Proof. apply int_convertible_between; by_compute. Qed.

(** On the raster the marker of [get_image] can be drawn. *)
Lemma on_raster_marker p : on_raster p -> marker_convertible p.
Proof.
  intros [[Hx0 Hx1] [Hy0 Hy1]]. cbn in *. unfold marker_convertible, xy_convertible. cbn.
  split_and!; apply near_raster_convertible; lra.
Qed.

Lemma ready_width s : ready s -> int_convertible (tool_width (this s)).
Proof.
  intros (Hinv & _ & Hw). apply (int_convertible_between 1 max_tool_width); try by_compute.
  - exact (inv_width s Hinv).
  - exact Hw.
Qed.

(** From a ready state a cut to a point of the page is defined. *)
Lemma ready_cut_convertible s p : ready s -> on_page p -> cut_convertible s p.
Proof.
  intros Hs Hp. split; [apply raster_convertible, Hs |].
  split; [now apply raster_convertible, convert_on_page | now apply ready_width].
Qed.

(** The width [set_tool_width] stores for a tool no wider than the page. *)
Lemma clamped_tool_width_le w :
  0 < w -> w <= x get_dimensions -> clamped_tool_width w <= max_tool_width.
Proof.
  intros Hpos Hw. unfold clamped_tool_width, max_tool_width.
  change (x get_dimensions) with 6 in Hw.
  case_decide; [lra |]. rewrite scaled_tool_width_eq by lra. lra.
Qed.

Lemma ready_initial (filename : string) : ready (initial_state (CV_sim_new_filename filename)).
Proof. split; [apply invariant_initial | by_compute]. Qed.

End raster.

(** ** Every command of the protocol returns *)

(** Reduces the total correctness of a method on ready states to the
    branches of its result function [Hrun]; the triple [Htriple] of the
    method gives the invariant of the final state. *)
Ltac ready Htriple Hrun :=
  let Hinv := fresh "Hinv" in
  let Hinv' := fresh "Hinv'" in
  intros s Hs; pose proof Hs as (Hinv & Hpos & Hw);
  pose proof (Htriple s Hinv) as Hinv'; unfold triple;
  rewrite Hrun in *;
  unfold move_to_result, cut_to_result, start_result, stop_result,
    set_tool_width_result, get_image_result in *.

Section progress.
Context `{Graphics}.
Implicit Types (s : State) (p : xy) (w : Q) (c : command) (cs : list command).

Lemma start_ready : hoare ready start (fun _ => ready).
Proof.
  ready start_triple start_run. destruct (image (this s)); (split; [apply Hinv' | split; cbn; assumption]).
Qed.

Lemma stop_ready : hoare ready stop (fun _ => ready).
Proof.
  ready stop_triple stop_run.
  repeat case_match; simplify_eq; try easy; (split; [apply Hinv' | split; cbn; assumption]).
Qed.

Lemma move_to_ready p : on_page p -> hoare ready (move_to p) (fun _ => ready).
Proof.
  intros Hp. ready (move_to_triple p) move_to_run.
  destruct (running (this s)); [| assumption].
  split; [assumption |]. split; [now apply convert_on_page | assumption].
Qed.

Lemma cut_to_ready p : on_page p -> hoare ready (cut_to p) (fun _ => ready).
Proof.
  intros Hp. pose proof (ready_cut_convertible) as Hconv. ready (cut_to_triple p) cut_to_run.
  specialize (Hconv s p Hs Hp).
  repeat case_match; simplify_eq; try easy; (split; [assumption |]);
    (split; [now apply convert_on_page | assumption]).
Qed.

(** The twenty cuts of a curve with control points on the page are
    defined, and the tool ends on the raster, at the last control point. *)
Lemma curve_to_ready (p0 p1 p2 p3 : xy) :
  on_page p0 -> on_page p1 -> on_page p2 -> on_page p3 ->
  hoare ready (curve_to p0 p1 p2 p3) (fun _ => ready).
Proof.
  intros H0 H1 H2 H3 s Hs. pose proof Hs as (Hinv & Hpos & Hw). unfold triple.
  pose proof (curve_to_triple p0 p1 p2 p3 s Hinv) as Hinv'.
  destruct (running (this s)) eqn:Hr; [| now rewrite curve_to_stopped].
  destruct (invariant_can_draw s Hinv Hr) as (l & img & Hdraw & _).
  rewrite (curve_to_running _ _ _ _ _ Hr) in Hinv' |- *.
  assert (Hconv : path_convertible (tool_width (this s)) (convert_to_internal p0)
                    (convert_to_internal <$> curve_polyline p0 p1 p2 p3)).
  { split; [now apply ready_width |].
    split; [now apply raster_convertible, convert_on_page |].
    now apply curve_polyline_convertible. }
  rewrite (cut_all_moved p0 _ s l img Hdraw Hconv) in Hinv' |- *.
  split; [exact Hinv' |]. split; [| exact Hw]. cbn.
  rewrite path_end_fmap, path_end_polyline. unfold curve_iter, on_raster.
  rewrite curve_param_last, curve_point_1. now apply convert_on_page.
Qed.

Lemma set_tool_width_ready w :
  w <= x get_dimensions -> hoare ready (set_tool_width w) (fun _ => ready).
Proof.
  intros Hle. ready (set_tool_width_triple w) set_tool_width_run.
  case_decide; [| assumption].
  split; [exact Hinv' |]. split; [exact Hpos | now apply clamped_tool_width_le].
Qed.

(** A running device has a canvas to clone, and on the raster the marker
    converts. *)
Lemma get_image_ready :
  hoare (fun s => ready s /\ running (this s) = true) get_image (fun _ => ready).
Proof.
  intros s [Hs Hr]. pose proof Hs as (Hinv & Hpos & Hw). unfold triple.
  pose proof (get_image_triple s Hinv) as Hinv'.
  destruct (invariant_can_draw s Hinv Hr) as (l & img & (_ & Hi & Hl) & _).
  rewrite get_image_run in Hinv' |- *. unfold get_image_result in *.
  rewrite Hi, Hl, decide_True in Hinv' |- * by now apply on_raster_marker.
  split; [exact Hinv' | now split].
Qed.

Lemma ready_pre {A} (G : State -> Prop) (m : M State A) :
  hoare ready m (fun _ => ready) -> hoare (fun s => ready s /\ G s) m (fun _ => ready).
Proof. intros Hm s [Hs _]. exact (Hm s Hs). Qed.

(** Progress: from a ready state every command of the protocol returns,
    and leaves a ready state. *)
Lemma exec_ready c :
  page_command c ->
  hoare (fun s => ready s /\ (is_snapshot c = true -> running (this s) = true))
    (exec c) (fun _ => ready).
Proof.
  intros Hc. destruct c; cbn [exec]; try apply triple_fmap.
  - apply ready_pre, start_ready.
  - apply ready_pre, stop_ready.
  - now apply ready_pre, move_to_ready.
  - now apply ready_pre, cut_to_ready.
  - destruct Hc as (? & ? & ? & ?). now apply ready_pre, curve_to_ready.
  - now apply ready_pre, set_tool_width_ready.
  - apply triple_ret. now intros s [Hs _].
  - intros s [Hs Hr]. exact (get_image_ready s (conj Hs (Hr eq_refl))).
Qed.

End progress.

(** ** What a command leaves as it is *)

Section frame.
Context `{Graphics}.
Implicit Types (s : State) (c : command) (cs : list command) (b : bool).

(** The run flag after a command: [start] sets it, [stop] clears it and no
    other method assigns it. *)
Lemma exec_running c b :
  returns (fun s => running (this s) = b) (exec c)
    (fun _ s' => running (this s') = next_running c b).
Proof.
  destruct c; cbn [exec next_running]; try apply triple_fmap;
    try apply curve_to_inv; intros; try (intros s Hs);
    [ returned start_run | returned stop_run | returned move_to_run | returned cut_to_run
    | returned move_to_run | returned cut_to_run | returned set_tool_width_run
    | | returned get_image_run ];
    cbn in *; congruence.
Qed.

(** Only [stop] calls [cvSaveImage]. *)
Lemma exec_keeps_saved c (sv : list (string * IplImage)) :
  is_stop c = false ->
  returns (fun s => saved (mem s) = sv) (exec c) (fun _ s' => saved (mem s') = sv).
Proof.
  intros Hc. destruct c; try discriminate Hc; cbn [exec]; try apply triple_fmap;
    try apply curve_to_inv; intros; try (intros s Hs);
    [ returned start_run | returned move_to_run | returned cut_to_run
    | returned move_to_run | returned cut_to_run | returned set_tool_width_run
    | | returned get_image_run ];
    cbn in *; congruence.
Qed.

End frame.

(** ** Sessions of the protocol *)

Section sessions.
Context `{Graphics}.
Implicit Types (s : State) (c : command) (cs : list command) (cfg : config).

(** The device is a function of the command: a client has one next
    configuration at most. *)
Lemma drive_det cfg cfg1 cfg2 : drive cfg cfg1 -> drive cfg cfg2 -> cfg1 = cfg2.
Proof. intros [c cs r s s1 H1] Hstep. inversion Hstep; subst. congruence. Qed.

(** One command of the protocol: it returns, the state it leaves is ready
    and the rest of the session follows the protocol from it. *)
Lemma protocol_step c cs s :
  ready s -> protocol (running (this s)) (c :: cs) ->
  exists r s', exec c s = Ok (r, s') /\ ready s'
    /\ running (this s') = next_running c (running (this s))
    /\ protocol (running (this s')) cs.
Proof.
  intros Hs (Hc & Hsnap & Hcs).
  destruct (hoare_run _ _ _ s (exec_ready c Hc) (conj Hs Hsnap)) as (r & s' & Hrun & Hs').
  pose proof (triple_ok _ _ _ _ _ _ _ (exec_running c _) eq_refl Hrun) as Hr.
  exists r, s'. now rewrite Hr.
Qed.

(** A session of the protocol returns, and leaves the device ready for the
    next one. *)
Lemma protocol_run cs : forall s,
  ready s -> protocol (running (this s)) cs ->
  exists rs s', run cs s = Ok (rs, s') /\ ready s'.
Proof.
  induction cs as [| c cs IH]; intros s Hs Hp; [now exists [], s |].
  destruct (protocol_step c cs s Hs Hp) as (r & s1 & Hrun & Hs1 & _ & Hp1).
  destruct (IH s1 Hs1 Hp1) as (rs & s' & Hrest & Hs').
  exists (r :: rs), s'. rewrite (run_cons_ok c cs s r s1 Hrun).
  split; [now apply M_fmap_ok | assumption].
Qed.

(** C24. A client that follows the protocol never sees a fault: every command
    of its session returns. *)
Theorem protocol_session_returns cs s :
  ready s -> protocol (running (this s)) cs -> is_Ok (run cs s).
Proof.
  intros Hs Hp. destruct (protocol_run cs s Hs Hp) as (rs & s' & Hrun & _).
  now exists (rs, s').
Qed.

(** [stop] on a running device with a valid target persists the canvas. *)
Lemma stop_persists s :
  invariant s -> running (this s) = true ->
  (4 < String.length (output_filename (this s)))%nat ->
  exists s', exec Stop s = Ok (RBool true, s') /\ persisted_since s s'.
Proof.
  intros Hinv Hr Hlen.
  destruct (invariant_can_draw s Hinv Hr) as (l & img & (_ & Hi & Hl) & Hok).
  eexists. split; [cbn [exec]; apply M_fmap_ok; branch stop_run |].
  split; [reflexivity |]. split; [reflexivity |]. now exists img.
Qed.

(** The canvases persisted since [s0] are those persisted since a state
    with the same record of saved images and the same target. *)
Lemma persisted_since_eq s0 s1 s :
  saved (mem s1) = saved (mem s0) -> output_filename (this s1) = output_filename (this s0) ->
  persisted_since s1 s -> persisted_since s0 s.
Proof. intros Hsv Hname (Hr & Hi & img & Himg & Hok). rewrite Hsv, Hname in Himg. now repeat split; eauto. Qed.

(** Liveness.  On a running device whose target is valid, a session of
    the protocol that contains a [stop] eventually persists the canvas:
    whatever the commands before the [stop], each of them returns, and the
    session reaches a state in which the device is stopped, the image is
    released, and one more canvas has been handed to the encoder under the
    device's target. *)
Theorem session_eventually_persisted cs s :
  ready s -> protocol (running (this s)) cs -> running (this s) = true ->
  (4 < String.length (output_filename (this s)))%nat ->
  Exists (fun c => is_stop c = true) cs ->
  eventually drive (fun cfg => persisted_since s cfg.2) (cs, s).
Proof.
  revert s. induction cs as [| c cs IH]; intros s Hs Hp Hr Hlen Hstop;
    [now apply Exists_nil in Hstop |].
  destruct (is_stop c) eqn:Hc.
  - destruct c; try discriminate Hc.
    destruct (stop_persists s (proj1 Hs) Hr Hlen) as (s' & Hrun & Hdone).
    eapply eventually_next;
      [exact (drive_exec Stop cs _ s s' Hrun) | intros b Hb; exact (drive_det _ _ _ Hb (drive_exec Stop cs _ s s' Hrun)) |].
    now apply eventually_now.
  - apply Exists_cons in Hstop as [Hstop | Hstop]; [congruence |].
    destruct (protocol_step c cs s Hs Hp) as (r & s1 & Hrun & Hs1 & Hr1 & Hp1).
    assert (Hr1' : running (this s1) = true) by (rewrite Hr1, Hr; now destruct c).
    pose proof (triple_ok _ _ _ _ _ _ _ (exec_keeps_saved c _ Hc) eq_refl Hrun) as Hsv.
    pose proof (triple_ok _ _ _ _ _ _ _ (exec_filename c _) eq_refl Hrun) as Hname.
    eapply eventually_next;
      [exact (drive_exec c cs r s s1 Hrun) | intros b Hb; exact (drive_det _ _ _ Hb (drive_exec c cs r s s1 Hrun)) |].
    eapply eventually_mono; [| apply IH; try assumption; congruence].
    intros cfg. now apply persisted_since_eq.
Qed.

End sessions.
