(* ===== verification/View.v ===== *)
(** * View: what the device observes of its state.

    The methods of [CV_sim] read the members of the object and the image
    behind the canvas pointer; they never read another image, and they do
    not depend on where the canvas is allocated.  [view] collects what they
    read.  The unwinding theorem of this file says that states with the same
    view are indistinguishable by the device: every command has the same
    outcome on both, returns the same value (a snapshot being compared by
    its content) and leaves states with the same view.  [Display] uses it to
    show that the consumer of snapshots cannot influence the device. *)

From Stdlib Require Import QArith Qabs Lqa Lia ZArith.
From stdpp Require Import base decidable option list gmap strings.
From S2P Require Import Prelude Geometry Commands Bezier Graphics Device DeviceSpec Machine.
From S2P Require Import Ownership.

#[local] Open Scope Q_scope.

Section view_defs.
Context `{Graphics}.

(** The canvas as the device finds it: [None] without canvas pointer,
    [Some None] when the pointer is not allocated, [Some (Some img)] for the
    image behind the pointer. *)
Definition canvas_content (s : State) : option (option IplImage) :=
  (fun l => heap (mem s) !! l) <$> image (this s).

(** The view: the members other than the pointer, the canvas and the
    record of the images saved. *)
Definition view (s : State)
    : bool * xy * Q * string * option (option IplImage) * list (string * IplImage) :=
  (running (this s), current_position (this s), tool_width (this s),
   output_filename (this s), canvas_content s, saved (mem s)).

(** A response as the caller observes it: a flag, a point, or the content
    of the snapshot returned, in the memory of [s]. *)
Definition observe (s : State) (r : response) : bool + xy + option IplImage :=
  match r with
  | RBool b => inl (inl b)
  | RPoint p => inl (inr p)
  | RImage l => inr (heap (mem s) !! l)
  end.

(** A computation whose outcome is a function of the view: on states with
    the same view it faults with the same fault, or returns results that
    are observed alike, by [obs], in states with the same view. *)
Definition unwinds {A B} (m : M State A) (obs : State -> A -> B) : Prop :=
  forall s1 s2, view s1 = view s2 ->
    match m s1, m s2 with
    | Ok (a1, s1'), Ok (a2, s2') => view s1' = view s2' /\ obs s1' a1 = obs s2' a2
    | Fault f1, Fault f2 => f1 = f2
    | _, _ => False
    end.

End view_defs.

(** Reduces [unwinds] of a method to the branches of its result function
    [Hrun] on two states given by their fields. *)
Ltac unwind Hrun :=
  intros [[r1 i1 pos1 w1 f1] [h1 sv1]] [[r2 i2 pos2 w2 f2] [h2 sv2]] Hv;
  rewrite !Hrun;
  unfold move_to_result, cut_to_result, start_result, stop_result,
    set_tool_width_result, get_image_result, cut_convertible;
  unfold view, canvas_content in *; cbn in *; simplify_eq;
  destruct i1 as [l1 |], i2 as [l2 |]; simplify_eq/=;
  repeat match goal with
         | H : ?h !! ?l = _ |- context [?h !! ?l] => rewrite H
         | |- context [decide ?P] => destruct (decide P)
         | |- context [match ?h !! ?l with _ => _ end] => destruct (h !! l) eqn:?
         | |- context [if ?b then _ else _] => destruct b
         end;
  simplify_eq/=; unfold view, canvas_content; cbn;
  rewrite ?lookup_insert_eq; try (split; congruence); try congruence.

Section unwinding.
Context `{Graphics}.
Implicit Types (s : State) (l : loc) (img : IplImage) (p : xy) (c : command).

Lemma move_to_unwinds p : unwinds (move_to p) (fun _ b => b).
Proof. unwind move_to_run. Qed.

Lemma set_tool_width_unwinds (w : Q) : unwinds (set_tool_width w) (fun _ b => b).
Proof. unwind set_tool_width_run. Qed.

Lemma start_unwinds : unwinds start (fun _ b => b).
Proof. unwind start_run. Qed.

Lemma stop_unwinds : unwinds stop (fun _ b => b).
Proof. unwind stop_run. Qed.

Lemma cut_to_unwinds p : unwinds (cut_to p) (fun _ b => b).
Proof. unwind cut_to_run. Qed.

Lemma fresh_dom_ne (h : gmap loc IplImage) l img : h !! l = Some img -> fresh (dom h) <> l.
Proof. exact (fresh_loc_ne (mk_Memory h []) l img). Qed.

(** The snapshot is allocated where the memory has room, which the
    device does not observe; its content is the canvas with the marker. *)
Lemma get_image_unwinds : unwinds get_image (fun s l => heap (mem s) !! l).
Proof.
  unwind get_image_run. rewrite !lookup_insert_ne by (eapply fresh_dom_ne; eassumption).
  split; congruence.
Qed.

(** A sequence of cuts. *)
Lemma cut_all_unwinds (ps : list xy) : unwinds (cut_all ps) (fun _ _ => tt).
Proof.
  induction ps as [| p ps IH]; intros s1 s2 Hv; [now rewrite !cut_all_nil |].
  pose proof (cut_to_unwinds p s1 s2 Hv) as Hcut.
  destruct (cut_to p s1) as [[b1 s1'] | e1] eqn:H1, (cut_to p s2) as [[b2 s2'] | e2] eqn:H2;
    try contradiction.
  - rewrite (cut_all_cons _ _ _ _ _ H1), (cut_all_cons _ _ _ _ _ H2). now apply IH.
  - now rewrite (cut_all_cons_fault _ _ _ _ H1), (cut_all_cons_fault _ _ _ _ H2).
Qed.

(** The view of a state after a move. *)
Lemma view_moved (q : xy) s1 s2 :
  view s1 = view s2 ->
  view (on_this (with_current_position q) s1) = view (on_this (with_current_position q) s2).
Proof. unfold view, canvas_content. cbn. congruence. Qed.

Lemma curve_to_unwinds (p0 p1 p2 p3 : xy) : unwinds (curve_to p0 p1 p2 p3) (fun _ b => b).
Proof.
  intros s1 s2 Hv. assert (Hr : running (this s1) = running (this s2)) by (now injection Hv).
  destruct (running (this s2)) eqn:Hr2.
  - rewrite !curve_to_running by assumption. munfold.
    pose proof (cut_all_unwinds (curve_polyline p0 p1 p2 p3) _ _
                  (view_moved (convert_to_internal p0) s1 s2 Hv)) as Hcuts.
    repeat case_match; try contradiction; simplify_eq; tauto.
  - now rewrite !curve_to_stopped.
Qed.

(** A flag is observed as it is. *)
Lemma unwinds_flag (m : M State bool) :
  unwinds m (fun _ b => b) -> unwinds (RBool <$> m) observe.
Proof.
  intros Hm s1 s2 Hv. specialize (Hm s1 s2 Hv). munfold.
  destruct (m s1) as [[b1 s1'] | e1], (m s2) as [[b2 s2'] | e2]; try easy.
  destruct Hm as [Hv' ->]. now split.
Qed.

Lemma unwinds_snapshot (m : M State loc) :
  unwinds m (fun s l => heap (mem s) !! l) -> unwinds (RImage <$> m) observe.
Proof.
  intros Hm s1 s2 Hv. specialize (Hm s1 s2 Hv). munfold.
  destruct (m s1) as [[l1 s1'] | e1], (m s2) as [[l2 s2'] | e2]; try easy.
  destruct Hm as [Hv' Hl]. split; [assumption | cbn; congruence].
Qed.

(** Unwinding.  States with the same view cannot be told apart by any
    command: the command faults on both with the same fault, or returns on
    both, with responses that are observed alike and states that have the
    same view. *)
Theorem exec_unwinds c : unwinds (exec c) observe.
Proof.
  destruct c; cbn [exec];
    [ apply unwinds_flag, start_unwinds | apply unwinds_flag, stop_unwinds
    | apply unwinds_flag, move_to_unwinds | apply unwinds_flag, cut_to_unwinds
    | apply unwinds_flag, curve_to_unwinds | apply unwinds_flag, set_tool_width_unwinds
    | now intros s1 s2 Hv | apply unwinds_snapshot, get_image_unwinds ].
Qed.

End unwinding.
