(* ===== verification/Display.v ===== *)
(** * Display: the device together with the consumer of its snapshots.

    [get_image] returns a new image that the caller owns: a display loop
    shows it and releases it, while the dispatcher goes on calling the
    methods of the device.  This file composes the device with such a
    consumer.  The state of the system is the state of the device and the
    images the consumer holds; an event is a call of a public method, the
    display of a held image or its release.  Events are interleaved in any
    order, one at a time (the device is not thread-safe: calls are
    serialised by its users).

    The theorems: the invariant of the system (the device's invariant, and
    an exact account of the heap: the images allocated are the canvas and
    the images held, all different); memory safety of every interleaving;
    the consumer never changes what the device sees; and when everything
    held is released and the device has persisted its canvas, no image is
    left. *)

From Stdlib Require Import QArith Qabs Lqa Lia ZArith.
From stdpp Require Import base decidable option list gmap strings relations.
From S2P Require Import Prelude Geometry Commands Bezier Graphics Device DeviceSpec Machine.
From S2P Require Import Ownership View.

#[local] Open Scope Q_scope.

(** What happens in the system: a method of the device is called, or the
    consumer shows or releases an image. *)
Inductive event : Type :=
  | Call (c : command)
  | Show (l : loc)
  | Release (l : loc).

Section system.
Context `{Graphics}.

(** The device, and the images the consumer holds, latest first. *)
Record system : Type := mk_system { device : State; held : list loc }.

Definition sys_initial (filename : string) : system :=
  mk_system (initial_state (CV_sim_new_filename filename)) [].

(** A computation of the device, in the system. *)
Definition on_device {A} (m : M State A) : M system A := fun sy =>
  match m (device sy) with
  | Ok (a, s') => Ok (a, mk_system s' (held sy))
  | Fault e => Fault e
  end.

(** The consumer takes the images of a response. *)
Definition hold (ls : list loc) : M system unit :=
  mmodify (fun sy => mk_system (device sy) (ls ++ held sy)).

(** The consumer forgets a pointer. *)
Definition unhold (l : loc) : M system unit :=
  mmodify (fun sy => mk_system (device sy) (filter (.≠ l) (held sy))).

(** One event.  The image a call of [get_image] returns goes to the
    consumer; showing an image reads it; releasing it frees it. *)
Definition sys_exec (e : event) : M system unit :=
  match e with
  | Call c => r ← on_device (exec c); hold (resp_locs r)
  | Show l => _ ← on_device (call (load l)); mret tt
  | Release l => on_device (call (cvReleaseImage l));; unhold l
  end.

(** The consumer names the images it holds, and no other. *)
Definition enabled (e : event) (sy : system) : Prop :=
  match e with
  | Call _ => True
  | Show l | Release l => l ∈ held sy
  end.

#[export] Instance enabled_decision e sy : Decision (enabled e sy).
Proof. destruct e; cbn; apply _. Defined.

Inductive sys_step : relation system :=
  | sys_step_exec (e : event) (sy sy' : system) :
      enabled e sy -> sys_exec e sy = Ok (tt, sy') -> sys_step sy sy'.

Definition sys_reachable (sy : system) : Prop :=
  exists filename, rtc sys_step (sys_initial filename) sy.

(** The invariant of the system: the device is in its invariant, and the
    images that are not its canvas are the images the consumer holds, each
    held once; with a valid target, a stopped device has no canvas. *)
Record sys_invariant (sy : system) : Prop := mk_sys_invariant {
  sys_device : invariant (device sy);
  sys_nodup : NoDup (held sy);
  sys_account : dom (client_images (device sy)) = list_to_set (held sy);
  sys_released : released_when_stopped (device sy);
}.

(** A sequence of events. *)
Fixpoint sys_run (es : list event) : M system unit :=
  match es with
  | [] => mret tt
  | e :: es' => sys_exec e;; sys_run es'
  end.

(** Every event of the sequence is enabled when its turn comes. *)
Fixpoint sys_enabled (es : list event) (sy : system) : Prop :=
  match es with
  | [] => True
  | e :: es' =>
      enabled e sy
      /\ match sys_exec e sy with
         | Ok (_, sy') => sys_enabled es' sy'
         | Fault _ => True
         end
  end.

(** The calls of a sequence of events: what is left of it when the events
    of the consumer are removed. *)
Definition calls (es : list event) : list command :=
  es ≫= fun e => match e with Call c => [c] | _ => [] end.

(** The images that are left when the object is destroyed: the source
    defines no destructor, so nothing is released, and the images that the
    consumer does not hold have no owner any more. *)
Definition leaked (sy : system) : gset loc :=
  dom (heap (mem (device sy))) ∖ list_to_set (held sy).

(** The outcome of the system and the outcome of a device agree: both
    fault, with the same fault, or both return, and the device of the
    system has the view of the other. *)
Definition agree {A B} (o1 : outcome (A * system)) (o2 : outcome (B * State)) : Prop :=
  match o1, o2 with
  | Ok (_, sy), Ok (_, s) => view (device sy) = view s
  | Fault f1, Fault f2 => f1 = f2
  | _, _ => False
  end.

End system.

#[export] Instance sys_enabled_decision `{Graphics} es : forall sy, Decision (sys_enabled es sy).
Proof.
  induction es as [| e es IH]; intros sy; cbn; [apply _ |].
  destruct (sys_exec e sy) as [[[] sy'] | f]; apply _.
Defined.

(** ** The events *)

Section events.
Context `{Graphics}.
Implicit Types (sy : system) (s : State) (l : loc) (img : IplImage) (c : command)
  (e : event).

Lemma sys_invariant_initial (filename : string) : sys_invariant (sys_initial filename).
Proof.
  split; [apply invariant_initial | constructor | | easy]. cbn. unfold client_images. cbn.
  now rewrite dom_empty_L.
Qed.

(** A held image is allocated, and it is not the canvas. *)
Lemma held_allocated sy l :
  sys_invariant sy -> l ∈ held sy ->
  is_Some (heap (mem (device sy)) !! l) /\ image (this (device sy)) <> Some l.
Proof.
  intros [_ _ Hacc _] Hl.
  assert (Hin : l ∈ dom (client_images (device sy))) by (rewrite Hacc; now apply elem_of_list_to_set).
  apply elem_of_dom in Hin as [img Himg].
  split; [exists img; now apply client_images_heap | now apply (client_images_not_canvas _ l img)].
Qed.

(** A call of a method: what it does to the device, and the consumer
    takes the snapshot, if there is one. *)
Lemma sys_exec_call c sy r s' :
  exec c (device sy) = Ok (r, s') ->
  sys_exec (Call c) sy = Ok (tt, mk_system s' (resp_locs r ++ held sy)).
Proof. intros Hrun. cbn. unfold on_device. munfold. now rewrite Hrun. Qed.

Lemma sys_exec_call_fault c sy f :
  exec c (device sy) = Fault f -> sys_exec (Call c) sy = Fault f.
Proof. intros Hrun. cbn. unfold on_device. munfold. now rewrite Hrun. Qed.

(** Showing an allocated image changes nothing. *)
Lemma sys_exec_show l sy img :
  heap (mem (device sy)) !! l = Some img -> sys_exec (Show l) sy = Ok (tt, sy).
Proof.
  intros Hl. cbn. unfold on_device, call. munfold. rewrite (load_ok _ _ _ Hl).
  now destruct sy as [[d m] hs].
Qed.

(** Releasing an allocated image frees it, and the consumer forgets it. *)
Lemma sys_exec_release l sy img :
  heap (mem (device sy)) !! l = Some img ->
  sys_exec (Release l) sy
  = Ok (tt, mk_system (on_mem (set_heap (delete l)) (device sy)) (filter (.≠ l) (held sy))).
Proof.
  intros Hl. cbn. unfold on_device, call. munfold. now rewrite (cvReleaseImage_ok _ _ _ Hl).
Qed.

End events.

(** ** The invariant of the system *)

Section preservation.
Context `{Graphics}.
Implicit Types (sy : system) (s : State) (l : loc) (img : IplImage) (c : command)
  (e : event) (r : response).

(** The images held after one is forgotten. *)
Lemma list_to_set_unhold l (ls : list loc) :
  list_to_set (C := gset loc) (filter (.≠ l) ls) = list_to_set ls ∖ {[ l ]}.
Proof.
  apply set_eq. intros k.
  rewrite elem_of_difference, !elem_of_list_to_set, list_elem_of_filter, elem_of_singleton.
  tauto.
Qed.

(** The images of the client after one of them is released. *)
Lemma client_images_released l s :
  image (this s) <> Some l ->
  client_images (on_mem (set_heap (delete l)) s) = delete l (client_images s).
Proof.
  intros Hne. unfold client_images. cbn.
  destruct (image (this s)) as [lc |]; [apply delete_delete | reflexivity].
Qed.

(** Releasing an image that is not the canvas keeps the invariant of the
    device. *)
Lemma invariant_released l s :
  invariant s -> image (this s) <> Some l -> invariant (on_mem (set_heap (delete l)) s).
Proof.
  intros [Hr Hc Hw Hsv] Hne. split; cbn; [assumption | | assumption | assumption].
  intros lc Hlc. destruct (Hc lc Hlc) as (img & Hl & Hok). exists img.
  split; [| assumption]. rewrite lookup_delete_ne; [assumption | congruence].
Qed.

Lemma sys_invariant_call c sy r s' :
  sys_invariant sy -> exec c (device sy) = Ok (r, s') ->
  sys_invariant (mk_system s' (resp_locs r ++ held sy)).
Proof.
  intros [Hinv Hnd Hacc Hrel] Hrun. split; cbn;
    [| | | exact (triple_ok _ _ _ _ _ _ _ (exec_released c) Hrel Hrun)].
  - exact (triple_ok _ _ _ _ _ _ _ (exec_triple c) Hinv Hrun).
  - pose proof (exec_client c _ r s' Hrun) as Hcl.
    destruct r as [b | q | l']; [assumption.. |]. destruct Hcl as [Hfree _].
    apply NoDup_cons. split; [| assumption]. intros Hin. apply Hfree.
    assert (Hd : l' ∈ dom (client_images (device sy))) by (rewrite Hacc; now apply elem_of_list_to_set).
    apply elem_of_dom in Hd as [img Himg%client_images_heap]. apply elem_of_dom. eauto.
  - rewrite (exec_client_dom c _ r s' Hrun), Hacc, list_to_set_app_L. apply (comm_L (∪)).
Qed.

Lemma sys_invariant_release l sy :
  sys_invariant sy -> l ∈ held sy ->
  sys_invariant (mk_system (on_mem (set_heap (delete l)) (device sy)) (filter (.≠ l) (held sy))).
Proof.
  intros Hsy Hl. destruct (held_allocated sy l Hsy Hl) as [_ Hne].
  destruct Hsy as [Hinv Hnd Hacc Hrel]. split; cbn; [| | | exact Hrel].
  - now apply invariant_released.
  - now apply NoDup_filter.
  - now rewrite client_images_released, dom_delete_L, Hacc, list_to_set_unhold.
Qed.

(** Every enabled event that returns keeps the invariant of the system. *)
Lemma sys_exec_invariant e sy sy' :
  sys_invariant sy -> enabled e sy -> sys_exec e sy = Ok (tt, sy') -> sys_invariant sy'.
Proof.
  intros Hsy Hen Hrun. destruct e as [c | l | l].
  - destruct (exec c (device sy)) as [[r s'] | f] eqn:Hc.
    + rewrite (sys_exec_call c sy r s' Hc) in Hrun. injection Hrun as <-.
      now apply (sys_invariant_call c).
    + now rewrite (sys_exec_call_fault c sy f Hc) in Hrun.
  - destruct (held_allocated sy l Hsy Hen) as [[img Hl] _].
    rewrite (sys_exec_show l sy img Hl) in Hrun. now injection Hrun as <-.
  - destruct (held_allocated sy l Hsy Hen) as [[img Hl] _].
    rewrite (sys_exec_release l sy img Hl) in Hrun. injection Hrun as <-.
    now apply sys_invariant_release.
Qed.

Lemma sys_step_invariant sy sy' : sys_step sy sy' -> sys_invariant sy -> sys_invariant sy'.
Proof. intros [e ? ? Hen Hrun] Hsy. exact (sys_exec_invariant e _ _ Hsy Hen Hrun). Qed.

(** A sequence of enabled events that returns is a sequence of steps. *)
Lemma sys_run_rtc (es : list event) : forall sy sy',
  sys_enabled es sy -> sys_run es sy = Ok (tt, sy') -> rtc sys_step sy sy'.
Proof.
  induction es as [| e es IH]; intros sy sy' Hes Hrun.
  - injection Hrun as <-. constructor.
  - destruct Hes as [Hen Hes]. cbn [sys_run] in Hrun.
    apply M_bind_inv in Hrun as ([] & sy1 & He & Hrest). rewrite He in Hes.
    exact (rtc_l _ _ _ _ (sys_step_exec e sy sy1 Hen He) (IH sy1 sy' Hes Hrest)).
Qed.

Lemma sys_run_reachable (filename : string) (es : list event) sy :
  sys_enabled es (sys_initial filename) -> sys_run es (sys_initial filename) = Ok (tt, sy) ->
  sys_reachable sy.
Proof. intros Hes Hrun. exists filename. now apply (sys_run_rtc es). Qed.

(** The proof rule for reachable systems. *)
Lemma sys_reachable_ind (P : system -> Prop) :
  (forall sy, sys_invariant sy -> P sy) -> forall sy, sys_reachable sy -> P sy.
Proof.
  intros HP sy [filename Hreach]. apply HP.
  pose proof (sys_invariant_initial filename) as Hinit. revert Hinit.
  induction Hreach; eauto using sys_step_invariant.
Qed.

End preservation.

(** ** The consumer does not interfere *)

Section noninterference.
Context `{Graphics}.
Implicit Types (sy : system) (s : State) (l : loc) (c : command) (e : event)
  (es : list event).

(** Releasing an image that is not the canvas does not change the view. *)
Lemma view_released l s :
  image (this s) <> Some l -> view (on_mem (set_heap (delete l)) s) = view s.
Proof.
  intros Hne. unfold view, canvas_content. cbn.
  destruct (image (this s)) as [lc |]; cbn; [| reflexivity].
  rewrite lookup_delete_ne; [reflexivity | congruence].
Qed.

(** An event of the consumer returns and leaves the view as it is. *)
Lemma consumer_keeps_view l e sy :
  e = Show l \/ e = Release l -> sys_invariant sy -> enabled e sy ->
  exists sy', sys_exec e sy = Ok (tt, sy') /\ view (device sy') = view (device sy).
Proof.
  intros He Hsy Hen.
  assert (Hl : l ∈ held sy) by (now destruct He as [-> | ->]).
  destruct (held_allocated sy l Hsy Hl) as [[img Himg] Hne]. destruct He as [-> | ->].
  - exists sy. now rewrite (sys_exec_show l sy img Himg).
  - eexists. rewrite (sys_exec_release l sy img Himg). split; [reflexivity |].
    now apply view_released.
Qed.

Lemma sys_run_cons e es sy sy1 :
  sys_exec e sy = Ok (tt, sy1) -> sys_run (e :: es) sy = sys_run es sy1.
Proof. intros He. cbn [sys_run]. now rewrite (M_bind_ok _ _ _ _ _ He). Qed.

Lemma agree_fmap {A B C} (g : B -> C) (o : outcome (A * system)) (m : M State B) s :
  agree o (m s) -> agree o ((g <$> m) s).
Proof. unfold agree. munfold. now destruct o as [[a sy] | f1], (m s) as [[b s'] | f2]. Qed.

(** Purging.  Take any interleaving of calls of the device with events of
    the consumer, and the calls alone on a device that starts with the same
    view: both fault at the same call with the same fault, or both return
    and the devices end with the same view. *)
Lemma sys_run_agree es : forall sy s,
  sys_invariant sy -> sys_enabled es sy -> view (device sy) = view s ->
  agree (sys_run es sy) (run (calls es) s).
Proof.
  induction es as [| e es IH]; intros sy s Hsy Hes Hv; [exact Hv |].
  destruct Hes as [Hen Hes]. destruct e as [c | l | l].
  - change (calls (Call c :: es)) with (c :: calls es).
    pose proof (exec_unwinds c _ _ Hv) as Hc.
    destruct (exec c (device sy)) as [[r1 s1] | f1] eqn:H1, (exec c s) as [[r2 s2] | f2] eqn:H2;
      try contradiction.
    + pose proof (sys_exec_call c sy r1 s1 H1) as Hsys. rewrite Hsys in Hes.
      rewrite (sys_run_cons _ _ _ _ Hsys), (run_cons_ok c _ s r2 s2 H2).
      apply agree_fmap, IH; [now apply (sys_invariant_call c) | assumption | apply Hc].
    + cbn [sys_run run]. rewrite (M_bind_fault _ _ _ _ (sys_exec_call_fault c sy f1 H1)).
      now rewrite (M_bind_fault _ _ _ _ H2).
  - destruct (consumer_keeps_view l (Show l) sy (or_introl eq_refl) Hsy Hen) as (sy1 & Hsys & Hv1).
    rewrite Hsys in Hes. rewrite (sys_run_cons _ _ _ _ Hsys).
    apply IH; [exact (sys_exec_invariant _ _ _ Hsy Hen Hsys) | assumption | congruence].
  - destruct (consumer_keeps_view l (Release l) sy (or_intror eq_refl) Hsy Hen) as (sy1 & Hsys & Hv1).
    rewrite Hsys in Hes. rewrite (sys_run_cons _ _ _ _ Hsys).
    apply IH; [exact (sys_exec_invariant _ _ _ Hsy Hen Hsys) | assumption | congruence].
Qed.

End noninterference.

(** ** The system, from a new device *)

Section reachable_systems.
Context `{Graphics}.
Implicit Types (sy : system) (s : State) (l : loc) (c : command) (e : event)
  (es : list event).

(** C23. The account of the heap.  In every reachable state of the system the
    device is in its invariant, the consumer holds each of its images
    once, none of them is the canvas, and the images allocated are the
    canvas and the images held: nothing else, and nothing twice. *)
Theorem system_accounting sy :
  sys_reachable sy ->
  invariant (device sy) /\ NoDup (held sy)
  /\ dom (heap (mem (device sy))) = list_to_set (held sy) ∪ canvas_dom (device sy)
  /\ (forall l, l ∈ held sy -> image (this (device sy)) <> Some l).
Proof.
  revert sy. refine (sys_reachable_ind _ _). intros sy Hsy.
  split; [apply Hsy |]. split; [apply Hsy |]. split.
  - rewrite (dom_heap_client _ (sys_device sy Hsy)). now rewrite (sys_account sy Hsy).
  - intros l Hl. now apply (held_allocated sy l Hsy).
Qed.

(** C19. Memory safety of the system.  In a reachable state, no call of the
    device and no event of the consumer on an image it holds uses an image
    that is not allocated; the consumer's events always return.  Neither
    side can free an image the other still uses. *)
Theorem system_memory_safe sy e :
  sys_reachable sy -> enabled e sy ->
  sys_exec e sy <> Fault InvalidPointer
  /\ (forall l, e = Show l \/ e = Release l -> is_Ok (sys_exec e sy)).
Proof.
  revert sy. refine (sys_reachable_ind _ _). intros sy Hsy Hen. split.
  - destruct e as [c | l | l].
    + destruct (exec c (device sy)) as [[r s'] | f] eqn:Hc.
      * now rewrite (sys_exec_call c sy r s' Hc).
      * rewrite (sys_exec_call_fault c sy f Hc). intros [= ->].
        exact (triple_fault _ _ _ _ _ _ (exec_triple c) (sys_device sy Hsy) Hc eq_refl).
    + destruct (consumer_keeps_view l _ sy (or_introl eq_refl) Hsy Hen) as (sy1 & -> & _).
      discriminate.
    + destruct (consumer_keeps_view l _ sy (or_intror eq_refl) Hsy Hen) as (sy1 & -> & _).
      discriminate.
  - intros l He. destruct (consumer_keeps_view l e sy He Hsy Hen) as (sy1 & -> & _).
    now eexists.
Qed.

(** C20. Non-interference.  The consumer cannot influence the device: an
    interleaving of calls with events of the consumer, from a reachable
    state, and the calls alone, on the device of that state, fault at the
    same call with the same fault, or both return with devices that have
    the same members, the same canvas and the same files. *)
Theorem display_noninterference es sy :
  sys_reachable sy -> sys_enabled es sy ->
  agree (sys_run es sy) (run (calls es) (device sy)).
Proof.
  revert sy. refine (sys_reachable_ind _ _). intros sy Hsy Hes.
  now apply sys_run_agree.
Qed.

(** C29. No leak.  When the device has a target that [stop] accepts and is
    stopped, and the consumer has released every image it was given, no
    image is allocated. *)
Theorem system_no_leak sy :
  sys_reachable sy ->
  (4 < String.length (output_filename (this (device sy))))%nat ->
  running (this (device sy)) = false -> held sy = [] ->
  heap (mem (device sy)) = ∅.
Proof.
  revert sy. refine (sys_reachable_ind _ _). intros sy Hsy Hlen Hr Hheld.
  apply dom_empty_inv_L.
  rewrite (dom_heap_client _ (sys_device sy Hsy)), (sys_account sy Hsy), Hheld.
  unfold canvas_dom. rewrite (sys_released sy Hsy Hlen Hr). cbn. apply union_empty_l_L.
Qed.

(** What is left when the object is destroyed is the canvas, if the
    device has one. *)
Lemma leaked_canvas sy : sys_reachable sy -> leaked sy = canvas_dom (device sy).
Proof.
  revert sy. refine (sys_reachable_ind _ _). intros sy Hsy. unfold leaked.
  rewrite (dom_heap_client _ (sys_device sy Hsy)), (sys_account sy Hsy).
  apply set_eq. intros l. rewrite elem_of_difference, elem_of_union, elem_of_list_to_set.
  split; [intros [[Hl | Hl] Hn]; [contradiction | assumption] |].
  intros Hl. split; [now right |]. intros Hh.
  apply (proj2 (held_allocated sy l Hsy Hh)). unfold canvas_dom in Hl.
  destruct (image (this (device sy))) as [lc |];
    [apply elem_of_singleton in Hl; congruence | now apply elem_of_empty in Hl].
Qed.


(** A snapshot needs a session: with a valid target, [get_image] on a
    stopped device faults, whoever calls it.  A display that goes on
    refreshing after [stop] takes the fault. *)
Lemma snapshot_after_stop sy :
  sys_reachable sy -> (4 < String.length (output_filename (this (device sy))))%nat ->
  running (this (device sy)) = false -> sys_exec (Call GetImage) sy = Fault BadArgument.
Proof.
  revert sy. refine (sys_reachable_ind _ _). intros sy Hsy Hlen Hr.
  apply sys_exec_call_fault. cbn [exec]. apply M_fmap_fault.
  rewrite get_image_run. unfold get_image_result. now rewrite (sys_released sy Hsy Hlen Hr).
Qed.

End reachable_systems.
