(* ===== verification/SystemLiveness.v ===== *)
(** * SystemLiveness: the session is carried out under every schedule.

    [Liveness] follows a client alone.  Here the client shares the device
    with the consumer of its snapshots: between two commands of the client
    the consumer may show or release any image it holds, in any order.  A
    configuration is what the client has still to issue, the number of
    events the consumer may still take, and the system; a step is the next
    command of the client or one event of the consumer.  The bound on the
    consumer's events is the fairness assumption: the client is not
    overtaken for ever.

    The theorem: on a running device with a valid target, a session of the
    protocol that contains a [stop] eventually persists the canvas, on
    every path, that is, whatever the schedule and whatever the consumer
    does with the images it holds. *)

From Stdlib Require Import QArith Qabs Lqa Lia ZArith.
From stdpp Require Import base decidable option list gmap strings relations.
From S2P Require Import Prelude Geometry Commands Bezier Graphics Device DeviceSpec Machine.
From S2P Require Import Ownership Liveness View Display.

#[local] Open Scope Q_scope.

(** An event of the consumer. *)
Definition is_consumer (e : event) : bool :=
  match e with
  | Call _ => false
  | Show _ | Release _ => true
  end.

Section schedule.
Context `{Graphics}.

(** What is left to do, and the system. *)
Record sys_config : Type := mk_sys_config {
  todo : list command;
  budget : nat;
  sys : system
}.

(** The next command of the client, or an event of the consumer on an
    image it holds. *)
Inductive schedule : relation sys_config :=
  | schedule_client (c : command) (cs : list command) (n : nat) (sy sy' : system) :
      sys_exec (Call c) sy = Ok (tt, sy') ->
      schedule (mk_sys_config (c :: cs) n sy) (mk_sys_config cs n sy')
  | schedule_consumer (e : event) (cs : list command) (n : nat) (sy sy' : system) :
      is_consumer e = true -> enabled e sy -> sys_exec e sy = Ok (tt, sy') ->
      schedule (mk_sys_config cs (S n) sy) (mk_sys_config cs n sy').

(** The session [cs] is on its way to persist the canvas the device had in
    [s0]: the system is in its invariant, the device is ready and runs,
    its target is valid, nothing was saved since [s0], and the commands
    left follow the protocol and contain a [stop]. *)
Record on_course (s0 : State) (cs : list command) (sy : system) : Prop := mk_on_course {
  oc_system : sys_invariant sy;
  oc_ready : ready (device sy);
  oc_running : running (this (device sy)) = true;
  oc_protocol : protocol true cs;
  oc_stop : Exists (fun c => is_stop c = true) cs;
  oc_target : (4 < String.length (output_filename (this (device sy))))%nat;
  oc_saved : saved (mem (device sy)) = saved (mem s0);
  oc_name : output_filename (this (device sy)) = output_filename (this s0);
}.

End schedule.

(** ** The steps of a session on its course *)

Section course.
Context `{Graphics}.
Implicit Types (s : State) (sy : system) (c : command) (cs : list command) (e : event)
  (n : nat).

(** The members and the saved images are part of the view. *)
Lemma view_members s1 s2 :
  view s1 = view s2 ->
  running (this s1) = running (this s2)
  /\ current_position (this s1) = current_position (this s2)
  /\ tool_width (this s1) = tool_width (this s2)
  /\ output_filename (this s1) = output_filename (this s2)
  /\ saved (mem s1) = saved (mem s2).
Proof. intros [= ? ? ? ? _ ?]. auto. Qed.

(** The result of a call in the system is the result of the command on the
    device. *)
Lemma sys_exec_call_inv c sy sy' :
  sys_exec (Call c) sy = Ok (tt, sy') ->
  exists r s', exec c (device sy) = Ok (r, s') /\ sy' = mk_system s' (resp_locs r ++ held sy).
Proof.
  intros Hrun. destruct (exec c (device sy)) as [[r s'] | f] eqn:Hc.
  - rewrite (sys_exec_call c sy r s' Hc) in Hrun. injection Hrun as <-. eauto.
  - now rewrite (sys_exec_call_fault c sy f Hc) in Hrun.
Qed.

(** An event of the consumer leaves the session on its course. *)
Lemma on_course_consumer s0 cs e sy sy' :
  on_course s0 cs sy -> is_consumer e = true -> enabled e sy ->
  sys_exec e sy = Ok (tt, sy') -> on_course s0 cs sy'.
Proof.
  intros [Hsy (Hinv & Hpos & Hw) Hr Hp Hstop Hlen Hsv Hname] He Hen Hrun.
  pose proof (sys_exec_invariant e sy sy' Hsy Hen Hrun) as Hsy'.
  assert (Hv : view (device sy') = view (device sy)).
  { destruct e as [c | l | l]; [discriminate He | |].
    - destruct (consumer_keeps_view l (Show l) sy (or_introl eq_refl) Hsy Hen)
        as (sy1 & Hsys & Hv); congruence.
    - destruct (consumer_keeps_view l (Release l) sy (or_intror eq_refl) Hsy Hen)
        as (sy1 & Hsys & Hv); congruence. }
  apply view_members in Hv as (Hr' & Hpos' & Hw' & Hname' & Hsv').
  split; try assumption; try congruence.
  split; [exact (sys_device sy' Hsy') |]. now rewrite Hpos', Hw'.
Qed.

(** A command other than [stop] leaves the session on its course, with
    one command less to issue. *)
Lemma on_course_call s0 c cs sy sy' :
  on_course s0 (c :: cs) sy -> is_stop c = false ->
  sys_exec (Call c) sy = Ok (tt, sy') -> on_course s0 cs sy'.
Proof.
  intros [Hsy Hready Hr Hp Hstop Hlen Hsv Hname] Hc Hrun.
  pose proof (sys_exec_invariant (Call c) sy sy' Hsy I Hrun) as Hsy'.
  assert (Hp0 : protocol (running (this (device sy))) (c :: cs)) by (now rewrite Hr).
  apply sys_exec_call_inv in Hrun as (r & s' & Hrun & ->). cbn [device held] in *.
  destruct (protocol_step c cs (device sy) Hready Hp0) as (r' & s1 & Hrun' & Hready' & Hr' & Hp').
  assert (s1 = s') as -> by congruence.
  pose proof (triple_ok _ _ _ _ _ _ _ (exec_keeps_saved c _ Hc) eq_refl Hrun) as Hsv'.
  pose proof (triple_ok _ _ _ _ _ _ _ (exec_filename c _) eq_refl Hrun) as Hname'.
  assert (Hrun1 : running (this s') = true) by (rewrite Hr', Hr; now destruct c).
  split; cbn; try congruence; try assumption.
  apply Exists_cons in Hstop as [Hstop | Hstop]; [congruence | assumption].
Qed.

(** The next command of the client returns. *)
Lemma on_course_progress s0 c cs sy :
  on_course s0 (c :: cs) sy -> exists sy', sys_exec (Call c) sy = Ok (tt, sy').
Proof.
  intros [Hsy Hready Hr Hp Hstop Hlen Hsv Hname].
  assert (Hp0 : protocol (running (this (device sy))) (c :: cs)) by (now rewrite Hr).
  destruct (protocol_step c cs (device sy) Hready Hp0) as (r & s' & Hrun & _).
  eexists. exact (sys_exec_call c sy r s' Hrun).
Qed.

(** [stop] persists the canvas. *)
Lemma on_course_stop s0 cs sy sy' :
  on_course s0 (Stop :: cs) sy -> sys_exec (Call Stop) sy = Ok (tt, sy') ->
  persisted_since s0 (device sy').
Proof.
  intros [Hsy Hready Hr Hp Hstop Hlen Hsv Hname] Hrun.
  apply sys_exec_call_inv in Hrun as (r & s' & Hrun & ->). cbn.
  destruct (stop_persists (device sy) (proj1 Hready) Hr Hlen) as (s1 & Hrun1 & Hdone).
  assert (s1 = s') as -> by congruence.
  exact (persisted_since_eq s0 (device sy) s' Hsv Hname Hdone).
Qed.

End course.

(** ** Liveness of the system *)

Section system_liveness.
Context `{Graphics}.
Implicit Types (s : State) (sy : system) (c : command) (cs : list command) (n : nat).

(** A session on its course eventually persists the canvas, whatever the
    schedule. *)
Lemma on_course_eventually s0 cs : forall n sy,
  on_course s0 cs sy ->
  eventually schedule (fun cfg => persisted_since s0 (device (sys cfg)))
    (mk_sys_config cs n sy).
Proof.
  induction cs as [| c cs IHcs]; intros n sy Hoc;
    [destruct (proj1 (Exists_nil _) (oc_stop s0 [] sy Hoc)) |].
  revert sy Hoc. induction n as [| n IHn]; intros sy Hoc;
    (apply eventually_later;
     [ destruct (on_course_progress s0 c cs sy Hoc) as [sy' Hrun];
       eexists; exact (schedule_client c cs _ sy sy' Hrun) |]);
    intros cfg Hstep; inversion Hstep; subst;
    try (apply IHn; now apply (on_course_consumer s0 (c :: cs) e sy)).
  all: destruct (is_stop c) eqn:Hc;
    [ destruct c; try discriminate Hc; apply eventually_now; now apply (on_course_stop s0 cs sy)
    | apply IHcs; now apply (on_course_call s0 c cs sy) ].
Qed.

(** C21. Liveness of the system.  On a running device with a valid target, in a
    system that is in its invariant, a session of the protocol that
    contains a [stop] eventually persists the canvas on every path: every
    command of the client returns when its turn comes, whatever the
    consumer has shown or released in between, and the state is reached in
    which the device is stopped, the image is released and one more canvas
    has been handed to the encoder under the device's target. *)
Theorem system_eventually_persisted cs n sy :
  sys_invariant sy -> ready (device sy) -> running (this (device sy)) = true ->
  (4 < String.length (output_filename (this (device sy))))%nat ->
  protocol true cs -> Exists (fun c => is_stop c = true) cs ->
  eventually schedule (fun cfg => persisted_since (device sy) (device (sys cfg)))
    (mk_sys_config cs n sy).
Proof. intros Hsy Hready Hr Hlen Hp Hstop. now apply on_course_eventually. Qed.

End system_liveness.
