(* ===== verification/Plotter.v ===== *)
(** * Plotter: the abstract plotting device.

    The device as a client sees it, without pointers, images or OpenCV: a
    record of the run flag, the tool position in raster units, the tool
    width, the strokes cut on the canvas since it was allocated, the output
    target and the canvases persisted so far.  Each command is a total
    function on that record, except the snapshot, which needs a canvas.
    The curve is given by its Bernstein form.  [Refinement] proves that the
    C++ methods implement these functions. *)

From Stdlib Require Import QArith Qabs Qminmax Lqa Lia ZArith.
From stdpp Require Import base decidable option list strings.
From S2P Require Import Prelude Geometry Commands Bezier Graphics.

#[local] Open Scope Q_scope.

(** A stroke: a line between two raster points, of a thickness in raster
    units. *)
Record stroke : Type := mk_stroke {
  stroke_from : CvPoint;
  stroke_to : CvPoint;
  stroke_width : Z
}.

#[export] Instance stroke_eq_dec : EqDecision stroke.
Proof. solve_decision. Defined.

Record plotter : Type := mk_plotter {
  isRunning : bool;
  currentPosition : xy;
  toolWidthPixels : Q;
  canvas : option (list stroke);
  outputTarget : string;
  persisted : list (string * list stroke)
}.

(** What the plotter answers. *)
Inductive answer : Type :=
  | ABool (b : bool)
  | APoint (p : xy)
  | ASnapshot (strokes : list stroke) (centre : xy).

(** A new plotter: stopped, at the origin, one raster unit wide, without
    canvas. *)
Definition plotter_new (target : string) : plotter :=
  mk_plotter false (mk_xy 0 0) 1 None target [].

(** Raster units per logical unit, on both axes. *)
Definition scale : Q := 100.

Definition to_raster (p : xy) : xy := mk_xy (x p * scale) (y p * scale).

(** The raster point of a position: its coordinates without their
    fractional parts. *)
Definition raster_point (p : xy) : CvPoint := cvPoint (Qtrunc (x p)) (Qtrunc (y p)).

(** A target is used when its name has more than four characters. *)
Definition valid_target (t : string) : bool := bool_decide (4 < String.length t)%nat.

Definition with_isRunning (b : bool) (a : plotter) : plotter :=
  mk_plotter b (currentPosition a) (toolWidthPixels a) (canvas a) (outputTarget a) (persisted a).

Definition with_position (p : xy) (a : plotter) : plotter :=
  mk_plotter (isRunning a) p (toolWidthPixels a) (canvas a) (outputTarget a) (persisted a).

Definition with_width (w : Q) (a : plotter) : plotter :=
  mk_plotter (isRunning a) (currentPosition a) w (canvas a) (outputTarget a) (persisted a).

Definition with_canvas (c : option (list stroke)) (a : plotter) : plotter :=
  mk_plotter (isRunning a) (currentPosition a) (toolWidthPixels a) c (outputTarget a) (persisted a).

Definition with_persisted (ps : list (string * list stroke)) (a : plotter) : plotter :=
  mk_plotter (isRunning a) (currentPosition a) (toolWidthPixels a) (canvas a) (outputTarget a) ps.

(** ** The operations *)

(** [start]: an empty canvas if there is none, and the plotter runs. *)
Definition p_start (a : plotter) : plotter :=
  with_isRunning true (with_canvas (Some (default [] (canvas a))) a).

(** [stop]: with a canvas and a valid target the canvas is persisted and
    given up; in every case the plotter stops. *)
Definition p_stop (a : plotter) : plotter :=
  with_isRunning false
    match canvas a with
    | Some c =>
        if valid_target (outputTarget a)
        then with_persisted (persisted a ++ [(outputTarget a, c)]) (with_canvas None a)
        else a
    | None => a
    end.

Definition p_move_to (p : xy) (a : plotter) : plotter := with_position (to_raster p) a.

(** The stroke of a cut from the current position to the raster point of
    [p]. *)
Definition cut_stroke (p : xy) (a : plotter) : stroke :=
  mk_stroke (raster_point (currentPosition a)) (raster_point (to_raster p))
    (Qtrunc (toolWidthPixels a)).

Definition p_cut_to (p : xy) (a : plotter) : plotter :=
  with_position (to_raster p) (with_canvas ((.++ [cut_stroke p a]) <$> canvas a) a).

(** The points of a curve: the Bezier curve of the four control points at
    [1/20, 2/20, ..., 1]. *)
Definition curve_points (p0 p1 p2 p3 : xy) : list xy :=
  (fun i : Z => bezier p0 p1 p2 p3 (inject_Z i / 20)) <$> seqZ 1 20.

Definition p_cut_all (ps : list xy) (a : plotter) : plotter :=
  foldl (fun a p => p_cut_to p a) a ps.

Definition p_curve_to (p0 p1 p2 p3 : xy) (a : plotter) : plotter :=
  p_cut_all (curve_points p0 p1 p2 p3) (p_move_to p0 a).

(** The width in raster units, plus one half, and at least one. *)
Definition p_width (w : Q) : Q := Qmax 1 (w * scale + (1 # 2)).

Definition p_set_tool_width (w : Q) (a : plotter) : plotter := with_width (p_width w) a.

Definition p_dimensions : xy := mk_xy 6 6.

(** A motion needs a running plotter, a width a positive argument, a
    snapshot a canvas. *)
Definition p_exec (c : command) (a : plotter) : option (answer * plotter) :=
  match c with
  | Start => Some (ABool true, p_start a)
  | Stop => Some (ABool true, p_stop a)
  | MoveTo p =>
      Some (if isRunning a then (ABool true, p_move_to p a) else (ABool false, a))
  | CutTo p =>
      Some (if isRunning a then (ABool true, p_cut_to p a) else (ABool false, a))
  | CurveTo p0 p1 p2 p3 =>
      Some (if isRunning a then (ABool true, p_curve_to p0 p1 p2 p3 a) else (ABool false, a))
  | SetToolWidth w =>
      Some (if decide (0 < w) then (ABool true, p_set_tool_width w a) else (ABool false, a))
  | GetDimensions => Some (APoint p_dimensions, a)
  | GetImage => c ← canvas a; Some (ASnapshot c (currentPosition a), a)
  end.

(** A session of an abstract device whose commands are given by [step]. *)
Fixpoint run_with {A} (step : command -> A -> option (answer * A)) (cs : list command)
    (a : A) : option (list answer * A) :=
  match cs with
  | [] => Some ([], a)
  | c :: cs' =>
      '(r, a1) ← step c a;
      '(rs, a2) ← run_with step cs' a1;
      Some (r :: rs, a2)
  end.

(** A session of the plotter. *)
Definition p_run : list command -> plotter -> option (list answer * plotter) :=
  run_with p_exec.

(** The invariant the specification states of the plotter. *)
Record p_invariant (a : plotter) : Prop := mk_p_invariant {
  p_inv_width : 1 <= toolWidthPixels a;
  p_inv_canvas : isRunning a = true -> is_Some (canvas a);
  p_inv_persisted : Forall (fun tc => tc.1 = outputTarget a /\ valid_target tc.1 = true)
                      (persisted a)
}.

(** ** Properties of the abstract plotter *)

Lemma p_width_ge_1 (w : Q) : 1 <= p_width w.
Proof. apply Q.le_max_l. Qed.

Lemma p_cut_all_app (ps qs : list xy) (a : plotter) :
  p_cut_all (ps ++ qs) a = p_cut_all qs (p_cut_all ps a).
Proof. apply foldl_app. Qed.

(** Cuts change the position and the canvas only. *)
Lemma p_cut_all_fields (ps : list xy) (a : plotter) :
  isRunning (p_cut_all ps a) = isRunning a
  /\ toolWidthPixels (p_cut_all ps a) = toolWidthPixels a
  /\ outputTarget (p_cut_all ps a) = outputTarget a
  /\ persisted (p_cut_all ps a) = persisted a
  /\ (is_Some (canvas (p_cut_all ps a)) <-> is_Some (canvas a)).
Proof.
  revert a. induction ps as [| p ps IH]; intros a; [easy |].
  change (p_cut_all (p :: ps) a) with (p_cut_all ps (p_cut_to p a)).
  destruct (IH (p_cut_to p a)) as (-> & -> & -> & -> & ->). cbn.
  now rewrite fmap_is_Some.
Qed.

Lemma p_invariant_new (target : string) : p_invariant (plotter_new target).
Proof. split; cbn; [lra | discriminate | constructor]. Qed.

(** Every command keeps the invariant of the plotter. *)
Lemma p_exec_invariant (c : command) (a : plotter) (r : answer) (a' : plotter) :
  p_invariant a -> p_exec c a = Some (r, a') -> p_invariant a'.
Proof.
  intros [Hw Hc Hp] Hrun.
  destruct c; cbn in Hrun; repeat case_match; simplify_eq;
    try (split; cbn; eauto; fail).
  - unfold p_stop. repeat case_match; split; cbn; try assumption; try discriminate.
    apply Forall_app. split; [assumption |]. now apply Forall_singleton.
  - split; cbn; [assumption | | assumption]. intros _. rewrite fmap_is_Some. auto.
  - unfold p_curve_to.
    destruct (p_cut_all_fields (curve_points p0 p1 p2 p3) (p_move_to p0 a))
      as (Hr' & Hw' & Ht' & Hp' & Hc').
    split; [now rewrite Hw' | intros _; apply Hc', Hc; (assumption || reflexivity) | now rewrite Hp', Ht'].
  - split; cbn; [apply p_width_ge_1 | assumption | assumption].
  - apply bind_Some in Hrun as (c & _ & [= <- <-]). now split.
Qed.
