(* ===== verification/Refinement.v ===== *)
(** * Refinement: the methods of [CV_sim] implement the abstract plotter.

    The relation [refines] ties a state of the device to a state of the
    plotter of [Plotter]: same flag, position and width (up to the
    equality of rationals), the canvas behind the pointer is the rendering
    of the plotter's strokes on a blank canvas, the files written are the
    renderings of the canvases persisted.  Every method call that returns is
    matched by the plotter's operation ([exec_simulates]), whole sessions
    included ([run_refines]); conversely the device returns whenever the
    plotter's step stays in the range of [int]: the domain of the plotter
    is inside the domain of the device ([refines_defined], [exec_total]). *)

From Stdlib Require Import QArith Qabs Qminmax Lqa Lia ZArith.
From stdpp Require Import base decidable option list gmap strings relations.
From S2P Require Import Prelude Geometry Commands Bezier Graphics Device DeviceSpec Machine.
From S2P Require Import Ownership StateEquiv Faults Plotter.

#[local] Open Scope Q_scope.

Section definitions.
Context `{Graphics}.

(** A stroke on an image: the line [cut_to] draws. *)
Definition render_stroke (img : IplImage) (st : stroke) : IplImage :=
  draw_line img (stroke_from st) (stroke_to st) cut_grey (stroke_width st) CV_AA 0.

(** The strokes of a canvas, drawn in order on a blank canvas. *)
Definition render (c : list stroke) : IplImage := foldl render_stroke blank_canvas c.

(** The plotter has a canvas exactly when the device has one, and the image
    behind the pointer is the rendering of the plotter's strokes. *)
Definition canvas_refines (c : option (list stroke)) (s : State) : Prop :=
  match c, image (this s) with
  | Some c, Some l => heap (mem s) !! l = Some (render c)
  | None, None => True
  | _, _ => False
  end.

Record refines (a : plotter) (s : State) : Prop := mk_refines {
  ref_running : isRunning a = running (this s);
  ref_position : currentPosition a ≡ current_position (this s);
  ref_width : toolWidthPixels a == tool_width (this s);
  ref_canvas : canvas_refines (canvas a) s;
  ref_target : outputTarget a = output_filename (this s);
  ref_saved : saved (mem s) = prod_map id render <$> persisted a
}.

(** A response of the device matches an answer of the plotter; a snapshot
    is matched by the image behind the pointer returned, in the heap of
    [s]. *)
Definition answer_refines (s : State) (pr : answer) (r : response) : Prop :=
  match pr, r with
  | ABool b, RBool b' => b = b'
  | APoint p, RPoint q => p ≡ q
  | ASnapshot c centre, RImage l => heap (mem s) !! l = Some (marker centre (render c))
  | _, _ => False
  end.

(** The conversions a command of the plotter asks of the device: the raster
    values that must fit an [int] for the C++ execution to be defined. *)
Definition p_defined (c : command) (a : plotter) : Prop :=
  match c with
  | CutTo p =>
      isRunning a = true -> is_Some (canvas a) ->
      path_convertible (toolWidthPixels a) (currentPosition a) [to_raster p]
  | CurveTo p0 p1 p2 p3 =>
      isRunning a = true -> is_Some (canvas a) ->
      path_convertible (toolWidthPixels a) (to_raster p0)
        (to_raster <$> curve_points p0 p1 p2 p3)
  | GetImage => is_Some (canvas a) /\ marker_convertible (currentPosition a)
  | _ => True
  end.

(** A method that returns a flag is matched by the command [c] of the
    plotter. *)
Definition simulates (c : command) (m : M State bool) : Prop :=
  forall a s b s', refines a s -> m s = Ok (b, s') ->
    exists a', p_exec c a = Some (ABool b, a') /\ refines a' s'.

(** A session all of whose commands are defined on the plotter. *)
Fixpoint p_run_defined (cs : list command) (a : plotter) : Prop :=
  match cs with
  | [] => True
  | c :: cs' =>
      p_defined c a
      /\ match p_exec c a with
         | Some (_, a') => p_run_defined cs' a'
         | None => False
         end
  end.

End definitions.

#[export] Instance p_defined_decision (c : command) (a : plotter) : Decision (p_defined c a).
Proof. destruct c; cbn; apply _. Defined.

#[export] Instance p_run_defined_decision (cs : list command) :
  forall a, Decision (p_run_defined cs a).
Proof.
  induction cs as [| c cs IH]; intros a; cbn; [apply _ |].
  destruct (p_exec c a) as [[r a'] |]; apply _.
Defined.

(** ** The relation *)

Lemma to_raster_convert (p : xy) : to_raster p = convert_to_internal p.
Proof. reflexivity. Qed.

Lemma raster_point_pixel (p : xy) : raster_point p = pixel_of p.
Proof. reflexivity. Qed.

Lemma p_width_clamped (w : Q) : 0 < w -> p_width w == clamped_tool_width w.
Proof.
  intros Hw. unfold p_width, clamped_tool_width, scale.
  pose proof (scaled_tool_width_eq w (Qlt_le_weak _ _ Hw)) as Heq.
  case_decide as Hlt.
  - apply Q.max_l. lra.
  - rewrite Q.max_r by lra. now symmetry.
Qed.

Section relation.
Context `{Graphics}.
Implicit Types (a : plotter) (s : State) (c : list stroke) (l : loc).

Lemma render_snoc c (st : stroke) : render (c ++ [st]) = render_stroke (render c) st.
Proof. unfold render. now rewrite foldl_app. Qed.

(** The line of a cut is the rendering of the plotter's stroke. *)
Lemma cut_line_stroke a s (p : xy) c :
  refines a s ->
  cut_line (tool_width (this s)) (current_position (this s)) (convert_to_internal p) (render c)
  = render (c ++ [cut_stroke p a]).
Proof.
  intros [_ [Hx Hy] Hw _ _ _]. rewrite render_snoc.
  unfold cut_line, render_stroke, cut_stroke, raster_point, pixel_of. cbn.
  now rewrite Hx, Hy, Hw.
Qed.

(** A new device is a new plotter. *)
Lemma refines_new (filename : string) :
  refines (plotter_new filename) (initial_state (CV_sim_new_filename filename)).
Proof. now split. Qed.

(** A state of the device that refines a plotter has its canvas allocated. *)
Lemma refines_canvas a s l :
  refines a s -> image (this s) = Some l ->
  exists c, canvas a = Some c /\ heap (mem s) !! l = Some (render c).
Proof.
  intros [_ _ _ Hc _ _] Hi. unfold canvas_refines in Hc. rewrite Hi in Hc.
  destruct (canvas a) as [c |]; [eauto | contradiction].
Qed.

Lemma refines_no_canvas a s : refines a s -> image (this s) = None -> canvas a = None.
Proof.
  intros [_ _ _ Hc _ _] Hi. unfold canvas_refines in Hc. rewrite Hi in Hc.
  now destruct (canvas a).
Qed.

End relation.

(** Splits [refines] into its fields and closes those that hold by
    computation or by assumption. *)
Ltac refines_fields :=
  split; cbn; try assumption; try reflexivity; unfold canvas_refines; cbn.

(** ** Each method against the operation of the plotter *)

Section simulation.
Context `{Graphics}.
Implicit Types (a : plotter) (s : State) (l : loc) (p : xy).

Lemma start_simulates : simulates Start start.
Proof.
  intros a s b s' Href Hrun. rewrite start_run in Hrun. unfold start_result in Hrun.
  exists (p_start a). destruct (image (this s)) as [l |] eqn:Hi; injection Hrun as <- <-;
    (split; [reflexivity |]); unfold p_start.
  - destruct (refines_canvas a s l Href Hi) as (c & -> & Hl).
    destruct Href. refines_fields; try (now rewrite Hi).
  - rewrite (refines_no_canvas a s Href Hi). destruct Href. refines_fields.
    apply lookup_insert_eq.
Qed.

Lemma valid_target_length a s :
  refines a s -> valid_target (outputTarget a)
                 = bool_decide (4 < String.length (output_filename (this s)))%nat.
Proof. intros Href. unfold valid_target. now rewrite (ref_target a s Href). Qed.

Lemma stop_simulates : simulates Stop stop.
Proof.
  intros a s b s' Href Hrun. rewrite stop_run in Hrun. unfold stop_result in Hrun.
  exists (p_stop a).
  assert (b = true /\ refines (p_stop a) s') as [-> ?]; [| now split].
  unfold p_stop. rewrite (valid_target_length a s Href).
  destruct (image (this s)) as [l |] eqn:Hi.
  - destruct (refines_canvas a s l Href Hi) as (c & -> & Hl). rewrite Hl in Hrun.
    case_decide as Hlen; injection Hrun as <- <-; (split; [reflexivity |]).
    + rewrite bool_decide_eq_true_2 by assumption. destruct Href as [? ? ? _ Ht Hs].
      refines_fields. rewrite Hs, fmap_app. cbn. now rewrite Ht.
    + rewrite bool_decide_eq_false_2 by assumption. destruct Href. refines_fields.
  - injection Hrun as <- <-. split; [reflexivity |].
    rewrite (refines_no_canvas a s Href Hi). destruct Href. refines_fields; try (now rewrite Hi).
Qed.

(** The state after a move refines the plotter after the move. *)
Lemma moved_refines a s p :
  refines a s ->
  refines (p_move_to p a) (on_this (with_current_position (convert_to_internal p)) s).
Proof. intros []. now split. Qed.

Lemma move_to_simulates p : simulates (MoveTo p) (move_to p).
Proof.
  intros a s b s' Href Hrun. rewrite move_to_run in Hrun. unfold move_to_result in Hrun.
  cbn. rewrite (ref_running a s Href).
  destruct (running (this s)); injection Hrun as <- <-; eauto using moved_refines.
Qed.

Lemma set_tool_width_simulates (w : Q) : simulates (SetToolWidth w) (set_tool_width w).
Proof.
  intros a s b s' Href Hrun. rewrite set_tool_width_run in Hrun.
  unfold set_tool_width_result in Hrun. cbn.
  case_decide as Hw; injection Hrun as <- <-; [| eauto].
  eexists. split; [reflexivity |]. destruct Href. refines_fields.
  now apply p_width_clamped.
Qed.

(** *** Cuts *)

Lemma canvas_refines_drawn (c : list stroke) l (img : IplImage) p s :
  image (this s) = Some l -> img = render c -> canvas_refines (Some c) (drawn p l img s).
Proof. intros Hi ->. unfold canvas_refines. cbn. rewrite Hi. apply lookup_insert_eq. Qed.

Lemma cut_stroke_proper (p q : xy) a : p ≡ q -> cut_stroke p a = cut_stroke q a.
Proof.
  intros [Hx Hy]. unfold cut_stroke, raster_point, to_raster. cbn. now rewrite Hx, Hy.
Qed.

(** A cut of the device to [p] is a cut of the plotter to any point equal
    to [p] as a pair of rationals. *)
Lemma cut_to_refines (p q : xy) a s b s' :
  q ≡ p -> refines a s -> isRunning a = true -> cut_to p s = Ok (b, s') ->
  b = true /\ refines (p_cut_to q a) s'.
Proof.
  intros Hqp Href Hr Hrun. rewrite cut_to_run in Hrun. unfold cut_to_result in Hrun.
  rewrite <- (ref_running a s Href), Hr in Hrun.
  assert (Hpos : to_raster q ≡ convert_to_internal p)
    by (rewrite to_raster_convert; now apply convert_to_internal_proper).
  destruct (image (this s)) as [l |] eqn:Hi.
  - destruct (refines_canvas a s l Href Hi) as (c & Hc & Hl). rewrite Hl in Hrun.
    case_decide; [| discriminate]. injection Hrun as <- <-. split; [reflexivity |].
    pose proof (cut_line_stroke a s p c Href) as Hline.
    rewrite <- (cut_stroke_proper q p a Hqp) in Hline.
    unfold p_cut_to. rewrite Hc. destruct Href.
    split; try assumption; [now apply canvas_refines_drawn].
  - injection Hrun as <- <-. split; [reflexivity |].
    unfold p_cut_to. rewrite (refines_no_canvas a s Href Hi).
    destruct Href. refines_fields; try (now rewrite Hi).
Qed.

Lemma cut_to_simulates p : simulates (CutTo p) (cut_to p).
Proof.
  intros a s b s' Href Hrun. cbn. destruct (isRunning a) eqn:Hr.
  - destruct (cut_to_refines p p a s b s' (reflexivity p) Href Hr Hrun) as [-> ?]. eauto.
  - rewrite cut_to_stopped in Hrun by now rewrite <- (ref_running a s Href).
    injection Hrun as <- <-. eauto.
Qed.

Lemma cut_all_cons_inv p (ps : list xy) s s' :
  cut_all (p :: ps) s = Ok (tt, s') ->
  exists b s1, cut_to p s = Ok (b, s1) /\ cut_all ps s1 = Ok (tt, s').
Proof.
  intros (u & s1 & Hcut & Hrest)%M_bind_inv.
  apply M_bind_inv in Hcut as (b & s2 & Hcut & [= <- <-]). eauto.
Qed.

(** A sequence of cuts of the device is the sequence of cuts of the plotter
    through points that are equal as pairs of rationals. *)
Lemma cut_all_refines (qs ps : list xy) :
  Forall2 (≡) qs ps -> forall a s s',
  refines a s -> isRunning a = true -> cut_all ps s = Ok (tt, s') ->
  refines (p_cut_all qs a) s'.
Proof.
  induction 1 as [| q p qs ps Hqp _ IH]; intros a s s' Href Hr Hrun.
  - now injection Hrun as <-.
  - apply cut_all_cons_inv in Hrun as (b & s1 & Hcut & Hrest).
    destruct (cut_to_refines p q a s b s1 Hqp Href Hr Hcut) as [_ Href1].
    exact (IH (p_cut_to q a) s1 s' Href1 Hr Hrest).
Qed.

(** The points of the plotter's curve are the points the code computes. *)
Lemma curve_points_polyline (p0 p1 p2 p3 : xy) :
  Forall2 (≡) (curve_points p0 p1 p2 p3) (curve_polyline p0 p1 p2 p3).
Proof.
  unfold curve_points, curve_polyline, curve_indices.
  apply Forall2_fmap, Forall_Forall2_diag, Forall_forall. intros i _.
  unfold curve_iter, curve_param. change (inject_Z NUM_SECTIONS_PER_CURVE) with 20.
  generalize (inject_Z i / 20). intros t. bezier_unfold. split; ring.
Qed.

Lemma curve_to_simulates (p0 p1 p2 p3 : xy) :
  simulates (CurveTo p0 p1 p2 p3) (curve_to p0 p1 p2 p3).
Proof.
  intros a s b s' Href Hrun. cbn. destruct (isRunning a) eqn:Hr.
  - rewrite curve_to_running in Hrun by now rewrite <- (ref_running a s Href).
    apply M_bind_inv in Hrun as ([] & s1 & Hcuts & [= <- <-]).
    eexists. split; [reflexivity |].
    exact (cut_all_refines _ _ (curve_points_polyline p0 p1 p2 p3) _ _ _
             (moved_refines a s p0 Href) Hr Hcuts).
  - rewrite curve_to_stopped in Hrun by now rewrite <- (ref_running a s Href).
    injection Hrun as <- <-. eauto.
Qed.

(** *** The snapshot *)

Lemma get_image_refines a s l' s' :
  refines a s -> get_image s = Ok (l', s') ->
  exists c, canvas a = Some c /\ refines a s'
    /\ heap (mem s') !! l' = Some (marker (currentPosition a) (render c)).
Proof.
  intros Href (l & img & Hi & Hl & _ & -> & ->)%get_image_inv.
  destruct (refines_canvas a s l Href Hi) as (c & Hc & Hl'). exists c.
  assert (img = render c) as -> by congruence.
  split; [assumption |]. split.
  - destruct Href. refines_fields. rewrite Hc, Hi.
    rewrite lookup_insert_ne; [assumption |]. now apply (fresh_loc_ne (mem s) l (render c)).
  - cbn. rewrite lookup_insert_eq. f_equal. apply marker_proper. symmetry.
    apply (ref_position a s Href).
Qed.

(** *** Every command *)

(** One method call that returns is one step of the plotter. *)
Lemma exec_simulates (c : command) a s r s' :
  refines a s -> exec c s = Ok (r, s') ->
  exists pr a', p_exec c a = Some (pr, a') /\ refines a' s' /\ answer_refines s' pr r.
Proof.
  intros Href Hrun.
  assert (forall m, simulates c m -> (RBool <$> m) s = Ok (r, s') ->
            exists pr a', p_exec c a = Some (pr, a') /\ refines a' s' /\ answer_refines s' pr r)
    as Hbool.
  { intros m Hm (b & Hb & ->)%M_fmap_inv. destruct (Hm a s b s' Href Hb) as (a' & ? & ?).
    now exists (ABool b), a'. }
  destruct c; cbn [exec] in Hrun.
  - exact (Hbool _ start_simulates Hrun).
  - exact (Hbool _ stop_simulates Hrun).
  - exact (Hbool _ (move_to_simulates p) Hrun).
  - exact (Hbool _ (cut_to_simulates p) Hrun).
  - exact (Hbool _ (curve_to_simulates p0 p1 p2 p3) Hrun).
  - exact (Hbool _ (set_tool_width_simulates w) Hrun).
  - injection Hrun as <- <-. now exists (APoint p_dimensions), a.
  - apply M_fmap_inv in Hrun as (l' & Hrun & ->).
    destruct (get_image_refines a s l' s' Href Hrun) as (c & Hc & Href' & Hl').
    exists (ASnapshot c (currentPosition a)), a. cbn. now rewrite Hc.
Qed.

End simulation.

(** ** The device returns whenever the plotter's step is in range *)

Section totality.
Context `{Graphics}.
Implicit Types (a : plotter) (s : State) (l : loc) (p : xy).

Lemma refines_canvas_inv a s (c : list stroke) :
  refines a s -> canvas a = Some c ->
  exists l, image (this s) = Some l /\ heap (mem s) !! l = Some (render c).
Proof.
  intros [_ _ _ Hc _ _] Ha. unfold canvas_refines in Hc. rewrite Ha in Hc.
  destruct (image (this s)) as [l |]; [eauto | contradiction].
Qed.

(** The canvas pointer of a device that implements a plotter is not
    dangling. *)
Lemma refines_allocated a s : refines a s -> canvas_allocated s.
Proof.
  intros Href. unfold canvas_allocated. destruct (image (this s)) as [l |] eqn:Hi; [| exact I].
  destruct (refines_canvas a s l Href Hi) as (c & _ & ->). eauto.
Qed.

(** Where the device draws, the plotter runs with a canvas. *)
Lemma refines_draws a s :
  refines a s -> draws s -> isRunning a = true /\ is_Some (canvas a).
Proof.
  intros Href [Hr [l Hi]]. split; [now rewrite (ref_running a s Href) |].
  destruct (refines_canvas a s l Href Hi) as (c & -> & _). eauto.
Qed.

(** A command in the domain of the plotter is in the domain of the
    device. *)
Lemma refines_defined (c : command) a s : refines a s -> p_defined c a -> defined c s.
Proof.
  intros Href Hdef. destruct c; try exact I; cbn in Hdef |- *.
  - intros [Hr Hc]%(refines_draws a s Href).
    destruct (path_convertible_proper _ _ _ _ _ [convert_to_internal p]
                (ref_width a s Href) (ref_position a s Href) (reflexivity _) (Hdef Hr Hc))
      as (Hw & Ha & [Hp _]%Forall_cons).
    now split.
  - intros [Hr Hc]%(refines_draws a s Href).
    apply (path_convertible_proper (toolWidthPixels a) _ (to_raster p0) _
             (to_raster <$> curve_points p0 p1 p2 p3));
      [apply (ref_width a s Href) | reflexivity | | exact (Hdef Hr Hc)].
    apply Forall2_fmap. eapply Forall2_impl; [apply curve_points_polyline |].
    intros q p Hqp. now rewrite to_raster_convert, Hqp.
  - destruct Hdef as [[c Hc] Hm]. destruct (refines_canvas_inv a s c Href Hc) as (l & -> & _).
    split; [eauto | now rewrite <- (ref_position a s Href)].
Qed.

(** Every command that is defined on the plotter returns on the device. *)
Lemma exec_total (c : command) a s : refines a s -> p_defined c a -> is_Ok (exec c s).
Proof.
  intros Href Hdef.
  exact (proj1 (exec_verdict c s (refines_allocated a s Href)) (refines_defined c a s Href Hdef)).
Qed.

End totality.

(** ** Sessions *)

Section session_refinement.
Context `{Graphics}.
Implicit Types (a : plotter) (s : State) (cs : list command).

(** A response that matched an answer still matches it at the end of the
    session: the snapshot it names is still there, unchanged. *)
Lemma answer_refines_kept (c : command) cs s r s1 rs s' (pr : answer) :
  exec c s = Ok (r, s1) -> run cs s1 = Ok (rs, s') ->
  answer_refines s1 pr r -> answer_refines s' pr r.
Proof.
  intros Hc Hrun. destruct pr as [b | q | strokes centre], r as [b' | q' | l]; try easy.
  cbn. intros Hl. apply exec_client in Hc as (_ & snap & Hsnap).
  assert (Hcl : client_images s1 !! l = Some snap) by (rewrite Hsnap; apply lookup_insert_eq).
  rewrite (client_images_heap s1 l snap Hcl) in Hl. injection Hl as ->.
  exact (client_images_heap s' l _ (run_keeps_image cs s1 rs s' l _ Hrun Hcl)).
Qed.

(** Lifting a simulation to sessions.  When every command of the device is
    matched by a command of an abstract device, for a relation [R] that the
    commands preserve, every session of the device is matched by the same
    session of the abstract device. *)
Section lifting.
Context {A : Type} (R : A -> State -> Prop) (a_exec : command -> A -> option (answer * A)).
Hypothesis a_simulates : forall c x s r s',
  R x s -> exec c s = Ok (r, s') ->
  exists pr x', a_exec c x = Some (pr, x') /\ R x' s' /\ answer_refines s' pr r.

Lemma run_simulated cs : forall x s rs s',
  R x s -> run cs s = Ok (rs, s') ->
  exists prs x',
    run_with a_exec cs x = Some (prs, x') /\ R x' s' /\ Forall2 (answer_refines s') prs rs.
Proof.
  induction cs as [| c cs IH]; intros x s rs s' Href Hrun.
  - injection Hrun as <- <-. now exists [], x.
  - apply run_cons_inv in Hrun as (r & s1 & rs' & Hc & Hcs & ->).
    destruct (a_simulates c x s r s1 Href Hc) as (pr & x1 & Hp & Href1 & Hans).
    destruct (IH x1 s1 rs' s' Href1 Hcs) as (prs & x' & Hps & Href' & Hanss).
    exists (pr :: prs), x'. cbn. rewrite Hp. cbn. rewrite Hps. cbn.
    split; [reflexivity |]. split; [assumption |].
    constructor; [exact (answer_refines_kept c cs s r s1 rs' s' pr Hc Hcs Hans) | assumption].
Qed.

End lifting.

(** C4. Every session of the device that returns is a session of the plotter:
    the plotter answers every command, its answers are the device's
    responses, each snapshot being the image behind the pointer returned
    as it is at the end of the session, and the final states correspond. *)
Theorem run_refines cs : forall a s rs s',
  refines a s -> run cs s = Ok (rs, s') ->
  exists prs a',
    p_run cs a = Some (prs, a') /\ refines a' s' /\ Forall2 (answer_refines s') prs rs.
Proof. exact (run_simulated refines p_exec exec_simulates cs). Qed.

(** C13. The device returns on every session that is defined on the plotter:
    snapshots are taken with a canvas, and the raster coordinates and the
    width of every cut fit an [int]. *)
Theorem run_defined cs : forall a s,
  refines a s -> p_run_defined cs a -> is_Ok (run cs s).
Proof.
  induction cs as [| c cs IH]; intros a s Href Hdef; [now eexists |].
  destruct Hdef as [Hc Hcs]. destruct (exec_total c a s Href Hc) as [[r s1] Hrun].
  destruct (exec_simulates c a s r s1 Href Hrun) as (pr & a1 & Hp & Href1 & _).
  rewrite Hp in Hcs. destruct (IH a1 s1 Href1 Hcs) as [[rs s'] Hrest].
  exists (r :: rs, s'). rewrite (run_cons_ok c cs s r s1 Hrun). now apply M_fmap_ok.
Qed.

End session_refinement.

(** ** What reaches the files *)

Section files.
Context `{Graphics}.
Implicit Types (a : plotter) (s : State) (cs : list command).

(** The final state of a session of the device refines the final state of
    the same session of the plotter. *)
Lemma run_refines_state cs : forall a s rs s',
  refines a s -> run cs s = Ok (rs, s') ->
  exists prs a', p_run cs a = Some (prs, a') /\ refines a' s'.
Proof.
  intros a s rs s' Href Hrun.
  destruct (run_simulated refines p_exec exec_simulates cs a s rs s' Href Hrun)
    as (prs & a' & Hp & Href' & _).
  now exists prs, a'.
Qed.

(** C38. Every file a session writes holds cuts on a blank canvas and nothing
    else: the marker of a snapshot never reaches a file. *)
Theorem saved_files_rendered (filename : string) cs rs s' (name : string) (img : IplImage) :
  run cs (initial_state (CV_sim_new_filename filename)) = Ok (rs, s') ->
  (name, img) ∈ saved (mem s') ->
  exists strokes, img = render strokes.
Proof.
  intros Hrun Hin.
  destruct (run_refines_state cs _ _ _ _ (refines_new filename) Hrun) as (_ & a' & _ & Href).
  rewrite (ref_saved a' s' Href) in Hin.
  apply list_elem_of_fmap in Hin as ([target strokes] & [= -> ->] & _).
  now exists strokes.
Qed.

End files.
