(* ===== verification/SpecPlotter.v ===== *)
(** * SpecPlotter: the plotter as the specification words it.

    [Plotter] follows the code at the two points where the code and the
    specification differ.  This file states the plotter of the
    specification itself: [stop] gives up the canvas whether or not the
    target is valid, and the tool width is the rounded value
    [round (|w| * scale)], at least 1.  It proves that the device
    implements this plotter when its target is valid (the rounding of the
    width is not observable: only the truncated width is ever used), and
    that it does not when the target is not: there is a session whose last
    snapshot shows a line that the specification says is gone. *)

From Stdlib Require Import QArith Qabs Qround Qminmax Lqa Lia ZArith.
From stdpp Require Import base decidable option list gmap strings.
From S2P Require Import Prelude Geometry Commands Bezier Graphics Device DeviceSpec Machine.
From S2P Require Import Ownership Liveness Plotter Refinement.

#[local] Open Scope Q_scope.

(** [round (|w| * scale)], clamped to a minimum of 1. *)
Definition sp_width (w : Q) : Q := Qmax 1 (inject_Z (Qfloor (Qabs w * scale + (1 # 2)))).

Definition sp_set_tool_width (w : Q) (a : plotter) : plotter := with_width (sp_width w) a.

(** [stop]: a canvas is persisted when the target is valid, and given up in
    every case. *)
Definition sp_stop (a : plotter) : plotter :=
  with_isRunning false
    match canvas a with
    | Some c =>
        if valid_target (outputTarget a)
        then with_persisted (persisted a ++ [(outputTarget a, c)]) (with_canvas None a)
        else with_canvas None a
    | None => a
    end.

(** The commands of the specification: [stop] and [set_tool_width] as
    above, the others as in [Plotter]. *)
Definition sp_exec (c : command) (a : plotter) : option (answer * plotter) :=
  match c with
  | Stop => Some (ABool true, sp_stop a)
  | SetToolWidth w =>
      Some (if decide (0 < w) then (ABool true, sp_set_tool_width w a) else (ABool false, a))
  | _ => p_exec c a
  end.

Definition sp_run : list command -> plotter -> option (list answer * plotter) :=
  run_with sp_exec.

(** Two plotters that differ in the fraction of the tool width only: they
    draw strokes of the same thickness. *)
Record rounds (a b : plotter) : Prop := mk_rounds {
  rd_running : isRunning a = isRunning b;
  rd_position : currentPosition a = currentPosition b;
  rd_width : Qtrunc (toolWidthPixels a) = Qtrunc (toolWidthPixels b);
  rd_canvas : canvas a = canvas b;
  rd_target : outputTarget a = outputTarget b;
  rd_persisted : persisted a = persisted b
}.

(** The session in which the two plotters part: a cut, a [stop] that does
    not save, and a snapshot of the next session. *)
Definition second_look (p : xy) : list command := [Start; CutTo p; Stop; Start; GetImage].

Section spec_refinement.
Context `{Graphics}.

(** The device implements the plotter of the specification, its target
    being valid, through a plotter of [Plotter] with the same strokes. *)
Definition refines_spec (b : plotter) (s : State) : Prop :=
  valid_target (outputTarget b) = true /\ exists a, refines a s /\ rounds a b.

End spec_refinement.

(** ** The width *)

Lemma Qtrunc_max_1 (q : Q) : 0 <= q -> Qtrunc (Qmax 1 q) = Z.max 1 (Qfloor q).
Proof.
  intros Hq. destruct (Qlt_le_dec q 1) as [Hlt | Hge].
  - rewrite (Q.max_l 1 q) by lra.
    assert (Qfloor q <= 1)%Z by (change 1%Z with (Qfloor 1); apply Qfloor_resp_le; lra).
    change (Qtrunc 1) with 1%Z. lia.
  - rewrite (Q.max_r 1 q) by lra. rewrite Qtrunc_nonneg_floor by lra.
    assert (1 <= Qfloor q)%Z by (change 1%Z with (Qfloor 1); now apply Qfloor_resp_le).
    lia.
Qed.

(** The width the code stores and the width of the specification have the
    same integer part: lines are drawn with the same thickness. *)
Lemma sp_width_thickness (w : Q) : 0 < w -> Qtrunc (p_width w) = Qtrunc (sp_width w).
Proof.
  intros Hw. unfold p_width, sp_width, scale. rewrite Qabs_pos by lra.
  assert (H0 : 0 <= w * 100 + (1 # 2)) by nra.
  assert (H1 : 0 <= inject_Z (Qfloor (w * 100 + (1 # 2)))).
  { change 0 with (inject_Z 0). rewrite <- Zle_Qle. change 0%Z with (Qfloor 0).
    now apply Qfloor_resp_le. }
  rewrite !Qtrunc_max_1 by assumption. now rewrite Qfloor_Z.
Qed.

(** The width of the specification is a whole number of raster units, at
    least 1. *)
Lemma sp_width_integral (w : Q) : 1 <= sp_width w /\ inject_Z (Qtrunc (sp_width w)) == sp_width w.
Proof.
  unfold sp_width. generalize (Qfloor (Qabs w * scale + (1 # 2))). intros z.
  split; [apply Q.le_max_l |].
  destruct (Q.max_spec 1 (inject_Z z)) as [[_ Heq] | [_ Heq]];
    rewrite (Qtrunc_proper _ _ Heq), ?Qtrunc_inject_Z; now symmetry.
Qed.

(** ** The two plotters in lock step *)

Section lockstep.
Implicit Types (a b : plotter) (c : command) (p : xy) (r : answer).

Lemma rounds_refl a : rounds a a.
Proof. now split. Qed.

Lemma p_cut_to_rounds p a b : rounds a b -> rounds (p_cut_to p a) (p_cut_to p b).
Proof.
  intros [Hr Hp Hw Hc Ht Hps]. split; cbn; try assumption; [reflexivity |].
  unfold cut_stroke. now rewrite Hp, Hw, Hc.
Qed.

Lemma p_cut_all_rounds (ps : list xy) : forall a b,
  rounds a b -> rounds (p_cut_all ps a) (p_cut_all ps b).
Proof.
  induction ps as [| p ps IH]; intros a b Hab; [exact Hab |].
  change (rounds (p_cut_all ps (p_cut_to p a)) (p_cut_all ps (p_cut_to p b))).
  now apply IH, p_cut_to_rounds.
Qed.

Lemma p_curve_to_rounds (p0 p1 p2 p3 : xy) a b :
  rounds a b -> rounds (p_curve_to p0 p1 p2 p3 a) (p_curve_to p0 p1 p2 p3 b).
Proof. intros [Hr Hp Hw Hc Ht Hps]. apply p_cut_all_rounds. now split. Qed.

(** No command changes the target. *)
Lemma p_exec_target c a r a' : p_exec c a = Some (r, a') -> outputTarget a' = outputTarget a.
Proof.
  intros Hrun. destruct c; cbn in Hrun;
    try (apply bind_Some in Hrun as (cv & _ & Hrun));
    repeat case_match; simplify_eq; try reflexivity.
  all: first [ unfold p_stop; now repeat case_match
             | unfold p_curve_to; now rewrite (proj1 (proj2 (proj2 (p_cut_all_fields _ _)))) ].
Qed.

(** With a valid target, the plotter of the specification answers every
    command as the plotter of the code does, and the two stay in step. *)
Lemma sp_exec_lockstep c a b r a' :
  rounds a b -> valid_target (outputTarget a) = true -> p_exec c a = Some (r, a') ->
  exists b', sp_exec c b = Some (r, b') /\ rounds a' b'.
Proof.
  intros Hab Hvalid Hrun. pose proof Hab as [Hr Hp Hw Hc Ht Hps].
  assert (Hmotion : forall f : plotter -> plotter, rounds (f a) (f b) ->
            Some (if isRunning a then (ABool true, f a) else (ABool false, a)) = Some (r, a') ->
            exists b', Some (if isRunning b then (ABool true, f b) else (ABool false, b))
                       = Some (r, b') /\ rounds a' b').
  { intros f Hf Hm. rewrite <- Hr. destruct (isRunning a); injection Hm as <- <-; eauto. }
  destruct c; cbn in Hrun |- *.
  - injection Hrun as <- <-. eexists. split; [reflexivity |]. split; cbn -[Qtrunc]; congruence.
  - injection Hrun as <- <-. eexists. split; [reflexivity |].
    unfold p_stop, sp_stop. rewrite <- Hc, <- Ht, Hvalid.
    destruct (canvas a) eqn:Hca; split; cbn -[Qtrunc]; congruence.
  - apply (Hmotion (p_move_to p)); [split; cbn -[Qtrunc]; congruence | exact Hrun].
  - apply (Hmotion (p_cut_to p)); [now apply p_cut_to_rounds | exact Hrun].
  - apply (Hmotion (p_curve_to p0 p1 p2 p3)); [now apply p_curve_to_rounds | exact Hrun].
  - case_decide; injection Hrun as <- <-; eexists; (split; [reflexivity |]); [| assumption].
    split; cbn -[Qtrunc]; try assumption. now apply sp_width_thickness.
  - injection Hrun as <- <-. now exists b.
  - rewrite <- Hc, <- Hp. destruct (canvas a) as [cv |]; [| discriminate].
    injection Hrun as <- <-. now exists b.
Qed.

End lockstep.

(** ** The device and the plotter of the specification *)

Section device_and_spec.
Context `{Graphics}.
Implicit Types (a b : plotter) (s : State) (c : command) (cs : list command)
  (r : response) (rs : list response).

Lemma refines_spec_new (filename : string) :
  (4 < String.length filename)%nat ->
  refines_spec (plotter_new filename) (initial_state (CV_sim_new_filename filename)).
Proof.
  intros Hlen. split; [now apply bool_decide_eq_true_2 |].
  exists (plotter_new filename). split; [apply refines_new | apply rounds_refl].
Qed.

(** Every command of the device is a command of the specification's
    plotter, when the target is valid. *)
Lemma exec_simulates_spec c b s r s' :
  refines_spec b s -> exec c s = Ok (r, s') ->
  exists pr b', sp_exec c b = Some (pr, b') /\ refines_spec b' s' /\ answer_refines s' pr r.
Proof.
  intros (Hvalid & a & Href & Hab) Hrun.
  destruct (exec_simulates c a s r s' Href Hrun) as (pr & a' & Hp & Href' & Hans).
  rewrite <- (rd_target a b Hab) in Hvalid.
  destruct (sp_exec_lockstep c a b pr a' Hab Hvalid Hp) as (b' & Hsp & Hab').
  exists pr, b'. split; [assumption |]. split; [| assumption]. split; [| now exists a'].
  now rewrite <- (rd_target a' b' Hab'), (p_exec_target c a pr a' Hp).
Qed.

(** C16. The device implements the specification when its target is valid.
    Every session that returns is a session of the plotter of the
    specification, in which [stop] gives up the canvas and the tool width
    is rounded: the answers are the device's responses, each snapshot the
    rendering of the strokes with the marker, and the final states
    correspond. *)
Theorem run_refines_spec cs b s rs s' :
  refines_spec b s -> run cs s = Ok (rs, s') ->
  exists prs b',
    sp_run cs b = Some (prs, b') /\ refines_spec b' s' /\ Forall2 (answer_refines s') prs rs.
Proof. exact (run_simulated refines_spec sp_exec exec_simulates_spec cs b s rs s'). Qed.

(** The session [second_look] on the plotter of the code, with a target
    that is not valid: the last snapshot shows the cut of the session
    before. *)
Lemma p_run_second_look (filename : string) (p : xy) :
  valid_target filename = false ->
  exists a,
    p_run (second_look p) (plotter_new filename)
    = Some ([ABool true; ABool true; ABool true; ABool true;
             ASnapshot [cut_stroke p (p_start (plotter_new filename))] (to_raster p)], a).
Proof.
  intros Hv. eexists. unfold p_run, second_look. cbn -[valid_target cut_stroke].
  unfold p_stop. cbn -[valid_target cut_stroke]. rewrite Hv. reflexivity.
Qed.

(** On the plotter of the specification the canvas was given up: the
    snapshot shows a blank canvas. *)
Lemma sp_run_second_look (filename : string) (p : xy) :
  valid_target filename = false ->
  exists b,
    sp_run (second_look p) (plotter_new filename)
    = Some ([ABool true; ABool true; ABool true; ABool true; ASnapshot [] (to_raster p)], b).
Proof.
  intros Hv. eexists. unfold sp_run, second_look. cbn -[valid_target cut_stroke].
  unfold sp_stop. cbn -[valid_target cut_stroke]. rewrite Hv. reflexivity.
Qed.

(** C17. The device departs from the specification when its target is not
    valid.  With a file name of at most four characters, after a cut, a
    [stop] and a new [start], the snapshot the device returns shows the cut
    of the session before, where the specification says the canvas was
    given up and the snapshot shows a blank canvas. *)
Theorem short_name_diverges (filename : string) (p : xy) :
  (String.length filename <= 4)%nat -> on_page p ->
  exists rs s' l b,
    run (second_look p) (initial_state (CV_sim_new_filename filename)) = Ok (rs, s')
    /\ last rs = Some (RImage l)
    /\ heap (mem s') !! l
       = Some (marker (to_raster p)
                 (render [cut_stroke p (p_start (plotter_new filename))]))
    /\ sp_run (second_look p) (plotter_new filename)
       = Some ([ABool true; ABool true; ABool true; ABool true; ASnapshot [] (to_raster p)], b).
Proof.
  intros Hlen Hp.
  assert (Hv : valid_target filename = false) by (apply bool_decide_eq_false_2; lia).
  destruct (protocol_run (second_look p) _ (ready_initial filename)) as (rs & s' & Hrun & _);
    [cbn; tauto |].
  destruct (run_simulated refines p_exec exec_simulates _ _ _ _ _ (refines_new filename) Hrun)
    as (prs & a' & Hprs & _ & Hans).
  destruct (p_run_second_look filename p Hv) as (a & Ha).
  destruct (sp_run_second_look filename p Hv) as (b & Hb).
  change (run_with p_exec) with p_run in Hprs. rewrite Ha in Hprs. injection Hprs as <- <-.
  do 4 (apply Forall2_cons_inv_l in Hans as (? & ? & _ & Hans & ->)).
  apply Forall2_cons_inv_l in Hans as (r & ? & Hsnap & ->%Forall2_nil_inv_l & ->).
  destruct r as [? | ? | l]; try contradiction. eexists _, s', l, b.
  split; [exact Hrun |]. split; [reflexivity |]. split; [exact Hsnap | exact Hb].
Qed.

End device_and_spec.
