(* ===== verification/Interface.v ===== *)
(** * Interface: the cutter as the software that drives it sees it.

    libcutter drives a device through the public methods of its base class
    and keeps no pointer into it: what a client can rely on is what the
    methods answer.  This file states that contract as a class ([Cutter]:
    the orders that answer with a flag, the run flag and the raster
    position as observations, and the laws that tie them), proves it of the
    C++ device and of the abstract plotter, and verifies a client against
    the class alone: dead reckoning ([predict]), by which a path planner
    knows the answer of every order and the position of the tool without
    asking the device.  Instantiated at the device, the answers of a whole
    session are computed from its commands ([run_predicted]). *)

From Stdlib Require Import QArith Qabs Lqa Lia ZArith.
From stdpp Require Import base decidable option list gmap strings.
From S2P Require Import Prelude Geometry Commands Bezier Graphics Device DeviceSpec Machine.
From S2P Require Import Ownership Plotter.

#[local] Open Scope Q_scope.

(** The point at which a motion leaves the tool. *)
Definition target (c : command) : option xy :=
  match c with
  | MoveTo p | CutTo p | CurveTo _ _ _ p => Some p
  | _ => None
  end.

(** The contract of a cutter.  [order c d] is the flag the device answers
    to the command [c] with its next state, or [None] when the call does
    not return a flag. *)
Class Cutter (D : Type) : Type := {
  order : command -> D -> option (bool * D);
  running_of : D -> bool;
  position_of : D -> xy;
  (** [start] and [stop] succeed, set the flag and do not move the tool *)
  order_start d b d' :
    order Start d = Some (b, d') ->
    b = true /\ running_of d' = true /\ position_of d' ≡ position_of d;
  order_stop d b d' :
    order Stop d = Some (b, d') ->
    b = true /\ running_of d' = false /\ position_of d' ≡ position_of d;
  (** a motion answers the run flag, and moves the tool when it is set *)
  order_motion c p d b d' :
    target c = Some p -> order c d = Some (b, d') ->
    b = running_of d /\ running_of d' = running_of d
    /\ position_of d' ≡ (if running_of d then convert_to_internal p else position_of d);
  (** a width is accepted when it is positive; the tool does not move *)
  order_width w d b d' :
    order (SetToolWidth w) d = Some (b, d') ->
    b = bool_decide (0 < w) /\ running_of d' = running_of d
    /\ position_of d' ≡ position_of d;
}.

(** What a client knows of the device. *)
Record estimate : Type := mk_estimate { est_running : bool; est_position : xy }.

(** Dead reckoning: the answer to an order and the next estimate, computed
    from the command alone. *)
Definition predict (c : command) (e : estimate) : bool * estimate :=
  match c with
  | Start => (true, mk_estimate true (est_position e))
  | Stop => (true, mk_estimate false (est_position e))
  | SetToolWidth w => (bool_decide (0 < w), e)
  | MoveTo p | CutTo p | CurveTo _ _ _ p =>
      (est_running e, if est_running e then mk_estimate true (convert_to_internal p) else e)
  | GetDimensions | GetImage => (false, e)
  end.

Fixpoint predict_all (cs : list command) (e : estimate) : list bool * estimate :=
  match cs with
  | [] => ([], e)
  | c :: cs' =>
      let '(b, e1) := predict c e in
      let '(bs, e2) := predict_all cs' e1 in
      (b :: bs, e2)
  end.

Section clients.
Context {D : Type} `{Cutter D}.

(** A list of orders sent to a device. *)
Fixpoint orders (cs : list command) (d : D) : option (list bool * D) :=
  match cs with
  | [] => Some ([], d)
  | c :: cs' =>
      '(b, d1) ← order c d;
      '(bs, d2) ← orders cs' d1;
      Some (b :: bs, d2)
  end.

(** The estimate agrees with the device. *)
Definition estimates (e : estimate) (d : D) : Prop :=
  est_running e = running_of d /\ est_position e ≡ position_of d.

(** What a client reads off a device. *)
Definition estimate_of (d : D) : estimate := mk_estimate (running_of d) (position_of d).

End clients.

(** The orders of the C++ device and of the plotter: the commands they
    answer with a flag. *)
Definition flag_of_response (r : response) : option bool :=
  match r with
  | RBool b => Some b
  | _ => None
  end.

Definition flag_of_answer (r : answer) : option bool :=
  match r with
  | ABool b => Some b
  | _ => None
  end.

Definition device_order `{Graphics} (c : command) (s : State) : option (bool * State) :=
  match exec c s with
  | Ok (r, s') => b ← flag_of_response r; Some (b, s')
  | Fault _ => None
  end.

Definition plotter_order (c : command) (a : plotter) : option (bool * plotter) :=
  '(r, a') ← p_exec c a; b ← flag_of_answer r; Some (b, a').

(** ** The client, against the interface *)

Section dead_reckoning.
Context {D : Type} `{Cutter D}.
Implicit Types (c : command) (cs : list command) (d : D) (e : estimate).

(** Closes a goal that an answer is the predicted one and that the next
    estimate agrees, from the facts an order's law gives. *)
Ltac agreed :=
  match goal with
  | Hr : est_running ?e = running_of ?d, Hr' : running_of ?d' = _,
    Hp : est_position ?e ≡ position_of ?d, Hp' : position_of ?d' ≡ _ |- _ =>
      unfold estimates; rewrite Hr', Hp', ?Hr;
      destruct (running_of d); cbn; rewrite ?Hp; easy
  end.

Lemma estimates_of d : estimates (estimate_of d) d.
Proof. split; reflexivity. Qed.

(** One order: the prediction is the answer, and the next estimate agrees
    with the next state. *)
Lemma predict_order c e d b d' :
  is_query c = false -> estimates e d -> order c d = Some (b, d') ->
  b = (predict c e).1 /\ estimates (predict c e).2 d'.
Proof.
  intros Hq [Hr Hp] Hc. destruct c; try discriminate Hq; cbn [predict fst snd].
  - apply order_start in Hc as (-> & Hr' & Hp'). agreed.
  - apply order_stop in Hc as (-> & Hr' & Hp'). agreed.
  - apply (order_motion _ p) in Hc as (-> & Hr' & Hp'); [agreed | reflexivity].
  - apply (order_motion _ p) in Hc as (-> & Hr' & Hp'); [agreed | reflexivity].
  - apply (order_motion _ p3) in Hc as (-> & Hr' & Hp'); [agreed | reflexivity].
  - apply order_width in Hc as (-> & Hr' & Hp'). agreed.
Qed.

(** Dead reckoning is sound on every device that keeps the contract. *)
Theorem predict_sound cs : forall e d bs d',
  Forall (fun c => is_query c = false) cs -> estimates e d -> orders cs d = Some (bs, d') ->
  bs = (predict_all cs e).1 /\ estimates (predict_all cs e).2 d'.
Proof.
  induction cs as [| c cs IH]; intros e d bs d' Hcs He Hrun; cbn in Hrun.
  - now injection Hrun as <- <-.
  - apply Forall_cons in Hcs as [Hc Hcs].
    destruct (order c d) as [[b d1] |] eqn:Hord; [| discriminate]. cbn in Hrun.
    destruct (orders cs d1) as [[bs1 d2] |] eqn:Hrest; [| discriminate].
    injection Hrun as <- <-.
    destruct (predict_order c e d b d1 Hc He Hord) as [-> He1].
    destruct (IH _ _ _ _ Hcs He1 Hrest) as [-> He2].
    cbn [predict_all]. destruct (predict c e) as [b' e1]; cbn [fst snd] in *.
    revert He2. now destruct (predict_all cs e1).
Qed.

End dead_reckoning.

(** ** The C++ device keeps the contract *)

Section device.
Context `{Graphics}.
Implicit Types (c : command) (s : State).

Lemma device_order_exec c s b s' :
  device_order c s = Some (b, s') <-> exec c s = Ok (RBool b, s').
Proof.
  unfold device_order. destruct (exec c s) as [[[] s1] | e]; cbn; split; congruence.
Qed.

(** An order is the method of its command. *)
Lemma device_order_method c s b s' (m : M State bool) :
  exec c = (RBool <$> m) -> device_order c s = Some (b, s') -> m s = Ok (b, s').
Proof.
  intros Hc [a [Hm [= ->]]]%device_order_exec%(fun E => eq_trans (eq_sym (f_equal (.$ s) Hc)) E)%M_fmap_inv.
  exact Hm.
Qed.

Lemma device_start s b s' :
  device_order Start s = Some (b, s') ->
  b = true /\ running (this s') = true
  /\ current_position (this s') ≡ current_position (this s).
Proof.
  intros Hs%(device_order_method Start _ _ _ start eq_refl). branches start_run Hs;
    injection Hs as <- <-; now destruct s as [[] ?].
Qed.

Lemma device_stop s b s' :
  device_order Stop s = Some (b, s') ->
  b = true /\ running (this s') = false
  /\ current_position (this s') ≡ current_position (this s).
Proof.
  intros Hs%(device_order_method Stop _ _ _ stop eq_refl). branches stop_run Hs;
    injection Hs as <- <-; now destruct s as [[] ?].
Qed.

(** What a motion that leaves the object as [cut_to] does answers. *)
Lemma moved_motion s b s' (q r : xy) :
  b = running (this s) ->
  this s' = (if running (this s) then with_current_position q (this s) else this s) ->
  q ≡ r ->
  b = running (this s) /\ running (this s') = running (this s)
  /\ current_position (this s') ≡ (if running (this s) then r else current_position (this s)).
Proof.
  intros -> -> Hq. destruct s as [[] ?]; cbn. now destruct running.
Qed.

Lemma device_motion c p s b s' :
  target c = Some p -> device_order c s = Some (b, s') ->
  b = running (this s) /\ running (this s') = running (this s)
  /\ current_position (this s')
     ≡ (if running (this s) then convert_to_internal p else current_position (this s)).
Proof.
  intros Hp Hc. destruct c; try discriminate Hp; injection Hp as <-.
  - apply (device_order_method (MoveTo p0) _ _ _ (move_to p0) eq_refl) in Hc.
    branches move_to_run Hc; injection Hc as <- <-; destruct s as [[] ?]; cbn in *;
      now subst.
  - apply (device_order_method (CutTo p0) _ _ _ (cut_to p0) eq_refl), cut_to_this in Hc as [Hb Hthis].
    eapply moved_motion; [exact Hb | exact Hthis | reflexivity].
  - apply (device_order_method (CurveTo p0 p1 p2 p3) _ _ _ (curve_to p0 p1 p2 p3) eq_refl), curve_to_this in Hc
      as [Hb Hthis].
    eapply moved_motion; [exact Hb | exact Hthis | apply curve_path_end].
Qed.

Lemma device_width w s b s' :
  device_order (SetToolWidth w) s = Some (b, s') ->
  b = bool_decide (0 < w) /\ running (this s') = running (this s)
  /\ current_position (this s') ≡ current_position (this s).
Proof.
  intros Hs%(device_order_method (SetToolWidth w) _ _ _ (set_tool_width w) eq_refl).
  branches set_tool_width_run Hs; injection Hs as <- <-;
    [rewrite bool_decide_eq_true_2 by assumption | rewrite bool_decide_eq_false_2 by assumption];
    now destruct s as [[] ?].
Qed.

#[export] Instance device_cutter : Cutter State := {|
  order := device_order;
  running_of s := running (this s);
  position_of s := current_position (this s);
  order_start := device_start;
  order_stop := device_stop;
  order_motion := device_motion;
  order_width := device_width
|}.

End device.

(** A session without queries is a list of orders. *)
Section device_sessions.
Context `{Graphics}.
Implicit Types (c : command) (cs : list command) (s : State).

Lemma exec_order c s r s' :
  is_query c = false -> exec c s = Ok (r, s') ->
  exists b, r = RBool b /\ device_order c s = Some (b, s').
Proof.
  intros Hq Hc.
  assert (exists b, r = RBool b) as [b ->]
    by (destruct c; try discriminate Hq; apply M_fmap_inv in Hc as (b & _ & ->); eauto).
  exists b. split; [reflexivity | now apply device_order_exec].
Qed.

Lemma run_orders cs : forall s rs s',
  Forall (fun c => is_query c = false) cs -> run cs s = Ok (rs, s') ->
  exists bs, rs = RBool <$> bs /\ orders cs s = Some (bs, s').
Proof.
  induction cs as [| c cs IH]; intros s rs s' Hcs Hrun.
  - injection Hrun as <- <-. now exists [].
  - apply Forall_cons in Hcs as [Hc Hcs].
    apply run_cons_inv in Hrun as (r & s1 & rs1 & Hexec & Hrest & ->).
    apply exec_order in Hexec as (b & -> & Hord); [| exact Hc].
    apply IH in Hrest as (bs & -> & Hbs); [| exact Hcs].
    exists (b :: bs). split; [reflexivity |].
    cbn [orders order device_cutter]. rewrite Hord. cbn. now rewrite Hbs.
Qed.

End device_sessions.

(** ** The abstract plotter keeps the contract *)

Section plotter.
Implicit Types (c : command) (a : plotter).

Lemma bezier_end (p0 p1 p2 p3 : xy) : bezier p0 p1 p2 p3 1 ≡ p3.
Proof. bezier_unfold. split; ring. Qed.

Lemma p_cut_all_position (ps : list xy) a :
  currentPosition (p_cut_all ps a) = path_end (currentPosition a) (to_raster <$> ps).
Proof.
  revert a. induction ps as [| p ps IH]; intros a; [reflexivity |].
  change (p_cut_all (p :: ps) a) with (p_cut_all ps (p_cut_to p a)). now rewrite IH.
Qed.

Lemma p_curve_to_position (p0 p1 p2 p3 : xy) a :
  currentPosition (p_curve_to p0 p1 p2 p3 a) ≡ convert_to_internal p3.
Proof.
  unfold p_curve_to. rewrite p_cut_all_position.
  change (path_end _ _) with (to_raster (bezier p0 p1 p2 p3 (inject_Z 20 / 20))).
  change to_raster with convert_to_internal.
  assert (E : inject_Z 20 / 20 == 1) by reflexivity. now rewrite E, bezier_end.
Qed.

Lemma plotter_order_exec c a b a' :
  plotter_order c a = Some (b, a') <-> p_exec c a = Some (ABool b, a').
Proof.
  unfold plotter_order. destruct (p_exec c a) as [[[] a1] |]; cbn; split; congruence.
Qed.

Lemma plotter_start a b a' :
  plotter_order Start a = Some (b, a') ->
  b = true /\ isRunning a' = true /\ currentPosition a' ≡ currentPosition a.
Proof. now intros [= <- <-]%plotter_order_exec. Qed.

Lemma plotter_stop a b a' :
  plotter_order Stop a = Some (b, a') ->
  b = true /\ isRunning a' = false /\ currentPosition a' ≡ currentPosition a.
Proof.
  intros [= <- <-]%plotter_order_exec. unfold p_stop.
  now destruct (canvas a), (valid_target (outputTarget a)).
Qed.

Lemma plotter_motion c p a b a' :
  target c = Some p -> plotter_order c a = Some (b, a') ->
  b = isRunning a /\ isRunning a' = isRunning a
  /\ currentPosition a' ≡ (if isRunning a then convert_to_internal p else currentPosition a).
Proof.
  intros Hp Hc%plotter_order_exec.
  destruct c; try discriminate Hp; injection Hp as <-; cbn in Hc;
    destruct (isRunning a) eqn:Hr; injection Hc as <- <-; rewrite ?Hr; try easy.
  split; [reflexivity |]. split; [| apply p_curve_to_position].
  unfold p_curve_to. now rewrite (proj1 (p_cut_all_fields _ _)).
Qed.

Lemma plotter_width w a b a' :
  plotter_order (SetToolWidth w) a = Some (b, a') ->
  b = bool_decide (0 < w) /\ isRunning a' = isRunning a
  /\ currentPosition a' ≡ currentPosition a.
Proof.
  intros Hc%plotter_order_exec. cbn in Hc.
  destruct (decide (0 < w)); injection Hc as <- <-;
    [rewrite bool_decide_eq_true_2 by assumption | rewrite bool_decide_eq_false_2 by assumption];
    easy.
Qed.

#[export] Instance plotter_cutter : Cutter plotter := {|
  order := plotter_order;
  running_of := isRunning;
  position_of := currentPosition;
  order_start := plotter_start;
  order_stop := plotter_stop;
  order_motion := plotter_motion;
  order_width := plotter_width
|}.

End plotter.

(** ** Dead reckoning on the C++ device *)

(** C18. The answers of a session without queries, the run flag and the
    position it leaves are the ones dead reckoning computes from the commands
    and from the flag and position at its start: every flag answered is the
    predicted one, and the device ends where the client believes it is. *)
Theorem run_predicted `{Graphics} (cs : list command) (s : State) rs s' :
  Forall (fun c => is_query c = false) cs -> run cs s = Ok (rs, s') ->
  rs = RBool <$> (predict_all cs (estimate_of s)).1
  /\ running (this s') = est_running (predict_all cs (estimate_of s)).2
  /\ current_position (this s') ≡ est_position (predict_all cs (estimate_of s)).2.
Proof.
  intros Hcs (bs & -> & Hord)%run_orders; [| exact Hcs].
  destruct (predict_sound cs (estimate_of s) s bs s' Hcs (estimates_of s) Hord)
    as [-> [Hr Hp]].
  split; [reflexivity |]. split; [symmetry; exact Hr | symmetry; exact Hp].
Qed.
