(* ===== verification/Files.v ===== *)
(** * Files: the persistence layer behind [cvSaveImage].

    [stop] hands the canvas to [cvSaveImage] and discards the result of the
    call.  Whether the file is written is decided outside the device: the
    target may not be writable.  The memory of [Graphics] records every
    image handed to the encoder, oldest first; this file interprets that
    record as a file system, given the targets that can be written, a later
    file replacing an earlier one of the same name.  It shows what [stop]
    does when the target cannot be written (it reports success, and the
    drawing is lost), and which drawing a file holds after a session. *)

From Stdlib Require Import QArith Qabs Lqa Lia ZArith.
From stdpp Require Import base decidable option list gmap strings.
From S2P Require Import Prelude Geometry Commands Bezier Graphics Device DeviceSpec Machine.
From S2P Require Import Ownership Plotter Refinement.

#[local] Open Scope Q_scope.

(** The files: the image each written target holds. *)
Abbreviation file_system := (gmap string IplImage).

Section file_system.
Context `{Graphics}.

(** One call of [cvSaveImage]: the file is replaced when the target can be
    written, and nothing happens otherwise. *)
Definition write_file (writable : string -> bool) (fs : file_system)
    (fi : string * IplImage) : file_system :=
  if writable fi.1 then <[fi.1 := fi.2]> fs else fs.

(** The files after the calls of [cvSaveImage] recorded in the memory. *)
Definition files (writable : string -> bool) (m : Memory) : file_system :=
  foldl (write_file writable) ∅ (saved m).

End file_system.

Arguments files : simpl never.

(** ** The file system of a record of calls *)

Section files_lemmas.
Context `{Graphics}.
Implicit Types (writable : string -> bool) (m : Memory) (s : State) (l : loc)
  (img : IplImage) (name : string) (cs : list command) (rs : list response).

Lemma files_saved_snoc writable (h : gmap loc IplImage) sv (fi : string * IplImage) :
  files writable (mk_Memory h (sv ++ [fi]))
  = write_file writable (files writable (mk_Memory h sv)) fi.
Proof. unfold files. cbn. now rewrite foldl_app. Qed.

(** The files depend on the record of calls only. *)
Lemma files_saved writable m m' : saved m = saved m' -> files writable m = files writable m'.
Proof. unfold files. now intros ->. Qed.

(** Calls on targets that cannot be written leave no file. *)
Lemma files_unwritable writable m :
  Forall (fun fi => writable fi.1 = false) (saved m) -> files writable m = ∅.
Proof.
  unfold files. generalize (saved m). intros sv. induction sv as [| fi sv IH] using rev_ind.
  - reflexivity.
  - intros [Hsv Hfi%Forall_inv]%Forall_app. cbn beta in Hfi.
    rewrite foldl_app. cbn. unfold write_file at 1. rewrite Hfi. now apply IH.
Qed.

(** Calls on one writable target leave one file: the last image saved. *)
Lemma files_one_target writable m name :
  writable name = true -> Forall (fun fi => fi.1 = name) (saved m) ->
  files writable m = from_option (fun fi => {[ name := fi.2 ]}) ∅ (last (saved m)).
Proof.
  intros Hw. unfold files. generalize (saved m). intros sv.
  induction sv as [| [n img] sv IH] using rev_ind; [reflexivity |].
  intros [Hsv Hfi%Forall_inv]%Forall_app. cbn in Hfi. subst n.
  rewrite foldl_app, last_snoc. cbn. unfold write_file at 1. cbn. rewrite Hw, (IH Hsv).
  destruct (last sv) as [[n' img'] |]; cbn; [apply insert_singleton_eq | reflexivity].
Qed.

End files_lemmas.

(** ** [stop] and the file system *)

Section stop_files.
Context `{Graphics}.
Variable writable : string -> bool.
Implicit Types (s : State) (l : loc) (img : IplImage) (cs : list command)
  (rs : list response) (a : plotter).

(** [stop] with a target that can be written: the file holds the canvas. *)
Lemma stop_writes s l img :
  image (this s) = Some l -> heap (mem s) !! l = Some img ->
  (4 < String.length (output_filename (this s)))%nat ->
  writable (output_filename (this s)) = true ->
  exists s', stop s = Ok (true, s')
    /\ files writable (mem s') = <[output_filename (this s) := img]> (files writable (mem s)).
Proof.
  intros Hi Hl Hlen Hw. eexists. split; [branch stop_run |]. cbn.
  rewrite files_saved_snoc. unfold write_file. cbn [fst snd]. now rewrite Hw.
Qed.


(** Every call of [cvSaveImage] of a session names the target the device
    was constructed with. *)
Lemma session_saved_names (filename : string) cs rs s' :
  run cs (initial_state (CV_sim_new_filename filename)) = Ok (rs, s') ->
  Forall (fun fi => fi.1 = filename) (saved (mem s')).
Proof.
  intros Hrun.
  pose proof (run_invariant _ _ _ _ Hrun (invariant_initial filename)) as Hinv.
  eapply Forall_impl; [exact (inv_saved s' Hinv) |]. intros fi (-> & _).
  exact (run_filename _ _ _ _ Hrun).
Qed.

(** A device whose target cannot be written leaves no file, whatever the
    session. *)
Lemma session_unwritable (filename : string) cs rs s' :
  run cs (initial_state (CV_sim_new_filename filename)) = Ok (rs, s') ->
  writable filename = false -> files writable (mem s') = ∅.
Proof.
  intros Hrun Hw. apply files_unwritable.
  eapply Forall_impl; [exact (session_saved_names _ _ _ _ Hrun) |]. now intros fi ->.
Qed.

(** C26. The file of a session.  A device writes one file at most, under the
    target it was constructed with, and each [stop] that saves replaces
    it: at the end of a session the file holds the strokes of the canvas
    persisted last, as the abstract plotter records them, and the drawings
    persisted before are overwritten. *)
Theorem session_file_last (filename : string) cs rs s' :
  run cs (initial_state (CV_sim_new_filename filename)) = Ok (rs, s') ->
  writable filename = true ->
  exists prs a',
    p_run cs (plotter_new filename) = Some (prs, a')
    /\ files writable (mem s')
       = from_option (fun tc => {[ filename := render tc.2 ]}) ∅ (last (persisted a')).
Proof.
  intros Hrun Hw.
  destruct (run_refines_state cs _ _ _ _ (refines_new filename) Hrun)
    as (prs & a' & Hp & Href).
  exists prs, a'. split; [exact Hp |].
  rewrite (files_one_target writable (mem s') filename Hw (session_saved_names _ _ _ _ Hrun)).
  rewrite (ref_saved a' s' Href), fmap_last. now destruct (last (persisted a')) as [[t c] |].
Qed.

End stop_files.
