(* ===== verification/DisplayList.v ===== *)
(** * DisplayList: the device on the display-list instance of [Graphics].

    In [DL] an image is the list of primitives drawn on it since it was
    zeroed.  Run on [DL], the methods show which OpenCV calls the device
    makes and in which order: a cut is one [Line], a curve is twenty [Line]s
    chained end to end, a snapshot is the canvas followed by one [Circle]
    and two [Line]s.  What is drawn stays: between two savings of the
    canvas no command removes a primitive from it, and nothing but cuts is
    added ([dl_canvas_persists]). *)

From Stdlib Require Import QArith Qabs Lqa Lia ZArith.
From stdpp Require Import base decidable option list gmap strings.
From S2P Require Import Prelude Geometry Commands Bezier Graphics Device DeviceSpec Machine.
From S2P Require Import Ownership Typing.

#[local] Open Scope Q_scope.

(** The primitive of one cut from [a] to [b] with tool width [w]. *)
Definition cut_op (w : Q) (a b : xy) : draw_op :=
  Line (pixel_of a) (pixel_of b) cut_grey (Qtrunc w) CV_AA 0.

(** The primitives of a path from [a] through [ps]. *)
Fixpoint path_ops (w : Q) (a : xy) (ps : list xy) : list draw_op :=
  match ps with
  | [] => []
  | p :: ps' => cut_op w a p :: path_ops w p ps'
  end.

(** The primitives of the position marker at [p]. *)
Definition marker_ops (p : xy) : list draw_op :=
  [ Circle (pixel_of p) 10 marker_rgb 2 LINE_8 0;
    Line (pixel_of (mk_xy (x p + 5) (y p + 5))) (pixel_of (mk_xy (x p - 5) (y p - 5)))
      marker_rgb 1 LINE_8 0;
    Line (pixel_of (mk_xy (x p + 5) (y p - 5))) (pixel_of (mk_xy (x p - 5) (y p + 5)))
      marker_rgb 1 LINE_8 0 ].

(** A list of lines in which each line starts where the previous one ended,
    the first starting at [from]. *)
Inductive chained : CvPoint -> list draw_op -> Prop :=
  | chained_nil (from : CvPoint) : chained from []
  | chained_cons (from to : CvPoint) (col : CvScalar) (th lt sh : Z) (ops : list draw_op) :
      chained to ops -> chained from (Line from to col th lt sh :: ops).

(** The canvas of a device on [DL], when it has one. *)
Definition canvas_ops (s : @State DL) : option (list draw_op) :=
  match image (this s) with
  | Some l =>
      match heap (mem s) !! l with
      | Some img => dl_data img
      | None => None
      end
  | None => None
  end.

(** The arguments of a primitive that OpenCV checks or interprets: the
    colour is a value of an 8-bit pixel, the thickness is positive (a
    negative thickness fills a circle and is refused for a line), the
    coordinates have no fractional bits, the line type is one the device
    uses and a radius is not negative. *)
Definition op_valid (op : draw_op) : Prop :=
  match op with
  | Line _ _ col th lt sh =>
      colour_fits canvas_type col /\ (1 <= th)%Z /\ sh = 0%Z /\ (lt = CV_AA \/ lt = LINE_8)
  | Circle _ r col th lt sh =>
      colour_fits canvas_type col /\ (1 <= th)%Z /\ sh = 0%Z /\ (lt = CV_AA \/ lt = LINE_8)
      /\ (0 <= r)%Z
  end.

#[export] Instance op_valid_decision op : Decision (op_valid op).
Proof. destruct op; apply _. Defined.

(** The tool is at least one raster unit wide and every primitive drawn on
    an image of the memory, or on an image handed to the encoder, is
    valid. *)
Definition primitives_valid (s : @State DL) : Prop :=
  1 <= tool_width (this s)
  /\ map_Forall (fun _ img => Forall op_valid (dl_ops img)) (heap (mem s))
  /\ Forall (fun fi => Forall op_valid (dl_ops fi.2)) (saved (mem s)).

#[export] Instance primitives_valid_decision s : Decision (primitives_valid s).
Proof. unfold primitives_valid. apply _. Defined.

(** A line as [cut_to] draws it: grey and anti-aliased. *)
Definition cut_stroke_op (op : draw_op) : Prop :=
  match op with
  | Line _ _ col _ lt sh => col = cut_grey /\ lt = CV_AA /\ sh = 0%Z
  | Circle _ _ _ _ _ _ => False
  end.

#[export] Instance cut_stroke_op_decision op : Decision (cut_stroke_op op).
Proof. destruct op; apply _. Defined.

(** The canvas holds [ops] and, after them, nothing but cuts. *)
Definition extends (ops : list draw_op) (s : @State DL) : Prop :=
  exists new, canvas_ops s = Some (ops ++ new) /\ Forall cut_stroke_op new.

(** [stop] does not save: the file name has at most four characters. *)
Definition short_name (s : @State DL) : Prop :=
  (String.length (output_filename (this s)) <= 4)%nat.

#[export] Instance short_name_decision s : Decision (short_name s).
Proof. unfold short_name. apply _. Defined.

(** ** Paths *)

Lemma dl_cut_line (w : Q) (a b : xy) (img : dl_image) :
  cut_line w a b img = dl_draw (cut_op w a b) img.
Proof. reflexivity. Qed.

Lemma dl_data_cut_path (w : Q) (ps : list xy) : forall (a : xy) (img : dl_image) ops,
  dl_data img = Some ops -> dl_data (cut_path w a ps img) = Some (ops ++ path_ops w a ps).
Proof.
  induction ps as [| p ps IH]; intros a img ops Hops; cbn.
  - now rewrite app_nil_r.
  - rewrite (IH p _ (ops ++ [cut_op w a p])); [now rewrite <- app_assoc |].
    cbn. now rewrite Hops.
Qed.

Lemma path_ops_length (w : Q) (ps : list xy) (a : xy) : length (path_ops w a ps) = length ps.
Proof. revert a. induction ps as [| p ps IH]; intros a; cbn; [reflexivity | now rewrite IH]. Qed.

(** The lines of a path are chained, starting at the pixel of its origin. *)
Lemma path_ops_chained (w : Q) (ps : list xy) (a : xy) : chained (pixel_of a) (path_ops w a ps).
Proof.
  revert a. induction ps as [| p ps IH]; intros a; cbn; [constructor |].
  unfold cut_op. constructor. apply IH.
Qed.

Lemma dl_data_marker (p : xy) (img : dl_image) ops :
  dl_data img = Some ops -> dl_data (marker p img) = Some (ops ++ marker_ops p).
Proof. intros Hops. unfold marker. cbn. rewrite Hops. cbn. now rewrite <- !app_assoc. Qed.

(** ** The methods on [DL] *)

Section dl_methods.
Implicit Types (s : @State DL) (l : loc) (img : @IplImage DL) (ops : list draw_op).

Lemma canvas_ops_eq s l img :
  image (this s) = Some l -> heap (mem s) !! l = Some img -> canvas_ops s = dl_data img.
Proof.
  intros Hi Hl. unfold canvas_ops. rewrite Hi.
  exact (f_equal (fun o : option dl_image =>
                    match o with Some i => dl_data i | None => None end) Hl).
Qed.

Lemma canvas_ops_can_draw s l img ops :
  can_draw s l img -> dl_data img = Some ops -> canvas_ops s = Some ops.
Proof. intros (_ & Hi & Hl) Hops. now rewrite (canvas_ops_eq s l img Hi Hl). Qed.

Lemma canvas_ops_drawn (p : xy) s l img' :
  image (this s) = Some l -> canvas_ops (drawn p l img' s) = dl_data img'.
Proof. intros Hi. apply (canvas_ops_eq _ l); [exact Hi | apply lookup_insert_eq]. Qed.

(** After the first [start] the canvas is empty. *)
Theorem dl_start_blank s b s' :
  image (this s) = None -> start s = Ok (b, s') -> canvas_ops s' = Some [].
Proof.
  intros Hi Hrun. rewrite start_run in Hrun. unfold start_result in Hrun.
  rewrite Hi in Hrun. injection Hrun as <- <-.
  rewrite (canvas_ops_eq _ (fresh (dom (heap (mem s)))) (@blank_canvas DL));
    [reflexivity | reflexivity | apply lookup_insert_eq].
Qed.

(** A cut appends exactly one line. *)
Theorem dl_cut_to_ops (p : xy) s l img ops :
  can_draw s l img -> dl_data img = Some ops -> cut_convertible s p ->
  exists s', cut_to p s = Ok (true, s')
    /\ canvas_ops s' = Some (ops ++ [cut_op (tool_width (this s)) (current_position (this s))
                                       (convert_to_internal p)]).
Proof.
  intros Hdraw Hops Hc. eexists. split; [exact (cut_to_drawn p s l img Hdraw Hc) |].
  rewrite (canvas_ops_drawn _ s l) by apply Hdraw. cbn. now rewrite Hops.
Qed.

(** A curve appends exactly twenty lines: the chained segments of the
    polyline, starting at the pixel of the first control point. *)
Theorem dl_curve_to_ops (p0 p1 p2 p3 : xy) s l img ops :
  can_draw s l img -> dl_data img = Some ops ->
  path_convertible (tool_width (this s)) (convert_to_internal p0)
    (convert_to_internal <$> curve_polyline p0 p1 p2 p3) ->
  exists s' new,
    curve_to p0 p1 p2 p3 s = Ok (true, s')
    /\ canvas_ops s' = Some (ops ++ new)
    /\ new = path_ops (tool_width (this s)) (convert_to_internal p0)
               (convert_to_internal <$> curve_polyline p0 p1 p2 p3)
    /\ length new = 20%nat
    /\ chained (pixel_of (convert_to_internal p0)) new.
Proof.
  intros Hdraw Hops Hc. eexists. eexists.
  split; [rewrite (curve_to_running _ _ _ _ _ (proj1 Hdraw));
          exact (cut_all_moved p0 _ s l img Hdraw Hc) |].
  split; [| split; [reflexivity | split]].
  - rewrite (canvas_ops_drawn _ s l) by apply Hdraw.
    now apply dl_data_cut_path.
  - now rewrite path_ops_length, length_fmap, curve_polyline_length.
  - apply path_ops_chained.
Qed.

(** A snapshot is the canvas with the marker appended; the canvas itself
    is untouched. *)
Theorem dl_get_image_ops s l img ops :
  image (this s) = Some l -> heap (mem s) !! l = Some img -> dl_data img = Some ops ->
  marker_convertible (current_position (this s)) ->
  exists l' s' snap,
    get_image s = Ok (l', s')
    /\ l' <> l
    /\ heap (mem s') !! l' = Some snap
    /\ dl_data snap = Some (ops ++ marker_ops (current_position (this s)))
    /\ heap (mem s') !! l = Some img
    /\ this s' = this s.
Proof.
  intros Hi Hl Hops Hc. eexists. eexists. eexists.
  split; [branch get_image_run |].
  assert (Hne : fresh (dom (heap (mem s))) <> l) by now apply (fresh_loc_ne (mem s) l img).
  split; [exact Hne |]. cbn.
  split; [apply lookup_insert_eq |].
  split; [now apply dl_data_marker |].
  split; [now rewrite lookup_insert_ne | reflexivity].
Qed.

End dl_methods.

(** ** The primitives of a session *)

Section dl_primitives.
Implicit Types (s : @State DL) (l : loc) (img : @IplImage DL) (op : draw_op)
  (cs : list command) (rs : list response).

Lemma dl_ops_draw_valid op img :
  op_valid op -> Forall op_valid (dl_ops img) -> Forall op_valid (dl_ops (dl_draw op img)).
Proof.
  intros Hop Himg. unfold dl_ops, dl_draw in *. cbn.
  destruct (dl_data img) as [ops |]; cbn in *; [| constructor].
  apply Forall_app. split; [assumption | now apply Forall_singleton].
Qed.

(** A cut with a tool at least one unit wide is a line of positive
    thickness. *)
Lemma cut_op_valid (w : Q) (a b : xy) : 1 <= w -> op_valid (cut_op w a b).
Proof.
  intros Hw. split; [by_compute |]. split; [exact (Qtrunc_mono 1 w Hw) |]. now split; [| left].
Qed.

Lemma dl_ops_marker_valid (p : xy) img :
  Forall op_valid (dl_ops img) -> Forall op_valid (dl_ops (marker p img)).
Proof.
  intros Himg. unfold marker.
  repeat (apply dl_ops_draw_valid; [by_compute |]). assumption.
Qed.

Lemma primitives_valid_initial (d : CV_sim) :
  1 <= tool_width d -> primitives_valid (initial_state d).
Proof. intros Hw. split; [assumption |]. split; [apply map_Forall_empty | constructor]. Qed.

Ltac valid Hrun :=
  intros s (Hw & Hh & Hs); returned Hrun;
  try (split; [assumption | split; assumption]).

Lemma move_to_valid (p : xy) : returns primitives_valid (move_to p) (fun _ => primitives_valid).
Proof. valid move_to_run. Qed.

Lemma cut_to_valid (p : xy) : returns primitives_valid (cut_to p) (fun _ => primitives_valid).
Proof.
  valid cut_to_run. split; [assumption |]. split; [| assumption].
  apply map_Forall_insert_2; [| assumption].
  apply dl_ops_draw_valid; [now apply cut_op_valid | eauto].
Qed.

Lemma set_tool_width_valid (w : Q) :
  returns primitives_valid (set_tool_width w) (fun _ => primitives_valid).
Proof.
  valid set_tool_width_run. split; [apply clamped_tool_width_ge_1 | now split].
Qed.

Lemma start_valid : returns primitives_valid start (fun _ => primitives_valid).
Proof.
  valid start_run. split; [assumption |]. split; [| assumption].
  apply map_Forall_insert_2; [constructor | assumption].
Qed.

Lemma stop_valid : returns primitives_valid stop (fun _ => primitives_valid).
Proof.
  valid stop_run. split; [assumption |]. split; cbn.
  - now apply map_Forall_delete.
  - apply Forall_app. split; [assumption |]. apply Forall_singleton. cbn. eauto.
Qed.

Lemma get_image_valid : returns primitives_valid get_image (fun _ => primitives_valid).
Proof.
  valid get_image_run. split; [assumption |]. split; [| assumption].
  apply map_Forall_insert_2; [| assumption]. apply dl_ops_marker_valid. eauto.
Qed.

Lemma exec_valid (c : command) : returns primitives_valid (exec c) (fun _ => primitives_valid).
Proof.
  apply exec_inv; intros;
    [ apply start_valid | apply stop_valid | apply move_to_valid | apply cut_to_valid
    | apply set_tool_width_valid | apply get_image_valid ].
Qed.

(** C36. Every primitive the device draws during a session has arguments that
    OpenCV accepts: the colours 120 and 250 are values of an 8-bit pixel, no
    coordinate has fractional bits, and the thickness of every cut is at
    least 1, because [set_tool_width] never leaves a width below 1 in the
    object.  This holds of the canvas, of every snapshot and of every image
    handed to the encoder. *)
Theorem dl_session_primitives (filename : string) cs rs s' l img op :
  run cs (initial_state (CV_sim_new_filename filename)) = Ok (rs, s') ->
  (heap (mem s') !! l = Some img \/ (filename, img) ∈ saved (mem s')) ->
  op ∈ dl_ops img -> op_valid op.
Proof.
  intros Hrun Himg Hop.
  assert (Hs : primitives_valid (initial_state (CV_sim_new_filename filename)))
    by now apply primitives_valid_initial.
  destruct (triple_ok _ _ _ _ _ _ _ (run_inv _ _ cs exec_valid) Hs Hrun) as (_ & Hh & Hsv).
  assert (Hall : Forall op_valid (dl_ops img)).
  { destruct Himg as [Hl | Hin]; [exact (Hh l img Hl) |].
    rewrite Forall_forall in Hsv. exact (Hsv _ Hin). }
  rewrite Forall_forall in Hall. exact (Hall op Hop).
Qed.

End dl_primitives.

(** ** The canvas persists *)

Section dl_persistence.
Implicit Types (s : @State DL) (l : loc) (ops : list draw_op).

Lemma extends_refl s ops : canvas_ops s = Some ops -> extends ops s.
Proof. intros Hops. exists []. now rewrite app_nil_r. Qed.

(** The canvas of a state is the one of [s] when the pointer and the image
    behind it are. *)
Lemma canvas_ops_same s s' :
  image (this s') = image (this s) ->
  (forall l, image (this s) = Some l -> heap (mem s') !! l = heap (mem s) !! l) ->
  canvas_ops s' = canvas_ops s.
Proof.
  intros Hi Hh. unfold canvas_ops. rewrite Hi.
  destruct (image (this s)) as [l |]; [| reflexivity].
  exact (f_equal (fun o : option dl_image =>
                    match o with Some i => dl_data i | None => None end) (Hh l eq_refl)).
Qed.

Lemma extends_same ops s s' : canvas_ops s' = canvas_ops s -> extends ops s -> extends ops s'.
Proof. unfold extends. now intros ->. Qed.

(** A device whose canvas holds primitives has a defined canvas. *)
Lemma extends_canvas ops s :
  extends ops s -> exists l img, image (this s) = Some l /\ heap (mem s) !! l = Some img.
Proof.
  intros (new & Hops & _). unfold canvas_ops in Hops.
  destruct (image (this s)) as [l |]; [| discriminate]. exists l.
  destruct (heap (mem s) !! l) as [img |] eqn:Hl; [eauto | discriminate].
Qed.

Lemma extends_cut ops (w : Q) (a b : xy) s l img :
  image (this s) = Some l -> heap (mem s) !! l = Some img -> extends ops s ->
  extends ops (drawn b l (cut_line w a b img) s).
Proof.
  intros Hi Hl (new & Hops & Hnew). rewrite (canvas_ops_eq s l img Hi Hl) in Hops.
  exists (new ++ [cut_op w a b]). split.
  - rewrite (canvas_ops_drawn _ s l _ Hi). cbn. rewrite Hops. cbn. now rewrite app_assoc.
  - apply Forall_app. split; [exact Hnew | now repeat constructor].
Qed.

End dl_persistence.

Section dl_persistence_methods.
Implicit Types (s : @State DL) (l : loc) (ops : list draw_op).
Variable ops : list draw_op.

(** Reduces the preservation of [extends ops] by a method to the branches
    of its result function [Hrun] that change the canvas. *)
Ltac persists_from s Hs Hrun :=
  let l := fresh "l" in
  let img := fresh "img" in
  let Hi := fresh "Hi" in
  let Hl := fresh "Hl" in
  destruct (extends_canvas ops s Hs) as (l & img & Hi & Hl);
  returned Hrun; try congruence;
  try (apply (extends_same ops s); [apply canvas_ops_same; cbn; intros; reflexivity | exact Hs]).

Ltac persists Hrun := intros s Hs; persists_from s Hs Hrun.

Lemma move_to_extends (p : xy) : returns (extends ops) (move_to p) (fun _ => extends ops).
Proof. persists move_to_run. Qed.

Lemma set_tool_width_extends (w : Q) :
  returns (extends ops) (set_tool_width w) (fun _ => extends ops).
Proof. persists set_tool_width_run. Qed.

Lemma start_extends : returns (extends ops) start (fun _ => extends ops).
Proof. persists start_run. Qed.

Lemma cut_to_extends (p : xy) : returns (extends ops) (cut_to p) (fun _ => extends ops).
Proof. persists cut_to_run. now apply extends_cut. Qed.

Lemma get_image_extends : returns (extends ops) get_image (fun _ => extends ops).
Proof.
  persists get_image_run. apply (extends_same ops s); [| exact Hs].
  apply canvas_ops_same; [reflexivity |]. intros l' Hl'. cbn.
  apply lookup_insert_ne. simplify_eq. exact (fresh_loc_ne (H := DL) (mem s) _ _ Hl).
Qed.

(** [stop] keeps the canvas when it does not save. *)
Lemma stop_extends :
  returns (fun s => extends ops s /\ short_name s) stop (fun _ => extends ops).
Proof.
  intros s [Hs Hshort]. persists_from s Hs stop_run. unfold short_name in Hshort. lia.
Qed.

(** Every command but a saving [stop] keeps what is on the canvas. *)
Lemma exec_extends (c : command) :
  returns (fun s => extends ops s /\ (c = Stop -> short_name s)) (exec c)
    (fun _ => extends ops).
Proof.
  assert (Hweak : forall A (m : M State A),
             returns (extends ops) m (fun _ => extends ops) ->
             returns (fun s => extends ops s /\ (c = Stop -> short_name s)) m
               (fun _ => extends ops))
    by (intros A m Hm; eapply triple_conseq; [exact Hm | now intros s [? _] | auto | auto]).
  destruct c; cbn [exec]; try apply triple_fmap;
    try (apply Hweak;
         auto using start_extends, move_to_extends, cut_to_extends, set_tool_width_extends,
           get_image_extends; fail).
  - eapply triple_conseq; [apply stop_extends | | auto | auto].
    intros s [Hs Hc]. split; [exact Hs | now apply Hc].
  - apply Hweak, curve_to_inv; [apply move_to_extends | apply cut_to_extends].
  - apply triple_ret. now intros s [Hs _].
Qed.

End dl_persistence_methods.

Section dl_persistence_sessions.
Implicit Types (s : @State DL) (l : loc) (ops : list draw_op).

(** C28. What is on the canvas stays on it: in a session in which [stop] does
    not save (there is none, or the file name has at most four
    characters), the canvas at the end is the canvas at the start followed
    by cuts; no command erases a line, a second [start] does not clear the
    canvas, and the marker of a snapshot never lands on it. *)
Theorem dl_canvas_persists cs : forall s rs s' ops,
  run cs s = Ok (rs, s') -> canvas_ops s = Some ops -> (Stop ∈ cs -> short_name s) ->
  extends ops s'.
Proof.
  induction cs as [| c cs IH]; intros s rs s' ops Hrun Hops Hstop.
  - injection Hrun as <- <-. now apply extends_refl.
  - apply run_cons_inv in Hrun as (r & s1 & rs1 & Hc & Hcs & ->).
    assert (Hname : output_filename (this s1) = output_filename (this s))
      by exact (triple_ok _ _ _ _ _ _ _ (exec_filename c _) eq_refl Hc).
    assert (Hs1 : extends ops s1).
    { refine (triple_ok _ _ _ _ _ _ _ (exec_extends ops c) _ Hc).
      split; [now apply extends_refl | intros ->; apply Hstop; left]. }
    destruct Hs1 as (new & Hops1 & Hnew).
    destruct (IH s1 rs1 s' (ops ++ new) Hcs Hops1) as (new' & Hops' & Hnew').
    { intros Hin. unfold short_name. rewrite Hname. apply Hstop. now right. }
    exists (new ++ new'). split; [now rewrite app_assoc | now apply Forall_app].
Qed.

End dl_persistence_sessions.
