(* ===== verification/Approximation.v ===== *)
(** * Approximation: how far the lines of [curve_to] are from the curve.

    [curve_to] replaces the cubic Bezier curve by twenty straight cuts
    between its points at [t = i / 20].  This file bounds what is lost.

    ** Error factors

    On one axis, with control values [a0 .. a3], the second differences
    [a0 - 2 a1 + a2] and [a1 - 2 a2 + a3] are a sixth of the second
    derivative of the cubic at [t = 0] and [t = 1]; [bend] is the larger
    of their absolute values and [roughness] the larger [bend] of the two
    axes.  Between two parameters [a < b] the cubic differs from its chord
    by [(t - a) (t - b)] times a mean of the second differences
    ([chord_remainder]), hence by at most [3/4 (b - a)^2 bend]
    ([chord_error]); for a section of [curve_to], [b - a = 1 / 20] and the
    factor is [section_error = 3 / 1600].

    ** Main results

    - [polyline_error]: in logical units, each point of the polyline is
      within [section_error * roughness] of the point of the curve with
      the same parameter, on each axis.
    - [polyline_error_page]: with the control points on the page, 2.25
      raster units.
    - [curve_to_error]: the segments the device asks OpenCV to draw, whose
      end points are truncated to integers, stay within 3.25 raster units
      of the curve on each axis. *)

From Stdlib Require Import QArith Qabs Qminmax Qround Qfield Lqa Lia ZArith.
From stdpp Require Import base decidable option list gmap strings.
From S2P Require Import Prelude Geometry Commands Bezier Graphics Device DeviceSpec Machine.
From S2P Require Import Ownership StateEquiv Typing DisplayList.

#[local] Open Scope Q_scope.

(** [u - 2 v + w]: the second difference of three consecutive control
    values. *)
Definition second_difference (u v w : Q) : Q := u - 2 * v + w.

(** The larger second difference of a cubic, in absolute value. *)
Definition bend (a0 a1 a2 a3 : Q) : Q :=
  Qmax (Qabs (second_difference a0 a1 a2)) (Qabs (second_difference a1 a2 a3)).

Definition roughness (p0 p1 p2 p3 : xy) : Q :=
  Qmax (bend (x p0) (x p1) (x p2) (x p3)) (bend (y p0) (y p1) (y p2) (y p3)).

(** The chord of the cubic between the parameters [a] and [b], at [t]. *)
Definition chord (a0 a1 a2 a3 a b t : Q) : Q :=
  lerp (bernstein a0 a1 a2 a3 a) (bernstein a0 a1 a2 a3 b) ((t - a) / (b - a)).

(** The factor of a section of [curve_to]: [3/4 (1/20)^2]. *)
Definition section_error : Q :=
  (3 # 4) / (inject_Z NUM_SECTIONS_PER_CURVE * inject_Z NUM_SECTIONS_PER_CURVE).

(** Where the parameter [t] is on section [i]: 0 at its first vertex, 1 at
    its last. *)
Definition section_param (i : Z) (t : Q) : Q :=
  (t - curve_param i) * inject_Z NUM_SECTIONS_PER_CURVE.

(** The point of the polyline at parameter [t] of section [i], between the
    points [curve_to] computes at [i] and [i + 1]. *)
Definition polyline_point (p0 p1 p2 p3 : xy) (i : Z) (t : Q) : xy :=
  xy_lerp (curve_iter p0 p1 p2 p3 i) (curve_iter p0 p1 p2 p3 (i + 1)) (section_param i t).

(** Two points at most [eps] apart on each axis. *)
Definition within (eps : Q) (p q : xy) : Prop :=
  Qabs (x p - x q) <= eps /\ Qabs (y p - y q) <= eps.

#[export] Instance within_decision eps p q : Decision (within eps p q).
Proof. unfold within. apply _. Defined.

(** An integer point of the raster as a point of the plane. *)
Definition pixel_xy (c : CvPoint) : xy := mk_xy (inject_Z (pt_x c)) (inject_Z (pt_y c)).

(** The point at [tau] on the segment a [Line] joins. *)
Definition op_point (op : draw_op) (tau : Q) : xy :=
  match op with
  | Line a b _ _ _ _ => xy_lerp (pixel_xy a) (pixel_xy b) tau
  | Circle c _ _ _ _ _ => pixel_xy c
  end.

(** The start of the [k]-th segment of a path from [a] through [ps]. *)
Definition vertex (a : xy) (ps : list xy) (k : nat) : xy := default a ((a :: ps) !! k).

(** Adds to the context that the product of two factors, each
    nonnegative by linear arithmetic, is nonnegative: the facts [lra] needs
    to bound a product. *)
Ltac product_nonneg u v :=
  let H := fresh "Hprod" in
  assert (H : 0 <= u * v) by (apply Qmult_le_0_compat; lra).

(** ** Arithmetic *)

Lemma Qsquare_nonneg (u : Q) : 0 <= u * u.
Proof. nra. Qed.

(** [|u v| <= m n] from [0 <= u <= m] and [|v| <= n]. *)
Lemma Qabs_product_bound (u v m n : Q) :
  0 <= u -> u <= m -> - n <= v -> v <= n -> - (m * n) <= u * v /\ u * v <= m * n.
Proof.
  intros Hu0 Hum Hvl Hvu.
  product_nonneg u (n - v).
  product_nonneg u (v + n).
  product_nonneg (m - u) n.
  split; lra.
Qed.

(** The parabola [(t - a) (b - t)] on [[a, b]]. *)
Lemma parabola_bound (a b t : Q) :
  a <= t -> t <= b -> 0 <= (t - a) * (b - t) /\ (t - a) * (b - t) <= (b - a) * (b - a) * (1 # 4).
Proof.
  intros Hat Htb. pose proof (Qsquare_nonneg (2 * t - a - b)) as Hsq.
  split; [apply Qmult_le_0_compat; lra | lra].
Qed.

(** A weighted mean, with weights [3 - w] and [w]. *)
Lemma blend_bound (d0 d1 m w : Q) :
  - m <= d0 -> d0 <= m -> - m <= d1 -> d1 <= m -> 0 <= w -> w <= 3 ->
  - (3 * m) <= (3 - w) * d0 + w * d1 /\ (3 - w) * d0 + w * d1 <= 3 * m.
Proof.
  intros Hl0 Hu0 Hl1 Hu1 Hw0 Hw3.
  product_nonneg (3 - w) (m - d0).
  product_nonneg (3 - w) (d0 + m).
  product_nonneg w (m - d1).
  product_nonneg w (d1 + m).
  split; lra.
Qed.

Lemma Qabs_bounds (u : Q) : - Qabs u <= u /\ u <= Qabs u.
Proof.
  pose proof (Qle_Qabs u) as H1. pose proof (Qle_Qabs (- u)) as H2.
  rewrite Qabs_opp in H2. lra.
Qed.

(** Interpolating between points that are [eps] apart. *)
Lemma lerp_within (a b a' b' tau eps : Q) :
  0 <= tau -> tau <= 1 -> Qabs (a - a') <= eps -> Qabs (b - b') <= eps ->
  Qabs (lerp a b tau - lerp a' b' tau) <= eps.
Proof.
  intros Ht0 Ht1 [Hal Hau]%Qabs_Qle_condition [Hbl Hbu]%Qabs_Qle_condition.
  unfold lerp. apply Qabs_Qle_condition.
  product_nonneg (1 - tau) (eps - (a - a')).
  product_nonneg (1 - tau) ((a - a') + eps).
  product_nonneg tau (eps - (b - b')).
  product_nonneg tau ((b - b') + eps).
  split; lra.
Qed.

(** The conversion to [int] moves a value by less than one unit. *)
Lemma Qtrunc_error (q : Q) : Qabs (inject_Z (Qtrunc q) - q) <= 1.
Proof.
  apply Qabs_Qle_condition. destruct (Qlt_le_dec q 0) as [Hq | Hq].
  - destruct (Qtrunc_nonpos_bounds q) as [Hl Hu]; [lra |].
    change (Qtrunc q - 1)%Z with (Qtrunc q + -1)%Z in Hl. rewrite inject_Z_plus in Hl.
    change (inject_Z (-1)) with (- (1)) in Hl. lra.
  - destruct (Qtrunc_nonneg_bounds q Hq) as [Hl Hu].
    rewrite inject_Z_plus in Hu. change (inject_Z 1) with 1 in Hu. lra.
Qed.

(** ** The chord of a cubic *)

Section chord.
Variables a0 a1 a2 a3 : Q.

Lemma bend_bounds :
  (- bend a0 a1 a2 a3 <= second_difference a0 a1 a2
   /\ second_difference a0 a1 a2 <= bend a0 a1 a2 a3)
  /\ (- bend a0 a1 a2 a3 <= second_difference a1 a2 a3
      /\ second_difference a1 a2 a3 <= bend a0 a1 a2 a3).
Proof.
  unfold bend.
  pose proof (Q.le_max_l (Qabs (second_difference a0 a1 a2))
                (Qabs (second_difference a1 a2 a3))) as Hl.
  pose proof (Q.le_max_r (Qabs (second_difference a0 a1 a2))
                (Qabs (second_difference a1 a2 a3))) as Hr.
  pose proof (Qabs_bounds (second_difference a0 a1 a2)).
  pose proof (Qabs_bounds (second_difference a1 a2 a3)). lra.
Qed.

(** The remainder of the interpolation: the cubic minus its chord
    vanishes at [a] and [b], and the third factor is a mean of the second
    differences with weights [3 - (a + b + t)] and [a + b + t]. *)
Lemma chord_remainder (a b t : Q) :
  a < b ->
  bernstein a0 a1 a2 a3 t - chord a0 a1 a2 a3 a b t
  == - ((t - a) * (b - t)
        * ((3 - (a + b + t)) * second_difference a0 a1 a2
           + (a + b + t) * second_difference a1 a2 a3)).
Proof. intros Hab. unfold chord, bernstein, lerp, second_difference. field. lra. Qed.

(** The cubic is within [3/4 (b - a)^2 bend] of its chord. *)
Lemma chord_error (a b t : Q) :
  0 <= a -> a < b -> b <= 1 -> a <= t -> t <= b ->
  Qabs (bernstein a0 a1 a2 a3 t - chord a0 a1 a2 a3 a b t)
  <= (3 # 4) * ((b - a) * (b - a)) * bend a0 a1 a2 a3.
Proof.
  intros Ha Hab Hb Hat Htb. rewrite (chord_remainder a b t Hab), Qabs_opp.
  destruct bend_bounds as [[Hl0 Hu0] [Hl1 Hu1]].
  destruct (parabola_bound a b t Hat Htb) as [HP0 HP1].
  destruct (blend_bound _ _ _ (a + b + t) Hl0 Hu0 Hl1 Hu1) as [HKl HKu]; [lra | lra |].
  destruct (Qabs_product_bound _ _ _ _ HP0 HP1 HKl HKu) as [Hl Hu].
  apply Qabs_Qle_condition. split; lra.
Qed.

End chord.

(** ** Points that are close *)

#[export] Instance within_proper : Proper (Qeq ==> (≡) ==> (≡) ==> iff) within.
Proof.
  intros e e' He p p' [Hpx Hpy] q q' [Hqx Hqy]. unfold within.
  now rewrite He, Hpx, Hpy, Hqx, Hqy.
Qed.

Lemma within_weaken (eps eps' : Q) (p q : xy) : eps <= eps' -> within eps p q -> within eps' p q.
Proof. intros He [Hx Hy]. split; lra. Qed.

(** The triangle inequality, on each axis. *)
Lemma within_trans (e1 e2 : Q) (p q r : xy) :
  within e1 p q -> within e2 q r -> within (e1 + e2) p r.
Proof.
  intros [[? ?]%Qabs_Qle_condition [? ?]%Qabs_Qle_condition]
         [[? ?]%Qabs_Qle_condition [? ?]%Qabs_Qle_condition].
  split; apply Qabs_Qle_condition; split; lra.
Qed.

(** The raster transform multiplies distances by the resolution. *)
Lemma convert_within (eps : Q) (p q : xy) :
  within eps p q -> within (100 * eps) (convert_to_internal p) (convert_to_internal q).
Proof.
  intros [[Hxl Hxu]%Qabs_Qle_condition [Hyl Hyu]%Qabs_Qle_condition].
  split; apply Qabs_Qle_condition; xy_unfold; split; lra.
Qed.

Lemma xy_lerp_within (p q p' q' : xy) (tau eps : Q) :
  0 <= tau -> tau <= 1 -> within eps p p' -> within eps q q' ->
  within eps (xy_lerp p q tau) (xy_lerp p' q' tau).
Proof. intros Ht0 Ht1 [Hpx Hpy] [Hqx Hqy]. split; now apply lerp_within. Qed.

(** A point of the raster plane and its pixel. *)
Lemma pixel_within (q : xy) : within 1 q (pixel_xy (pixel_of q)).
Proof.
  split; unfold pixel_xy, pixel_of, cvPoint; cbn [x y pt_x pt_y];
    rewrite Qabs_Qminus; apply Qtrunc_error.
Qed.

(** The raster transform commutes with interpolation. *)
Lemma convert_xy_lerp (p q : xy) (tau : Q) :
  convert_to_internal (xy_lerp p q tau)
  ≡ xy_lerp (convert_to_internal p) (convert_to_internal q) tau.
Proof. unfold xy_lerp, lerp. xy_unfold. split; ring. Qed.

(** ** The polyline and the curve *)

Section polyline.
Variables p0 p1 p2 p3 : xy.

Lemma bend_roughness :
  bend (x p0) (x p1) (x p2) (x p3) <= roughness p0 p1 p2 p3
  /\ bend (y p0) (y p1) (y p2) (y p3) <= roughness p0 p1 p2 p3.
Proof. unfold roughness. split; [apply Q.le_max_l | apply Q.le_max_r]. Qed.

(** On the page a second difference is at most 12 inches. *)
Lemma on_page_roughness :
  on_page p0 -> on_page p1 -> on_page p2 -> on_page p3 -> roughness p0 p1 p2 p3 <= 12.
Proof.
  intros H0 H1 H2 H3. unfold on_page, in_box, get_dimensions in *. cbn [x y] in *.
  change (inject_Z DEFAULT_SIZE_X) with 6 in *. change (inject_Z DEFAULT_SIZE_Y) with 6 in *.
  unfold roughness, bend, second_difference.
  repeat apply Q.max_lub; apply Qabs_Qle_condition; split; lra.
Qed.

Lemma curve_param_step (i : Z) : curve_param (i + 1) == curve_param i + (1 # 20).
Proof.
  unfold curve_param. rewrite inject_Z_plus.
  change (inject_Z NUM_SECTIONS_PER_CURVE) with 20. change (inject_Z 1) with 1. field.
Qed.

Lemma curve_param_nonneg (i : Z) : (0 <= i)%Z -> 0 <= curve_param i.
Proof.
  intros Hi. unfold curve_param. apply Qle_shift_div_l; [reflexivity |].
  rewrite Zle_Qle in Hi. change (inject_Z 0) with 0 in Hi. lra.
Qed.

Lemma curve_param_le_1 (i : Z) : (i <= NUM_SECTIONS_PER_CURVE)%Z -> curve_param i <= 1.
Proof.
  intros Hi. unfold curve_param. apply Qle_shift_div_r; [reflexivity |].
  rewrite Zle_Qle in Hi. lra.
Qed.

(** On a section the parameter of the chord runs from 0 to 1. *)
Lemma section_param_bounds (i : Z) (t : Q) :
  curve_param i <= t -> t <= curve_param (i + 1) ->
  0 <= section_param i t /\ section_param i t <= 1.
Proof.
  intros Hl Hu. rewrite (curve_param_step i) in Hu. unfold section_param.
  change (inject_Z NUM_SECTIONS_PER_CURVE) with 20. split; lra.
Qed.

(** One axis of the polyline is the chord of that axis of the curve. *)
Lemma polyline_chord (a0 a1 a2 a3 : Q) (i : Z) (t : Q) :
  lerp (bernstein a0 a1 a2 a3 (curve_param i)) (bernstein a0 a1 a2 a3 (curve_param (i + 1)))
    (section_param i t)
  == chord a0 a1 a2 a3 (curve_param i) (curve_param (i + 1)) t.
Proof.
  unfold chord, lerp, section_param.
  setoid_replace (curve_param (i + 1) - curve_param i) with (1 # 20) using relation Qeq
    by (rewrite (curve_param_step i); ring).
  change (inject_Z NUM_SECTIONS_PER_CURVE) with 20. field.
Qed.

Lemma curve_iter_bernstein (i : Z) :
  x (curve_iter p0 p1 p2 p3 i) == bernstein (x p0) (x p1) (x p2) (x p3) (curve_param i)
  /\ y (curve_iter p0 p1 p2 p3 i) == bernstein (y p0) (y p1) (y p2) (y p3) (curve_param i).
Proof. unfold curve_iter, curve_point, curve_coeff, bernstein. cbn. split; ring. Qed.

End polyline.

(** ** The error of a section *)

Section section_errors.
Variables (p0 p1 p2 p3 : xy) (i : Z) (t : Q).
Hypothesis (Hi : (0 <= i < NUM_SECTIONS_PER_CURVE)%Z).
Hypotheses (Hl : curve_param i <= t) (Hu : t <= curve_param (i + 1)).

(** One axis: the chord between the values at [i / 20] and [(i + 1) / 20]. *)
Lemma axis_error (a0 a1 a2 a3 u v : Q) :
  u == bernstein a0 a1 a2 a3 (curve_param i) ->
  v == bernstein a0 a1 a2 a3 (curve_param (i + 1)) ->
  Qabs (bernstein a0 a1 a2 a3 t - lerp u v (section_param i t))
  <= section_error * bend a0 a1 a2 a3.
Proof.
  intros -> ->. rewrite polyline_chord.
  eapply Qle_trans;
    [apply chord_error;
     [apply curve_param_nonneg; lia | rewrite (curve_param_step i); lra
     | apply curve_param_le_1; lia | assumption | assumption] |].
  setoid_replace (curve_param (i + 1) - curve_param i) with (1 # 20) using relation Qeq
    by (rewrite (curve_param_step i); ring).
  apply Qle_lteq. right. reflexivity.
Qed.

(** The polyline follows the curve within [section_error * roughness],
    in logical units, on each axis. *)
Lemma polyline_error :
  within (section_error * roughness p0 p1 p2 p3)
    (bezier p0 p1 p2 p3 t) (polyline_point p0 p1 p2 p3 i t).
Proof.
  destruct (curve_iter_bernstein p0 p1 p2 p3 i) as [Ex Ey].
  destruct (curve_iter_bernstein p0 p1 p2 p3 (i + 1)) as [Ex' Ey'].
  destruct (bend_roughness p0 p1 p2 p3) as [Hbx Hby].
  split; cbn [x y bezier polyline_point xy_lerp];
    (eapply Qle_trans; [apply axis_error; eassumption |]);
    change section_error with (3 # 1600); lra.
Qed.

(** With the control points on the page: 2.25 raster units. *)
Lemma polyline_error_page :
  on_page p0 -> on_page p1 -> on_page p2 -> on_page p3 ->
  within (9 # 4) (convert_to_internal (bezier p0 p1 p2 p3 t))
    (convert_to_internal (polyline_point p0 p1 p2 p3 i t)).
Proof.
  intros H0 H1 H2 H3. pose proof (on_page_roughness p0 p1 p2 p3 H0 H1 H2 H3) as Hr.
  apply (within_weaken (100 * (section_error * roughness p0 p1 p2 p3)));
    [| apply convert_within, polyline_error].
  change section_error with (3 # 1600). lra.
Qed.

End section_errors.

(** ** The lines the device draws *)

Lemma vertex_cons (a p : xy) (ps : list xy) (k : nat) :
  is_Some (ps !! k) -> vertex a (p :: ps) (S k) = vertex p ps k.
Proof.
  intros Hk%lookup_lt_is_Some. unfold vertex.
  change ((a :: p :: ps) !! S k) with ((p :: ps) !! k).
  destruct (lookup_lt_is_Some_2 (p :: ps) k) as [v ->]; [cbn; lia | reflexivity].
Qed.

(** The [k]-th line of a path joins its [k]-th vertex to the next one. *)
Lemma path_ops_lookup (w : Q) (ps : list xy) : forall (a : xy) (k : nat),
  path_ops w a ps !! k = cut_op w (vertex a ps k) <$> ps !! k.
Proof.
  induction ps as [| p ps IH]; intros a [| k]; try reflexivity.
  change (path_ops w a (p :: ps) !! S k) with (path_ops w p ps !! k). rewrite IH.
  change ((p :: ps) !! S k) with (ps !! k).
  destruct (ps !! k) as [q |] eqn:Hk; [| reflexivity].
  rewrite (vertex_cons a p ps k) by (rewrite Hk; eauto). reflexivity.
Qed.

Section curve_ops.
Variables (p0 p1 p2 p3 : xy) (w : Q).
Hypotheses (H0 : on_page p0) (H1 : on_page p1) (H2 : on_page p2) (H3 : on_page p3).

(** The path of [curve_to]: from the converted [p0] through the converted
    points of the polyline. *)
Definition curve_path : list xy := convert_to_internal <$> curve_polyline p0 p1 p2 p3.

(** Its vertices are the converted points of the curve at [k / 20], the
    first one being the converted [p0]. *)
Lemma curve_vertex (k : nat) :
  (k < Z.to_nat NUM_SECTIONS_PER_CURVE)%nat ->
  vertex (convert_to_internal p0) curve_path k
  ≡ convert_to_internal (curve_iter p0 p1 p2 p3 (Z.of_nat k)).
Proof.
  intros Hk. unfold vertex, curve_path. destruct k as [| j]; rewrite lookup_cons.
  - cbn [default from_option id]. unfold curve_iter. assert (E : curve_param (Z.of_nat 0) == 0) by reflexivity.
    now rewrite E, (curve_point_0 p0 p1 p2 p3).
  - rewrite list_lookup_fmap, curve_polyline_lookup by lia. cbn.
    now replace (Z.of_nat (S j)) with (1 + Z.of_nat j)%Z by lia.
Qed.

Lemma curve_ops_lookup (k : nat) (op : draw_op) :
  path_ops w (convert_to_internal p0) curve_path !! k = Some op ->
  (k < Z.to_nat NUM_SECTIONS_PER_CURVE)%nat
  /\ op = cut_op w (vertex (convert_to_internal p0) curve_path k)
             (convert_to_internal (curve_iter p0 p1 p2 p3 (Z.of_nat k + 1))).
Proof.
  rewrite path_ops_lookup. unfold curve_path at 2. rewrite list_lookup_fmap.
  destruct (curve_polyline p0 p1 p2 p3 !! k) as [q |] eqn:Hq; [| discriminate].
  assert (Hk : (k < Z.to_nat NUM_SECTIONS_PER_CURVE)%nat)
    by (apply lookup_lt_Some in Hq; now rewrite curve_polyline_length in Hq).
  rewrite curve_polyline_lookup in Hq by assumption. injection Hq as <-.
  intros [= <-]. split; [assumption |]. now rewrite Z.add_comm.
Qed.

(** Each line of a curve on the page is within 3.25 raster units of the
    part of the curve it replaces: 2.25 for the chord, 1 for the conversion
    of its end points to [int]. *)
Lemma curve_op_error (k : nat) (op : draw_op) (t : Q) :
  path_ops w (convert_to_internal p0) curve_path !! k = Some op ->
  curve_param (Z.of_nat k) <= t -> t <= curve_param (Z.of_nat k + 1) ->
  within (13 # 4) (convert_to_internal (bezier p0 p1 p2 p3 t))
    (op_point op (section_param (Z.of_nat k) t)).
Proof.
  intros [Hk ->]%curve_ops_lookup Hl Hu.
  destruct (section_param_bounds _ _ Hl Hu) as [Ht0 Ht1].
  apply (within_weaken ((9 # 4) + 1)); [lra |].
  eapply within_trans; [apply (polyline_error_page p0 p1 p2 p3 (Z.of_nat k) t); (lia || assumption) |].
  unfold polyline_point. rewrite convert_xy_lerp. cbn [op_point cut_op].
  rewrite (pixel_of_proper _ _ (curve_vertex k Hk)).
  apply xy_lerp_within; (assumption || apply pixel_within).
Qed.

End curve_ops.

Lemma curve_param_scale (i : Z) : curve_param i * 20 == inject_Z i.
Proof. unfold curve_param. change (inject_Z NUM_SECTIONS_PER_CURVE) with 20. field. Qed.

(** Every parameter of the curve lies on a section. *)
Lemma section_covers (t : Q) :
  0 <= t -> t <= 1 ->
  exists k : nat, (k < Z.to_nat NUM_SECTIONS_PER_CURVE)%nat
    /\ curve_param (Z.of_nat k) <= t /\ t <= curve_param (Z.of_nat k + 1).
Proof.
  intros Ht0 Ht1. set (n := Z.min 19 (Qfloor (t * 20))).
  assert (Hf0 : (0 <= Qfloor (t * 20))%Z) by (apply (Qfloor_resp_le 0 (t * 20)); lra).
  pose proof (Qfloor_le (t * 20)) as Hfl. pose proof (Qlt_floor (t * 20)) as Hfu.
  rewrite inject_Z_plus in Hfu. change (inject_Z 1) with 1 in Hfu.
  exists (Z.to_nat n). rewrite Z2Nat.id by (unfold n; lia). rewrite curve_param_step.
  pose proof (curve_param_scale n) as Hc. set (c := curve_param n) in *. clearbody c.
  split; [unfold NUM_SECTIONS_PER_CURVE, n; lia |].
  destruct (Z.min_spec 19 (Qfloor (t * 20))) as [[Hlt E] | [Hlt E]]; fold n in E; rewrite E in Hc.
  - rewrite Zlt_Qlt in Hlt. change (inject_Z 19) with 19 in *. split; lra.
  - split; lra.
Qed.

(** ** The device *)

Section device.
Implicit Types (s : @State DL) (l : loc) (img : @IplImage DL) (ops : list draw_op).

(** C3. The accuracy of [curve_to].  On a device that draws, with the control
    points on the page: [curve_to] returns [true] and appends lines to the
    canvas such that every point of every line is within 3.25 raster units,
    on each axis, of the point of the Bezier curve it stands for: the point
    at [tau] on the [k]-th line stands for the parameter [(k + tau) / 20]. *)
Theorem curve_to_error (p0 p1 p2 p3 : xy) s l img ops :
  on_page p0 -> on_page p1 -> on_page p2 -> on_page p3 ->
  can_draw s l img -> dl_data img = Some ops -> int_convertible (tool_width (this s)) ->
  exists s' new,
    curve_to p0 p1 p2 p3 s = Ok (true, s')
    /\ canvas_ops s' = Some (ops ++ new)
    /\ forall (k : nat) (op : draw_op) (t : Q),
         new !! k = Some op ->
         curve_param (Z.of_nat k) <= t -> t <= curve_param (Z.of_nat k + 1) ->
         within (13 # 4) (convert_to_internal (bezier p0 p1 p2 p3 t))
           (op_point op (section_param (Z.of_nat k) t)).
Proof.
  intros H0 H1 H2 H3 Hdraw Hops Hw. eexists. eexists.
  split; [rewrite (curve_to_running _ _ _ _ _ (proj1 Hdraw));
          apply (cut_all_moved p0 _ s l img Hdraw) |].
  - split; [assumption |]. split; [now apply raster_convertible, convert_on_page |].
    now apply curve_polyline_convertible.
  - split; [rewrite (canvas_ops_drawn _ s l) by apply Hdraw; now apply dl_data_cut_path |].
    intros k op t. now apply curve_op_error.
Qed.

End device.
