(* ===== verification/Rounding.v ===== *)
(** * Rounding: the data path of the device in floating-point arithmetic.

    The other files compute with exact rationals where the code computes
    with [double].  This file gives the arithmetic of the code with its
    roundings and relates the two.

    ** The model

    [Rounding] is the standard model of a floating-point format: a rounding
    function [rnd] with [|rnd q - q| <= roundoff * |q| + underflow], applied
    to the exact result of every operation ([fl_add], [fl_sub], [fl_mul],
    [fl_div]).  The operations of the data path are written once more with
    these operations, in the association of the C expressions:
    [fl_convert_to_internal], [fl_curve_coeff], [fl_curve_param],
    [fl_curve_point], [fl_curve_iter].  The exact arithmetic is the
    instance without error ([exact_rounding], [fl_exact]).

    ** Error factors

    An expression ([expr]) has an exact value ([eval]) and a computed one
    ([fl_eval]).  [bound] computes, from a bound on the magnitude and on
    the error of each variable, a bound on the magnitude of the exact
    value, on the error of the computed one and on the magnitude of every
    intermediate result; an operation adds [roundoff] times the magnitude
    of its result, and [underflow], to the errors it inherits
    ([rounded_bounds]).  [bound] is sound ([fl_eval_error],
    [fl_values_bounded]) and is evaluated by the kernel on the expression
    of a raster coordinate of [curve_to] ([raster_expr]).

    ** Main results

    For control points on the page and a format at least as precise as
    binary64 ([meets binary64_precision]):
    - [fl_curve_iter_error]: the raster coordinates the code computes for
      a vertex of a curve are within [raster_error = 10^-9] of the exact
      ones, and no intermediate result exceeds [raster_range = 23401]: the
      computation does not overflow;
    - [fl_curve_pixel]: the conversions to [int] are defined, the pixel
      of a vertex is the exact one or a neighbour, and it is the exact one
      unless the exact coordinate is within [raster_error] of an
      integer. *)

From Stdlib Require Import QArith Qabs Qminmax Qround Lqa Lia ZArith.
From stdpp Require Import base decidable option list.
From S2P Require Import Prelude Geometry Commands Bezier Graphics Device DeviceSpec Machine.
From S2P Require Import Ownership StateEquiv Typing DisplayList Approximation.

#[local] Open Scope Q_scope.

Declare Scope fl_scope.
Delimit Scope fl_scope with fl.

(** A floating-point format: a rounding function with a relative and an
    absolute error, the unit roundoff and the underflow threshold. *)
Class Rounding : Type := {
  rnd : Q -> Q;
  roundoff : Q;
  underflow : Q;
  roundoff_nonneg : 0 <= roundoff;
  underflow_nonneg : 0 <= underflow;
  rnd_error (q : Q) : Qabs (rnd q - q) <= roundoff * Qabs q + underflow;
  rnd_proper : Proper (Qeq ==> Qeq) rnd
}.

#[export] Existing Instance rnd_proper.

(** The exact arithmetic of the other files. *)
#[export, refine] Instance exact_rounding : Rounding := {|
  rnd q := q;
  roundoff := 0;
  underflow := 0
|}.
Proof.
  - apply Qle_refl.
  - apply Qle_refl.
  - intros q. apply Qabs_Qle_condition. split; lra.
Defined.

(** The roundoff and the underflow threshold of a format, as numbers. *)
Record precision : Type := mk_precision { prec_roundoff : Q; prec_underflow : Q }.

(** IEEE 754 binary64 with rounding to nearest: [2^-53] and half of the
    least subnormal number, [2^-1075]. *)
Definition binary64_precision : precision :=
  mk_precision (1 # 2 ^ 53) (1 # 2 ^ 1075).

(** The format is at least as precise as [pi]. *)
Definition meets `{Rounding} (pi : precision) : Prop :=
  roundoff <= prec_roundoff pi /\ underflow <= prec_underflow pi.

(** ** The operations of the code *)

Section arithmetic.
Context `{Rounding}.

Definition fl_add (a b : Q) : Q := rnd (a + b).
Definition fl_sub (a b : Q) : Q := rnd (a - b).
Definition fl_mul (a b : Q) : Q := rnd (a * b).
Definition fl_div (a b : Q) : Q := rnd (a / b).

#[local] Infix "+" := fl_add : fl_scope.
#[local] Infix "-" := fl_sub : fl_scope.
#[local] Infix "*" := fl_mul : fl_scope.
#[local] Infix "/" := fl_div : fl_scope.

(** [CV_sim::convert_to_internal] in floating point: one product per
    axis. *)
Definition fl_convert_to_internal (input : xy) : xy :=
  let buf_x := (x input * inject_Z DPI_X)%fl in
  let buf_y := (y input * inject_Z DPI_Y)%fl in
  {| x := buf_x; y := buf_y |}.

(** The coefficients of [curve_to], as the code assigns them. *)
Definition fl_curve_coeff (p0 p1 p2 p3 : xy) : coeff :=
  let cx := (3 * (x p1 - x p0))%fl in
  let bx := (3 * (x p2 - x p1) - cx)%fl in
  let ax := ((x p3 - x p0) - cx - bx)%fl in
  let cy := (3 * (y p1 - y p0))%fl in
  let by_ := (3 * (y p2 - y p1) - cy)%fl in
  let ay := ((y p3 - y p0) - cy - by_)%fl in
  {| coeff_A := mk_xy ax ay; coeff_B := mk_xy bx by_; coeff_C := mk_xy cx cy |}.

(** [t = (double)i / (double)NUM_SECTIONS_PER_CURVE]: the two conversions
    are exact, the quotient is rounded. *)
Definition fl_curve_param (i : Z) : Q := (inject_Z i / inject_Z NUM_SECTIONS_PER_CURVE)%fl.

(** [iter]: the polynomial at [t], products and sums from left to
    right. *)
Definition fl_curve_point (c : coeff) (p0 : xy) (t : Q) : xy :=
  {| x := (x (coeff_A c) * t * t * t + x (coeff_B c) * t * t + x (coeff_C c) * t + x p0)%fl;
     y := (y (coeff_A c) * t * t * t + y (coeff_B c) * t * t + y (coeff_C c) * t + y p0)%fl |}.

(** The point [curve_to] passes to [cut_to] at iteration [i]. *)
Definition fl_curve_iter (p0 p1 p2 p3 : xy) (i : Z) : xy :=
  fl_curve_point (fl_curve_coeff p0 p1 p2 p3) p0 (fl_curve_param i).

(** The raster positions of the vertices of a curve, as [cut_to] computes
    them from the points it is passed. *)
Definition fl_curve_raster (p0 p1 p2 p3 : xy) : list xy :=
  (fun i => fl_convert_to_internal (fl_curve_iter p0 p1 p2 p3 i)) <$> curve_indices.

End arithmetic.

(** ** Expressions and their bounds *)

(** The expressions of the data path: variables, constants that the format
    represents, and the three operations the code uses on them. *)
Inductive expr : Type :=
  | Var (n : nat)
  | Const (q : Q)
  | Add (a b : expr)
  | Sub (a b : expr)
  | Mul (a b : expr).

Fixpoint eval (rho : list Q) (e : expr) : Q :=
  match e with
  | Var n => nth n rho 0
  | Const q => q
  | Add a b => eval rho a + eval rho b
  | Sub a b => eval rho a - eval rho b
  | Mul a b => eval rho a * eval rho b
  end.

Fixpoint fl_eval `{Rounding} (rho : list Q) (e : expr) : Q :=
  match e with
  | Var n => nth n rho 0
  | Const q => q
  | Add a b => fl_add (fl_eval rho a) (fl_eval rho b)
  | Sub a b => fl_sub (fl_eval rho a) (fl_eval rho b)
  | Mul a b => fl_mul (fl_eval rho a) (fl_eval rho b)
  end.

(** Every value the computation of an expression produces. *)
Fixpoint fl_values `{Rounding} (rho : list Q) (e : expr) : list Q :=
  match e with
  | Var _ | Const _ => [fl_eval rho e]
  | Add a b | Sub a b | Mul a b => fl_eval rho e :: fl_values rho a ++ fl_values rho b
  end.

(** What is known of a value: the magnitude of the exact one, the error
    of the computed one, and the magnitude of the largest value computed
    on the way. *)
Record bounds : Type := mk_bounds { magnitude : Q; error : Q; largest : Q }.

(** An exact value [v] and a computed value [w] within the bounds. *)
Definition approximates (b : bounds) (v w : Q) : Prop :=
  Qabs v <= magnitude b /\ Qabs (w - v) <= error b /\ Qabs w <= largest b.

(** The bounds of a rounded result, from the magnitude [m] of the exact
    result, the error [e] inherited from the operands and the largest
    value [l] computed for them.  The fractions are reduced, so that the
    bounds of an expression can be evaluated. *)
Definition rounded_bounds (pi : precision) (m e l : Q) : bounds :=
  let e' := e + prec_roundoff pi * (m + e) + prec_underflow pi in
  mk_bounds (Qred m) (Qred e') (Qred (Qmax l (m + e'))).

Definition no_bounds : bounds := mk_bounds 0 0 0.

Fixpoint bound (pi : precision) (beta : list bounds) (e : expr) : bounds :=
  match e with
  | Var n => nth n beta no_bounds
  | Const q => mk_bounds (Qabs q) 0 (Qabs q)
  | Add a b | Sub a b =>
      let ba := bound pi beta a in
      let bb := bound pi beta b in
      rounded_bounds pi (magnitude ba + magnitude bb) (error ba + error bb)
        (Qmax (largest ba) (largest bb))
  | Mul a b =>
      let ba := bound pi beta a in
      let bb := bound pi beta b in
      rounded_bounds pi (magnitude ba * magnitude bb)
        (magnitude ba * error bb + magnitude bb * error ba + error ba * error bb)
        (Qmax (largest ba) (largest bb))
  end.

(** The variables are within their bounds. *)
Definition env_within (beta : list bounds) (rho rho' : list Q) : Prop :=
  forall n : nat, approximates (nth n beta no_bounds) (nth n rho 0) (nth n rho' 0).

(** ** The expressions of [curve_to] *)

(** One axis of a vertex of a curve: the variables 0 to 3 are the
    coordinates of the control points, variable 4 is the parameter. *)
Definition coeff_C_expr : expr := Mul (Const 3) (Sub (Var 1) (Var 0)).

Definition coeff_B_expr : expr := Sub (Mul (Const 3) (Sub (Var 2) (Var 1))) coeff_C_expr.

Definition coeff_A_expr : expr := Sub (Sub (Sub (Var 3) (Var 0)) coeff_C_expr) coeff_B_expr.

Definition curve_expr : expr :=
  Add (Add (Add (Mul (Mul (Mul coeff_A_expr (Var 4)) (Var 4)) (Var 4))
              (Mul (Mul coeff_B_expr (Var 4)) (Var 4)))
         (Mul coeff_C_expr (Var 4)))
    (Var 0).

(** The raster coordinate of that vertex: the resolution is the same on
    both axes. *)
Definition raster_expr : expr := Mul curve_expr (Const (inject_Z DPI_X)).

(** On the page a coordinate is at most 6 and is given without error; the
    parameter is at most 1 and is a rounded quotient. *)
Definition page_bounds (pi : precision) : list bounds :=
  let given := mk_bounds 6 0 6 in
  let param := rounded_bounds pi 1 0 1 in
  [given; given; given; given; param].

(** The error of a raster coordinate of a vertex, and the largest value
    in its computation. *)
Definition raster_error : Q := 1 # 10 ^ 9.

Definition raster_range : Q := 23401.

(** The coordinate [q] is not within [eps] of an integer. *)
Definition clear_of_grid (eps q : Q) : Prop :=
  inject_Z (Qfloor q) + eps <= q /\ q + eps < inject_Z (Qfloor q) + 1.

#[export] Instance clear_of_grid_decision eps q : Decision (clear_of_grid eps q).
Proof. unfold clear_of_grid. apply _. Defined.
