(* ===== verification/Scenarios.v ===== *)
(** * Scenarios: the device run on concrete inputs.

    The runs the specification describes and whole sessions with curves and
    snapshots, evaluated on the display-list instance, and the theorems of
    the development applied to these concrete states. *)

From Stdlib Require Import QArith Qabs Qround Lqa Lia ZArith.
From stdpp Require Import base decidable option list gmap strings relations.
From S2P Require Import Prelude Geometry Commands Bezier Graphics Device DeviceSpec Machine.
From S2P Require Import Ownership Plotter Refinement DisplayList.

#[local] Open Scope Q_scope.

(** A new device that writes to [cut.png]. *)
Definition new_dev : @State DL := initial_state (CV_sim_new_filename "cut.png").

(** The location of the first canvas. *)
Definition canvas_loc : loc := 1%positive.

(** The device after its first [start]. *)
Definition started_dev : @State DL :=
  mk_State (mk_CV_sim true (Some canvas_loc) (mk_xy 0 0) 1 "cut.png")
    (mk_Memory {[canvas_loc := blank_canvas]} []).

(** A device whose file name is too short to be saved, after [start]. *)
Definition short_dev : @State DL :=
  mk_State (mk_CV_sim true (Some canvas_loc) (mk_xy 0 0) 1 "a.p")
    (mk_Memory {[canvas_loc := blank_canvas]} []).

(** The device after [start] and [stop]: the blank canvas was saved. *)
Definition saved_dev : @State DL :=
  mk_State (mk_CV_sim false None (mk_xy 0 0) 1 "cut.png")
    (mk_Memory ∅ [("cut.png"%string, blank_canvas)]).

(** A running device whose tool is beyond the range of [int]. *)
Definition far_dev : @State DL :=
  mk_State (mk_CV_sim true (Some canvas_loc) (mk_xy 3000000000 0) 1 "cut.png")
    (mk_Memory {[canvas_loc := blank_canvas]} []).

(** A running device without canvas (no method sequence leads to it). *)
Definition blind_dev : @State DL :=
  mk_State (mk_CV_sim true None (mk_xy 0 0) 1 "cut.png") empty_memory.

(** The control points of a curve on the page. *)
Definition q0 : xy := mk_xy 0 0.
Definition q1 : xy := mk_xy 1 0.
Definition q2 : xy := mk_xy 1 1.
Definition q3 : xy := mk_xy 2 1.

(** The grey line from pixel [(ax, ay)] to pixel [(bx, by)] of thickness [th]. *)
Definition grey_line (ax ay bx by_ th : Z) : draw_op :=
  Line (cvPoint ax ay) (cvPoint bx by_) cut_grey th CV_AA 0.

(** The canvas a device holds at the end of a curve. *)
Definition curve_canvas : dl_image :=
  cut_path 1 (convert_to_internal q0) (convert_to_internal <$> curve_polyline q0 q1 q2 q3)
    blank_canvas.

(** The device at the end of that curve. *)
Definition curve_end_dev : @State DL :=
  drawn (path_end (convert_to_internal q0)
           (convert_to_internal <$> curve_polyline q0 q1 q2 q3))
    canvas_loc curve_canvas started_dev.

(** The device after a snapshot of the new canvas. *)
Definition snap_loc : loc := 2%positive.

Definition snap_dev : @State DL :=
  on_mem (set_heap <[snap_loc := marker (mk_xy 0 0) blank_canvas]>) started_dev.

(** What a client does after that snapshot: a cut, and the end of the
    session. *)
Definition tail_session : list command := [CutTo (mk_xy 1 1); Stop].

Definition tail_end : @State DL :=
  Eval vm_compute in
    match run tail_session snap_dev with
    | Ok (_, s) => s
    | Fault _ => snap_dev
    end.

(** A whole session, with a curve and two snapshots. *)
Definition session : list command :=
  [Start; CutTo (mk_xy 1 1); GetImage; CurveTo q0 q1 q2 q3; GetImage; Stop].

Definition session_responses : list response :=
  [RBool true; RBool true; RImage 2%positive; RBool true; RImage 3%positive; RBool true].

Definition session_end : @State DL :=
  Eval vm_compute in
    match run session new_dev with
    | Ok (_, s) => s
    | Fault _ => new_dev
    end.

(** The image that session leaves in its file. *)
Definition session_file : dl_image :=
  Eval vm_compute in
    match saved (mem session_end) with
    | [(_, img)] => img
    | _ => blank_canvas
    end.

(** A session on the device with the short file name. *)
Definition short_session : list command :=
  [CutTo (mk_xy 1 1); Stop; Start; GetImage; Stop].

Definition short_responses : list response :=
  [RBool true; RBool true; RBool true; RImage 2%positive; RBool true].

Definition short_end : @State DL :=
  Eval vm_compute in
    match run short_session short_dev with
    | Ok (_, s) => s
    | Fault _ => short_dev
    end.

(** ** The scenarios of the specification *)

Example scenario_start : start new_dev = Ok (true, started_dev).
Proof. reflexivity. Qed.

(** [start(); moveTo((0,0)); cutTo((1,1))] draws one line from raster
    [(0,0)] to [(100,100)] and leaves the tool at [(100,100)]. *)
Example scenario_cut_diagonal :
  (start;; move_to (mk_xy 0 0);; cut_to (mk_xy 1 1)) new_dev
  = Ok (true, drawn (mk_xy 100 100) canvas_loc
                (dl_draw (grey_line 0 0 100 100 1) blank_canvas) started_dev).
Proof. reflexivity. Qed.

(** [setToolWidth(0.5)] at 100 units per inch: lines are 50 units thick.
    The member holds 50.5: the value is truncated when a line is drawn. *)
Example scenario_tool_width_half :
  set_tool_width (1 # 2) new_dev = Ok (true, on_this (with_tool_width (20200 # 400)) new_dev)
  /\ Qtrunc (20200 # 400) = 50%Z
  /\ 20200 # 400 == 101 # 2.
Proof. repeat split; reflexivity. Qed.

(** A width below half a raster unit is raised to 1. *)
Example scenario_tool_width_tiny :
  set_tool_width (1 # 1000) new_dev = Ok (true, on_this (with_tool_width 1) new_dev).
Proof. reflexivity. Qed.

(** [stop()] with a file name of three characters returns [true], saves
    nothing and keeps the canvas allocated. *)
Example scenario_stop_short_name :
  stop short_dev = Ok (true, on_this (with_running false) short_dev)
  /\ saved (mem short_dev) = []
  /\ image (this short_dev) = Some canvas_loc
  /\ heap (mem short_dev) !! canvas_loc = Some blank_canvas.
Proof. repeat split; reflexivity. Qed.

(** A whole session: the saved file holds the twenty lines of the curve,
    the canvas is released and the device is stopped. *)
Example scenario_session :
  (start;; curve_to q0 q1 q2 q3;; stop) new_dev
  = Ok (true,
        mk_State (mk_CV_sim false None
                    (convert_to_internal (curve_iter q0 q1 q2 q3 NUM_SECTIONS_PER_CURVE))
                    1 "cut.png")
          (mk_Memory ∅ [("cut.png"%string, curve_canvas)]))
  /\ length (dl_ops curve_canvas) = 20%nat
  /\ convert_to_internal (curve_iter q0 q1 q2 q3 NUM_SECTIONS_PER_CURVE) ≡ mk_xy 200 100.
Proof. split; [| split]; [vm_compute; reflexivity.. | by_compute]. Qed.

(** A motion command before [start] fails. *)
Example scenario_cut_stopped : cut_to (mk_xy 1 1) new_dev = Ok (false, new_dev).
Proof. reflexivity. Qed.

(** [get_image] before the first [start]: OpenCV rejects the null image. *)
Example scenario_get_image_null : get_image new_dev = Fault BadArgument.
Proof. reflexivity. Qed.

(** A coordinate too large for an [int]: the cut is undefined. *)
Example scenario_cut_overflow :
  (move_to (mk_xy 30000000 0);; cut_to (mk_xy 1 1)) started_dev = Fault UndefinedConversion.
Proof. reflexivity. Qed.

(** After a session that could not be saved, the next session draws on the
    canvas of the previous one. *)
Example scenario_canvas_survives :
  (cut_to (mk_xy 1 1);; stop;; start;; cut_to (mk_xy 2 0)) short_dev
  = Ok (true, drawn (mk_xy 200 0) canvas_loc
                (dl_draw (grey_line 100 100 200 0 1)
                   (dl_draw (grey_line 0 0 100 100 1) blank_canvas)) short_dev).
Proof. reflexivity. Qed.

(** ** The theorems applied to concrete states *)

Example scenario_start_again : start started_dev = Ok (true, started_dev).
Proof. reflexivity. Qed.

Example scenario_curve : curve_to q0 q1 q2 q3 started_dev = Ok (true, curve_end_dev).
Proof. vm_compute. reflexivity. Qed.

Example scenario_snapshot : get_image started_dev = Ok (snap_loc, snap_dev).
Proof. reflexivity. Qed.

Example scenario_tail : run tail_session snap_dev = Ok ([RBool true; RBool true], tail_end).
Proof. vm_compute. reflexivity. Qed.

Example scenario_run : run session new_dev = Ok (session_responses, session_end).
Proof. vm_compute. reflexivity. Qed.

Example scenario_short_run : run short_session short_dev = Ok (short_responses, short_end).
Proof. vm_compute. reflexivity. Qed.

Example scenario_session_file : saved (mem session_end) = [("cut.png", session_file)].
Proof. reflexivity. Qed.

Lemma started_dev_reachable : reachable started_dev.
Proof.
  apply (reachable_step new_dev Start (RBool true)); [apply reachable_initial | reflexivity].
Qed.

Lemma saved_dev_reachable : reachable saved_dev.
Proof.
  apply (reachable_step started_dev Stop (RBool true)); [apply started_dev_reachable |].
  reflexivity.
Qed.

Lemma cut_to_draws_witness :
  cut_to (mk_xy 1 1) started_dev
  = Ok (true, drawn (mk_xy 100 100) canvas_loc
                (dl_draw (grey_line 0 0 100 100 1) blank_canvas) started_dev).
Proof.
  exact (cut_to_draws (mk_xy 1 1) started_dev canvas_loc blank_canvas
           ltac:(by_compute) ltac:(by_compute)).
Defined.

Lemma curve_to_draws_witness :
  curve_to q0 q1 q2 q3 started_dev
  = Ok (true, drawn (path_end (convert_to_internal q0)
                       (convert_to_internal <$> curve_polyline q0 q1 q2 q3))
                canvas_loc curve_canvas started_dev).
Proof.
  exact (curve_to_draws q0 q1 q2 q3 started_dev canvas_loc blank_canvas
           ltac:(by_compute) ltac:(by_compute)).
Defined.

Lemma reachable_invariant_witness : invariant started_dev.
Proof. exact (reachable_invariant started_dev started_dev_reachable). Defined.

Lemma reachable_memory_safe_witness :
  exec (CutTo (mk_xy 1 1)) started_dev <> Fault InvalidPointer.
Proof. exact (reachable_memory_safe started_dev (CutTo (mk_xy 1 1)) started_dev_reachable). Defined.

Lemma curve_to_end_witness :
  true = true
  /\ current_position (this curve_end_dev) ≡ convert_to_internal q3
  /\ with_current_position (current_position (this started_dev)) (this curve_end_dev)
     = this started_dev.
Proof.
  exact (curve_to_end q0 q1 q2 q3 started_dev true curve_end_dev eq_refl
           scenario_curve).
Defined.

Lemma stop_saves_witness : stop started_dev = Ok (true, saved_dev).
Proof.
  exact (stop_saves started_dev canvas_loc blank_canvas eq_refl eq_refl ltac:(by_compute)).
Defined.

Lemma stop_short_name_witness :
  stop short_dev = Ok (true, on_this (with_running false) short_dev).
Proof. exact (stop_short_name short_dev canvas_loc eq_refl ltac:(by_compute)). Defined.

Lemma start_allocates_witness : start new_dev = Ok (true, started_dev).
Proof. exact (start_allocates new_dev eq_refl). Defined.

Lemma start_idempotent_witness : start started_dev = Ok (true, started_dev).
Proof. exact (start_idempotent new_dev true started_dev scenario_start). Defined.

Lemma stopped_motion_rejected_witness :
  exec (CurveTo q0 q1 q2 q3) new_dev = Ok (RBool false, new_dev).
Proof. exact (stopped_motion_rejected (CurveTo q0 q1 q2 q3) new_dev eq_refl eq_refl). Defined.

Lemma set_tool_width_cases_witness :
  (0 < 1 # 2 ->
   set_tool_width (1 # 2) started_dev
   = Ok (true, on_this (with_tool_width (clamped_tool_width (1 # 2))) started_dev)
   /\ 1 <= clamped_tool_width (1 # 2))
  /\ (1 # 2 <= 0 -> set_tool_width (1 # 2) started_dev = Ok (false, started_dev)).
Proof. exact (set_tool_width_cases (1 # 2) started_dev). Defined.

Lemma set_tool_width_accepts_witness :
  set_tool_width (1 # 2) new_dev
  = Ok (true, on_this (with_tool_width (clamped_tool_width (1 # 2))) new_dev).
Proof. exact (set_tool_width_accepts (1 # 2) new_dev ltac:(by_compute)). Defined.

Lemma set_tool_width_rejects_witness : set_tool_width 0 started_dev = Ok (false, started_dev).
Proof. exact (set_tool_width_rejects 0 started_dev ltac:(by_compute)). Defined.


Lemma get_image_snapshot_witness :
  get_image started_dev
  = Ok (2%positive,
        on_mem (set_heap <[2%positive := marker (mk_xy 0 0) blank_canvas]>) started_dev).
Proof.
  exact (get_image_snapshot started_dev canvas_loc blank_canvas eq_refl eq_refl
           ltac:(by_compute)).
Defined.

Lemma get_image_null_witness : get_image new_dev = Fault BadArgument.
Proof. exact (get_image_null new_dev eq_refl). Defined.

Lemma cut_to_undefined_witness : cut_to (mk_xy 1 1) far_dev = Fault UndefinedConversion.
Proof. exact (cut_to_undefined (mk_xy 1 1) far_dev canvas_loc eq_refl eq_refl ltac:(by_compute)). Defined.

Lemma cut_to_no_canvas_witness :
  cut_to (mk_xy 1 1) blind_dev
  = Ok (true, on_this (with_current_position (convert_to_internal (mk_xy 1 1))) blind_dev).
Proof. exact (cut_to_no_canvas (mk_xy 1 1) blind_dev eq_refl eq_refl). Defined.

Lemma move_to_running_witness :
  move_to (mk_xy 2 3) started_dev
  = Ok (true, on_this (with_current_position (convert_to_internal (mk_xy 2 3))) started_dev).
Proof. exact (move_to_running (mk_xy 2 3) started_dev eq_refl). Defined.

Lemma start_preserves_witness :
  mem started_dev = mem started_dev
  /\ with_running (running (this started_dev)) (this started_dev) = this started_dev.
Proof.
  exact (start_preserves started_dev canvas_loc true started_dev eq_refl
           scenario_start_again).
Defined.

Lemma curve_to_on_page_witness :
  curve_to q0 q1 q2 q3 started_dev
  = Ok (true, drawn (path_end (convert_to_internal q0)
                       (convert_to_internal <$> curve_polyline q0 q1 q2 q3))
                canvas_loc curve_canvas started_dev).
Proof.
  exact (curve_to_on_page q0 q1 q2 q3 started_dev canvas_loc blank_canvas
           ltac:(by_compute) ltac:(by_compute) ltac:(by_compute) ltac:(by_compute)
           ltac:(by_compute) ltac:(by_compute)).
Defined.

Lemma curve_point_in_box_witness :
  in_box (mk_xy 0 0) (mk_xy 2 1) (curve_point (curve_coeff q0 q1 q2 q3) q0 (1 # 2)).
Proof.
  exact (curve_point_in_box (mk_xy 0 0) (mk_xy 2 1) q0 q1 q2 q3 (1 # 2)
           ltac:(by_compute) ltac:(by_compute) ltac:(by_compute) ltac:(by_compute)
           ltac:(by_compute) ltac:(by_compute)).
Defined.

Lemma convert_on_page_convertible_witness : xy_convertible (convert_to_internal (mk_xy 6 6)).
Proof. exact (convert_on_page_convertible (mk_xy 6 6) ltac:(by_compute)). Defined.

Lemma reachable_running_canvas_witness :
  exists l img, can_draw started_dev l img /\ canvas_ok img.
Proof. exact (reachable_running_canvas started_dev started_dev_reachable eq_refl). Defined.

Lemma reachable_saved_witness :
  "cut.png"%string = output_filename (this saved_dev)
  /\ (4 < String.length "cut.png")%nat /\ canvas_ok (@blank_canvas DL).
Proof.
  exact (reachable_saved saved_dev "cut.png" blank_canvas saved_dev_reachable
           ltac:(apply list_elem_of_singleton; reflexivity)).
Defined.

(** The session on the short file name ends with the line of its cut on
    the canvas: [stop], [start] and the snapshot left it there. *)
Example scenario_short_canvas : canvas_ops short_end = Some [grey_line 0 0 100 100 1].
Proof. reflexivity. Qed.

Lemma dl_canvas_persists_witness : extends [] short_end.
Proof.
  exact (dl_canvas_persists short_session short_dev short_responses short_end []
           scenario_short_run eq_refl (fun _ => ltac:(by_compute))).
Defined.

Lemma dl_curve_to_ops_witness :
  exists s' new,
    curve_to q0 q1 q2 q3 started_dev = Ok (true, s')
    /\ canvas_ops s' = Some ([] ++ new)
    /\ new = path_ops (tool_width (this started_dev)) (convert_to_internal q0)
               (convert_to_internal <$> curve_polyline q0 q1 q2 q3)
    /\ length new = 20%nat
    /\ chained (pixel_of (convert_to_internal q0)) new.
Proof.
  exact (dl_curve_to_ops q0 q1 q2 q3 started_dev canvas_loc blank_canvas []
           ltac:(by_compute) eq_refl ltac:(by_compute)).
Defined.

Lemma dl_get_image_ops_witness :
  exists l' s' snap,
    get_image started_dev = Ok (l', s')
    /\ l' <> canvas_loc
    /\ heap (mem s') !! l' = Some snap
    /\ dl_data snap = Some ([] ++ marker_ops (current_position (this started_dev)))
    /\ heap (mem s') !! canvas_loc = Some blank_canvas
    /\ this s' = this started_dev.
Proof.
  exact (dl_get_image_ops started_dev canvas_loc blank_canvas [] eq_refl eq_refl eq_refl
           ltac:(by_compute)).
Defined.

Lemma restart_keeps_canvas_witness :
  (stop;; start) short_dev = Ok (true, on_this (with_running true) short_dev).
Proof. exact (restart_keeps_canvas short_dev canvas_loc eq_refl ltac:(by_compute)). Defined.

Lemma snapshot_isolated_witness :
  exists snap,
    heap (mem snap_dev) !! snap_loc = Some snap /\ heap (mem tail_end) !! snap_loc = Some snap
    /\ image (this tail_end) <> Some snap_loc.
Proof.
  exact (snapshot_isolated started_dev snap_loc snap_dev tail_session
           [RBool true; RBool true] tail_end scenario_snapshot scenario_tail).
Defined.

Lemma session_images_witness :
  dom (heap (mem session_end)) = list_to_set (snapshots session_responses) ∪ canvas_dom session_end.
Proof. exact (session_images "cut.png" session session_responses session_end scenario_run). Defined.

Lemma session_snapshots_distinct_witness :
  NoDup (snapshots session_responses)
  /\ Forall (fun l => is_Some (heap (mem session_end) !! l) /\ image (this session_end) <> Some l)
       (snapshots session_responses).
Proof.
  exact (session_snapshots_distinct session new_dev session_responses session_end scenario_run).
Defined.

Lemma run_refines_witness :
  exists prs a',
    p_run session (plotter_new "cut.png") = Some (prs, a')
    /\ refines a' session_end /\ Forall2 (answer_refines session_end) prs session_responses.
Proof.
  exact (run_refines session (plotter_new "cut.png") new_dev session_responses session_end
           (refines_new "cut.png") scenario_run).
Defined.

Lemma run_defined_witness : is_Ok (run session new_dev).
Proof.
  exact (run_defined session (plotter_new "cut.png") new_dev (refines_new "cut.png")
           ltac:(by_compute)).
Defined.

Lemma short_name_keeps_canvas_witness :
  image (this short_end) = Some canvas_loc
  /\ is_Some (heap (mem short_end) !! canvas_loc)
  /\ saved (mem short_end) = saved (mem short_dev).
Proof.
  exact (short_name_keeps_canvas short_session short_dev short_responses short_end canvas_loc
           eq_refl (mk_is_Some _ _ eq_refl) ltac:(by_compute) scenario_short_run).
Defined.

Lemma saved_files_rendered_witness : exists strokes, session_file = render strokes.
Proof.
  exact (saved_files_rendered "cut.png" session session_responses session_end
           "cut.png" session_file scenario_run
           (eq_ind_r (fun l => ("cut.png", session_file) ∈ l)
              (list_elem_of_here _ _) scenario_session_file)).
Defined.
