(* ===== verification/SystemScenarios.v ===== *)
(** * SystemScenarios: sessions of the whole system on concrete inputs.

    The session of [Scenarios] seen from the outside: the types of its
    images and the arguments of its primitives, the file it leaves, the
    same session as a client that follows the protocol, and the device
    interleaved with a consumer that shows and releases the snapshots.
    The theorems on typing, files, liveness and the system are applied to
    these runs. *)

From Stdlib Require Import QArith Qabs Qround Lqa Lia ZArith.
From stdpp Require Import base decidable option list gmap strings relations.
From S2P Require Import Prelude Geometry Commands Bezier Graphics Device DeviceSpec Machine.
From S2P Require Import Ownership StateEquiv Faults Typing Liveness View Display.
From S2P Require Import SystemLiveness Plotter.
From S2P Require Import Refinement SpecPlotter Interface Files.
From S2P Require Import DisplayList Approximation Scenarios.

#[local] Open Scope Q_scope.

(** The first line of the session: the cut to [(1, 1)]. *)
Definition first_cut : draw_op := grey_line 0 0 100 100 1.

(** A file system on which nothing can be written, and one on which
    everything can. *)
Definition read_only : string -> bool := fun _ => false.
Definition read_write : string -> bool := fun _ => true.

(** What is left of the session after [start]: a cut, a snapshot, and
    [stop]. *)
Definition rest_session : list command := [CutTo (mk_xy 1 1); GetImage; Stop].

(** A device with the view of [started_dev] in another memory: the canvas
    is at another location, and a snapshot is allocated. *)
Definition moved_dev : @State DL :=
  mk_State (mk_CV_sim true (Some 7%positive) (mk_xy 0 0) 1 "cut.png")
    (mk_Memory {[ 7%positive := blank_canvas;
                  1%positive := marker (mk_xy 0 0) blank_canvas ]} []).

(** The session of [Scenarios] with its coordinates written as other
    fractions of the same value. *)
Definition session_unreduced : list command :=
  [Start; CutTo (mk_xy (2 # 2) (3 # 3)); GetImage;
   CurveTo (mk_xy (0 # 5) 0) (mk_xy (4 # 4) 0) (mk_xy 1 (7 # 7)) (mk_xy (4 # 2) 1);
   GetImage; Stop].

(** A session of orders alone, some of them refused: a motion before
    [start], a width of zero, a cut after [stop]. *)
Definition orders_session : list command :=
  [MoveTo (mk_xy 1 1); Start; SetToolWidth 0; CutTo (mk_xy 1 1);
   CurveTo q0 q1 q2 q3; Stop; CutTo (mk_xy 3 3)].

Definition orders_answers : list response :=
  [RBool false; RBool true; RBool false; RBool true; RBool true; RBool true; RBool false].

Definition orders_end : @State DL :=
  Eval vm_compute in
    match run orders_session new_dev with
    | Ok (_, s) => s
    | Fault _ => new_dev
    end.

(** A cut to a point thirty million inches away: its raster coordinate
    is not an [int]. *)
Definition far_cut : command := CutTo (mk_xy 30000000 0).

(** A session that faults at its second command. *)
Definition far_session : list command := [Start; far_cut; Stop].

(** The session with a consumer: the snapshot is shown, and released after
    the device has stopped. *)
Definition events : list event :=
  [Call Start; Call (CutTo (mk_xy 1 1)); Call GetImage; Show 2%positive;
   Call (CurveTo q0 q1 q2 q3); Call Stop; Release 2%positive].

(** The system after [start]: the consumer holds nothing yet. *)
Definition sys_started : @system DL := mk_system started_dev [].

(** The system while the consumer holds the snapshot. *)
Definition sys_polled : @system DL :=
  Eval vm_compute in
    match sys_run (take 3 events) (sys_initial "cut.png") with
    | Ok (_, sy) => sy
    | Fault _ => sys_initial "cut.png"
    end.

(** The system at the end. *)
Definition sys_end : @system DL :=
  Eval vm_compute in
    match sys_run events (sys_initial "cut.png") with
    | Ok (_, sy) => sy
    | Fault _ => sys_initial "cut.png"
    end.

(** ** The runs *)

Example scenario_first_cut : first_cut ∈ dl_ops session_file.
Proof. by_compute. Qed.

Example scenario_session_saved : ("cut.png"%string, session_file) ∈ saved (mem session_end).
Proof. rewrite scenario_session_file. apply list_elem_of_here. Qed.

Example scenario_started_ready : ready started_dev.
Proof. exact (triple_ok _ _ _ _ _ _ _ start_ready (ready_initial "cut.png") scenario_start). Qed.

Example scenario_sys_started : sys_invariant sys_started.
Proof.
  exact (sys_exec_invariant (Call Start) (sys_initial "cut.png") sys_started
           (sys_invariant_initial "cut.png") I eq_refl).
Qed.

Example scenario_same_view : view started_dev = view moved_dev.
Proof. reflexivity. Qed.

Example scenario_events_polled :
  sys_run (take 3 events) (sys_initial "cut.png") = Ok (tt, sys_polled).
Proof. vm_compute. reflexivity. Qed.

Example scenario_events : sys_run events (sys_initial "cut.png") = Ok (tt, sys_end).
Proof. vm_compute. reflexivity. Qed.

Example scenario_polled_reachable : sys_reachable sys_polled.
Proof.
  exact (sys_run_reachable "cut.png" (take 3 events) sys_polled ltac:(by_compute)
           scenario_events_polled).
Qed.

Example scenario_end_reachable : sys_reachable sys_end.
Proof.
  exact (sys_run_reachable "cut.png" events sys_end ltac:(by_compute) scenario_events).
Qed.

(** At the end of the interleaved session nothing is allocated, and the
    file holds the cut and the curve. *)
Example scenario_system_end :
  heap (mem (device sys_end)) = ∅ /\ held sys_end = []
  /\ saved (mem (device sys_end)) = saved (mem session_end).
Proof. repeat split; vm_compute; reflexivity. Qed.

(** ** The theorems applied *)

(** The two sessions are equivalent, and their runs are not equal: the
    first cut of the second leaves the tool at the same place, written as
    another fraction. *)
Example scenario_unreduced :
  same_session session session_unreduced
  /\ exec (CutTo (mk_xy (2 # 2) (3 # 3))) started_dev <> exec (CutTo (mk_xy 1 1)) started_dev.
Proof. split; [by_compute | vm_compute; discriminate]. Qed.

(** The far cut is not defined on a device that draws, and it is on a new
    device, which is stopped. *)
Example scenario_far_cut :
  ~ defined far_cut started_dev /\ defined far_cut new_dev
  /\ fault_of far_cut started_dev = UndefinedConversion
  /\ fault_of GetImage new_dev = BadArgument.
Proof. split_and!; by_compute || reflexivity. Qed.

Lemma exec_faults_witness :
  (is_Ok (exec far_cut started_dev) <-> defined far_cut started_dev)
  /\ (~ defined far_cut started_dev ->
      exec far_cut started_dev = Fault (fault_of far_cut started_dev)).
Proof. exact (exec_faults far_cut started_dev ltac:(by_compute)). Defined.

Lemma run_faults_witness :
  exists cs1 c cs2 rs s1,
    far_session = cs1 ++ c :: cs2 /\ run cs1 new_dev = Ok (rs, s1)
    /\ ~ defined c s1 /\ UndefinedConversion = fault_of c s1.
Proof.
  exact (run_faults far_session new_dev UndefinedConversion (invariant_initial "cut.png")
           eq_refl).
Defined.

(** The tenth line of the curve of [Scenarios], and the curve at the
    middle of its section: a quarter of a raster unit from the middle of
    the line. *)
Example scenario_curve_section :
  path_ops 1 (convert_to_internal q0) (curve_path q0 q1 q2 q3) !! 9%nat
  = Some (grey_line 92 42 100 50 1)
  /\ within (1 # 3) (convert_to_internal (bezier q0 q1 q2 q3 (19 # 40)))
       (op_point (grey_line 92 42 100 50 1) (1 # 2))
  /\ ~ within (1 # 5) (convert_to_internal (bezier q0 q1 q2 q3 (19 # 40)))
         (op_point (grey_line 92 42 100 50 1) (1 # 2))
  /\ roughness q0 q1 q2 q3 == 1.
Proof. split_and!; [reflexivity | by_compute | by_compute | reflexivity]. Qed.

Lemma curve_to_error_witness :
  exists s' new,
    curve_to q0 q1 q2 q3 started_dev = Ok (true, s')
    /\ canvas_ops s' = Some ([] ++ new)
    /\ forall (k : nat) (op : draw_op) (t : Q),
         new !! k = Some op ->
         curve_param (Z.of_nat k) <= t -> t <= curve_param (Z.of_nat k + 1) ->
         within (13 # 4) (convert_to_internal (bezier q0 q1 q2 q3 t))
           (op_point op (section_param (Z.of_nat k) t)).
Proof.
  exact (curve_to_error q0 q1 q2 q3 started_dev canvas_loc blank_canvas []
           ltac:(by_compute) ltac:(by_compute) ltac:(by_compute) ltac:(by_compute)
           ltac:(by_compute) eq_refl ltac:(by_compute)).
Defined.

Example scenario_orders : run orders_session new_dev = Ok (orders_answers, orders_end).
Proof. vm_compute. reflexivity. Qed.

(** The client's estimate at the end of that session: stopped, at the
    raster point of [q3]. *)
Example scenario_predicted :
  predict_all orders_session (estimate_of new_dev)
  = ([false; true; false; true; true; true; false],
     mk_estimate false (convert_to_internal q3)).
Proof. reflexivity. Qed.

Lemma run_predicted_witness :
  orders_answers = RBool <$> (predict_all orders_session (estimate_of new_dev)).1
  /\ running (this orders_end)
     = est_running (predict_all orders_session (estimate_of new_dev)).2
  /\ current_position (this orders_end)
     ≡ est_position (predict_all orders_session (estimate_of new_dev)).2.
Proof.
  exact (run_predicted orders_session new_dev orders_answers orders_end
           ltac:(by_compute) scenario_orders).
Defined.


Lemma session_typed_witness :
  (forall l img, heap (mem session_end) !! l = Some img -> type_of img = canvas_type)
  /\ (forall l, l ∈ snapshots session_responses ->
        exists img, heap (mem session_end) !! l = Some img /\ type_of img = canvas_type)
  /\ (forall name img, (name, img) ∈ saved (mem session_end) -> type_of img = canvas_type).
Proof.
  exact (session_typed session new_dev session_responses session_end
           (state_typed_initial _) scenario_run).
Defined.

Lemma dl_session_primitives_witness : op_valid first_cut.
Proof.
  exact (dl_session_primitives "cut.png" session session_responses session_end
           1%positive session_file first_cut scenario_run
           (or_intror scenario_session_saved) scenario_first_cut).
Defined.


Lemma session_file_last_witness :
  exists prs a',
    p_run session (plotter_new "cut.png") = Some (prs, a')
    /\ files read_write (mem session_end)
       = from_option (fun tc => {[ "cut.png"%string := render tc.2 ]}) ∅ (last (persisted a')).
Proof.
  exact (session_file_last read_write "cut.png" session session_responses session_end
           scenario_run eq_refl).
Defined.

Lemma protocol_session_returns_witness : is_Ok (run session new_dev).
Proof.
  exact (protocol_session_returns session new_dev (ready_initial "cut.png") ltac:(by_compute)).
Defined.

Lemma session_eventually_persisted_witness :
  eventually drive (fun cfg => persisted_since started_dev cfg.2) (rest_session, started_dev).
Proof.
  exact (session_eventually_persisted rest_session started_dev scenario_started_ready
           ltac:(by_compute) eq_refl ltac:(by_compute) ltac:(by_compute)).
Defined.

Lemma system_eventually_persisted_witness :
  eventually schedule (fun cfg => persisted_since started_dev (device (sys cfg)))
    (mk_sys_config rest_session 2 sys_started).
Proof.
  exact (system_eventually_persisted rest_session 2 sys_started scenario_sys_started
           scenario_started_ready eq_refl ltac:(by_compute) ltac:(by_compute)
           ltac:(by_compute)).
Defined.

Lemma exec_unwinds_witness :
  match exec GetImage started_dev, exec GetImage moved_dev with
  | Ok (r1, s1'), Ok (r2, s2') => view s1' = view s2' /\ observe s1' r1 = observe s2' r2
  | Fault f1, Fault f2 => f1 = f2
  | _, _ => False
  end.
Proof. exact (exec_unwinds GetImage started_dev moved_dev scenario_same_view). Defined.

Lemma system_accounting_witness :
  invariant (device sys_polled) /\ NoDup (held sys_polled)
  /\ dom (heap (mem (device sys_polled)))
     = list_to_set (held sys_polled) ∪ canvas_dom (device sys_polled)
  /\ (forall l, l ∈ held sys_polled -> image (this (device sys_polled)) <> Some l).
Proof. exact (system_accounting sys_polled scenario_polled_reachable). Defined.

Lemma system_memory_safe_witness :
  sys_exec (Release 2%positive) sys_polled <> Fault InvalidPointer
  /\ (forall l, Release 2%positive = Show l \/ Release 2%positive = Release l ->
        is_Ok (sys_exec (Release 2%positive) sys_polled)).
Proof.
  exact (system_memory_safe sys_polled (Release 2%positive) scenario_polled_reachable
           ltac:(by_compute)).
Defined.

Lemma display_noninterference_witness :
  agree (sys_run (drop 3 events) sys_polled) (run (calls (drop 3 events)) (device sys_polled)).
Proof.
  exact (display_noninterference (drop 3 events) sys_polled scenario_polled_reachable
           ltac:(by_compute)).
Defined.

Lemma system_no_leak_witness : heap (mem (device sys_end)) = ∅.
Proof.
  exact (system_no_leak sys_end scenario_end_reachable ltac:(by_compute) eq_refl eq_refl).
Defined.


Lemma run_refines_spec_witness :
  exists prs b',
    sp_run session (plotter_new "cut.png") = Some (prs, b')
    /\ refines_spec b' session_end /\ Forall2 (answer_refines session_end) prs session_responses.
Proof.
  exact (run_refines_spec session (plotter_new "cut.png") new_dev session_responses
           session_end (refines_spec_new "cut.png" ltac:(by_compute)) scenario_run).
Defined.

Lemma short_name_diverges_witness :
  exists rs s' l b,
    run (second_look (mk_xy 1 1)) (initial_state (CV_sim_new_filename "a.p")) = Ok (rs, s')
    /\ last rs = Some (RImage l)
    /\ heap (mem s') !! l
       = Some (marker (to_raster (mk_xy 1 1))
                 (render [cut_stroke (mk_xy 1 1) (p_start (plotter_new "a.p"))]))
    /\ sp_run (second_look (mk_xy 1 1)) (plotter_new "a.p")
       = Some ([ABool true; ABool true; ABool true; ABool true;
                ASnapshot [] (to_raster (mk_xy 1 1))], b).
Proof.
  exact (@short_name_diverges DL "a.p" (mk_xy 1 1) ltac:(by_compute) ltac:(by_compute)).
Defined.
